(** * ANTWar C++ SDK: a shallow embedding of the game model and of the
      round-settlement engine, with the properties of its specification.

    The development follows the headers of the SDK:
    - [common.hpp]    : map, geometry, entities, operations;
    - [game_info.hpp] : the world state [GameInfo] and its economy rules;
    - [io.hpp]        : the exchange with the judger, on streams of
                        characters;
    - [control.hpp]   : the [Controller] that follows the judger's reports;
    - [simulate.hpp]  : the round settlement of [Simulator];
    - [template.hpp] and [example/simulate.cpp] : the loops that stage and
                        apply operations.

    Conventions of the embedding.
    - A C++ [int] is a [Z]; [/] and [%] are the truncating [Z.quot] and
      [Z.rem].  Signed overflow is undefined in the source and is not
      modelled: all quantities of a game stay far inside the [int] range.
    - A [std::vector] is a [list]; an index into it is a [nat].
    - An array of two elements indexed by a player id is a pair; the larger
      arrays (pheromone field, weapon cooldowns) are total functions of their
      indexes, updated pointwise.  An access outside the bounds of an array
      is undefined in the source; a table lookup of the model returns a
      default there.
    - A [double] is an exact rational [Q]: rounding is not modelled.  The
      constants of the tower table and of the navigation weights are dyadic,
      so the comparisons and truncations that involve them are exact; the
      pheromone field is the one place where the binary64 values of a game
      differ from the rationals of the model, by rounding.
    - [optional<T>::value()] on an empty optional and a failed [assert] are
      errors: the functions that can reach them return an [option].
    - A [char] is its code, a [Z], and a stream the [list] of its
      characters; the formatted output and input of an [int] are modelled as
      the standard library specifies them.  An [unsigned long long] is a [Z]
      with its wrap-around modulo [2^64] written out. *)

From Stdlib Require Import ZArith List Bool Lia QArith Qabs Qround Qpower Lqa Sorted.
Import ListNotations.

#[local] Open Scope Z_scope.

#[local] Ltac Zify.zify_post_hook ::= Z.to_euclidean_division_equations.

(* ================================================================== *)
(** * common.hpp *)
(* ================================================================== *)

(** ** Map *)

Definition MAX_ROUND : Z := 512.

Definition EDGE : Z := 10.
Definition MAP_SIZE : Z := 2 * EDGE - 1.

(** [enum PointType] *)
Definition Void : Z := -1.
Definition Path : Z := 0.
Definition Barrier : Z := 1.
Definition Player0Highland : Z := 2.
Definition Player1Highland : Z := 3.

Definition MAP_PROPERTY : list (list Z) :=
  [ [-1; -1; -1; -1; -1; -1; -1; -1; 0; 1; 0; -1; -1; -1; -1; -1; -1; -1; -1];
    [-1; -1; -1; -1; -1; -1; 0; 0; 1; 0; 1; 0; 0; -1; -1; -1; -1; -1; -1];
    [-1; -1; -1; -1; 0; 0; 0; 1; 1; 0; 1; 1; 0; 0; 0; -1; -1; -1; -1];
    [-1; -1; 0; 0; 0; 1; 1; 0; 0; 0; 0; 0; 1; 1; 0; 0; 0; -1; -1];
    [0; 0; 2; 2; 0; 1; 0; 0; 0; 2; 0; 0; 0; 1; 0; 2; 2; 0; 0];
    [0; 0; 0; 2; 0; 0; 2; 2; 0; 2; 0; 2; 2; 0; 0; 2; 0; 0; 0];
    [0; 2; 2; 0; 2; 0; 0; 2; 0; 2; 0; 2; 0; 0; 2; 0; 2; 2; 0];
    [0; 2; 0; 0; 0; 2; 0; 0; 2; 0; 2; 0; 0; 2; 0; 0; 0; 2; 0];
    [0; 0; 2; 0; 2; 0; 0; 2; 0; 0; 0; 2; 0; 0; 2; 0; 2; 0; 0];
    [0; 1; 3; 0; 3; 1; 0; 1; 0; 1; 0; 1; 0; 1; 3; 0; 3; 1; 0];
    [0; 0; 0; 0; 0; 0; 0; 3; 3; 0; 3; 3; 0; 0; 0; 0; 0; 0; 0];
    [0; 3; 3; 0; 3; 3; 0; 0; 0; 0; 0; 0; 0; 3; 3; 0; 3; 3; 0];
    [0; 3; 0; 0; 0; 0; 3; 3; 0; 3; 0; 3; 3; 0; 0; 0; 0; 3; 0];
    [0; 0; 3; 3; 0; 0; 0; 3; 0; 3; 0; 3; 0; 0; 0; 3; 3; 0; 0];
    [-1; 0; 0; 3; 0; 1; 1; 0; 0; 3; 0; 0; 1; 1; 0; 3; 0; 0; -1];
    [-1; -1; -1; 0; 0; 1; 0; 0; 1; 0; 1; 0; 0; 1; 0; 0; -1; -1; -1];
    [-1; -1; -1; -1; -1; 0; 0; 1; 1; 0; 1; 1; 0; 0; -1; -1; -1; -1; -1];
    [-1; -1; -1; -1; -1; -1; -1; 0; 0; 0; 0; 0; -1; -1; -1; -1; -1; -1; -1];
    [-1; -1; -1; -1; -1; -1; -1; -1; -1; 1; -1; -1; -1; -1; -1; -1; -1; -1; -1] ].

(** [MAP_PROPERTY[x][y]], read inside the bounds only. *)
Definition map_property (x y : Z) : Z :=
  nth (Z.to_nat y) (nth (Z.to_nat x) MAP_PROPERTY []) Void.

(** [OFFSET[parity][direction]] as a pair [(dx, dy)]. *)
Definition OFFSET_TABLE : list (list (Z * Z)) :=
  [ [(0, 1); (-1, 0); (0, -1); (1, -1); (1, 0); (1, 1)];
    [(-1, 1); (-1, 0); (-1, -1); (0, -1); (1, 0); (0, 1)] ].

Definition OFFSET (parity direction : Z) : Z * Z :=
  nth (Z.to_nat direction) (nth (Z.to_nat parity) OFFSET_TABLE []) (0, 0).

Definition distance (x0 y0 x1 y1 : Z) : Z :=
  let dy := Z.abs (y0 - y1) in
  let dx :=
    if negb (Z.rem (Z.abs (y0 - y1)) 2 =? 0) then
      if x0 >? x1 then
        Z.max 0 (Z.abs (x0 - x1) - Z.quot (Z.abs (y0 - y1)) 2 - Z.rem y0 2)
      else
        Z.max 0 (Z.abs (x0 - x1) - Z.quot (Z.abs (y0 - y1)) 2 - (1 - Z.rem y0 2))
    else
      Z.max 0 (Z.abs (x0 - x1) - Z.quot (Z.abs (y0 - y1)) 2) in
  dx + dy.

Definition out_of_map (x y : Z) : bool :=
  (x <? 0) || (x >=? MAP_SIZE) || (y <? 0) || (y >=? MAP_SIZE).

Definition is_valid_pos (x y : Z) : bool :=
  if out_of_map x y then false else negb (map_property x y =? Void).

Definition is_path (x y : Z) : bool :=
  if out_of_map x y then false else map_property x y =? Path.

Definition is_highland (player x y : Z) : bool :=
  if out_of_map x y then false
  else map_property x y =? (if player =? 0 then Player0Highland else Player1Highland).

(** The loop of [get_direction]: the first direction [i] among [dirs] whose
    offset is [(dx, dy)], or [-1]. *)
Fixpoint get_direction_from (parity dx dy : Z) (dirs : list Z) : Z :=
  match dirs with
  | [] => -1
  | i :: rest =>
      if (fst (OFFSET parity i) =? dx) && (snd (OFFSET parity i) =? dy) then i
      else get_direction_from parity dx dy rest
  end.

Definition DIRECTIONS : list Z := [0; 1; 2; 3; 4; 5].

Definition get_direction (x0 y0 x1 y1 : Z) : Z :=
  get_direction_from (Z.rem y0 2) (x1 - x0) (y1 - y0) DIRECTIONS.

(** The cell reached from [(x, y)] by one step in direction [i]. *)
Definition neighbor (x y i : Z) : Z * Z :=
  (x + fst (OFFSET (Z.rem y 2) i), y + snd (OFFSET (Z.rem y 2) i)).

(** [(x1, y1)] is one of the six neighbors of [(x0, y0)] under the offset
    table of the parity of [y0]. *)
Definition is_neighbor (x0 y0 x1 y1 : Z) : Prop :=
  exists i, 0 <= i < 6 /\ neighbor x0 y0 i = (x1, y1).

(** C++ [!player]: the id of the other player. *)
Definition other_player (player : Z) : Z := if player =? 0 then 1 else 0.

(** Conversion of a [double] to [int]: truncation toward zero. *)
Definition trunc (q : Q) : Z := Z.quot (Qnum q) (Zpos (Qden q)).

(** An array of two elements, one per player, and its accesses [a[i]] and
    [a[i] = v] for the player ids 0 and 1. *)
Definition get2 {A : Type} (a : A * A) (i : Z) : A :=
  if i =? 0 then fst a else snd a.

Definition set2 {A : Type} (a : A * A) (i : Z) (v : A) : A * A :=
  if i =? 0 then (v, snd a) else (fst a, v).

(** Pointwise update of an array modelled as a function of its index. *)
Definition upd {A : Type} (f : Z -> A) (i : Z) (v : A) : Z -> A :=
  fun j => if j =? i then v else f j.

(** ** Coin *)

Definition COIN_INIT : Z := 50.
Definition BASIC_INCOME : Z := 1.
Definition TOWER_BUILD_PRICE_BASE : Z := 15.
Definition TOWER_BUILD_PRICE_RATIO : Z := 2.
Definition LEVEL2_TOWER_UPGRADE_PRICE : Z := 60.
Definition LEVEL3_TOWER_UPGRADE_PRICE : Z := 200.
(** 0.8 is no binary64 number, but for every price that is refunded (15 * 2^k
    inside the [int] range, 7 for the cost at tower number -1, 60, 200, and
    the -1 of an unknown type) the truncated binary64 product is the
    truncated exact product with 4/5. *)
Definition TOWER_DOWNGRADE_REFUND_RATIO : Q := 8 # 10.
Definition LEVEL2_BASE_UPGRADE_PRICE : Z := 200.
Definition LEVEL3_BASE_UPGRADE_PRICE : Z := 250.

(** ** Pheromone *)

Definition PHEROMONE_INIT : Q := 10.
Definition PHEROMONE_MIN : Q := 0.
Definition PHEROMONE_ATTENUATING_RATIO : Q := 97 # 100.

(** ** Entity *)

Inductive AntState := Alive | Success | Fail | TooOld | Frozen.

Definition AntState_eqb (s1 s2 : AntState) : bool :=
  match s1, s2 with
  | Alive, Alive | Success, Success | Fail, Fail
  | TooOld, TooOld | Frozen, Frozen => true
  | _, _ => false
  end.

Module Ant.

Record t := mk {
  id : Z; player : Z;
  x : Z; y : Z;
  hp : Z; level : Z; age : Z;
  state : AntState;
  path : list Z;
  evasion : Z;
  deflector : bool
}.

Definition AGE_LIMIT : Z := 32.
Definition MAX_HP_INFO : list Z := [10; 25; 50].
Definition REWARD_INFO : list Z := [3; 5; 7].

(** The constructor: an empty path, no evasion.  It leaves [deflector]
    uninitialised; [attack_ants] writes the flag before it reads it. *)
Definition new (id player x y hp level age : Z) (state : AntState) : t :=
  mk id player x y hp level age state [] 0 false.

Definition set_hp (a : t) (v : Z) : t :=
  mk (id a) (player a) (x a) (y a) v (level a) (age a) (state a) (path a)
     (evasion a) (deflector a).
Definition set_age (a : t) (v : Z) : t :=
  mk (id a) (player a) (x a) (y a) (hp a) (level a) v (state a) (path a)
     (evasion a) (deflector a).
Definition set_state (a : t) (v : AntState) : t :=
  mk (id a) (player a) (x a) (y a) (hp a) (level a) (age a) v (path a)
     (evasion a) (deflector a).
Definition set_evasion (a : t) (v : Z) : t :=
  mk (id a) (player a) (x a) (y a) (hp a) (level a) (age a) (state a) (path a)
     v (deflector a).
Definition set_deflector (a : t) (v : bool) : t :=
  mk (id a) (player a) (x a) (y a) (hp a) (level a) (age a) (state a) (path a)
     (evasion a) v.

Definition move (a : t) (direction : Z) : t :=
  mk (id a) (player a)
     (x a + fst (OFFSET (Z.rem (y a) 2) direction))
     (y a + snd (OFFSET (Z.rem (y a) 2) direction))
     (hp a) (level a) (age a) (state a) (path a ++ [direction])
     (evasion a) (deflector a).

Definition max_hp (a : t) : Z := nth (Z.to_nat (level a)) MAX_HP_INFO 0.
Definition reward (a : t) : Z := nth (Z.to_nat (level a)) REWARD_INFO 0.

Definition is_alive (a : t) : bool :=
  AntState_eqb (state a) Alive || AntState_eqb (state a) Frozen.

Definition is_in_range (a : t) (cx cy range : Z) : bool :=
  distance (x a) (y a) cx cy <=? range.

Definition is_attackable_from (a : t) (by_player cx cy range : Z) : bool :=
  negb (player a =? by_player) && is_alive a && is_in_range a cx cy range.

End Ant.

Inductive TowerType :=
| Basic
| Heavy | HeavyPlus | Ice | Cannon
| Quick | QuickPlus | Double | Sniper
| Mortar | MortarPlus | Pulse | Missile.

Definition TowerType_to_Z (ty : TowerType) : Z :=
  match ty with
  | Basic => 0
  | Heavy => 1 | HeavyPlus => 11 | Ice => 12 | Cannon => 13
  | Quick => 2 | QuickPlus => 21 | Double => 22 | Sniper => 23
  | Mortar => 3 | MortarPlus => 31 | Pulse => 32 | Missile => 33
  end.

Definition ALL_TOWER_TYPES : list TowerType :=
  [Basic; Heavy; HeavyPlus; Ice; Cannon; Quick; QuickPlus; Double; Sniper;
   Mortar; MortarPlus; Pulse; Missile].

(** [static_cast<TowerType>(n)] for the values of the enumeration. *)
Definition TowerType_of_Z (n : Z) : option TowerType :=
  find (fun ty => TowerType_to_Z ty =? n) ALL_TOWER_TYPES.

Definition TowerType_eqb (t1 t2 : TowerType) : bool :=
  TowerType_to_Z t1 =? TowerType_to_Z t2.

Module TowerInfo.
Record t := mk { attack : Z; speed : Q; range : Z }.
End TowerInfo.

(** [TOWER_INFO[type]] for the types of the enumeration (the padding entries
    of the array are never read). *)
Definition TOWER_INFO (ty : TowerType) : TowerInfo.t :=
  match ty with
  | Basic => TowerInfo.mk 5 2 2
  | Heavy => TowerInfo.mk 15 2 2
  | Quick => TowerInfo.mk 6 1 3
  | Mortar => TowerInfo.mk 16 4 3
  | HeavyPlus => TowerInfo.mk 35 2 2
  | Ice => TowerInfo.mk 15 2 2
  | Cannon => TowerInfo.mk 50 4 3
  | QuickPlus => TowerInfo.mk 8 (1 # 2) 3
  | Double => TowerInfo.mk 10 1 4
  | Sniper => TowerInfo.mk 13 2 6
  | MortarPlus => TowerInfo.mk 35 4 4
  | Pulse => TowerInfo.mk 30 3 2
  | Missile => TowerInfo.mk 45 6 5
  end.

(** ** Helpers for vectors *)

(** The indexes [i0 + k] of the elements of [l] that satisfy [p]. *)
Fixpoint indices_from {A : Type} (p : A -> bool) (i0 : nat) (l : list A) : list nat :=
  match l with
  | [] => []
  | a :: rest =>
      if p a then i0 :: indices_from p (S i0) rest
      else indices_from p (S i0) rest
  end.

(** [v[i] = f(v[i])], nothing outside the vector. *)
Fixpoint update_nth {A : Type} (i : nat) (f : A -> A) (l : list A) : list A :=
  match l, i with
  | [], _ => []
  | a :: rest, O => f a :: rest
  | a :: rest, S j => a :: update_nth j f rest
  end.

(** Sorting by insertion for a strict order [lt] given as a boolean. *)
Fixpoint insert_sorted (lt : nat -> nat -> bool) (i : nat) (l : list nat) : list nat :=
  match l with
  | [] => [i]
  | j :: rest => if lt j i then j :: insert_sorted lt i rest else i :: l
  end.

Definition isort (lt : nat -> nat -> bool) (l : list nat) : list nat :=
  fold_right (insert_sorted lt) [] l.

(** [std::unique]: drop an element equal to its predecessor. *)
Fixpoint unique (l : list nat) : list nat :=
  match l with
  | [] => []
  | i :: rest =>
      match rest with
      | [] => [i]
      | j :: _ => if Nat.eqb i j then unique rest else i :: unique rest
      end
  end.

Module Tower.

Record t := mk {
  id : Z; player : Z;
  x : Z; y : Z;
  type : TowerType;
  damage : Z; range : Z;
  cd : Z;
  speed : Q
}.

Definition set_cd (tw : t) (v : Z) : t :=
  mk (id tw) (player tw) (x tw) (y tw) (type tw) (damage tw) (range tw) v (speed tw).
Definition set_damage (tw : t) (v : Z) : t :=
  mk (id tw) (player tw) (x tw) (y tw) (type tw) v (range tw) (cd tw) (speed tw).

(** [cd = speed > 1 ? speed : 1] *)
Definition reset_cd (tw : t) : t :=
  set_cd tw (if negb (Qle_bool (speed tw) 1) then trunc (speed tw) else 1).

Definition upgrade (tw : t) (new_type : TowerType) : t :=
  reset_cd (mk (id tw) (player tw) (x tw) (y tw) new_type
               (TowerInfo.attack (TOWER_INFO new_type))
               (TowerInfo.range (TOWER_INFO new_type))
               (cd tw)
               (TowerInfo.speed (TOWER_INFO new_type))).

(** The constructor: the fields given, then [upgrade(type)]. *)
Definition new (id player x y : Z) (type : TowerType) (cd : Z) : t :=
  upgrade (mk id player x y type 0 0 cd 0) type.

Definition get_attackable_ants (tw : t) (ants : list Ant.t) (cx cy range : Z)
  : list nat :=
  indices_from (fun a => Ant.is_attackable_from a (player tw) cx cy range) 0 ants.

(** Distance of [ants[i]] to the tower. *)
Definition ant_distance (tw : t) (ants : list Ant.t) (i : nat) : Z :=
  match nth_error ants i with
  | Some a => distance (Ant.x a) (Ant.y a) (x tw) (y tw)
  | None => 0
  end.

(** The comparison of [find_targets]: nearer first, then smaller index. *)
Definition nearer (tw : t) (ants : list Ant.t) (i j : nat) : bool :=
  let dist1 := ant_distance tw ants i in
  let dist2 := ant_distance tw ants j in
  if negb (dist1 =? dist2) then dist1 <? dist2 else Nat.ltb i j.

(** [partial_sort] of the first [target_num] places, then [resize]: the
    [target_num] least indexes for [nearer], in order. *)
Definition find_targets (tw : t) (ants : list Ant.t) (target_num : Z) : list nat :=
  let idxs := get_attackable_ants tw ants (x tw) (y tw) (range tw) in
  firstn (Z.to_nat target_num) (isort (nearer tw ants) idxs).

Definition find_attackable (tw : t) (ants : list Ant.t) (target_idxs : list nat)
  : list nat :=
  flat_map
    (fun idx =>
       match type tw, nth_error ants idx with
       | Mortar, Some a => get_attackable_ants tw ants (Ant.x a) (Ant.y a) 1
       | MortarPlus, Some a => get_attackable_ants tw ants (Ant.x a) (Ant.y a) 1
       | Pulse, _ => get_attackable_ants tw ants (x tw) (y tw) (range tw)
       | Missile, Some a => get_attackable_ants tw ants (Ant.x a) (Ant.y a) 2
       | _, _ => [idx]
       end)
    target_idxs.

Definition action (tw : t) (ant : Ant.t) : Ant.t :=
  if Ant.evasion ant >? 0 then
    Ant.set_evasion ant (Ant.evasion ant - 1)
  else if Ant.deflector ant && (damage tw <? Z.quot (Ant.max_hp ant) 2) then
    ant
  else
    let ant1 := Ant.set_hp ant (Ant.hp ant - damage tw) in
    let ant2 := if TowerType_eqb (type tw) Ice
                then Ant.set_state ant1 Frozen else ant1 in
    if Ant.hp ant2 <=? 0 then Ant.set_state ant2 Fail else ant2.

(** The body of [while (time--)], [time] times: the ants after the hits
    and the indexes hit so far. *)
Fixpoint attack_rounds (tw : t) (target_num : Z) (time : nat)
         (ants : list Ant.t) (attacked_idxs : list nat)
  : list Ant.t * list nat :=
  match time with
  | O => (ants, attacked_idxs)
  | S time' =>
      let target_idxs := find_targets tw ants target_num in
      let attackable_idxs := find_attackable tw ants target_idxs in
      let ants' :=
        fold_left (fun v idx => update_nth idx (action tw) v) attackable_idxs ants in
      attack_rounds tw target_num time' ants' (attacked_idxs ++ attackable_idxs)
  end.

(** [attack]: the tower, the ants and the returned indexes. *)
Definition attack (tw : t) (ants : list Ant.t) : t * list Ant.t * list nat :=
  let tw1 := set_cd tw (Z.max (cd tw - 1) 0) in
  if cd tw1 <=? 0 then
    let time := if Qle_bool 1 (speed tw1) then 1 else trunc (1 / speed tw1) in
    let target_num := if TowerType_eqb (type tw1) Double then 2 else 1 in
    let '(ants', hit) := attack_rounds tw1 target_num (Z.to_nat time) ants [] in
    let attacked_idxs := unique (isort Nat.ltb hit) in
    match attacked_idxs with
    | [] => (tw1, ants', attacked_idxs)
    | _ :: _ => (reset_cd tw1, ants', attacked_idxs)
    end
  else (tw1, ants, []).

Definition is_ready (tw : t) : bool := cd tw <=? 0.

Definition is_upgrade_type_valid (tw : t) (ty : Z) : bool :=
  if (ty <? TowerType_to_Z Basic) || (ty >? TowerType_to_Z Missile) then false
  else
    match type tw with
    | Basic =>
        (ty =? TowerType_to_Z Heavy) || (ty =? TowerType_to_Z Quick)
        || (ty =? TowerType_to_Z Mortar)
    | Heavy =>
        (ty =? TowerType_to_Z HeavyPlus) || (ty =? TowerType_to_Z Ice)
        || (ty =? TowerType_to_Z Cannon)
    | Quick =>
        (ty =? TowerType_to_Z QuickPlus) || (ty =? TowerType_to_Z Double)
        || (ty =? TowerType_to_Z Sniper)
    | Mortar =>
        (ty =? TowerType_to_Z MortarPlus) || (ty =? TowerType_to_Z Pulse)
        || (ty =? TowerType_to_Z Missile)
    | _ => false
    end.

(** [type = static_cast<TowerType>(type / 10)], then the table values. *)
Definition downgrade (tw : t) : t :=
  let ty := match TowerType_of_Z (Z.quot (TowerType_to_Z (type tw)) 10) with
            | Some ty => ty
            | None => type tw
            end in
  upgrade tw ty.

Definition is_downgrade_valid (tw : t) : bool :=
  negb (TowerType_eqb (type tw) Basic).

End Tower.

Module Base.

Record t := mk {
  player : Z; x : Z; y : Z;
  hp : Z;
  gen_speed_level : Z;
  ant_level : Z
}.

Definition MAX_HP : Z := 50.
Definition POSITION_TABLE : list (Z * Z) :=
  [(2, EDGE - 1); ((MAP_SIZE - 1) - 2, EDGE - 1)].
(** [POSITION[player]] as a pair [(x, y)]. *)
Definition POSITION (player : Z) : Z * Z :=
  nth (Z.to_nat player) POSITION_TABLE (0, 0).
Definition GENERATION_CYCLE_INFO : list Z := [4; 2; 1].

Definition new (player : Z) : t :=
  mk player (fst (POSITION player)) (snd (POSITION player)) MAX_HP 0 0.

Definition set_hp (b : t) (v : Z) : t :=
  mk (player b) (x b) (y b) v (gen_speed_level b) (ant_level b).

Definition generate_ant (b : t) (id round : Z) : option Ant.t :=
  if Z.rem round (nth (Z.to_nat (gen_speed_level b)) GENERATION_CYCLE_INFO 0) =? 0
  then Some (Ant.new id (player b) (x b) (y b)
               (nth (Z.to_nat (ant_level b)) Ant.MAX_HP_INFO 0) (ant_level b)
               0 Alive)
  else None.

Definition upgrade_generation_speed (b : t) : t :=
  mk (player b) (x b) (y b) (hp b) (gen_speed_level b + 1) (ant_level b).

Definition upgrade_generated_ant (b : t) : t :=
  mk (player b) (x b) (y b) (hp b) (gen_speed_level b) (ant_level b + 1).

End Base.

Inductive SuperWeaponType := LightningStorm | EmpBlaster | Deflector | EmergencyEvasion.

Definition SuperWeaponType_to_Z (w : SuperWeaponType) : Z :=
  match w with
  | LightningStorm => 1 | EmpBlaster => 2 | Deflector => 3 | EmergencyEvasion => 4
  end.

Definition SuperWeaponType_of_Z (n : Z) : option SuperWeaponType :=
  find (fun w => SuperWeaponType_to_Z w =? n)
       [LightningStorm; EmpBlaster; Deflector; EmergencyEvasion].

Definition SuperWeaponType_eqb (w1 w2 : SuperWeaponType) : bool :=
  SuperWeaponType_to_Z w1 =? SuperWeaponType_to_Z w2.

Definition SuperWeaponCount : Z := 5.

(** [SUPER_WEAPON_INFO[type]]: [{duration, range, cd, price}]. *)
Definition SUPER_WEAPON_INFO_TABLE : list (list Z) :=
  [ [0; 0; 0; 0];
    [20; 3; 100; 150];
    [20; 3; 100; 150];
    [10; 3; 50; 100];
    [1; 3; 50; 100] ].

Definition SUPER_WEAPON_INFO (type column : Z) : Z :=
  nth (Z.to_nat column) (nth (Z.to_nat type) SUPER_WEAPON_INFO_TABLE []) 0.

Module SuperWeapon.

Record t := mk {
  type : SuperWeaponType;
  player : Z;
  x : Z; y : Z;
  left_time : Z;
  range : Z
}.

Definition new (type : SuperWeaponType) (player x y : Z) : t :=
  mk type player x y
     (SUPER_WEAPON_INFO (SuperWeaponType_to_Z type) 0)
     (SUPER_WEAPON_INFO (SuperWeaponType_to_Z type) 1).

Definition set_left_time (w : t) (v : Z) : t :=
  mk (type w) (player w) (x w) (y w) v (range w).

Definition is_in_range (w : t) (px py : Z) : bool :=
  distance px py (x w) (y w) <=? range w.

End SuperWeapon.

(** ** Operation *)

Inductive OperationType :=
| BuildTower | UpgradeTower | DowngradeTower
| UseLightningStorm | UseEmpBlaster | UseDeflector | UseEmergencyEvasion
| UpgradeGenerationSpeed | UpgradeGeneratedAnt.

Definition OperationType_to_Z (ty : OperationType) : Z :=
  match ty with
  | BuildTower => 11 | UpgradeTower => 12 | DowngradeTower => 13
  | UseLightningStorm => 21 | UseEmpBlaster => 22
  | UseDeflector => 23 | UseEmergencyEvasion => 24
  | UpgradeGenerationSpeed => 31 | UpgradeGeneratedAnt => 32
  end.

Definition OperationType_eqb (t1 t2 : OperationType) : bool :=
  OperationType_to_Z t1 =? OperationType_to_Z t2.

Module Operation.

Record t := mk { type : OperationType; arg0 : Z; arg1 : Z }.

Definition INVALID_ARG : Z := -1.

End Operation.

(** The random noise generator.  [get] on the seed: the new seed, which is
    also the value returned.  The product is one of [unsigned long long],
    modulo [2^64]. *)
Module Random.

Definition get (seed : Z) : Z :=
  Z.land ((25214903917 * seed) mod 2 ^ 64) (Z.shiftl 1 48 - 1).

End Random.

(* ================================================================== *)
(** * game_info.hpp *)
(* ================================================================== *)

(** [option] as the error monad of the fallible functions. *)
Definition bind {A B : Type} (m : option A) (f : A -> option B) : option B :=
  match m with
  | Some a => f a
  | None => None
  end.

Notation "'letM' x ':=' m 'in' k" := (bind m (fun x => k))
  (at level 10, x name, m at level 100, k at level 200).

(** [max_element]: the first element that [comp] puts below no later one;
    [largest] is the candidate so far. *)
Fixpoint max_element_from {A : Type} (comp : A -> A -> bool) (largest : A)
         (rest : list A) : A :=
  match rest with
  | [] => largest
  | e :: rest' => max_element_from comp (if comp largest e then e else largest) rest'
  end.

(** Replace the first element that satisfies [p] by the elements [f] gives. *)
Fixpoint replace_first {A : Type} (p : A -> bool) (f : A -> list A) (l : list A)
  : list A :=
  match l with
  | [] => []
  | a :: rest => if p a then f a ++ rest else a :: replace_first p f rest
  end.

Module GameInfo.

Record t := mk {
  round : Z;
  towers : list Tower.t;
  ants : list Ant.t;
  bases : Base.t * Base.t;
  coins : Z * Z;
  pheromone : Z -> Z -> Z -> Q;
  super_weapons : list SuperWeapon.t;
  super_weapon_cd : Z -> Z -> Z;
  next_ant_id : Z;
  next_tower_id : Z
}.

(** The constructor, for a given initial pheromone field (the source draws
    it from a seed). *)
Definition new (pheromone0 : Z -> Z -> Z -> Q) : t :=
  mk 0 [] [] (Base.new 0, Base.new 1) (COIN_INIT, COIN_INIT) pheromone0 []
     (fun _ _ => 0) 0 0.

(** The values [0 .. n - 1] of a loop counter. *)
Definition counter (n : Z) : list Z := map Z.of_nat (seq 0 (Z.to_nat n)).

(** The body of the loops of the constructor,
    [pheromone[i][j][k] = random.get() * std::pow(2, -46) + 8], on the field
    and the seed of the generator. *)
Definition init_cell (st : (Z -> Z -> Z -> Q) * Z) (c : Z * Z * Z)
  : (Z -> Z -> Z -> Q) * Z :=
  let '(i, j, k) := c in
  let seed' := Random.get (snd st) in
  (fun i' j' k' =>
     if (i' =? i) && (j' =? j) && (k' =? k)
     then (inject_Z seed' * Qpower 2 (-46) + 8)%Q
     else fst st i' j' k',
   seed').

(** The three loops of the constructor, [i] outermost; the field is not
    initialised before them (0 here). *)
Definition init_pheromone (seed : Z) : Z -> Z -> Z -> Q :=
  fst (fold_left init_cell
         (flat_map (fun i =>
                      flat_map (fun j => map (fun k => (i, j, k)) (counter MAP_SIZE))
                               (counter MAP_SIZE))
                   (counter 2))
         (fun _ _ _ => 0%Q, seed)).

(** The constructor [GameInfo(seed)]. *)
Definition of_seed (seed : Z) : t := new (init_pheromone seed).

Definition set_round (g : t) (v : Z) : t :=
  mk v (towers g) (ants g) (bases g) (coins g) (pheromone g)
     (super_weapons g) (super_weapon_cd g) (next_ant_id g) (next_tower_id g).
Definition set_towers (g : t) (v : list Tower.t) : t :=
  mk (round g) v (ants g) (bases g) (coins g) (pheromone g)
     (super_weapons g) (super_weapon_cd g) (next_ant_id g) (next_tower_id g).
Definition set_ants (g : t) (v : list Ant.t) : t :=
  mk (round g) (towers g) v (bases g) (coins g) (pheromone g)
     (super_weapons g) (super_weapon_cd g) (next_ant_id g) (next_tower_id g).
Definition set_bases (g : t) (v : Base.t * Base.t) : t :=
  mk (round g) (towers g) (ants g) v (coins g) (pheromone g)
     (super_weapons g) (super_weapon_cd g) (next_ant_id g) (next_tower_id g).
Definition set_coins (g : t) (v : Z * Z) : t :=
  mk (round g) (towers g) (ants g) (bases g) v (pheromone g)
     (super_weapons g) (super_weapon_cd g) (next_ant_id g) (next_tower_id g).
Definition set_pheromone (g : t) (v : Z -> Z -> Z -> Q) : t :=
  mk (round g) (towers g) (ants g) (bases g) (coins g) v
     (super_weapons g) (super_weapon_cd g) (next_ant_id g) (next_tower_id g).
Definition set_super_weapons (g : t) (v : list SuperWeapon.t) : t :=
  mk (round g) (towers g) (ants g) (bases g) (coins g) (pheromone g)
     v (super_weapon_cd g) (next_ant_id g) (next_tower_id g).
Definition set_super_weapon_cd (g : t) (v : Z -> Z -> Z) : t :=
  mk (round g) (towers g) (ants g) (bases g) (coins g) (pheromone g)
     (super_weapons g) v (next_ant_id g) (next_tower_id g).
Definition set_next_ant_id (g : t) (v : Z) : t :=
  mk (round g) (towers g) (ants g) (bases g) (coins g) (pheromone g)
     (super_weapons g) (super_weapon_cd g) v (next_tower_id g).
Definition set_next_tower_id (g : t) (v : Z) : t :=
  mk (round g) (towers g) (ants g) (bases g) (coins g) (pheromone g)
     (super_weapons g) (super_weapon_cd g) (next_ant_id g) v.

(** *** Getters *)

(** [find_all] is [filter], [find_one] is [find]. *)
Definition ant_at (g : t) (x y : Z) : list Ant.t :=
  filter (fun a => (Ant.x a =? x) && (Ant.y a =? y)) (ants g).

Definition ant_of_id (g : t) (id : Z) : option Ant.t :=
  find (fun a => Ant.id a =? id) (ants g).

(** [it - ants.begin()] for the first ant with the id, counted from [i];
    [-1] at [ants.end()]. *)
Fixpoint ant_index_from (id : Z) (l : list Ant.t) (i : Z) : Z :=
  match l with
  | [] => -1
  | a :: rest => if Ant.id a =? id then i else ant_index_from id rest (i + 1)
  end.

Definition ant_of_id_by_index (g : t) (id : Z) : Z :=
  ant_index_from id (ants g) 0.

Definition tower_at (g : t) (x y : Z) : option Tower.t :=
  find (fun tw => (Tower.x tw =? x) && (Tower.y tw =? y)) (towers g).

Definition tower_of_id (g : t) (id : Z) : option Tower.t :=
  find (fun tw => Tower.id tw =? id) (towers g).

(** *** Setters *)

Definition build_tower (g : t) (id player x y : Z) (type : TowerType) : t :=
  set_towers g (towers g ++ [Tower.new id player x y type 0]).

Definition upgrade_tower (g : t) (id : Z) (type : TowerType) : t :=
  set_towers g
    (replace_first (fun tw => Tower.id tw =? id)
                   (fun tw => [Tower.upgrade tw type]) (towers g)).

Definition downgrade_or_destroy_tower (g : t) (id : Z) : t :=
  set_towers g
    (replace_first (fun tw => Tower.id tw =? id)
                   (fun tw => if Tower.is_downgrade_valid tw
                              then [Tower.downgrade tw] else [])
                   (towers g)).

Definition upgrade_generation_speed (g : t) (player_id : Z) : t :=
  set_bases g (set2 (bases g) player_id
                    (Base.upgrade_generation_speed (get2 (bases g) player_id))).

Definition upgrade_generated_ant (g : t) (player_id : Z) : t :=
  set_bases g (set2 (bases g) player_id
                    (Base.upgrade_generated_ant (get2 (bases g) player_id))).

Definition set_coin (g : t) (player_id value : Z) : t :=
  set_coins g (set2 (coins g) player_id value).

Definition update_coin (g : t) (player_id change : Z) : t :=
  set_coins g (set2 (coins g) player_id (get2 (coins g) player_id + change)).

Definition set_base_hp (g : t) (player_id value : Z) : t :=
  set_bases g (set2 (bases g) player_id
                    (Base.set_hp (get2 (bases g) player_id) value)).

Definition update_base_hp (g : t) (player_id change : Z) : t :=
  set_bases g (set2 (bases g) player_id
                    (Base.set_hp (get2 (bases g) player_id)
                                 (Base.hp (get2 (bases g) player_id) + change))).

(** *** Ants and pheromone updaters *)

Definition is_terminal (s : AntState) : bool :=
  AntState_eqb s Success || AntState_eqb s Fail || AntState_eqb s TooOld.

Definition clear_dead_and_succeeded_ants (g : t) : t :=
  set_ants g (filter (fun a => negb (is_terminal (Ant.state a))) (ants g)).

(** [(int) TAU[state]] *)
Definition TAU (s : AntState) : Z :=
  match s with
  | Alive => 0
  | Success => 10
  | Fail => -5
  | TooOld => -3
  | Frozen => 0
  end.

(** [pheromone[player][x][y] += tau], floored at [PHEROMONE_MIN]. *)
Definition deposit (ph : Z -> Z -> Z -> Q) (player x y tau : Z) : Z -> Z -> Z -> Q :=
  fun i j k =>
    if (i =? player) && (j =? x) && (k =? y) then
      let v := (ph i j k + inject_Z tau)%Q in
      if negb (Qle_bool PHEROMONE_MIN v) then PHEROMONE_MIN else v
    else ph i j k.

Definition visited_at (visited : list (Z * Z)) (x y : Z) : bool :=
  existsb (fun c => (fst c =? x) && (snd c =? y)) visited.

(** The walk of [update_pheromone] along the recorded path: the field, the
    visited cells and the cell reached. *)
Fixpoint walk_path (player tau : Z) (moves : list Z)
         (ph : Z -> Z -> Z -> Q) (visited : list (Z * Z)) (x y : Z)
  : (Z -> Z -> Z -> Q) * list (Z * Z) * (Z * Z) :=
  match moves with
  | [] => (ph, visited, (x, y))
  | move :: rest =>
      let ph' := if visited_at visited x y then ph else deposit ph player x y tau in
      let visited' := if visited_at visited x y then visited else (x, y) :: visited in
      walk_path player tau rest ph' visited'
                (x + fst (OFFSET (Z.rem y 2) move))
                (y + snd (OFFSET (Z.rem y 2) move))
  end.

(** [update_pheromone]; [None] when the [assert] on the end of the path
    fails. *)
Definition update_pheromone (g : t) (ant : Ant.t) : option t :=
  if AntState_eqb (Ant.state ant) Alive || AntState_eqb (Ant.state ant) Frozen
  then Some g
  else
    let tau := TAU (Ant.state ant) in
    let player := Ant.player ant in
    let '(ph, visited, (x, y)) :=
      walk_path player tau (Ant.path ant) (pheromone g) []
                (fst (Base.POSITION player)) (snd (Base.POSITION player)) in
    if (x =? Ant.x ant) && (y =? Ant.y ant) then
      Some (set_pheromone g
              (if visited_at visited x y then ph else deposit ph player x y tau))
    else None.

Fixpoint update_pheromone_for (g : t) (l : list Ant.t) : option t :=
  match l with
  | [] => Some g
  | ant :: rest => letM g' := update_pheromone g ant in update_pheromone_for g' rest
  end.

Definition update_pheromone_for_ants (g : t) : option t :=
  update_pheromone_for g (ants g).

(** The new value of one cell under the attenuation. *)
Definition attenuate (v : Q) : Q :=
  (PHEROMONE_ATTENUATING_RATIO * v
   + (1 - PHEROMONE_ATTENUATING_RATIO) * PHEROMONE_INIT)%Q.

Definition global_pheromone_attenuation (g : t) : t :=
  set_pheromone g
    (fun i j k =>
       if (0 <=? i) && (i <? 2) && (0 <=? j) && (j <? MAP_SIZE)
          && (0 <=? k) && (k <? MAP_SIZE)
       then attenuate (pheromone g i j k)
       else pheromone g i j k).

(** *** Calculators for economy *)

Definition build_tower_cost (tower_num : Z) : Z :=
  trunc (inject_Z TOWER_BUILD_PRICE_BASE
         * Qpower (inject_Z TOWER_BUILD_PRICE_RATIO) tower_num)%Q.

Definition destroy_tower_income (tower_num : Z) : Z :=
  trunc (inject_Z (build_tower_cost (tower_num - 1))
         * TOWER_DOWNGRADE_REFUND_RATIO)%Q.

Definition upgrade_tower_cost (type : Z) : Z :=
  match TowerType_of_Z type with
  | Some Heavy | Some Quick | Some Mortar => LEVEL2_TOWER_UPGRADE_PRICE
  | Some Basic | None => -1
  | Some _ => LEVEL3_TOWER_UPGRADE_PRICE
  end.

Definition downgrade_tower_income (type : Z) : Z :=
  trunc (inject_Z (upgrade_tower_cost type) * TOWER_DOWNGRADE_REFUND_RATIO)%Q.

Definition upgrade_base_cost (level : Z) : Z :=
  if level =? 0 then LEVEL2_BASE_UPGRADE_PRICE
  else if level =? 1 then LEVEL3_BASE_UPGRADE_PRICE
  else -1.

Definition use_super_weapon_cost (type : Z) : Z := SUPER_WEAPON_INFO type 3.

(** *** Super weapons *)

Definition use_super_weapon (g : t) (type : SuperWeaponType) (player x y : Z) : t :=
  let g1 := set_super_weapons g (super_weapons g ++ [SuperWeapon.new type player x y]) in
  set_super_weapon_cd g1
    (upd (super_weapon_cd g1) player
         (upd (super_weapon_cd g1 player) (SuperWeaponType_to_Z type)
              (SUPER_WEAPON_INFO (SuperWeaponType_to_Z type) 2))).

Definition is_shielded_by_emp (g : t) (player_id x y : Z) : bool :=
  existsb (fun weapon =>
             SuperWeaponType_eqb (SuperWeapon.type weapon) EmpBlaster
             && negb (SuperWeapon.player weapon =? player_id)
             && SuperWeapon.is_in_range weapon x y)
          (super_weapons g).

Definition is_tower_shielded_by_emp (g : t) (tower : Tower.t) : bool :=
  is_shielded_by_emp g (Tower.player tower) (Tower.x tower) (Tower.y tower).

Definition is_shielded_by_deflector (g : t) (a : Ant.t) : bool :=
  existsb (fun weapon =>
             SuperWeaponType_eqb (SuperWeapon.type weapon) Deflector
             && (SuperWeapon.player weapon =? Ant.player a)
             && SuperWeapon.is_in_range weapon (Ant.x a) (Ant.y a))
          (super_weapons g).

Definition count_down_super_weapons_left_time (g : t) (player_id : Z) : t :=
  set_super_weapons g
    (flat_map
       (fun w =>
          if negb (SuperWeapon.player w =? player_id) then [w]
          else if SuperWeapon.left_time w - 1 <=? 0 then []
          else [SuperWeapon.set_left_time w (SuperWeapon.left_time w - 1)])
       (super_weapons g)).

(** The loop of a lightning storm over the ants. *)
Fixpoint lightning_storm (w : SuperWeapon.t) (l : list Ant.t) (coins : Z * Z)
  : list Ant.t * (Z * Z) :=
  match l with
  | [] => ([], coins)
  | ant :: rest =>
      if SuperWeapon.is_in_range w (Ant.x ant) (Ant.y ant)
         && negb (Ant.player ant =? SuperWeapon.player w)
      then
        let ant' := Ant.set_state (Ant.set_hp ant 0) Fail in
        let coins' := set2 coins (SuperWeapon.player w)
                           (get2 coins (SuperWeapon.player w) + Ant.reward ant') in
        let '(rest', coins'') := lightning_storm w rest coins' in
        (ant' :: rest', coins'')
      else
        let '(rest', coins') := lightning_storm w rest coins in
        (ant :: rest', coins')
  end.

(** The loop of an emergency evasion over the ants. *)
Definition emergency_evasion (w : SuperWeapon.t) (l : list Ant.t) : list Ant.t :=
  map (fun ant =>
         if SuperWeapon.is_in_range w (Ant.x ant) (Ant.y ant)
            && (Ant.player ant =? SuperWeapon.player w)
         then Ant.set_evasion ant 2 else ant)
      l.

Definition apply_super_weapon (player_id : Z) (g : t) (w : SuperWeapon.t) : t :=
  if negb (SuperWeapon.player w =? player_id) then g
  else if SuperWeaponType_eqb (SuperWeapon.type w) LightningStorm then
    let '(ants', coins') := lightning_storm w (ants g) (coins g) in
    set_coins (set_ants g ants') coins'
  else if SuperWeaponType_eqb (SuperWeapon.type w) EmergencyEvasion then
    set_ants g (emergency_evasion w (ants g))
  else g.

Definition apply_active_super_weapons (g : t) (player_id : Z) : t :=
  fold_left (apply_super_weapon player_id) (super_weapons g) g.

Definition count_down_super_weapons_cd (g : t) : t :=
  set_super_weapon_cd g
    (fun i j =>
       if (0 <=? i) && (i <? 2) && (1 <=? j) && (j <? 5)
       then Z.max (super_weapon_cd g i j - 1) 0
       else super_weapon_cd g i j).

(** *** Operation checkers and appliers *)

Definition tower_num_of_player (g : t) (player_id : Z) : Z :=
  Z.of_nat (length (filter (fun tw => Tower.player tw =? player_id) (towers g))).

Definition is_operation_valid (g : t) (player_id : Z) (op : Operation.t) : bool :=
  match Operation.type op with
  | BuildTower =>
      is_highland player_id (Operation.arg0 op) (Operation.arg1 op)
      && (match tower_at g (Operation.arg0 op) (Operation.arg1 op) with
          | Some _ => false
          | None => true
          end)
      && negb (is_shielded_by_emp g player_id (Operation.arg0 op) (Operation.arg1 op))
  | UpgradeTower =>
      match tower_of_id g (Operation.arg0 op) with
      | Some tw =>
          (Tower.player tw =? player_id)
          && Tower.is_upgrade_type_valid tw (Operation.arg1 op)
          && negb (is_tower_shielded_by_emp g tw)
      | None => false
      end
  | DowngradeTower =>
      match tower_of_id g (Operation.arg0 op) with
      | Some tw =>
          (Tower.player tw =? player_id) && negb (is_tower_shielded_by_emp g tw)
      | None => false
      end
  | UseLightningStorm | UseEmpBlaster | UseDeflector | UseEmergencyEvasion =>
      is_valid_pos (Operation.arg0 op) (Operation.arg1 op)
      && (super_weapon_cd g player_id
            (Z.rem (OperationType_to_Z (Operation.type op)) 10) <=? 0)
  | UpgradeGenerationSpeed => Base.gen_speed_level (get2 (bases g) player_id) <? 2
  | UpgradeGeneratedAnt => Base.ant_level (get2 (bases g) player_id) <? 2
  end.

(** [None] when [DowngradeTower] names a tower that does not exist
    ([t.value()] on an empty optional). *)
Definition get_operation_income (g : t) (player_id : Z) (op : Operation.t)
  : option Z :=
  match Operation.type op with
  | BuildTower => Some (- build_tower_cost (tower_num_of_player g player_id))
  | UpgradeTower => Some (- upgrade_tower_cost (Operation.arg1 op))
  | DowngradeTower =>
      letM tw := tower_of_id g (Operation.arg0 op) in
      if TowerType_eqb (Tower.type tw) Basic
      then Some (destroy_tower_income (tower_num_of_player g player_id))
      else Some (downgrade_tower_income (TowerType_to_Z (Tower.type tw)))
  | UseLightningStorm | UseEmpBlaster | UseDeflector | UseEmergencyEvasion =>
      Some (- use_super_weapon_cost
                (Z.rem (OperationType_to_Z (Operation.type op)) 10))
  | UpgradeGenerationSpeed =>
      Some (- upgrade_base_cost (Base.gen_speed_level (get2 (bases g) player_id)))
  | UpgradeGeneratedAnt =>
      Some (- upgrade_base_cost (Base.ant_level (get2 (bases g) player_id)))
  end.

(** The loop of [check_affordable] with its two variables [income] and
    [tower_num]; the final [income]. *)
Fixpoint check_affordable_loop (g : t) (player_id : Z) (ops : list Operation.t)
         (income tower_num : Z) : option Z :=
  match ops with
  | [] => Some income
  | op :: rest =>
      match Operation.type op with
      | BuildTower =>
          check_affordable_loop g player_id rest
            (income - build_tower_cost tower_num) (tower_num + 1)
      | DowngradeTower =>
          letM tw := tower_of_id g (Operation.arg0 op) in
          if TowerType_eqb (Tower.type tw) Basic
          then check_affordable_loop g player_id rest
                 (income + destroy_tower_income tower_num) (tower_num - 1)
          else check_affordable_loop g player_id rest
                 (income + downgrade_tower_income (TowerType_to_Z (Tower.type tw)))
                 tower_num
      | _ =>
          letM i := get_operation_income g player_id op in
          check_affordable_loop g player_id rest (income + i) tower_num
      end
  end.

Definition check_affordable (g : t) (player_id : Z) (ops : list Operation.t)
  : option bool :=
  letM income := check_affordable_loop g player_id ops 0 (tower_num_of_player g player_id) in
  Some (income + get2 (coins g) player_id >=? 0).

(** The test of [is_operation_valid(player_id, ops, new_op)] for an
    operation of the same one-per-round class among [ops]. *)
Definition collide (ops : list Operation.t) (new_op : Operation.t) : bool :=
  match Operation.type new_op with
  | BuildTower =>
      existsb (fun op =>
                 OperationType_eqb (Operation.type op) BuildTower
                 && (Operation.arg0 op =? Operation.arg0 new_op)
                 && (Operation.arg1 op =? Operation.arg1 new_op)) ops
  | UpgradeTower | DowngradeTower =>
      existsb (fun op =>
                 (OperationType_eqb (Operation.type op) UpgradeTower
                  || OperationType_eqb (Operation.type op) DowngradeTower)
                 && (Operation.arg0 op =? Operation.arg0 new_op)) ops
  | UpgradeGeneratedAnt | UpgradeGenerationSpeed =>
      existsb (fun op =>
                 OperationType_eqb (Operation.type op) UpgradeGeneratedAnt
                 || OperationType_eqb (Operation.type op) UpgradeGenerationSpeed) ops
  | UseLightningStorm | UseEmpBlaster | UseDeflector | UseEmergencyEvasion =>
      existsb (fun op =>
                 OperationType_eqb (Operation.type op) (Operation.type new_op)) ops
  end.

(** The overload [is_operation_valid(player_id, ops, new_op)]. *)
Definition is_operation_valid_among (g : t) (player_id : Z)
           (ops : list Operation.t) (new_op : Operation.t) : option bool :=
  if collide ops new_op then Some false
  else if negb (is_operation_valid g player_id new_op) then Some false
  else
    letM affordable := check_affordable g player_id (ops ++ [new_op]) in
    if negb affordable then Some false else Some true.

(** [None] on the error of [get_operation_income], and for an
    [UpgradeTower] whose target is no type of the enumeration (not
    modelled: the caller has validated the operation). *)
Definition apply_operation (g : t) (player_id : Z) (op : Operation.t) : option t :=
  letM income := get_operation_income g player_id op in
  let g1 := update_coin g player_id income in
  match Operation.type op with
  | BuildTower =>
      Some (build_tower (set_next_tower_id g1 (next_tower_id g1 + 1))
                        (next_tower_id g1) player_id
                        (Operation.arg0 op) (Operation.arg1 op) Basic)
  | UpgradeTower =>
      letM ty := TowerType_of_Z (Operation.arg1 op) in
      Some (upgrade_tower g1 (Operation.arg0 op) ty)
  | DowngradeTower => Some (downgrade_or_destroy_tower g1 (Operation.arg0 op))
  | UseLightningStorm | UseEmpBlaster | UseDeflector | UseEmergencyEvasion =>
      letM w := SuperWeaponType_of_Z (Z.rem (OperationType_to_Z (Operation.type op)) 10) in
      Some (use_super_weapon g1 w player_id (Operation.arg0 op) (Operation.arg1 op))
  | UpgradeGenerationSpeed => Some (upgrade_generation_speed g1 player_id)
  | UpgradeGeneratedAnt => Some (upgrade_generated_ant g1 player_id)
  end.

(** *** ACO predictors *)

Definition ETA : list Q := [5 # 4; 1; 3 # 4]%Q.
Definition ETA_OFFSET : Z := 1.

(** The row [phero[i]] of [next_move]: weighted and original pheromone of
    the neighbor in direction [i], or [-1] for both when the direction is
    skipped. *)
Definition phero_row (g : t) (ant : Ant.t) (i : Z) : Q * Q :=
  let target_x := fst (Base.POSITION (other_player (Ant.player ant))) in
  let target_y := snd (Base.POSITION (other_player (Ant.player ant))) in
  let cur_dist := distance (Ant.x ant) (Ant.y ant) target_x target_y in
  let x := Ant.x ant + fst (OFFSET (Z.rem (Ant.y ant) 2) i) in
  let y := Ant.y ant + snd (OFFSET (Z.rem (Ant.y ant) 2) i) in
  if (negb (match Ant.path ant with [] => true | _ :: _ => false end)
      && (last (Ant.path ant) 0 =? Z.rem (i + 3) 6))
     || negb (is_path x y)
  then ((-1)%Q, (-1)%Q)
  else
    let next_dist := distance x y target_x target_y in
    let weight := nth (Z.to_nat (next_dist - cur_dist + ETA_OFFSET)) ETA 0%Q in
    ((weight * pheromone g (Ant.player ant) x y)%Q,
     pheromone g (Ant.player ant) x y).

(** The comparison given to [max_element], on rows tagged with their
    index: weighted pheromone, then original pheromone, then the smaller
    index counts as the bigger. *)
Definition phero_less (r1 r2 : Z * (Q * Q)) : bool :=
  let '(i1, (weighted1, original1)) := r1 in
  let '(i2, (weighted2, original2)) := r2 in
  if negb (Qeq_bool weighted1 weighted2) then negb (Qle_bool weighted2 weighted1)
  else if negb (Qeq_bool original1 original2) then negb (Qle_bool original2 original1)
  else i1 >? i2.

Definition next_move (g : t) (ant : Ant.t) : Z :=
  fst (max_element_from phero_less
         (0, phero_row g ant 0)
         (map (fun i => (i, phero_row g ant i)) [1; 2; 3; 4; 5])).

End GameInfo.

(* ================================================================== *)
(** * io.hpp *)
(* ================================================================== *)

(** What [read_round_info] returns: the state of a round as the judger
    reports it. *)
Module RoundInfo.

Record t := mk {
  round : Z;
  towers : list Tower.t;
  ants : list Ant.t;
  coin0 : Z; coin1 : Z;
  hp0 : Z; hp1 : Z
}.

End RoundInfo.

(** ** The streams *)

(** A character is its code and a stream the list of its characters.  The
    formatted output and input of an [int] are the ones of the standard
    library: [out << x] writes the decimal digits of [x] after a minus sign
    when [x] is negative, [in >> x] skips the white space and reads an
    optional sign and the digits that follow. *)
Definition is_space (c : Z) : bool := (c =? 32) || ((9 <=? c) && (c <=? 13)).
Definition is_digit (c : Z) : bool := (48 <=? c) && (c <=? 57).

(** The loops over the digits of an [int] stop after as many rounds as the
    number has binary digits at most. *)
Definition digit_fuel (x : Z) : nat := S (Z.to_nat (Z.log2 (Z.abs x))).

(** The digits of [x >= 0], the most significant first, before [acc]. *)
Fixpoint put_digits (fuel : nat) (x : Z) (acc : list Z) : list Z :=
  match fuel with
  | O => acc
  | S fuel' =>
      let acc' := (48 + Z.rem x 10) :: acc in
      if Z.quot x 10 =? 0 then acc' else put_digits fuel' (Z.quot x 10) acc'
  end.

(** [out << x] *)
Definition put_int (x : Z) : list Z :=
  if x <? 0 then 45 :: put_digits (digit_fuel (- x)) (- x) []
  else put_digits (digit_fuel x) x [].

Fixpoint skip_spaces (s : list Z) : list Z :=
  match s with
  | c :: rest => if is_space c then skip_spaces rest else s
  | [] => []
  end.

(** The value of the digits at the head of the stream after [acc], and the
    stream behind them. *)
Fixpoint get_digits (s : list Z) (acc : Z) : Z * list Z :=
  match s with
  | c :: rest =>
      if is_digit c then get_digits rest (acc * 10 + (c - 48)) else (acc, s)
  | [] => (acc, [])
  end.

(** [in >> x]: the value read and the stream behind it; [None] when the
    stream holds no number there.  A number outside the range of [int] is
    read as it is written. *)
Definition get_int (s : list Z) : option (Z * list Z) :=
  let s1 := skip_spaces s in
  let negative := match s1 with c :: _ => c =? 45 | [] => false end in
  let s2 := match s1 with
            | c :: rest => if (c =? 45) || (c =? 43) then rest else s1
            | [] => []
            end in
  match s2 with
  | c :: _ =>
      if is_digit c then
        let '(v, rest) := get_digits s2 0 in
        Some (if negative then - v else v, rest)
      else None
  | [] => None
  end.

(** [operator<<] of [Operation] (common.hpp): the type, each argument that
    is not [INVALID_ARG] after a space, and the end of the line. *)
Definition put_operation (op : Operation.t) : list Z :=
  put_int (OperationType_to_Z (Operation.type op))
  ++ (if negb (Operation.arg0 op =? Operation.INVALID_ARG)
      then 32 :: put_int (Operation.arg0 op) else [])
  ++ (if negb (Operation.arg1 op =? Operation.INVALID_ARG)
      then 32 :: put_int (Operation.arg1 op) else [])
  ++ [10].

Definition OperationType_of_Z (n : Z) : option OperationType :=
  if n =? 11 then Some BuildTower
  else if n =? 12 then Some UpgradeTower
  else if n =? 13 then Some DowngradeTower
  else if n =? 21 then Some UseLightningStorm
  else if n =? 22 then Some UseEmpBlaster
  else if n =? 23 then Some UseDeflector
  else if n =? 24 then Some UseEmergencyEvasion
  else if n =? 31 then Some UpgradeGenerationSpeed
  else if n =? 32 then Some UpgradeGeneratedAnt
  else None.

(** ** Input *)

(** The loop of [read_opponent_operations] with [count] operations to
    read: the operations and the stream behind them.  [None] when the stream
    holds no number where one is read, and for a type that is none of the
    enumeration (not modelled). *)
Fixpoint read_operations (count : nat) (s : list Z)
  : option (list Operation.t * list Z) :=
  match count with
  | O => Some ([], s)
  | S count' =>
      letM t := get_int s in
      letM type := OperationType_of_Z (fst t) in
      if (fst t =? OperationType_to_Z UpgradeGeneratedAnt)
         || (fst t =? OperationType_to_Z UpgradeGenerationSpeed)
      then
        letM r := read_operations count' (snd t) in
        Some (Operation.mk type Operation.INVALID_ARG Operation.INVALID_ARG :: fst r,
              snd r)
      else if fst t =? OperationType_to_Z DowngradeTower then
        letM a0 := get_int (snd t) in
        letM r := read_operations count' (snd a0) in
        Some (Operation.mk type (fst a0) Operation.INVALID_ARG :: fst r, snd r)
      else
        letM a0 := get_int (snd t) in
        letM a1 := get_int (snd a0) in
        letM r := read_operations count' (snd a1) in
        Some (Operation.mk type (fst a0) (fst a1) :: fst r, snd r)
  end.

(** [None] also for a negative count, which [reserve] refuses. *)
Definition read_opponent_operations (s : list Z) : option (list Operation.t * list Z) :=
  letM count := get_int s in
  if fst count <? 0 then None
  else read_operations (Z.to_nat (fst count)) (snd count).

(** ** Output helpers *)

(** The loop [do { ++len; x /= 10; } while (x);]. *)
Fixpoint object_length_loop (fuel : nat) (x len : Z) : Z :=
  match fuel with
  | O => len
  | S fuel' =>
      if Z.quot x 10 =? 0 then len + 1
      else object_length_loop fuel' (Z.quot x 10) (len + 1)
  end.

(** [object_length(int)] *)
Definition object_length_int (x : Z) : Z := object_length_loop (digit_fuel x) x 0.

(** [object_length(const Operation&)] *)
Definition object_length_operation (op : Operation.t) : Z :=
  let len := object_length_int (OperationType_to_Z (Operation.type op)) in
  let len := if negb (Operation.arg0 op =? Operation.INVALID_ARG)
             then len + (1 + object_length_int (Operation.arg0 op)) else len in
  let len := if negb (Operation.arg1 op =? Operation.INVALID_ARG)
             then len + (1 + object_length_int (Operation.arg1 op)) else len in
  len + 1.

(** [object_length(const std::vector<Operation>&)] *)
Definition object_length_operations (ops : list Operation.t) : Z :=
  fold_left (fun len op => len + object_length_operation op) ops 0.

(** [convert_to_big_endian] on the bytes [src] of the object and the buffer
    [dest]: the loop [dest[size - i - 1] = src[i]]. *)
Definition convert_to_big_endian (src : list Z) (size : nat) (dest : list Z) : list Z :=
  fold_left (fun d i => update_nth (size - i - 1) (fun _ => nth i src 0) d)
            (seq 0 size) dest.

(** ** Output *)

(** The four bytes of an [int] in memory, the lowest first: the machine is
    little-endian and the [int] has 32 bits, in two's complement. *)
Definition int_bytes (x : Z) : list Z :=
  map (fun i => Z.land (Z.shiftr (x mod 2 ^ 32) (8 * i)) 255) [0; 1; 2; 3].

Definition print_header (size : Z) : list Z :=
  convert_to_big_endian (int_bytes size) 4 [0; 0; 0; 0].

(** [static_cast<int>] of a [std::size_t]. *)
Definition to_int (n : Z) : Z := (n + 2 ^ 31) mod 2 ^ 32 - 2 ^ 31.

(** What [send_operations] writes. *)
Definition send_operations (ops : list Operation.t) : list Z :=
  let op_len := object_length_operations ops in
  let op_num_len := object_length_int (Z.of_nat (length ops)) + 1 in
  let total_len := to_int (op_num_len + op_len) in
  print_header total_len
  ++ put_int (Z.of_nat (length ops)) ++ [10]
  ++ flat_map put_operation ops.

(* ================================================================== *)
(** * control.hpp *)
(* ================================================================== *)

Module Controller.

Record t := mk {
  info : GameInfo.t;
  self_operations : list Operation.t;
  opponent_operations : list Operation.t;
  self_player_id : Z
}.

Definition set_info (c : t) (g : GameInfo.t) : t :=
  mk g (self_operations c) (opponent_operations c) (self_player_id c).
Definition set_self_operations (c : t) (v : list Operation.t) : t :=
  mk (info c) v (opponent_operations c) (self_player_id c).
Definition set_opponent_operations (c : t) (v : list Operation.t) : t :=
  mk (info c) (self_operations c) v (self_player_id c).

Definition has_build_tower_operation_at (c : t) (x y : Z) : bool :=
  existsb (fun op =>
             OperationType_eqb (Operation.type op) BuildTower
             && (Operation.arg0 op =? x) && (Operation.arg1 op =? y))
          (self_operations c).

Definition has_upgrade_or_downgrade_tower_operation_of (c : t) (tower_id : Z) : bool :=
  existsb (fun op =>
             (OperationType_eqb (Operation.type op) UpgradeTower
              || OperationType_eqb (Operation.type op) DowngradeTower)
             && (Operation.arg0 op =? tower_id))
          (self_operations c).

Definition has_base_related_operation (c : t) : bool :=
  existsb (fun op =>
             OperationType_eqb (Operation.type op) UpgradeGeneratedAnt
             || OperationType_eqb (Operation.type op) UpgradeGenerationSpeed)
          (self_operations c).

(** *** Updating process after [read_round_info] *)

(** [info.towers = new_towers], and the tower counter past the id of the
    last tower. *)
Definition update_towers (g : GameInfo.t) (new_towers : list Tower.t) : GameInfo.t :=
  GameInfo.set_next_tower_id
    (GameInfo.set_towers g new_towers)
    (match new_towers with
     | [] => 0
     | tw :: rest => Tower.id (last rest tw) + 1
     end).

(** The known ant [b] under the report [a]: the direction of the step is
    recorded when the cell has changed, then cell, HP, age and state are
    taken from the report. *)
Definition reported (b a : Ant.t) : Ant.t :=
  let path' :=
    if negb ((Ant.x b =? Ant.x a) && (Ant.y b =? Ant.y a))
    then Ant.path b ++ [get_direction (Ant.x b) (Ant.y b) (Ant.x a) (Ant.y a)]
    else Ant.path b in
  Ant.mk (Ant.id b) (Ant.player b) (Ant.x a) (Ant.y a) (Ant.hp a) (Ant.level b)
         (Ant.age a) (Ant.state a) path' (Ant.evasion b) (Ant.deflector b).

(** [update_ant] on the vector of ants: the first ant with the id of the
    report is updated; when there is none, the reported ant is put at the
    end. *)
Fixpoint update_ant_in (l : list Ant.t) (a : Ant.t) : list Ant.t :=
  match l with
  | [] => [a]
  | b :: rest =>
      if Ant.id b =? Ant.id a then reported b a :: rest
      else b :: update_ant_in rest a
  end.

Definition update_ant (g : GameInfo.t) (a : Ant.t) : GameInfo.t :=
  GameInfo.set_ants g (update_ant_in (GameInfo.ants g) a).

Definition update_ants (g : GameInfo.t) (new_ants : list Ant.t) : GameInfo.t :=
  let g1 := fold_left update_ant new_ants g in
  GameInfo.set_next_ant_id g1
    (match GameInfo.ants g1 with
     | [] => 0
     | a :: rest => Ant.id (last rest a) + 1
     end).

Definition update_coins (g : GameInfo.t) (coin0 coin1 : Z) : GameInfo.t :=
  GameInfo.set_coin (GameInfo.set_coin g 0 coin0) 1 coin1.

Definition update_bases_hp (g : GameInfo.t) (hp0 hp1 : Z) : GameInfo.t :=
  GameInfo.set_base_hp (GameInfo.set_base_hp g 0 hp0) 1 hp1.

(** *** Public interface *)

(** [read_round_info] on the report [result] that the judger has sent;
    [None] when the [assert] of [update_pheromone] fails. *)
Definition read_round_info (c : t) (result : RoundInfo.t) : option t :=
  let g1 := update_towers (info c) (RoundInfo.towers result) in
  let g2 := update_ants g1 (RoundInfo.ants result) in
  let g3 := GameInfo.global_pheromone_attenuation g2 in
  letM g4 := GameInfo.update_pheromone_for_ants g3 in
  let g5 := GameInfo.clear_dead_and_succeeded_ants g4 in
  let g6 := update_coins g5 (RoundInfo.coin0 result) (RoundInfo.coin1 result) in
  let g7 := update_bases_hp g6 (RoundInfo.hp0 result) (RoundInfo.hp1 result) in
  let g8 := GameInfo.set_round g7 (RoundInfo.round result) in
  let g9 := GameInfo.count_down_super_weapons_cd g8 in
  Some (mk g9 [] [] (self_player_id c)).

(** [read_opponent_operations] for the operations [ops] that the judger has
    sent. *)
Definition read_opponent_operations (c : t) (ops : list Operation.t) : t :=
  set_opponent_operations c ops.

(** The loop [for (auto& op: ops) info.apply_operation(player_id, op)]. *)
Fixpoint apply_all (g : GameInfo.t) (player_id : Z) (ops : list Operation.t)
  : option GameInfo.t :=
  match ops with
  | [] => Some g
  | op :: rest =>
      letM g' := GameInfo.apply_operation g player_id op in
      apply_all g' player_id rest
  end.

Definition apply_opponent_operations (c : t) : option t :=
  let opponent := other_player (self_player_id c) in
  let g1 := GameInfo.count_down_super_weapons_left_time (info c) opponent in
  letM g2 := apply_all g1 opponent (opponent_operations c) in
  Some (set_info c (GameInfo.apply_active_super_weapons g2 opponent)).

(** [None] when [check_affordable] meets its error. *)
Definition append_self_operation (c : t) (op : Operation.t) : option (bool * t) :=
  if OperationType_eqb (Operation.type op) BuildTower
     && has_build_tower_operation_at c (Operation.arg0 op) (Operation.arg1 op)
  then Some (false, c)
  else if (OperationType_eqb (Operation.type op) UpgradeTower
           || OperationType_eqb (Operation.type op) DowngradeTower)
          && has_upgrade_or_downgrade_tower_operation_of c (Operation.arg0 op)
  then Some (false, c)
  else if (OperationType_eqb (Operation.type op) UpgradeGeneratedAnt
           || OperationType_eqb (Operation.type op) UpgradeGenerationSpeed)
          && has_base_related_operation c
  then Some (false, c)
  else if negb (GameInfo.is_operation_valid (info c) (self_player_id c) op)
  then Some (false, c)
  else
    let c1 := set_self_operations c (self_operations c ++ [op]) in
    letM affordable := GameInfo.check_affordable (info c1) (self_player_id c1)
                    (self_operations c1) in
    if negb affordable then
      Some (false, set_self_operations c1 (removelast (self_operations c1)))
    else Some (true, c1).

Definition apply_self_operations (c : t) : option t :=
  let g1 := GameInfo.count_down_super_weapons_left_time (info c) (self_player_id c) in
  letM g2 := apply_all g1 (self_player_id c) (self_operations c) in
  Some (set_info c (GameInfo.apply_active_super_weapons g2 (self_player_id c))).

End Controller.

(* ================================================================== *)
(** * simulate.hpp *)
(* ================================================================== *)

Inductive GameState := Player0Win | Player1Win | Running | Undecided.

Module Simulator.

Record t := mk {
  info : GameInfo.t;
  operations : list Operation.t * list Operation.t
}.

Definition set_info (s : t) (g : GameInfo.t) : t := mk g (operations s).
Definition set_operations (s : t) (v : list Operation.t * list Operation.t) : t :=
  mk (info s) v.

Definition has_build_tower_operation_at (s : t) (player_id x y : Z) : bool :=
  existsb (fun op =>
             OperationType_eqb (Operation.type op) BuildTower
             && (Operation.arg0 op =? x) && (Operation.arg1 op =? y))
          (get2 (operations s) player_id).

Definition has_upgrade_or_downgrade_tower_operation_of
           (s : t) (player_id tower_id : Z) : bool :=
  existsb (fun op =>
             (OperationType_eqb (Operation.type op) UpgradeTower
              || OperationType_eqb (Operation.type op) DowngradeTower)
             && (Operation.arg0 op =? tower_id))
          (get2 (operations s) player_id).

Definition has_base_related_operation (s : t) (player_id : Z) : bool :=
  existsb (fun op =>
             OperationType_eqb (Operation.type op) UpgradeGeneratedAnt
             || OperationType_eqb (Operation.type op) UpgradeGenerationSpeed)
          (get2 (operations s) player_id).

(** *** Round settlement process *)

(** The reward loop of [attack_ants] over the indexes a tower returned. *)
Definition reward_kills (tower : Tower.t) (ants : list Ant.t) (targets : list nat)
           (coins : Z * Z) : Z * Z :=
  fold_left
    (fun c idx =>
       match nth_error ants idx with
       | Some a =>
           if AntState_eqb (Ant.state a) Fail
           then set2 c (Tower.player tower)
                     (get2 c (Tower.player tower) + Ant.reward a)
           else c
       | None => c
       end)
    targets coins.

(** The loop of [attack_ants] over the towers: the towers, the ants and the
    coins after it. *)
Fixpoint attack_loop (g : GameInfo.t) (towers : list Tower.t)
         (ants : list Ant.t) (coins : Z * Z)
  : list Tower.t * list Ant.t * (Z * Z) :=
  match towers with
  | [] => ([], ants, coins)
  | tower :: rest =>
      if GameInfo.is_shielded_by_emp g (Tower.player tower)
                                     (Tower.x tower) (Tower.y tower)
      then
        let '(rest', ants', coins') := attack_loop g rest ants coins in
        (tower :: rest', ants', coins')
      else
        let '(tower1, ants1, targets) := Tower.attack tower ants in
        let coins1 := reward_kills tower1 ants1 targets coins in
        let tower2 :=
          Tower.set_damage tower1 (TowerInfo.attack (TOWER_INFO (Tower.type tower1))) in
        let '(rest', ants', coins') := attack_loop g rest ants1 coins1 in
        (tower2 :: rest', ants', coins')
  end.

Definition attack_ants (s : t) : t :=
  let g := info s in
  let ants0 :=
    map (fun ant => Ant.set_deflector ant (GameInfo.is_shielded_by_deflector g ant))
        (GameInfo.ants g) in
  let '(towers', ants1, coins') :=
    attack_loop g (GameInfo.towers g) ants0 (GameInfo.coins g) in
  let ants2 := map (fun ant => Ant.set_deflector ant false) ants1 in
  set_info s
    (GameInfo.set_coins (GameInfo.set_ants (GameInfo.set_towers g towers') ants2)
                        coins').

Definition at_enemy_base (ant : Ant.t) : bool :=
  (Ant.x ant =? fst (Base.POSITION (other_player (Ant.player ant))))
  && (Ant.y ant =? snd (Base.POSITION (other_player (Ant.player ant)))).

(** The loop of [move_ants]: [done] holds the ants already moved, [todo]
    the ants still to move; an early [return] leaves [todo] untouched. *)
Fixpoint move_loop (g : GameInfo.t) (done todo : list Ant.t)
  : GameState * GameInfo.t :=
  match todo with
  | [] => (Running, GameInfo.set_ants g done)
  | ant :: rest =>
      let ant1 := Ant.set_age ant (Ant.age ant + 1) in
      if AntState_eqb (Ant.state ant1) Fail then
        move_loop g (done ++ [ant1]) rest
      else
        let ant2 := if Ant.age ant1 >? Ant.AGE_LIMIT
                    then Ant.set_state ant1 TooOld else ant1 in
        let ant3 := if AntState_eqb (Ant.state ant2) Alive
                    then Ant.move ant2 (GameInfo.next_move g ant2) else ant2 in
        if at_enemy_base ant3 then
          let ant4 := Ant.set_state ant3 Success in
          let g1 := GameInfo.update_base_hp g (other_player (Ant.player ant4)) (-1) in
          if Base.hp (get2 (GameInfo.bases g1) (other_player (Ant.player ant4))) <=? 0
          then
            (if Ant.player ant4 =? 0 then Player0Win else Player1Win,
             GameInfo.set_ants g1 (done ++ ant4 :: rest))
          else
            let ant5 := if AntState_eqb (Ant.state ant4) Frozen
                        then Ant.set_state ant4 Alive else ant4 in
            move_loop g1 (done ++ [ant5]) rest
        else
          let ant5 := if AntState_eqb (Ant.state ant3) Frozen
                      then Ant.set_state ant3 Alive else ant3 in
          move_loop g (done ++ [ant5]) rest
  end.

Definition move_ants (s : t) : GameState * t :=
  let '(state, g) := move_loop (info s) [] (GameInfo.ants (info s)) in
  (state, set_info s g).

Definition generate_ant_of (g : GameInfo.t) (player_id : Z) : GameInfo.t :=
  match Base.generate_ant (get2 (GameInfo.bases g) player_id)
                          (GameInfo.next_ant_id g) (GameInfo.round g) with
  | Some ant =>
      GameInfo.set_next_ant_id
        (GameInfo.set_ants g (GameInfo.ants g ++ [ant]))
        (GameInfo.next_ant_id g + 1)
  | None => g
  end.

Definition generate_ants (s : t) : t :=
  set_info s (generate_ant_of (generate_ant_of (info s) 0) 1).

Definition get_basic_income (s : t) (player_id : Z) : t :=
  set_info s (GameInfo.update_coin (info s) player_id BASIC_INCOME).

(** *** Game judger *)

Definition judge_winner (s : t) : GameState :=
  if Base.hp (get2 (GameInfo.bases (info s)) 0)
     <? Base.hp (get2 (GameInfo.bases (info s)) 1)
  then Player1Win
  else if Base.hp (get2 (GameInfo.bases (info s)) 0)
          >? Base.hp (get2 (GameInfo.bases (info s)) 1)
  then Player0Win
  else Undecided.

(** *** Public interface *)

(** [None] when [check_affordable] meets its error. *)
Definition add_operation_of_player (s : t) (player_id : Z) (op : Operation.t)
  : option (bool * t) :=
  if OperationType_eqb (Operation.type op) BuildTower
     && has_build_tower_operation_at s player_id (Operation.arg0 op) (Operation.arg1 op)
  then Some (false, s)
  else if (OperationType_eqb (Operation.type op) UpgradeTower
           || OperationType_eqb (Operation.type op) DowngradeTower)
          && has_upgrade_or_downgrade_tower_operation_of s player_id (Operation.arg0 op)
  then Some (false, s)
  else if (OperationType_eqb (Operation.type op) UpgradeGeneratedAnt
           || OperationType_eqb (Operation.type op) UpgradeGenerationSpeed)
          && has_base_related_operation s player_id
  then Some (false, s)
  else if negb (GameInfo.is_operation_valid (info s) player_id op)
  then Some (false, s)
  else
    let s1 := set_operations s
                (set2 (operations s) player_id
                      (get2 (operations s) player_id ++ [op])) in
    letM affordable := GameInfo.check_affordable (info s1) player_id
                    (get2 (operations s1) player_id) in
    if negb affordable then
      Some (false,
            set_operations s1
              (set2 (operations s1) player_id
                    (removelast (get2 (operations s1) player_id))))
    else Some (true, s1).

Fixpoint apply_operations (g : GameInfo.t) (player_id : Z) (ops : list Operation.t)
  : option GameInfo.t :=
  match ops with
  | [] => Some g
  | op :: rest =>
      letM g' := GameInfo.apply_operation g player_id op in
      apply_operations g' player_id rest
  end.

Definition apply_operations_of_player (s : t) (player_id : Z) : option t :=
  let g1 := GameInfo.count_down_super_weapons_left_time (info s) player_id in
  letM g2 := apply_operations g1 player_id (get2 (operations s) player_id) in
  Some (set_info s (GameInfo.apply_active_super_weapons g2 player_id)).

(** [None] when the [assert] of [update_pheromone] fails. *)
Definition next_round (s : t) : option (GameState * t) :=
  if GameInfo.round (info s) =? MAX_ROUND then Some (judge_winner s, s)
  else
    let s1 := attack_ants s in
    let '(state, s2) := move_ants s1 in
    match state with
    | Running =>
        let g3 := GameInfo.global_pheromone_attenuation (info s2) in
        letM g4 := GameInfo.update_pheromone_for_ants g3 in
        let g5 := GameInfo.clear_dead_and_succeeded_ants g4 in
        let s6 := generate_ants (set_info s2 g5) in
        let s7 := get_basic_income (get_basic_income s6 0) 1 in
        let g8 := GameInfo.set_round (info s7) (GameInfo.round (info s7) + 1) in
        let g9 := GameInfo.count_down_super_weapons_cd g8 in
        Some (Running, mk g9 ([], []))
    | _ => Some (state, s2)
    end.

End Simulator.

(* ================================================================== *)
(** * example/simulate.cpp *)
(* ================================================================== *)

Module Example.

Definition build_tower0 : Operation.t := Operation.mk BuildTower 5 9.
Definition build_tower1 : Operation.t := Operation.mk BuildTower 13 9.

(** The loop [for (int i = 0; i < 10; ++i)] of [game_process0] with [n]
    rounds to go: player 0 stages its tower and applies, player 1 does the
    same, then the round is settled, and the loop ends when the round does not
    return Running.  [None] when one of the calls meets its error. *)
Fixpoint simulate_rounds (n : nat) (s : Simulator.t) : option Simulator.t :=
  match n with
  | O => Some s
  | S n' =>
      letM added0 := Simulator.add_operation_of_player s 0 build_tower0 in
      letM s1 := Simulator.apply_operations_of_player (snd added0) 0 in
      letM added1 := Simulator.add_operation_of_player s1 1 build_tower1 in
      letM s2 := Simulator.apply_operations_of_player (snd added1) 1 in
      letM settled := Simulator.next_round s2 in
      match fst settled with
      | Running => simulate_rounds n' (snd settled)
      | _ => Some (snd settled)
      end
  end.

(** [Simulator s(c.get_info())] and the ten rounds of the loop. *)
Definition simulate (g : GameInfo.t) : option Simulator.t :=
  simulate_rounds 10 (Simulator.mk g ([], [])).

End Example.

(* ================================================================== *)
(** * template.hpp *)
(* ================================================================== *)

Module Template.

(** The loop [for (auto &op : ops) c.append_self_operation(op)] of
    [run_with_ai], which drops the answers; [None] when a call meets its
    error. *)
Fixpoint append_all (c : Controller.t) (ops : list Operation.t) : option Controller.t :=
  match ops with
  | [] => Some c
  | op :: rest =>
      letM added := Controller.append_self_operation c op in
      append_all (snd added) rest
  end.

(** What [run_with_ai] does with the operations [ops] that the AI has
    returned, the exchange with the judger apart: it stages them and applies
    what is staged. *)
Definition decide (c : Controller.t) (ops : list Operation.t) : option Controller.t :=
  letM c1 := append_all c ops in
  Controller.apply_self_operations c1.

End Template.

(* ================================================================== *)
(** * Definitions that follow the specification *)
(* ================================================================== *)

(** The balance change of a staged list as the specification words it: the
    cost or refund of each operation in staged order, a build being priced
    and a destruction of a Basic tower refunded against the running number of
    towers of the player, which the build raises and the destruction lowers.
    [None] when a downgrade names a tower that does not exist. *)
Fixpoint staged_income (g : GameInfo.t) (player_id tower_num : Z)
         (ops : list Operation.t) : option Z :=
  match ops with
  | [] => Some 0
  | op :: rest =>
      match Operation.type op with
      | BuildTower =>
          letM later := staged_income g player_id (tower_num + 1) rest in
          Some (- GameInfo.build_tower_cost tower_num + later)
      | DowngradeTower =>
          letM tw := GameInfo.tower_of_id g (Operation.arg0 op) in
          if TowerType_eqb (Tower.type tw) Basic then
            letM later := staged_income g player_id (tower_num - 1) rest in
            Some (GameInfo.destroy_tower_income tower_num + later)
          else
            letM later := staged_income g player_id tower_num rest in
            Some (GameInfo.downgrade_tower_income (TowerType_to_Z (Tower.type tw))
                  + later)
      | _ =>
          letM i := GameInfo.get_operation_income g player_id op in
          letM later := staged_income g player_id tower_num rest in
          Some (i + later)
      end
  end.

(** A simulator on a fresh game: no tower, no ant, 50 coins each, a flat
    pheromone field, nothing staged. *)
Definition fresh_simulator : Simulator.t :=
  Simulator.mk (GameInfo.new (fun _ _ _ => PHEROMONE_INIT)) ([], []).

(** The simulator [s] with [op] staged after the operations of [player_id]. *)
Definition staged_with (s : Simulator.t) (player_id : Z) (op : Operation.t)
  : Simulator.t :=
  Simulator.set_operations s
    (set2 (Simulator.operations s) player_id
          (get2 (Simulator.operations s) player_id ++ [op])).

(** The checks of [add_operation_of_player] that come before the
    affordability check: a collision with a staged operation, or an invalid
    operation. *)
Definition rejected_before_cost (s : Simulator.t) (player_id : Z) (op : Operation.t)
  : bool :=
  (OperationType_eqb (Operation.type op) BuildTower
   && Simulator.has_build_tower_operation_at s player_id
        (Operation.arg0 op) (Operation.arg1 op))
  || ((OperationType_eqb (Operation.type op) UpgradeTower
       || OperationType_eqb (Operation.type op) DowngradeTower)
      && Simulator.has_upgrade_or_downgrade_tower_operation_of s player_id
           (Operation.arg0 op))
  || ((OperationType_eqb (Operation.type op) UpgradeGeneratedAnt
       || OperationType_eqb (Operation.type op) UpgradeGenerationSpeed)
      && Simulator.has_base_related_operation s player_id)
  || negb (GameInfo.is_operation_valid (Simulator.info s) player_id op).

(** A simulator in which player 0 holds 300 coins and has staged a
    deflector at (5, 9). *)
Definition deflector_staged : Simulator.t :=
  Simulator.mk
    (GameInfo.set_coins (GameInfo.new (fun _ _ _ => PHEROMONE_INIT)) (300, 50))
    ([Operation.mk UseDeflector 5 9], []).

(** A Basic tower of player 0 at (14, 9), its countdown at 1, and the ant
    that the base of player 1 spawns at round 0: the tower is two cells from
    that base. *)
Definition tower_near_spawn : Simulator.t :=
  Simulator.mk
    (GameInfo.set_ants
       (GameInfo.set_towers (GameInfo.new (fun _ _ _ => PHEROMONE_INIT))
                            [Tower.set_cd (Tower.new 0 0 14 9 Basic 0) 1])
       (match Base.generate_ant (Base.new 1) 0 0 with
        | Some ant => [ant]
        | None => []
        end))
    ([], []).

(** The ants a lightning storm [w] strikes: in its range and of the other
    player; nothing else is looked at. *)
Definition struck_by (w : SuperWeapon.t) (ant : Ant.t) : bool :=
  SuperWeapon.is_in_range w (Ant.x ant) (Ant.y ant)
  && negb (Ant.player ant =? SuperWeapon.player w).

(** The kill rewards of the ants that [w] strikes. *)
Definition storm_reward (w : SuperWeapon.t) (l : list Ant.t) : Z :=
  fold_right Z.add 0 (map Ant.reward (filter (struck_by w) l)).

Definition is_storm_of (player_id : Z) (w : SuperWeapon.t) : bool :=
  (SuperWeapon.player w =? player_id)
  && SuperWeaponType_eqb (SuperWeapon.type w) LightningStorm.

(** The rewards of all the storms of [player_id] among [ws]. *)
Definition storms_reward (player_id : Z) (ws : list SuperWeapon.t) (l : list Ant.t) : Z :=
  fold_right Z.add 0 (map (fun w => storm_reward w l) (filter (is_storm_of player_id) ws)).

(** The effect of one super weapon of the list on one ant, when the weapons
    of [player_id] are applied. *)
Definition weapon_effect (player_id : Z) (w : SuperWeapon.t) (ant : Ant.t) : Ant.t :=
  if negb (SuperWeapon.player w =? player_id) then ant
  else if SuperWeaponType_eqb (SuperWeapon.type w) LightningStorm then
    if struck_by w ant then Ant.set_state (Ant.set_hp ant 0) Fail else ant
  else if SuperWeaponType_eqb (SuperWeapon.type w) EmergencyEvasion then
    if SuperWeapon.is_in_range w (Ant.x ant) (Ant.y ant)
       && (Ant.player ant =? SuperWeapon.player w)
    then Ant.set_evasion ant 2 else ant
  else ant.

(** Two ants that differ at most in HP, state and evasion. *)
Definition same_body (a a' : Ant.t) : Prop :=
  Ant.id a' = Ant.id a /\ Ant.player a' = Ant.player a /\
  Ant.x a' = Ant.x a /\ Ant.y a' = Ant.y a /\
  Ant.level a' = Ant.level a /\ Ant.age a' = Ant.age a /\
  Ant.path a' = Ant.path a.

(** The effect of the weapons [ws], in order, on one ant. *)
Definition weapons_effect (player_id : Z) (ws : list SuperWeapon.t) (ant : Ant.t)
  : Ant.t :=
  fold_left (fun a w => weapon_effect player_id w a) ws ant.

(** What [k >= 1] countdowns of the weapons of [player_id] leave of one
    weapon. *)
Definition aged (player_id : Z) (k : nat) (w : SuperWeapon.t) : list SuperWeapon.t :=
  if negb (SuperWeapon.player w =? player_id) then [w]
  else if SuperWeapon.left_time w - Z.of_nat k <=? 0 then []
  else [SuperWeapon.set_left_time w (SuperWeapon.left_time w - Z.of_nat k)].

(** [k] calls of [count_down_super_weapons_left_time], one per turn of
    [player_id]. *)
Definition count_down_turns (player_id : Z) (k : nat) (g : GameInfo.t) : GameInfo.t :=
  Nat.iter k (fun h => GameInfo.count_down_super_weapons_left_time h player_id) g.

(** Player 0 has staged a lightning storm at (9, 9); three ants of player 1
    are on the map, of tiers 0, 1 and 2: the first two within three cells
    of (9, 9), one of them already dead, the third far away. *)
Definition storm_staged : Simulator.t :=
  Simulator.mk
    (GameInfo.set_coins
       (GameInfo.set_ants (GameInfo.new (fun _ _ _ => PHEROMONE_INIT))
          [Ant.new 0 1 10 9 10 0 3 Alive;
           Ant.mk 1 1 8 10 0 1 5 Fail [] 0 false;
           Ant.new 2 1 16 9 50 2 0 Alive])
       (150, 50))
    ([Operation.mk UseLightningStorm 9 9], []).

(** ** Movement, ant by ant *)

(** Direction [i] is not eligible for [ant]: it undoes the last recorded
    move, or it leads to a cell that is no path cell. *)
Definition reverses (ant : Ant.t) (i : Z) : bool :=
  negb (match Ant.path ant with [] => true | _ :: _ => false end)
  && (last (Ant.path ant) 0 =? Z.rem (i + 3) 6).

Definition blocked (ant : Ant.t) (i : Z) : bool :=
  negb (is_path (fst (neighbor (Ant.x ant) (Ant.y ant) i))
                (snd (neighbor (Ant.x ant) (Ant.y ant) i))).

(** None of the six directions is eligible. *)
Definition boxed_in (ant : Ant.t) : bool :=
  forallb (fun i => reverses ant i || blocked ant i) DIRECTIONS.

(** The directions from [(x, y)] that lead to a path cell. *)
Definition path_neighbors (x y : Z) : list Z :=
  filter (fun i => is_path (fst (neighbor x y i)) (snd (neighbor x y i))) DIRECTIONS.

(** The ant after steps 1 to 3 of an iteration of [move_ants] that does not
    stop at step 1: older, TooOld past the age limit, moved when Alive. *)
Definition stepped (g : GameInfo.t) (ant : Ant.t) : Ant.t :=
  let ant1 := Ant.set_age ant (Ant.age ant + 1) in
  let ant2 := if Ant.age ant1 >? Ant.AGE_LIMIT
              then Ant.set_state ant1 TooOld else ant1 in
  if AntState_eqb (Ant.state ant2) Alive
  then Ant.move ant2 (GameInfo.next_move g ant2) else ant2.

(** The ant reaches the base of the other player in its iteration. *)
Definition arrives (g : GameInfo.t) (ant : Ant.t) : bool :=
  negb (AntState_eqb (Ant.state ant) Fail) && Simulator.at_enemy_base (stepped g ant).

(** What a whole iteration of [move_ants] makes of its ant. *)
Definition moved (g : GameInfo.t) (ant : Ant.t) : Ant.t :=
  if AntState_eqb (Ant.state ant) Fail then Ant.set_age ant (Ant.age ant + 1)
  else if Simulator.at_enemy_base (stepped g ant)
       then Ant.set_state (stepped g ant) Success
       else if AntState_eqb (Ant.state (stepped g ant)) Frozen
            then Ant.set_state (stepped g ant) Alive
            else stepped g ant.

(** The number of ants of [l] that reach the base of player [q]. *)
Definition arrivals (g : GameInfo.t) (q : Z) (l : list Ant.t) : Z :=
  Z.of_nat (length (filter (fun ant => arrives g ant
                                       && (other_player (Ant.player ant) =? q)) l)).

Definition base_hp (g : GameInfo.t) (q : Z) : Z := Base.hp (get2 (GameInfo.bases g) q).

(** An Alive ant of player 0 on the cell (0, 0), outside the board: none of
    its six neighbors is a path cell. *)
Definition stray_ant : Ant.t := Ant.new 0 0 0 0 10 0 0 Alive.

Definition stray_simulator : Simulator.t :=
  Simulator.mk
    (GameInfo.set_ants (GameInfo.new (fun _ _ _ => PHEROMONE_INIT)) [stray_ant])
    ([], []).

(** The base of player 1 is down to 0 HP and an ant of player 0 stands on
    (15, 9), next to it. *)
Definition base_at_zero : Simulator.t :=
  Simulator.mk
    (GameInfo.set_bases
       (GameInfo.set_ants (GameInfo.new (fun _ _ _ => PHEROMONE_INIT))
                          [Ant.new 0 0 15 9 10 0 20 Alive])
       (Base.new 0, Base.set_hp (Base.new 1) 0))
    ([], []).

(** The coordinates of the rows and columns of the map. *)
Definition COORDINATES : list Z := map Z.of_nat (seq 0 (Z.to_nat MAP_SIZE)).

(** Every valid cell of the map has at least two path cells among its
    neighbors. *)
Definition two_ways_everywhere : bool :=
  forallb (fun x =>
             forallb (fun y =>
                        negb (is_valid_pos x y)
                        || (2 <=? Z.of_nat (length (path_neighbors x y))))
                     COORDINATES)
          COORDINATES.


(** The cells of the pheromone field. *)
Definition on_field (i j k : Z) : Prop :=
  0 <= i < 2 /\ 0 <= j < MAP_SIZE /\ 0 <= k < MAP_SIZE.

(* ================================================================== *)
(** * Definitions for the further properties *)
(* ================================================================== *)

(** The column of a cell in doubled coordinates: the six neighbors of a
    cell are at [(a +- 1, y +- 1)] and [(a +- 2, y)]. *)
Definition doubled (x y : Z) : Z := 2 * x - Z.rem y 2.

(** The weighted pheromone of a row of [next_move] tagged with its index. *)
Definition weighted (r : Z * (Q * Q)) : Q := fst (snd r).

(** The operation that uses a super weapon of type [w]: the operation type
    whose last decimal digit is the weapon type. *)
Definition use_operation (w : SuperWeaponType) : OperationType :=
  match w with
  | LightningStorm => UseLightningStorm
  | EmpBlaster => UseEmpBlaster
  | Deflector => UseDeflector
  | EmergencyEvasion => UseEmergencyEvasion
  end.

(** [k] calls of [count_down_super_weapons_cd], one per round. *)
Definition cooled (k : nat) (g : GameInfo.t) : GameInfo.t :=
  Nat.iter k GameInfo.count_down_super_weapons_cd g.

(** The hits of the towers [tws], in order, on one ant. *)
Definition hit_by (tws : list Tower.t) (ant : Ant.t) : Ant.t :=
  fold_left (fun a tw => Tower.action tw a) tws ant.

(** What makes an ant a possible victim of a tower, the range apart: it
    belongs to another player and it is alive. *)
Definition attackable_by (tw : Tower.t) (a : Ant.t) : bool :=
  negb (Ant.player a =? Tower.player tw) && Ant.is_alive a.

(** What an attack of [tw] can make of an ant [a]: the same body and
    deflector flag, no more HP when the damage of the tower is not negative,
    and the very same ant when it is no possible victim. *)
Definition after_attack (tw : Tower.t) (a a' : Ant.t) : Prop :=
  same_body a a'
  /\ Ant.deflector a' = Ant.deflector a
  /\ (0 <= Tower.damage tw -> Ant.hp a' <= Ant.hp a)
  /\ (attackable_by tw a = false -> a' = a).

(** Two towers that differ at most in cooldown and damage. *)
Definition same_tower (tw tw' : Tower.t) : Prop :=
  Tower.id tw' = Tower.id tw /\ Tower.player tw' = Tower.player tw
  /\ Tower.x tw' = Tower.x tw /\ Tower.y tw' = Tower.y tw
  /\ Tower.type tw' = Tower.type tw /\ Tower.range tw' = Tower.range tw
  /\ Tower.speed tw' = Tower.speed tw.

(** [i] comes before [j] for the order [lt], or is [j]. *)
Definition not_after (lt : nat -> nat -> bool) (i j : nat) : Prop := lt j i = false.

(** A Basic tower of player 0 at (14, 9) with one round to wait, and a
    tier-0 ant of player 1 on its base at (16, 9), two cells away. *)
Definition guard_tower : Tower.t := Tower.set_cd (Tower.new 0 0 14 9 Basic 0) 1.
Definition spawned_ant : Ant.t := Ant.new 0 1 16 9 10 0 0 Alive.

(** What the combat phase can make of an ant: the same body, and the very
    same ant but for the deflector flag when it was not alive. *)
Definition after_combat (a a' : Ant.t) : Prop :=
  same_body a a'
  /\ (Ant.is_alive a = false -> a' = Ant.set_deflector a (Ant.deflector a')).

(** What the combat phase makes of a tower under the world state [g]:
    nothing when an EMP of the other player shields it, and otherwise a
    tower with the damage of the table that differs from it in cooldown at
    most. *)
Definition after_combat_tower (g : GameInfo.t) (tw tw' : Tower.t) : Prop :=
  same_tower tw tw'
  /\ (GameInfo.is_tower_shielded_by_emp g tw = true -> tw' = tw)
  /\ (GameInfo.is_tower_shielded_by_emp g tw = false ->
      Tower.damage tw' = TowerInfo.attack (TOWER_INFO (Tower.type tw))).

(** ** Paths and trails *)

(** The cell reached from [c] by the moves of a path. *)
Definition walk (c : Z * Z) (moves : list Z) : Z * Z :=
  fold_left (fun c move => neighbor (fst c) (snd c) move) moves c.

(** The cells that a walk from [c] leaves, one per move, in order. *)
Fixpoint departures (c : Z * Z) (moves : list Z) : list (Z * Z) :=
  match moves with
  | [] => []
  | move :: rest => c :: departures (neighbor (fst c) (snd c) move) rest
  end.

(** The cells of a walk from [c]: the cells it leaves and the cell where it
    ends. *)
Definition trail (c : Z * Z) (moves : list Z) : list (Z * Z) :=
  departures c moves ++ [walk c moves].

(** A pheromone value after the floor at [PHEROMONE_MIN]. *)
Definition floored (v : Q) : Q :=
  if negb (Qle_bool PHEROMONE_MIN v) then PHEROMONE_MIN else v.

(** The recorded path of the ant leads from the base of its player to the
    cell where it stands. *)
Definition path_consistent (a : Ant.t) : Prop :=
  walk (Base.POSITION (Ant.player a)) (Ant.path a) = (Ant.x a, Ant.y a).

(** Both bases stand on the cell of their player in [Base::POSITION]. *)
Definition bases_in_place (g : GameInfo.t) : Prop :=
  forall q, (Base.x (get2 (GameInfo.bases g) q), Base.y (get2 (GameInfo.bases g) q))
            = Base.POSITION (Base.player (get2 (GameInfo.bases g) q)).

(** No cell of the pheromone field holds a negative value. *)
Definition pheromone_nonneg (g : GameInfo.t) : Prop :=
  forall i j k, on_field i j k -> (PHEROMONE_MIN <= GameInfo.pheromone g i j k)%Q.

(** ** The end of a round *)

(** Steps 5 to 9 of [next_round] on the world state: clear the ants in a
    final state, generate ants, pay the basic income, count the round, count
    down the cooldowns of the super weapons. *)
Definition end_of_round (g : GameInfo.t) : GameInfo.t :=
  let g5 := GameInfo.clear_dead_and_succeeded_ants g in
  let g6 := Simulator.generate_ant_of (Simulator.generate_ant_of g5 0) 1 in
  let g7 := GameInfo.update_coin (GameInfo.update_coin g6 0 BASIC_INCOME) 1 BASIC_INCOME in
  GameInfo.count_down_super_weapons_cd
    (GameInfo.set_round g7 (GameInfo.round g7 + 1)).

(** A base after the movement phase: it can have lost HP and is otherwise
    the same. *)
Definition same_base (b b' : Base.t) : Prop :=
  Base.player b' = Base.player b /\ Base.x b' = Base.x b /\ Base.y b' = Base.y b
  /\ Base.gen_speed_level b' = Base.gen_speed_level b
  /\ Base.ant_level b' = Base.ant_level b.

(** An ant as a base generates it: on the cell of the base, Alive, of age
    0, with an empty path and the full HP of its level. *)
Definition newborn (g : GameInfo.t) (a : Ant.t) : Prop :=
  exists q, (q = 0 \/ q = 1)
    /\ Ant.player a = Base.player (get2 (GameInfo.bases g) q)
    /\ Ant.x a = Base.x (get2 (GameInfo.bases g) q)
    /\ Ant.y a = Base.y (get2 (GameInfo.bases g) q)
    /\ Ant.level a = Base.ant_level (get2 (GameInfo.bases g) q)
    /\ Ant.hp a = Ant.max_hp a
    /\ Ant.age a = 0 /\ Ant.state a = Alive /\ Ant.path a = []
    /\ Ant.evasion a = 0 /\ Ant.deflector a = false.

(** ** Identities and positions *)

(** The ids of the ants are pairwise different and below the ant counter,
    and so are the ids of the towers under the tower counter. *)
Definition ids_fresh (g : GameInfo.t) : Prop :=
  NoDup (map Ant.id (GameInfo.ants g))
  /\ Forall (fun a => Ant.id a < GameInfo.next_ant_id g) (GameInfo.ants g)
  /\ NoDup (map Tower.id (GameInfo.towers g))
  /\ Forall (fun tw => Tower.id tw < GameInfo.next_tower_id g) (GameInfo.towers g).

(** The base of index [q] is the base of player [q]. *)
Definition bases_owned (g : GameInfo.t) : Prop :=
  forall q, q = 0 \/ q = 1 -> Base.player (get2 (GameInfo.bases g) q) = q.

(** The ant belongs to player 0 or 1, its recorded path leads from the base
    of its player to its cell, and every cell of its trail, the cell where it
    stands included, is a path cell. *)
Definition on_trail (a : Ant.t) : Prop :=
  (Ant.player a = 0 \/ Ant.player a = 1)
  /\ path_consistent a
  /\ Forall (fun c => is_path (fst c) (snd c) = true)
            (trail (Base.POSITION (Ant.player a)) (Ant.path a)).

(** A world state on which a round reads and writes inside its arrays: no
    negative pheromone on the field, the bases on their cells under their
    players, and every ant on a trail of path cells. *)
Definition sound (g : GameInfo.t) : Prop :=
  pheromone_nonneg g /\ bases_in_place g /\ bases_owned g
  /\ Forall on_trail (GameInfo.ants g).

(** What the movement phase makes of an ant [a] when it runs to its end:
    the ant is one round older; a dead ant is otherwise untouched; an ant
    past the age limit, a frozen ant and an ant in a final state stay where
    they are; the first becomes TooOld and the second Alive again, unless the
    cell is the base of the other player, which makes any ant but a dead one
    a Success. *)
Definition after_movement (a a' : Ant.t) : Prop :=
  Ant.age a' = Ant.age a + 1
  /\ Ant.id a' = Ant.id a /\ Ant.player a' = Ant.player a
  /\ Ant.level a' = Ant.level a /\ Ant.hp a' = Ant.hp a
  /\ Ant.evasion a' = Ant.evasion a /\ Ant.deflector a' = Ant.deflector a
  /\ Ant.state a' <> Frozen
  /\ (Ant.state a = Fail -> a' = Ant.set_age a (Ant.age a + 1))
  /\ (Ant.state a <> Alive \/ Ant.AGE_LIMIT < Ant.age a + 1 ->
      Ant.x a' = Ant.x a /\ Ant.y a' = Ant.y a /\ Ant.path a' = Ant.path a)
  /\ (Ant.state a = Alive -> Ant.age a + 1 <= Ant.AGE_LIMIT ->
      exists d, Ant.path a' = Ant.path a ++ [d]
                /\ (Ant.x a', Ant.y a') = neighbor (Ant.x a) (Ant.y a) d)
  /\ (Ant.state a <> Fail ->
      Ant.state a'
      = if Simulator.at_enemy_base a' then Success
        else if Ant.age a + 1 >? Ant.AGE_LIMIT then TooOld
        else match Ant.state a with
             | Frozen => Alive
             | st => st
             end).

(** The tower and the ant of [tower_near_spawn] with the counters of ids
    past them. *)
Definition guarded_spawn : Simulator.t :=
  Simulator.mk
    (GameInfo.set_next_tower_id
       (GameInfo.set_next_ant_id (Simulator.info tower_near_spawn) 1) 1)
    ([], []).


(** An operation that uses a super weapon. *)
Definition uses_weapon (op : Operation.t) : bool :=
  match Operation.type op with
  | UseLightningStorm | UseEmpBlaster | UseDeflector | UseEmergencyEvasion => true
  | _ => false
  end.

(** The simulator that holds the game state of a controller, the
    operations of the controller's player staged for that player and the
    opponent's operations for the other one. *)
Definition as_simulator (c : Controller.t) : Simulator.t :=
  Simulator.mk (Controller.info c)
    (set2 (Controller.opponent_operations c, Controller.opponent_operations c)
          (Controller.self_player_id c) (Controller.self_operations c)).

(** ** Reports of the judger *)

(** The report [a] fits the known ants [l]: the ant of its id stands on a
    row [y >= 0] and is reported on its cell or on a neighbor of its cell;
    an ant of an unknown id is reported with a path that leads to its
    cell. *)
Definition fits (l : list Ant.t) (a : Ant.t) : Prop :=
  match find (fun b => Ant.id b =? Ant.id a) l with
  | Some b =>
      0 <= Ant.y b
      /\ ((Ant.x a, Ant.y a) = (Ant.x b, Ant.y b)
          \/ is_neighbor (Ant.x b) (Ant.y b) (Ant.x a) (Ant.y a))
  | None => path_consistent a
  end.

(** Every report fits the ants as the reports before it have left them. *)
Fixpoint reports_fit (l : list Ant.t) (reports : list Ant.t) : Prop :=
  match reports with
  | [] => True
  | a :: rest => fits l a /\ reports_fit (Controller.update_ant_in l a) rest
  end.

(** A controller of player 0 that knows one ant of player 1 on its base, and
    the report of round 1: that ant one cell to the left, and a new ant of
    player 0 on its base. *)
Definition watching : Controller.t :=
  Controller.mk
    (GameInfo.set_next_ant_id
       (GameInfo.set_ants (GameInfo.new (fun _ _ _ => PHEROMONE_INIT)) [spawned_ant]) 1)
    [] [] 0.

Definition report_of_round_1 : RoundInfo.t :=
  RoundInfo.mk 1 [] [Ant.new 0 1 15 9 10 0 1 Alive; Ant.new 1 0 2 9 10 0 0 Alive]
               51 51 50 50.

(** An ant of player 1 that has gone back and forth next to its base and is
    too old: its path crosses the cell (15, 9) twice. *)
Definition worn_out_ant : Ant.t :=
  Ant.mk 0 1 15 9 10 0 33 TooOld [1; 4; 1] 0 false.

(** ** Staged operations *)

(** The simulator after [add_operation_of_player] has accepted every
    operation of [ops] for [player_id], one after the other; [None] when one
    of them is refused. *)
Fixpoint stage_all (s : Simulator.t) (player_id : Z) (ops : list Operation.t)
  : option Simulator.t :=
  match ops with
  | [] => Some s
  | op :: rest =>
      match Simulator.add_operation_of_player s player_id op with
      | Some (true, s') => stage_all s' player_id rest
      | _ => None
      end
  end.

Definition changes_tower (op : Operation.t) : bool :=
  OperationType_eqb (Operation.type op) UpgradeTower
  || OperationType_eqb (Operation.type op) DowngradeTower.

Definition upgrades_base (op : Operation.t) : bool :=
  OperationType_eqb (Operation.type op) UpgradeGeneratedAnt
  || OperationType_eqb (Operation.type op) UpgradeGenerationSpeed.

(** Two operations that change the same tower, or that both upgrade the
    base. *)
Definition clash (a b : Operation.t) : bool :=
  (changes_tower a && changes_tower b && (Operation.arg0 a =? Operation.arg0 b))
  || (upgrades_base a && upgrades_base b).

(** The state [gk] in the middle of the application of staged operations,
    against the state [g] in which they were checked: the towers that the
    operations [rest] to come change are the same in both, [player_id] owns
    [tower_num] towers, and the bases are the same when a base upgrade is to
    come. *)
Definition tracks (g gk : GameInfo.t) (player_id : Z) (rest : list Operation.t)
           (tower_num : Z) : Prop :=
  (forall op, In op rest -> changes_tower op = true ->
              GameInfo.tower_of_id gk (Operation.arg0 op)
              = GameInfo.tower_of_id g (Operation.arg0 op))
  /\ GameInfo.tower_num_of_player gk player_id = tower_num
  /\ ((exists op, In op rest /\ upgrades_base op = true) ->
      GameInfo.bases gk = GameInfo.bases g).

(** A simulator in which player 0 holds 100 coins and owns a Basic tower of
    id 0 at (6, 9). *)
Definition one_tower : Simulator.t :=
  Simulator.mk
    (GameInfo.set_coins
       (GameInfo.set_next_tower_id
          (GameInfo.set_towers (GameInfo.new (fun _ _ _ => PHEROMONE_INIT))
                               [Tower.new 0 0 6 9 Basic 0]) 1)
       (100, 50))
    ([], []).

(** A second tower at (5, 9) and the upgrade of the first one to Heavy: 30
    and 60 coins. *)
Definition build_and_upgrade : list Operation.t :=
  [Operation.mk BuildTower 5 9; Operation.mk UpgradeTower 0 1].

(** The staged operations of [player_id] as [add_operation_of_player]
    leaves them: each one valid in the game state, no two of them a clash,
    and the list affordable when it is not empty. *)
Definition well_staged (s : Simulator.t) (player_id : Z) : Prop :=
  let staged := get2 (Simulator.operations s) player_id in
  Forall (fun op => GameInfo.is_operation_valid (Simulator.info s) player_id op = true)
         staged
  /\ ForallOrdPairs (fun a b => clash a b = false) staged
  /\ (staged <> [] ->
      GameInfo.check_affordable (Simulator.info s) player_id staged = Some true).

(** A controller of player 0 on a fresh game. *)
Definition fresh_controller : Controller.t :=
  Controller.mk (GameInfo.new (fun _ _ _ => PHEROMONE_INIT)) [] [] 0.

(** An answer of an AI with a tower to build, the same tower again, the
    downgrade of a tower that does not exist and a tower outside the map. *)
Definition careless_answer : list Operation.t :=
  [Operation.mk BuildTower 5 9; Operation.mk BuildTower 5 9;
   Operation.mk DowngradeTower 7 (-1); Operation.mk BuildTower 30 30].

(** ** The generator *)

(** The position of the cell [(i, j, k)] in the order of the loops of the
    constructor. *)
Definition cell_index (i j k : Z) : Z := (i * MAP_SIZE + j) * MAP_SIZE + k.

(** The cell at a position of that order. *)
Definition cell_of (n : nat) : Z * Z * Z :=
  (Z.of_nat n / (MAP_SIZE * MAP_SIZE), (Z.of_nat n / MAP_SIZE) mod MAP_SIZE,
   Z.of_nat n mod MAP_SIZE).

(** The value that the generator returns at its [n]-th call. *)
Definition drawn (seed : Z) (n : nat) : Z := Nat.iter n Random.get seed.

(** ** Streams *)

(** The value of a row of decimal digits. *)
Definition decimal (digits : list Z) : Z :=
  fold_left (fun v c => v * 10 + (c - 48)) digits 0.

(** A stream at which the reading of a number stops: its end, or a
    character that is no digit. *)
Definition stops (s : list Z) : Prop :=
  match s with
  | c :: _ => is_digit c = false
  | [] => True
  end.

(** The number that four bytes hold, the highest first. *)
Definition big_endian (bytes : list Z) : Z :=
  fold_left (fun v b => v * 256 + b) bytes 0.

(** The content that [send_operations] writes after the header: the number
    of operations on a line, then the operations. *)
Definition payload (ops : list Operation.t) : list Z :=
  put_int (Z.of_nat (length ops)) ++ [10] ++ flat_map put_operation ops.

(** The arguments of an operation that are written with a minus sign. *)
Definition signed_args (op : Operation.t) : Z :=
  (if Operation.arg0 op <? Operation.INVALID_ARG then 1 else 0)
  + (if Operation.arg1 op <? Operation.INVALID_ARG then 1 else 0).

(** An operation with the arguments that [read_opponent_operations] reads
    for its type: none for an upgrade of the base, one for a downgrade, two
    for the others. *)
Definition well_formed (op : Operation.t) : Prop :=
  match Operation.type op with
  | UpgradeGenerationSpeed | UpgradeGeneratedAnt =>
      Operation.arg0 op = Operation.INVALID_ARG
      /\ Operation.arg1 op = Operation.INVALID_ARG
  | DowngradeTower =>
      Operation.arg0 op <> Operation.INVALID_ARG
      /\ Operation.arg1 op = Operation.INVALID_ARG
  | _ =>
      Operation.arg0 op <> Operation.INVALID_ARG
      /\ Operation.arg1 op <> Operation.INVALID_ARG
  end.

(** Three operations, one of each arity. *)
Definition three_operations : list Operation.t :=
  [Operation.mk BuildTower 5 9; Operation.mk DowngradeTower 12 (-1);
   Operation.mk UpgradeGeneratedAnt (-1) (-1)].
(* ================================================================== *)
(** * Tactics *)
(* ================================================================== *)

(** Evaluate the reads of the offset table. *)
Ltac offset_compute :=
  cbv [OFFSET OFFSET_TABLE nth Z.to_nat Pos.to_nat Pos.iter_op Nat.add fst snd] in *.


(* ================================================================== *)
(** * The model on concrete inputs *)
(* ================================================================== *)

Example distance_between_bases : distance 2 9 16 9 = 14.
Proof. reflexivity. Qed.

Example get_direction_of_neighbor : get_direction 15 9 16 9 = 4.
Proof. reflexivity. Qed.

Example get_direction_of_far_cell : get_direction 2 9 16 9 = -1.
Proof. reflexivity. Qed.

(** The constructor of a tower overwrites the [cd] it is given: a Basic
    tower starts with two rounds to wait. *)
Example new_basic_tower_cd : Tower.cd (Tower.new 0 0 5 9 Basic 0) = 2.
Proof. reflexivity. Qed.

Example quick_plus_attacks_twice :
  trunc (1 / TowerInfo.speed (TOWER_INFO QuickPlus)) = 2.
Proof. reflexivity. Qed.

(** Nearest first, then the smaller index: of three enemy ants at distances
    2, 1 and 1, a Double tower targets the second and the third. *)
Example find_targets_nearest_first :
  Tower.find_targets (Tower.new 0 0 4 9 Double 0)
    [Ant.new 0 1 2 9 10 0 0 Alive; Ant.new 1 1 3 9 10 0 0 Alive;
     Ant.new 2 1 3 9 10 0 0 Alive] 2
  = [1%nat; 2%nat].
Proof. reflexivity. Qed.

(** From its base, on a flat field, an ant of player 0 steps toward the base
    of player 1: direction 4. *)
Example next_move_from_base :
  GameInfo.next_move (Simulator.info fresh_simulator) (Ant.new 0 0 2 9 10 0 0 Alive) = 4.
Proof. reflexivity. Qed.

(** The first round of a fresh game: each base spawns an ant, each player
    earns a coin, the round counter advances. *)
Example first_round :
  exists s',
    Simulator.next_round fresh_simulator = Some (Running, s')
    /\ GameInfo.round (Simulator.info s') = 1
    /\ GameInfo.coins (Simulator.info s') = (51, 51)
    /\ GameInfo.ants (Simulator.info s')
       = [Ant.new 0 0 2 9 10 0 0 Alive; Ant.new 1 1 16 9 10 0 0 Alive]
    /\ GameInfo.next_ant_id (Simulator.info s') = 2.
Proof. eexists. split; [vm_compute; reflexivity |]. repeat split. Qed.

(* ================================================================== *)
(** * Geometry *)
(* ================================================================== *)

Lemma valid_pos_bounds x y :
  is_valid_pos x y = true -> 0 <= x < 19 /\ 0 <= y < 19.
Proof.
  unfold is_valid_pos, out_of_map, MAP_SIZE, EDGE.
  destruct (x <? 0) eqn:E1; [discriminate|].
  destruct (x >=? 2 * 10 - 1) eqn:E2; [discriminate|].
  destruct (y <? 0) eqn:E3; [discriminate|].
  destruct (y >=? 2 * 10 - 1) eqn:E4; [discriminate|].
  intros _. lia.
Qed.

Lemma distance_refl x y : distance x y x y = 0.
Proof.
  unfold distance. replace (x - x) with 0 by lia. replace (y - y) with 0 by lia.
  reflexivity.
Qed.

Lemma distance_sym x0 y0 x1 y1 :
  0 <= y0 -> 0 <= y1 -> distance x0 y0 x1 y1 = distance x1 y1 x0 y0.
Proof.
  intros H0 H1. unfold distance.
  replace (Z.abs (y1 - y0)) with (Z.abs (y0 - y1)) by lia.
  replace (Z.abs (x1 - x0)) with (Z.abs (x0 - x1)) by lia.
  destruct (Z.rem (Z.abs (y0 - y1)) 2 =? 0) eqn:Ep; cbn [negb]; [reflexivity|].
  apply Z.eqb_neq in Ep.
  destruct (x0 >? x1) eqn:E01; destruct (x1 >? x0) eqn:E10; lia.
Qed.

Lemma rem2_cases y : 0 <= y -> Z.rem y 2 = 0 \/ Z.rem y 2 = 1.
Proof. intros H. lia. Qed.

Lemma is_neighbor_even x0 y0 x1 y1 :
  Z.rem y0 2 = 0 ->
  is_neighbor x0 y0 x1 y1 <->
  (x1 = x0 /\ y1 = y0 + 1) \/ (x1 = x0 - 1 /\ y1 = y0) \/
  (x1 = x0 /\ y1 = y0 - 1) \/ (x1 = x0 + 1 /\ y1 = y0 - 1) \/
  (x1 = x0 + 1 /\ y1 = y0) \/ (x1 = x0 + 1 /\ y1 = y0 + 1).
Proof.
  intros Hp. unfold is_neighbor, neighbor. rewrite Hp. split.
  - intros (i & Hi & E).
    assert (Hc : i = 0 \/ i = 1 \/ i = 2 \/ i = 3 \/ i = 4 \/ i = 5) by lia.
    destruct Hc as [-> | [-> | [-> | [-> | [-> | ->]]]]];
      offset_compute; injection E as <- <-; lia.
  - intros [H | [H | [H | [H | [H | H]]]]]; destruct H as [-> ->];
      [exists 0 | exists 1 | exists 2 | exists 3 | exists 4 | exists 5];
      (split; [lia | offset_compute; f_equal; lia]).
Qed.

Lemma is_neighbor_odd x0 y0 x1 y1 :
  Z.rem y0 2 = 1 ->
  is_neighbor x0 y0 x1 y1 <->
  (x1 = x0 - 1 /\ y1 = y0 + 1) \/ (x1 = x0 - 1 /\ y1 = y0) \/
  (x1 = x0 - 1 /\ y1 = y0 - 1) \/ (x1 = x0 /\ y1 = y0 - 1) \/
  (x1 = x0 + 1 /\ y1 = y0) \/ (x1 = x0 /\ y1 = y0 + 1).
Proof.
  intros Hp. unfold is_neighbor, neighbor. rewrite Hp. split.
  - intros (i & Hi & E).
    assert (Hc : i = 0 \/ i = 1 \/ i = 2 \/ i = 3 \/ i = 4 \/ i = 5) by lia.
    destruct Hc as [-> | [-> | [-> | [-> | [-> | ->]]]]];
      offset_compute; injection E as <- <-; lia.
  - intros [H | [H | [H | [H | [H | H]]]]]; destruct H as [-> ->];
      [exists 0 | exists 1 | exists 2 | exists 3 | exists 4 | exists 5];
      (split; [lia | offset_compute; f_equal; lia]).
Qed.

Lemma distance_one_iff_neighbor x0 y0 x1 y1 :
  0 <= y0 -> 0 <= y1 ->
  distance x0 y0 x1 y1 = 1 <-> is_neighbor x0 y0 x1 y1.
Proof.
  intros H0 H1.
  destruct (rem2_cases y0 H0) as [Hp | Hp].
  - rewrite (is_neighbor_even _ _ _ _ Hp). unfold distance.
    destruct (Z.rem (Z.abs (y0 - y1)) 2 =? 0) eqn:Ep; cbn [negb];
      [apply Z.eqb_eq in Ep | apply Z.eqb_neq in Ep];
      [| destruct (x0 >? x1) eqn:E01]; lia.
  - rewrite (is_neighbor_odd _ _ _ _ Hp). unfold distance.
    destruct (Z.rem (Z.abs (y0 - y1)) 2 =? 0) eqn:Ep; cbn [negb];
      [apply Z.eqb_eq in Ep | apply Z.eqb_neq in Ep];
      [| destruct (x0 >? x1) eqn:E01]; lia.
Qed.

Lemma is_neighbor_sym x0 y0 x1 y1 :
  0 <= y0 -> 0 <= y1 ->
  is_neighbor x0 y0 x1 y1 -> is_neighbor x1 y1 x0 y0.
Proof.
  intros H0 H1 H.
  apply distance_one_iff_neighbor; [assumption .. |].
  rewrite distance_sym by assumption.
  apply distance_one_iff_neighbor; assumption.
Qed.

(** C7. On the board, [distance] vanishes on the diagonal, is symmetric, and
    is 1 exactly between a cell and its six neighbors under the offset table
    of its parity; neighborhood is then mutual. *)
Theorem distance_metric_on_board x0 y0 x1 y1 :
  is_valid_pos x0 y0 = true -> is_valid_pos x1 y1 = true ->
  distance x0 y0 x0 y0 = 0 /\
  distance x0 y0 x1 y1 = distance x1 y1 x0 y0 /\
  (distance x0 y0 x1 y1 = 1 <-> is_neighbor x0 y0 x1 y1) /\
  (distance x0 y0 x1 y1 = 1 -> is_neighbor x1 y1 x0 y0).
Proof.
  intros Hv0 Hv1.
  apply valid_pos_bounds in Hv0, Hv1.
  assert (H0 : 0 <= y0) by lia. assert (H1 : 0 <= y1) by lia.
  repeat split.
  - apply distance_refl.
  - apply distance_sym; assumption.
  - apply distance_one_iff_neighbor; assumption.
  - apply distance_one_iff_neighbor; assumption.
  - intros Hd. apply is_neighbor_sym; [assumption .. |].
    apply distance_one_iff_neighbor; assumption.
Qed.

Lemma distance_metric_on_board_witness :
  distance 2 9 2 9 = 0 /\
  distance 2 9 3 9 = distance 3 9 2 9 /\
  (distance 2 9 3 9 = 1 <-> is_neighbor 2 9 3 9) /\
  (distance 2 9 3 9 = 1 -> is_neighbor 3 9 2 9).
Proof.
  apply (distance_metric_on_board 2 9 3 9); reflexivity.
Defined.

(* ================================================================== *)
(** * Round cap *)
(* ================================================================== *)

(** C2. At round 512 [next_round] returns the verdict of [judge_winner] at
    once and leaves the whole state as it is: Player1Win when base 0 has the
    lower HP, Player0Win when it has the higher, Undecided when they are
    equal. *)
Theorem next_round_at_round_cap (s : Simulator.t) :
  GameInfo.round (Simulator.info s) = 512 ->
  exists verdict,
    Simulator.next_round s = Some (verdict, s) /\
    (Base.hp (get2 (GameInfo.bases (Simulator.info s)) 0)
     < Base.hp (get2 (GameInfo.bases (Simulator.info s)) 1) ->
     verdict = Player1Win) /\
    (Base.hp (get2 (GameInfo.bases (Simulator.info s)) 0)
     > Base.hp (get2 (GameInfo.bases (Simulator.info s)) 1) ->
     verdict = Player0Win) /\
    (Base.hp (get2 (GameInfo.bases (Simulator.info s)) 0)
     = Base.hp (get2 (GameInfo.bases (Simulator.info s)) 1) ->
     verdict = Undecided).
Proof.
  intros Hround. exists (Simulator.judge_winner s).
  unfold Simulator.next_round. rewrite Hround. change (512 =? MAX_ROUND) with true.
  cbv iota. split; [reflexivity|].
  unfold Simulator.judge_winner.
  set (hp0 := Base.hp (get2 (GameInfo.bases (Simulator.info s)) 0)).
  set (hp1 := Base.hp (get2 (GameInfo.bases (Simulator.info s)) 1)).
  destruct (hp0 <? hp1) eqn:Elt; [apply Z.ltb_lt in Elt | apply Z.ltb_ge in Elt].
  - split; [| split]; intros; solve [reflexivity | lia].
  - destruct (hp0 >? hp1) eqn:Egt;
      [apply Z.gtb_lt in Egt | rewrite Z.gtb_ltb in Egt; apply Z.ltb_ge in Egt];
      (split; [| split]); intros; solve [reflexivity | lia].
Qed.

Lemma next_round_at_round_cap_witness :
  exists verdict,
    Simulator.next_round
      (Simulator.mk (GameInfo.set_round (Simulator.info base_at_zero) 512) ([], []))
    = Some (verdict,
            Simulator.mk (GameInfo.set_round (Simulator.info base_at_zero) 512) ([], []))
    /\ verdict = Player0Win.
Proof.
  destruct (next_round_at_round_cap
              (Simulator.mk (GameInfo.set_round (Simulator.info base_at_zero) 512)
                            ([], []))
              eq_refl)
    as (verdict & Hnext & _ & Hwin & _).
  exists verdict. split; [exact Hnext |]. apply Hwin. reflexivity.
Defined.

(* ================================================================== *)
(** * Hits: evasion and deflector *)
(* ================================================================== *)

(** For a tower that carries the damage of its type and an ant of one of
    the three tiers, "less than half the max HP" reads the same with the
    integer half of the source and with the exact half. *)
Lemma table_damage_half (ty : TowerType) (lvl : Z) :
  0 <= lvl <= 2 ->
  (TowerInfo.attack (TOWER_INFO ty) < Z.quot (nth (Z.to_nat lvl) Ant.MAX_HP_INFO 0) 2
   <-> 2 * TowerInfo.attack (TOWER_INFO ty) < nth (Z.to_nat lvl) Ant.MAX_HP_INFO 0).
Proof.
  intros Hl.
  assert (Hc : lvl = 0 \/ lvl = 1 \/ lvl = 2) by lia.
  destruct Hc as [-> | [-> | ->]]; destruct ty; vm_compute; intuition discriminate.
Qed.

(** C5. A hit on an ant without evasion charges and with the deflector flag
    deals no damage when the damage of the tower is below half the max HP of
    the ant and the full damage otherwise; a hit on an ant with a positive
    evasion counter deals no damage and uses up exactly one charge. *)
Theorem action_evasion_and_deflector (tw : Tower.t) (ant : Ant.t) :
  (Ant.evasion ant = 0 -> Ant.deflector ant = true ->
   (Tower.damage tw < Z.quot (Ant.max_hp ant) 2 ->
    Tower.action tw ant = ant) /\
   (Z.quot (Ant.max_hp ant) 2 <= Tower.damage tw ->
    Ant.hp (Tower.action tw ant) = Ant.hp ant - Tower.damage tw) /\
   (Tower.damage tw = TowerInfo.attack (TOWER_INFO (Tower.type tw)) ->
    0 <= Ant.level ant <= 2 ->
    (Tower.damage tw < Z.quot (Ant.max_hp ant) 2
     <-> 2 * Tower.damage tw < Ant.max_hp ant)))
  /\
  (0 < Ant.evasion ant ->
   Ant.hp (Tower.action tw ant) = Ant.hp ant /\
   Ant.evasion (Tower.action tw ant) = Ant.evasion ant - 1 /\
   Ant.state (Tower.action tw ant) = Ant.state ant).
Proof.
  split.
  - intros Hev Hdef. unfold Tower.action. rewrite Hev, Hdef.
    change (0 >? 0) with false. cbv iota. cbn [andb].
    split; [| split].
    + intros Hlt. apply Z.ltb_lt in Hlt. rewrite Hlt. reflexivity.
    + intros Hge. apply Z.ltb_ge in Hge. rewrite Hge.
      destruct (TowerType_eqb (Tower.type tw) Ice);
        match goal with |- context [if ?c then _ else _] => destruct c end;
        reflexivity.
    + intros Hdmg Hlvl. rewrite Hdmg. unfold Ant.max_hp.
      apply table_damage_half. exact Hlvl.
  - intros Hev. unfold Tower.action.
    assert (E : (Ant.evasion ant >? 0) = true) by (apply Z.gtb_lt; lia).
    rewrite E. split; [| split]; reflexivity.
Qed.

Lemma action_evasion_and_deflector_witness :
  Ant.hp (Tower.action (Tower.new 0 0 4 9 Basic 0)
            (Ant.mk 7 1 3 9 25 1 3 Alive [] 0 true)) = 25
  /\ Ant.hp (Tower.action (Tower.new 0 0 4 9 Heavy 0)
               (Ant.mk 7 1 3 9 25 1 3 Alive [] 0 true)) = 10
  /\ Ant.evasion (Tower.action (Tower.new 0 0 4 9 Heavy 0)
                    (Ant.mk 7 1 3 9 25 1 3 Alive [] 2 true)) = 1.
Proof.
  split; [| split].
  - destruct (action_evasion_and_deflector
                (Tower.new 0 0 4 9 Basic 0) (Ant.mk 7 1 3 9 25 1 3 Alive [] 0 true))
      as [H _].
    destruct (H eq_refl eq_refl) as [H1 _].
    rewrite H1; [reflexivity | vm_compute; reflexivity].
  - destruct (action_evasion_and_deflector
                (Tower.new 0 0 4 9 Heavy 0) (Ant.mk 7 1 3 9 25 1 3 Alive [] 0 true))
      as [H _].
    destruct (H eq_refl eq_refl) as [_ [H2 _]].
    rewrite H2; [reflexivity | vm_compute; discriminate].
  - destruct (action_evasion_and_deflector
                (Tower.new 0 0 4 9 Heavy 0) (Ant.mk 7 1 3 9 25 1 3 Alive [] 2 true))
      as [_ H].
    destruct (H eq_refl) as [_ [H2 _]].
    rewrite H2. reflexivity.
Defined.

(* ================================================================== *)
(** * Arrays of two elements *)
(* ================================================================== *)

Lemma get2_set2_same {A : Type} (a : A * A) (i : Z) (v : A) :
  get2 (set2 a i v) i = v.
Proof. unfold get2, set2. destruct (i =? 0); reflexivity. Qed.

Lemma set2_set2_same {A : Type} (a : A * A) (i : Z) (v w : A) :
  set2 (set2 a i v) i w = set2 a i w.
Proof. unfold set2. destruct (i =? 0); reflexivity. Qed.

Lemma set2_get2 {A : Type} (a : A * A) (i : Z) : set2 a i (get2 a i) = a.
Proof. unfold get2, set2. destruct a, (i =? 0); reflexivity. Qed.

Lemma get2_set2_other {A : Type} (a : A * A) (i j : Z) (v : A) :
  (i =? 0) <> (j =? 0) -> get2 (set2 a i v) j = get2 a j.
Proof. unfold get2, set2. destruct (i =? 0), (j =? 0); intros H; cbn; congruence. Qed.

Lemma get2_set2_other_player {A : Type} (a : A * A) (i : Z) (v : A) :
  get2 (set2 a (other_player i) v) i = get2 a i.
Proof.
  unfold get2, set2, other_player. destruct (i =? 0) eqn:E; reflexivity.
Qed.

(* ================================================================== *)
(** * Economy *)
(* ================================================================== *)

Lemma check_affordable_loop_staged (g : GameInfo.t) (player_id : Z) :
  forall ops income tower_num,
    GameInfo.check_affordable_loop g player_id ops income tower_num =
    letM total := staged_income g player_id tower_num ops in Some (income + total).
Proof.
  induction ops as [| op rest IH]; intros income tower_num.
  - cbn. f_equal. lia.
  - cbn [GameInfo.check_affordable_loop staged_income].
    destruct (Operation.type op);
      try (destruct (GameInfo.get_operation_income g player_id op) as [i |];
           cbn [bind]; [| reflexivity]; rewrite IH;
           destruct (staged_income g player_id tower_num rest); cbn [bind];
           [f_equal; lia | reflexivity]).
    + rewrite IH. destruct (staged_income g player_id (tower_num + 1) rest);
        cbn [bind]; [f_equal; lia | reflexivity].
    + destruct (GameInfo.tower_of_id g (Operation.arg0 op)) as [tw |];
        cbn [bind]; [| reflexivity].
      destruct (TowerType_eqb (Tower.type tw) Basic); rewrite IH;
        match goal with
        | |- context [staged_income ?a ?b ?c ?d] => destruct (staged_income a b c d)
        end; cbn [bind]; solve [f_equal; lia | reflexivity].
Qed.

Lemma check_affordable_staged (g : GameInfo.t) (player_id : Z) (ops : list Operation.t) :
  GameInfo.check_affordable g player_id ops =
  letM total := staged_income g player_id (GameInfo.tower_num_of_player g player_id) ops in
  Some (0 <=? get2 (GameInfo.coins g) player_id + total).
Proof.
  unfold GameInfo.check_affordable. rewrite check_affordable_loop_staged.
  destruct (staged_income _ _ _ _) as [total |]; cbn [bind]; [| reflexivity].
  f_equal. rewrite Z.geb_leb. f_equal. lia.
Qed.

Lemma staged_income_builds (g : GameInfo.t) (player_id : Z) (ops : list Operation.t) :
  Forall (fun op => Operation.type op = BuildTower) ops ->
  forall tower_num,
    staged_income g player_id tower_num ops =
    Some (- fold_right Z.add 0
              (map (fun k => GameInfo.build_tower_cost (tower_num + Z.of_nat k))
                   (seq 0 (length ops)))).
Proof.
  induction 1 as [| op rest Hop _ IH]; intros tower_num.
  - reflexivity.
  - cbn [staged_income length seq map fold_right]. rewrite Hop, IH. cbn [bind].
    rewrite <- seq_shift, map_map. f_equal.
    replace (tower_num + Z.of_nat 0) with tower_num by lia.
    assert (E : map (fun k => GameInfo.build_tower_cost (tower_num + 1 + Z.of_nat k))
                    (seq 0 (length rest))
                = map (fun k => GameInfo.build_tower_cost (tower_num + Z.of_nat (S k)))
                      (seq 0 (length rest))).
    { apply map_ext. intros k. f_equal. lia. }
    rewrite E. lia.
Qed.

(** Staging an operation and removing it again gives the simulator back. *)
Lemma unstage_staged (s : Simulator.t) (player_id : Z) (op : Operation.t) :
  Simulator.set_operations (staged_with s player_id op)
    (set2 (Simulator.operations (staged_with s player_id op)) player_id
          (removelast (get2 (Simulator.operations (staged_with s player_id op))
                            player_id)))
  = s.
Proof.
  destruct s as [g ops]. unfold staged_with, Simulator.set_operations. cbn.
  rewrite get2_set2_same, set2_set2_same, removelast_last, set2_get2. reflexivity.
Qed.

(** [add_operation_of_player] in one equation: the early rejections, then
    the affordability of the staged list with the new operation. *)
Lemma add_operation_of_player_eq (s : Simulator.t) (player_id : Z) (op : Operation.t) :
  Simulator.add_operation_of_player s player_id op =
  if rejected_before_cost s player_id op then Some (false, s)
  else
    letM affordable :=
      GameInfo.check_affordable (Simulator.info s) player_id
        (get2 (Simulator.operations s) player_id ++ [op]) in
    if affordable then Some (true, staged_with s player_id op) else Some (false, s).
Proof.
  unfold Simulator.add_operation_of_player, rejected_before_cost.
  destruct (OperationType_eqb (Operation.type op) BuildTower
            && Simulator.has_build_tower_operation_at s player_id
                 (Operation.arg0 op) (Operation.arg1 op)); [reflexivity |].
  destruct ((OperationType_eqb (Operation.type op) UpgradeTower
             || OperationType_eqb (Operation.type op) DowngradeTower)
            && Simulator.has_upgrade_or_downgrade_tower_operation_of s player_id
                 (Operation.arg0 op)); [reflexivity |].
  destruct ((OperationType_eqb (Operation.type op) UpgradeGeneratedAnt
             || OperationType_eqb (Operation.type op) UpgradeGenerationSpeed)
            && Simulator.has_base_related_operation s player_id); [reflexivity |].
  destruct (GameInfo.is_operation_valid (Simulator.info s) player_id op);
    [| reflexivity].
  cbn [orb negb].
  change (Simulator.set_operations s
            (set2 (Simulator.operations s) player_id
                  (get2 (Simulator.operations s) player_id ++ [op])))
    with (staged_with s player_id op).
  replace (Simulator.info (staged_with s player_id op)) with (Simulator.info s)
    by reflexivity.
  replace (get2 (Simulator.operations (staged_with s player_id op)) player_id)
    with (get2 (Simulator.operations s) player_id ++ [op])
    by (unfold staged_with; cbn; rewrite get2_set2_same; reflexivity).
  destruct (GameInfo.check_affordable _ _ _) as [[|] |]; cbn [bind negb];
    [reflexivity | | reflexivity].
  f_equal. f_equal. 
  pose proof (unstage_staged s player_id op) as E.
  replace (get2 (Simulator.operations (staged_with s player_id op)) player_id)
    with (get2 (Simulator.operations s) player_id ++ [op]) in E
    by (unfold staged_with; cbn; rewrite get2_set2_same; reflexivity).
  exact E.
Qed.

Lemma operations_staged_with (s : Simulator.t) (player_id : Z) (op : Operation.t) :
  get2 (Simulator.operations (staged_with s player_id op)) player_id
  = get2 (Simulator.operations s) player_id ++ [op].
Proof. unfold staged_with. cbn. apply get2_set2_same. Qed.

Lemma build_tower_costs :
  GameInfo.build_tower_cost 0 = 15 /\
  GameInfo.build_tower_cost 1 = 30 /\
  GameInfo.build_tower_cost 2 = 60.
Proof. repeat split. Qed.

Lemma has_build_at_spec (s : Simulator.t) (player_id x y : Z) :
  Simulator.has_build_tower_operation_at s player_id x y =
  existsb (fun op => OperationType_eqb (Operation.type op) BuildTower
                     && (Operation.arg0 op =? x) && (Operation.arg1 op =? y))
          (get2 (Simulator.operations s) player_id).
Proof. reflexivity. Qed.

(** C3. [check_affordable] is the fold of the costs and refunds in staged
    order against the running number of towers of the player, and accepts
    exactly when coins plus that total are not negative.  With 50 coins and no
    tower, three builds cost 15, 30 and 60: the first two are staged and the
    third is refused, valid as each of them is on its own. *)
Theorem check_affordable_running_count (g : GameInfo.t) (player_id : Z) :
  (forall ops,
      GameInfo.check_affordable g player_id ops =
      letM total :=
        staged_income g player_id (GameInfo.tower_num_of_player g player_id) ops in
      Some (0 <=? get2 (GameInfo.coins g) player_id + total))
  /\
  (get2 (GameInfo.coins g) player_id = 50 ->
   GameInfo.tower_num_of_player g player_id = 0 ->
   forall b1 b2 b3,
     Operation.type b1 = BuildTower ->
     Operation.type b2 = BuildTower ->
     Operation.type b3 = BuildTower ->
     (GameInfo.build_tower_cost 0 = 15 /\
      GameInfo.build_tower_cost 1 = 30 /\
      GameInfo.build_tower_cost 2 = 60) /\
     staged_income g player_id 0 [b1; b2; b3] = Some (- (15 + 30 + 60)) /\
     GameInfo.check_affordable g player_id [b1] = Some true /\
     GameInfo.check_affordable g player_id [b1; b2] = Some true /\
     GameInfo.check_affordable g player_id [b1; b2; b3] = Some false /\
     (forall s0,
         Simulator.info s0 = g ->
         get2 (Simulator.operations s0) player_id = [] ->
         GameInfo.is_operation_valid g player_id b1 = true ->
         GameInfo.is_operation_valid g player_id b2 = true ->
         GameInfo.is_operation_valid g player_id b3 = true ->
         ((Operation.arg0 b1 =? Operation.arg0 b2)
          && (Operation.arg1 b1 =? Operation.arg1 b2)) = false ->
         ((Operation.arg0 b1 =? Operation.arg0 b3)
          && (Operation.arg1 b1 =? Operation.arg1 b3)) = false ->
         ((Operation.arg0 b2 =? Operation.arg0 b3)
          && (Operation.arg1 b2 =? Operation.arg1 b3)) = false ->
         let s1 := staged_with s0 player_id b1 in
         let s2 := staged_with s1 player_id b2 in
         Simulator.add_operation_of_player s0 player_id b1 = Some (true, s1) /\
         Simulator.add_operation_of_player s1 player_id b2 = Some (true, s2) /\
         Simulator.add_operation_of_player s2 player_id b3 = Some (false, s2))).
Proof.
  split; [apply check_affordable_staged |].
  intros Hcoins Hnum b1 b2 b3 T1 T2 T3.
  assert (A1 : GameInfo.check_affordable g player_id [b1] = Some true).
  { rewrite check_affordable_staged, Hnum, Hcoins. cbn [staged_income].
    rewrite T1. reflexivity. }
  assert (A2 : GameInfo.check_affordable g player_id [b1; b2] = Some true).
  { rewrite check_affordable_staged, Hnum, Hcoins. cbn [staged_income].
    rewrite T1, T2. reflexivity. }
  assert (A3 : GameInfo.check_affordable g player_id [b1; b2; b3] = Some false).
  { rewrite check_affordable_staged, Hnum, Hcoins. cbn [staged_income].
    rewrite T1, T2, T3. reflexivity. }
  split; [exact build_tower_costs |].
  split; [cbn [staged_income]; rewrite T1, T2, T3; reflexivity |].
  split; [exact A1 |]. split; [exact A2 |]. split; [exact A3 |].
  intros s0 I0 O0 V1 V2 V3 D12 D13 D23 s1 s2.
  assert (O1 : get2 (Simulator.operations s1) player_id = [b1]).
  { subst s1. rewrite operations_staged_with, O0. reflexivity. }
  assert (O2 : get2 (Simulator.operations s2) player_id = [b1; b2]).
  { subst s2. rewrite operations_staged_with, O1. reflexivity. }
  assert (I1 : Simulator.info s1 = g) by exact I0.
  assert (I2 : Simulator.info s2 = g) by exact I0.
  split; [| split].
  - rewrite add_operation_of_player_eq. unfold rejected_before_cost.
    rewrite has_build_at_spec, O0, I0, V1. cbn [app]. rewrite A1.
    cbn [existsb andb orb negb bind].
    unfold Simulator.has_upgrade_or_downgrade_tower_operation_of,
      Simulator.has_base_related_operation.
    rewrite O0, T1. reflexivity.
  - rewrite add_operation_of_player_eq. unfold rejected_before_cost.
    rewrite has_build_at_spec, O1, I1, V2. cbn [app]. rewrite A2.
    unfold Simulator.has_upgrade_or_downgrade_tower_operation_of,
      Simulator.has_base_related_operation.
    rewrite O1, T2. cbn [existsb]. rewrite T1.
    change (OperationType_eqb BuildTower BuildTower) with true. cbn [andb].
    rewrite D12. reflexivity.
  - rewrite add_operation_of_player_eq. unfold rejected_before_cost.
    rewrite has_build_at_spec, O2, I2, V3. cbn [app]. rewrite A3.
    unfold Simulator.has_upgrade_or_downgrade_tower_operation_of,
      Simulator.has_base_related_operation.
    rewrite O2, T3. cbn [existsb]. rewrite T1, T2.
    change (OperationType_eqb BuildTower BuildTower) with true. cbn [andb].
    rewrite D13, D23. reflexivity.
Qed.

Lemma check_affordable_running_count_witness :
  GameInfo.check_affordable (Simulator.info fresh_simulator) 0
    [Operation.mk BuildTower 5 9; Operation.mk BuildTower 5 3;
     Operation.mk BuildTower 5 15] = Some false
  /\ Simulator.add_operation_of_player
       (staged_with (staged_with fresh_simulator 0 (Operation.mk BuildTower 5 9))
                    0 (Operation.mk BuildTower 5 3))
       0 (Operation.mk BuildTower 5 15)
     = Some (false,
             staged_with (staged_with fresh_simulator 0 (Operation.mk BuildTower 5 9))
                         0 (Operation.mk BuildTower 5 3)).
Proof.
  destruct (check_affordable_running_count (Simulator.info fresh_simulator) 0)
    as [_ H].
  destruct (H eq_refl eq_refl
              (Operation.mk BuildTower 5 9) (Operation.mk BuildTower 5 3)
              (Operation.mk BuildTower 5 15) eq_refl eq_refl eq_refl)
    as (_ & _ & _ & _ & A3 & Hadd).
  split; [exact A3 |].
  destruct (Hadd fresh_simulator eq_refl eq_refl
                 eq_refl eq_refl eq_refl eq_refl eq_refl eq_refl) as (_ & _ & H3).
  exact H3.
Defined.

(* ================================================================== *)
(** * Staging operations *)
(* ================================================================== *)

(** A refused operation leaves the simulator as it was: staged lists and
    game state. *)
Lemma add_operation_refused_unchanged (s s' : Simulator.t) (player_id : Z)
      (op : Operation.t) :
  Simulator.add_operation_of_player s player_id op = Some (false, s') -> s' = s.
Proof.
  rewrite add_operation_of_player_eq.
  destruct (rejected_before_cost s player_id op); [congruence |].
  destruct (GameInfo.check_affordable _ _ _) as [[|] |]; cbn [bind]; congruence.
Qed.

(** An accepted operation is staged last and the game state is untouched. *)
Lemma add_operation_accepted_staged (s s' : Simulator.t) (player_id : Z)
      (op : Operation.t) :
  Simulator.add_operation_of_player s player_id op = Some (true, s') ->
  s' = staged_with s player_id op.
Proof.
  rewrite add_operation_of_player_eq.
  destruct (rejected_before_cost s player_id op); [congruence |].
  destruct (GameInfo.check_affordable _ _ _) as [[|] |]; cbn [bind]; congruence.
Qed.

(** The collisions that [add_operation_of_player] checks, an invalid
    operation and an unaffordable staged list all refuse the operation. *)
Lemma add_operation_refuses (s : Simulator.t) (player_id : Z) (op : Operation.t) :
  (Operation.type op = BuildTower /\
   Simulator.has_build_tower_operation_at s player_id
     (Operation.arg0 op) (Operation.arg1 op) = true)
  \/ ((Operation.type op = UpgradeTower \/ Operation.type op = DowngradeTower) /\
      Simulator.has_upgrade_or_downgrade_tower_operation_of s player_id
        (Operation.arg0 op) = true)
  \/ ((Operation.type op = UpgradeGeneratedAnt
       \/ Operation.type op = UpgradeGenerationSpeed) /\
      Simulator.has_base_related_operation s player_id = true)
  \/ GameInfo.is_operation_valid (Simulator.info s) player_id op = false
  \/ GameInfo.check_affordable (Simulator.info s) player_id
       (get2 (Simulator.operations s) player_id ++ [op]) = Some false ->
  Simulator.add_operation_of_player s player_id op = Some (false, s).
Proof.
  rewrite add_operation_of_player_eq. unfold rejected_before_cost.
  intros [[T H] | [[[T | T] H] | [[[T | T] H] | [H | H]]]];
    try (rewrite T, H; cbn; rewrite ?orb_true_r; reflexivity).
  - rewrite H. cbn [negb]. rewrite orb_true_r. reflexivity.
  - rewrite H. cbn [bind].
    match goal with |- (if ?c then _ else _) = _ => destruct c end; reflexivity.
Qed.

(** The overload of [is_operation_valid] with the staged operations refuses
    every collision of its four classes, the reuse of a weapon type among
    them. *)
Lemma is_operation_valid_among_collide (g : GameInfo.t) (player_id : Z)
      (ops : list Operation.t) (new_op : Operation.t) :
  GameInfo.collide ops new_op = true ->
  GameInfo.is_operation_valid_among g player_id ops new_op = Some false.
Proof. intros H. unfold GameInfo.is_operation_valid_among. rewrite H. reflexivity. Qed.

(** C6, at the failing input.  With a deflector staged and coins for two,
    [add_operation_of_player] accepts a second deflector in the same round,
    where [is_operation_valid] with the staged operations refuses it as a
    reuse of the weapon type. *)
Theorem add_operation_accepts_reused_weapon :
  GameInfo.collide (get2 (Simulator.operations deflector_staged) 0)
                   (Operation.mk UseDeflector 12 9) = true
  /\ GameInfo.is_operation_valid_among (Simulator.info deflector_staged) 0
       (get2 (Simulator.operations deflector_staged) 0)
       (Operation.mk UseDeflector 12 9) = Some false
  /\ Simulator.add_operation_of_player deflector_staged 0
       (Operation.mk UseDeflector 12 9)
     = Some (true,
             Simulator.mk (Simulator.info deflector_staged)
               ([Operation.mk UseDeflector 5 9; Operation.mk UseDeflector 12 9], [])).
Proof. split; [| split]; vm_compute; reflexivity. Qed.

(* ================================================================== *)
(** * Combat *)
(* ================================================================== *)









(* ================================================================== *)
(** * Lightning storm *)
(* ================================================================== *)

Lemma lightning_storm_spec (w : SuperWeapon.t) :
  forall l coins,
    GameInfo.lightning_storm w l coins
    = (map (fun ant => if struck_by w ant
                       then Ant.set_state (Ant.set_hp ant 0) Fail else ant) l,
       set2 coins (SuperWeapon.player w)
            (get2 coins (SuperWeapon.player w) + storm_reward w l)).
Proof.
  induction l as [| ant rest IH]; intros coins.
  - cbn. rewrite Z.add_0_r, set2_get2. reflexivity.
  - cbn [GameInfo.lightning_storm map]. unfold storm_reward. cbn [filter].
    fold (struck_by w ant).
    destruct (struck_by w ant) eqn:E; rewrite IH; [| reflexivity].
    cbn [map fold_right]. f_equal.
    change (Ant.reward (Ant.set_state (Ant.set_hp ant 0) Fail)) with (Ant.reward ant).
    rewrite set2_set2_same, get2_set2_same. f_equal. unfold storm_reward. lia.
Qed.

Lemma same_body_refl a : same_body a a.
Proof. unfold same_body. repeat split. Qed.

Lemma same_body_trans a b c : same_body a b -> same_body b c -> same_body a c.
Proof. unfold same_body. intuition congruence. Qed.

Lemma weapon_effect_body p w a : same_body a (weapon_effect p w a).
Proof.
  unfold weapon_effect.
  repeat match goal with |- context [if ?c then _ else _] => destruct c end;
    unfold same_body; repeat split.
Qed.

Lemma struck_by_body w a a' : same_body a a' -> struck_by w a' = struck_by w a.
Proof.
  unfold same_body, struck_by. intros (_ & Hp & Hx & Hy & _). rewrite Hp, Hx, Hy.
  reflexivity.
Qed.

Lemma reward_body a a' : same_body a a' -> Ant.reward a' = Ant.reward a.
Proof.
  unfold same_body, Ant.reward. intros (_ & _ & _ & _ & Hl & _). rewrite Hl.
  reflexivity.
Qed.

Lemma storm_reward_body w (f : Ant.t -> Ant.t) :
  (forall a, same_body a (f a)) ->
  forall l, storm_reward w (map f l) = storm_reward w l.
Proof.
  intros Hf. unfold storm_reward. induction l as [| a rest IH]; [reflexivity |].
  cbn [map filter]. rewrite (struck_by_body w a (f a) (Hf a)).
  destruct (struck_by w a); [| exact IH].
  cbn [map fold_right]. rewrite (reward_body a (f a) (Hf a)). f_equal. exact IH.
Qed.

Lemma storms_reward_body p ws (f : Ant.t -> Ant.t) :
  (forall a, same_body a (f a)) ->
  forall l, storms_reward p ws (map f l) = storms_reward p ws l.
Proof.
  intros Hf l. unfold storms_reward. f_equal. apply map_ext. intros w.
  apply storm_reward_body. exact Hf.
Qed.

Lemma apply_super_weapon_ants p g w :
  GameInfo.ants (GameInfo.apply_super_weapon p g w)
  = map (weapon_effect p w) (GameInfo.ants g).
Proof.
  unfold GameInfo.apply_super_weapon, weapon_effect.
  destruct (negb (SuperWeapon.player w =? p)); [symmetry; apply map_id |].
  destruct (SuperWeaponType_eqb (SuperWeapon.type w) LightningStorm).
  - rewrite lightning_storm_spec. reflexivity.
  - destruct (SuperWeaponType_eqb (SuperWeapon.type w) EmergencyEvasion);
      [reflexivity | symmetry; apply map_id].
Qed.

Lemma apply_super_weapon_coins p g w :
  GameInfo.coins (GameInfo.apply_super_weapon p g w)
  = set2 (GameInfo.coins g) p
         (get2 (GameInfo.coins g) p
          + (if is_storm_of p w then storm_reward w (GameInfo.ants g) else 0)).
Proof.
  unfold GameInfo.apply_super_weapon, is_storm_of.
  destruct (SuperWeapon.player w =? p) eqn:Ep; cbn [negb andb].
  - apply Z.eqb_eq in Ep.
    destruct (SuperWeaponType_eqb (SuperWeapon.type w) LightningStorm).
    + rewrite lightning_storm_spec, Ep. reflexivity.
    + rewrite Z.add_0_r, set2_get2.
      destruct (SuperWeaponType_eqb (SuperWeapon.type w) EmergencyEvasion);
        reflexivity.
  - rewrite Z.add_0_r, set2_get2. reflexivity.
Qed.

Lemma apply_active_super_weapons_fold p :
  forall ws g,
    GameInfo.ants (fold_left (GameInfo.apply_super_weapon p) ws g)
    = map (weapons_effect p ws) (GameInfo.ants g)
    /\ GameInfo.coins (fold_left (GameInfo.apply_super_weapon p) ws g)
       = set2 (GameInfo.coins g) p
              (get2 (GameInfo.coins g) p + storms_reward p ws (GameInfo.ants g)).
Proof.
  induction ws as [| w rest IH]; intros g.
  - cbn. split; [symmetry; apply map_id |].
    unfold storms_reward. cbn. rewrite Z.add_0_r, set2_get2. reflexivity.
  - cbn [fold_left]. destruct (IH (GameInfo.apply_super_weapon p g w)) as [Ha Hc].
    rewrite Ha, Hc, apply_super_weapon_ants, apply_super_weapon_coins. split.
    + rewrite map_map. reflexivity.
    + rewrite set2_set2_same, get2_set2_same.
      rewrite (storms_reward_body p rest (weapon_effect p w) (weapon_effect_body p w)).
      f_equal. unfold storms_reward. cbn [filter].
      destruct (is_storm_of p w); cbn [map fold_right]; lia.
Qed.

Lemma weapons_effect_body p : forall ws a, same_body a (weapons_effect p ws a).
Proof.
  induction ws as [| w rest IH]; intros a; [apply same_body_refl |].
  unfold weapons_effect. cbn [fold_left].
  eapply same_body_trans; [apply (weapon_effect_body p w) | apply IH].
Qed.

Lemma weapon_effect_keeps_fail p w a :
  Ant.hp a = 0 /\ Ant.state a = Fail ->
  Ant.hp (weapon_effect p w a) = 0 /\ Ant.state (weapon_effect p w a) = Fail.
Proof.
  intros [Hh Hs]. unfold weapon_effect.
  repeat match goal with |- context [if ?c then _ else _] => destruct c end;
    cbn; auto.
Qed.

Lemma weapons_effect_keeps_fail p :
  forall ws a,
    Ant.hp a = 0 /\ Ant.state a = Fail ->
    Ant.hp (weapons_effect p ws a) = 0 /\ Ant.state (weapons_effect p ws a) = Fail.
Proof.
  induction ws as [| w rest IH]; intros a H; [exact H |].
  unfold weapons_effect. cbn [fold_left]. apply IH. apply weapon_effect_keeps_fail.
  exact H.
Qed.

Lemma weapons_effect_strikes p :
  forall ws w a,
    In w ws -> is_storm_of p w = true -> struck_by w a = true ->
    Ant.hp (weapons_effect p ws a) = 0 /\ Ant.state (weapons_effect p ws a) = Fail.
Proof.
  induction ws as [| w0 rest IH]; intros w a Hin Hstorm Hstruck; [contradiction |].
  unfold weapons_effect. cbn [fold_left]. destruct Hin as [-> | Hin].
  - apply weapons_effect_keeps_fail. unfold weapon_effect.
    unfold is_storm_of in Hstorm. apply andb_prop in Hstorm.
    destruct Hstorm as [Hp Ht]. rewrite Hp, Ht, Hstruck. cbn. auto.
  - apply (IH w); [exact Hin | exact Hstorm |].
    rewrite (struck_by_body w a _ (weapon_effect_body p w0 a)). exact Hstruck.
Qed.

Lemma apply_operation_ants g p op g' :
  GameInfo.apply_operation g p op = Some g' -> GameInfo.ants g' = GameInfo.ants g.
Proof.
  unfold GameInfo.apply_operation.
  destruct (GameInfo.get_operation_income g p op) as [income |]; cbn [bind];
    [| discriminate].
  destruct (Operation.type op);
    try (intros H; injection H as <-; reflexivity).
  - destruct (TowerType_of_Z (Operation.arg1 op)); cbn [bind];
      [intros H; injection H as <-; reflexivity | discriminate].
Qed.

Lemma apply_operation_weapons g p op g' :
  GameInfo.apply_operation g p op = Some g' ->
  exists l, GameInfo.super_weapons g' = GameInfo.super_weapons g ++ l
            /\ (Operation.type op = UseLightningStorm ->
                l = [SuperWeapon.new LightningStorm p
                       (Operation.arg0 op) (Operation.arg1 op)]).
Proof.
  unfold GameInfo.apply_operation.
  destruct (GameInfo.get_operation_income g p op) as [income |]; cbn [bind];
    [| discriminate].
  destruct (Operation.type op);
    try (intros H; injection H as <-; exists []; rewrite app_nil_r;
         split; [reflexivity | discriminate]);
    try (intros H; injection H as <-; eexists; split; [reflexivity |];
         first [discriminate | reflexivity]).
  - destruct (TowerType_of_Z (Operation.arg1 op)); cbn [bind]; [| discriminate].
    intros H; injection H as <-; exists []; rewrite app_nil_r.
    split; [reflexivity | discriminate].
Qed.

Lemma apply_operations_ants p :
  forall ops g g',
    Simulator.apply_operations g p ops = Some g' ->
    GameInfo.ants g' = GameInfo.ants g.
Proof.
  induction ops as [| op rest IH]; intros g g' H; cbn in H.
  - injection H as <-. reflexivity.
  - destruct (GameInfo.apply_operation g p op) as [g1 |] eqn:E; cbn [bind] in H;
      [| discriminate].
    rewrite (IH _ _ H). eapply apply_operation_ants. exact E.
Qed.

Lemma apply_operations_weapons p :
  forall ops g g',
    Simulator.apply_operations g p ops = Some g' ->
    (forall w, In w (GameInfo.super_weapons g) -> In w (GameInfo.super_weapons g'))
    /\ (forall x y, In (Operation.mk UseLightningStorm x y) ops ->
                    In (SuperWeapon.new LightningStorm p x y)
                       (GameInfo.super_weapons g')).
Proof.
  induction ops as [| op rest IH]; intros g g' H; cbn in H.
  - injection H as <-. split; [auto | intros x y []].
  - destruct (GameInfo.apply_operation g p op) as [g1 |] eqn:E; cbn [bind] in H;
      [| discriminate].
    destruct (IH _ _ H) as [Hkeep Hnew].
    destruct (apply_operation_weapons _ _ _ _ E) as (l & Hl & Hstorm).
    split.
    + intros w Hw. apply Hkeep. rewrite Hl. apply in_or_app. left. exact Hw.
    + intros x y [-> | Hin]; [| apply Hnew; exact Hin].
      apply Hkeep. rewrite Hl, (Hstorm eq_refl). apply in_or_app. right.
      left. reflexivity.
Qed.

Lemma count_down_keeps g p w :
  In w (GameInfo.super_weapons g) ->
  SuperWeapon.player w = p ->
  1 < SuperWeapon.left_time w ->
  In (SuperWeapon.set_left_time w (SuperWeapon.left_time w - 1))
     (GameInfo.super_weapons (GameInfo.count_down_super_weapons_left_time g p)).
Proof.
  intros Hin Hp Hleft. unfold GameInfo.count_down_super_weapons_left_time. cbn.
  apply in_flat_map. exists w. split; [exact Hin |].
  rewrite Hp, Z.eqb_refl. cbn [negb].
  destruct (SuperWeapon.left_time w - 1 <=? 0) eqn:E;
    [apply Z.leb_le in E; lia | left; reflexivity].
Qed.

Lemma flat_map_flat_map {A B C : Type} (f : A -> list B) (h : B -> list C) :
  forall l, flat_map h (flat_map f l) = flat_map (fun a => flat_map h (f a)) l.
Proof.
  induction l as [| a rest IH]; [reflexivity |].
  cbn [flat_map]. rewrite flat_map_app, IH. reflexivity.
Qed.

Lemma count_down_turns_weapons p :
  forall k g,
    GameInfo.super_weapons (count_down_turns p (S k) g)
    = flat_map (aged p (S k)) (GameInfo.super_weapons g).
Proof.
  induction k as [| k IH]; intros g.
  - reflexivity.
  - change (count_down_turns p (S (S k)) g)
      with (GameInfo.count_down_super_weapons_left_time (count_down_turns p (S k) g) p).
    unfold GameInfo.count_down_super_weapons_left_time.
    cbn [GameInfo.super_weapons GameInfo.set_super_weapons].
    rewrite IH, flat_map_flat_map. apply flat_map_ext.
    intros w. unfold aged.
    destruct (SuperWeapon.player w =? p) eqn:Ep; cbn [negb].
    + destruct (SuperWeapon.left_time w - Z.of_nat (S k) <=? 0) eqn:E1;
        [apply Z.leb_le in E1 | apply Z.leb_gt in E1].
      * destruct (SuperWeapon.left_time w - Z.of_nat (S (S k)) <=? 0) eqn:E2;
          [reflexivity | apply Z.leb_gt in E2; lia].
      * cbn [flat_map SuperWeapon.set_left_time SuperWeapon.player
             SuperWeapon.left_time app].
        rewrite Ep. cbn [negb].
        replace (SuperWeapon.left_time w - Z.of_nat (S k) - 1)
          with (SuperWeapon.left_time w - Z.of_nat (S (S k))) by lia.
        destruct (SuperWeapon.left_time w - Z.of_nat (S (S k)) <=? 0);
          reflexivity.
    + cbn [flat_map app]. rewrite Ep. reflexivity.
Qed.

Lemma struck_by_iff w ant :
  struck_by w ant = true <->
  SuperWeapon.is_in_range w (Ant.x ant) (Ant.y ant) = true
  /\ Ant.player ant <> SuperWeapon.player w.
Proof.
  unfold struck_by. rewrite andb_true_iff, negb_true_iff, Z.eqb_neq. reflexivity.
Qed.

Lemma is_storm_of_iff p w :
  is_storm_of p w = true <->
  SuperWeapon.player w = p /\ SuperWeapon.type w = LightningStorm.
Proof.
  unfold is_storm_of. rewrite andb_true_iff, Z.eqb_eq. split.
  - intros [Hp Ht]. split; [exact Hp |]. destruct (SuperWeapon.type w);
      [reflexivity | discriminate ..].
  - intros [Hp ->]. split; [exact Hp | reflexivity].
Qed.

(** One run of [apply_active_super_weapons] with a storm of the player in
    the list. *)
Lemma storm_strikes (g : GameInfo.t) (p : Z) (w : SuperWeapon.t) :
  In w (GameInfo.super_weapons g) ->
  is_storm_of p w = true ->
  forall i ant,
    nth_error (GameInfo.ants g) i = Some ant ->
    struck_by w ant = true ->
    exists ant',
      nth_error (GameInfo.ants (GameInfo.apply_active_super_weapons g p)) i = Some ant'
      /\ Ant.hp ant' = 0 /\ Ant.state ant' = Fail /\ same_body ant ant'.
Proof.
  intros Hin Hstorm i ant Hi Hstruck.
  unfold GameInfo.apply_active_super_weapons.
  destruct (apply_active_super_weapons_fold p (GameInfo.super_weapons g) g) as [Ha _].
  rewrite Ha. exists (weapons_effect p (GameInfo.super_weapons g) ant).
  split; [apply map_nth_error; exact Hi |].
  destruct (weapons_effect_strikes p _ w ant Hin Hstorm Hstruck) as [Hh Hs].
  split; [exact Hh |]. split; [exact Hs |]. apply weapons_effect_body.
Qed.

(** One turn of the player with a storm given in the list after the staged
    operations are applied. *)
Lemma turn_strikes (s s' : Simulator.t) (p : Z) (w : SuperWeapon.t) :
  Simulator.apply_operations_of_player s p = Some s' ->
  (forall g2,
      Simulator.apply_operations
        (GameInfo.count_down_super_weapons_left_time (Simulator.info s) p) p
        (get2 (Simulator.operations s) p) = Some g2 ->
      In w (GameInfo.super_weapons g2)) ->
  is_storm_of p w = true ->
  forall i ant,
    nth_error (GameInfo.ants (Simulator.info s)) i = Some ant ->
    struck_by w ant = true ->
    exists ant',
      nth_error (GameInfo.ants (Simulator.info s')) i = Some ant'
      /\ Ant.hp ant' = 0 /\ Ant.state ant' = Fail /\ same_body ant ant'.
Proof.
  unfold Simulator.apply_operations_of_player.
  destruct (Simulator.apply_operations _ _ _) as [g2 |] eqn:E; cbn [bind];
    [| discriminate].
  intros H Hin Hstorm i ant Hi Hstruck. injection H as <-.
  cbn [Simulator.info Simulator.set_info].
  apply (storm_strikes g2 p w (Hin g2 eq_refl) Hstorm); [| exact Hstruck].
  rewrite (apply_operations_ants p _ _ _ E). exact Hi.
Qed.

(** C9. Whenever the storms of player [p] are applied, every ant of the
    other player inside the range of one of them ends with HP 0 and state
    Fail, whatever its state and HP were, and the coins of [p] grow by the
    kill reward of each such ant, once per storm.  This holds in the turn
    that uses the storm and in every later turn that finds it with more than
    one round left; a storm starts with 20 rounds, each turn of [p] takes
    one off, and the 20th countdown removes it: 20 strikes in all. *)
Theorem lightning_storm_strikes_all_in_range :
  (forall g p w,
      In w (GameInfo.super_weapons g) ->
      SuperWeapon.player w = p ->
      SuperWeapon.type w = LightningStorm ->
      (forall i ant,
          nth_error (GameInfo.ants g) i = Some ant ->
          SuperWeapon.is_in_range w (Ant.x ant) (Ant.y ant) = true ->
          Ant.player ant <> p ->
          exists ant',
            nth_error (GameInfo.ants (GameInfo.apply_active_super_weapons g p)) i
            = Some ant'
            /\ Ant.hp ant' = 0 /\ Ant.state ant' = Fail /\ same_body ant ant')
      /\ get2 (GameInfo.coins (GameInfo.apply_active_super_weapons g p)) p
         = get2 (GameInfo.coins g) p
           + storms_reward p (GameInfo.super_weapons g) (GameInfo.ants g))
  /\
  (forall s s' p w,
      In w (GameInfo.super_weapons (Simulator.info s)) ->
      SuperWeapon.player w = p ->
      SuperWeapon.type w = LightningStorm ->
      1 < SuperWeapon.left_time w ->
      Simulator.apply_operations_of_player s p = Some s' ->
      forall i ant,
        nth_error (GameInfo.ants (Simulator.info s)) i = Some ant ->
        SuperWeapon.is_in_range w (Ant.x ant) (Ant.y ant) = true ->
        Ant.player ant <> p ->
        exists ant',
          nth_error (GameInfo.ants (Simulator.info s')) i = Some ant'
          /\ Ant.hp ant' = 0 /\ Ant.state ant' = Fail /\ same_body ant ant')
  /\
  (forall s s' p x y,
      In (Operation.mk UseLightningStorm x y) (get2 (Simulator.operations s) p) ->
      Simulator.apply_operations_of_player s p = Some s' ->
      forall i ant,
        nth_error (GameInfo.ants (Simulator.info s)) i = Some ant ->
        distance (Ant.x ant) (Ant.y ant) x y <= 3 ->
        Ant.player ant <> p ->
        exists ant',
          nth_error (GameInfo.ants (Simulator.info s')) i = Some ant'
          /\ Ant.hp ant' = 0 /\ Ant.state ant' = Fail /\ same_body ant ant')
  /\
  (forall p x y,
      SuperWeapon.left_time (SuperWeapon.new LightningStorm p x y) = 20
      /\ forall k,
          aged p (S k) (SuperWeapon.new LightningStorm p x y)
          = if (S k <? 20)%nat
            then [SuperWeapon.set_left_time (SuperWeapon.new LightningStorm p x y)
                    (20 - Z.of_nat (S k))]
            else [])
  /\
  (forall p k g,
      GameInfo.super_weapons (count_down_turns p (S k) g)
      = flat_map (aged p (S k)) (GameInfo.super_weapons g)).
Proof.
  split; [| split; [| split; [| split]]].
  - intros g p w Hin Hp Ht.
    assert (Hstorm : is_storm_of p w = true) by (apply is_storm_of_iff; auto).
    split.
    + intros i ant Hi Hrange Hpl.
      apply (storm_strikes g p w Hin Hstorm i ant Hi).
      apply struck_by_iff. rewrite Hp. auto.
    + unfold GameInfo.apply_active_super_weapons.
      destruct (apply_active_super_weapons_fold p (GameInfo.super_weapons g) g)
        as [_ Hc].
      rewrite Hc. apply get2_set2_same.
  - intros s s' p w Hin Hp Ht Hleft Hturn i ant Hi Hrange Hpl.
    set (w' := SuperWeapon.set_left_time w (SuperWeapon.left_time w - 1)).
    apply (turn_strikes s s' p w' Hturn).
    + intros g2 E.
      apply (proj1 (apply_operations_weapons p _ _ _ E)).
      apply count_down_keeps; assumption.
    + apply is_storm_of_iff. split; assumption.
    + exact Hi.
    + apply struck_by_iff. split; [exact Hrange | cbn; rewrite Hp; exact Hpl].
  - intros s s' p x y Hin Hturn i ant Hi Hdist Hpl.
    apply (turn_strikes s s' p (SuperWeapon.new LightningStorm p x y) Hturn).
    + intros g2 E.
      apply (proj2 (apply_operations_weapons p _ _ _ E)). exact Hin.
    + apply is_storm_of_iff. split; reflexivity.
    + exact Hi.
    + apply struck_by_iff. split; [| exact Hpl].
      unfold SuperWeapon.is_in_range. cbn. apply Z.leb_le. exact Hdist.
  - intros p x y. split; [reflexivity |].
    intros k. unfold aged.
    assert (P : SuperWeapon.player (SuperWeapon.new LightningStorm p x y) = p)
      by reflexivity.
    assert (L : SuperWeapon.left_time (SuperWeapon.new LightningStorm p x y) = 20)
      by reflexivity.
    rewrite P, L, Z.eqb_refl. cbn [negb].
    destruct (S k <? 20)%nat eqn:E;
      [apply Nat.ltb_lt in E | apply Nat.ltb_ge in E].
    + destruct (20 - Z.of_nat (S k) <=? 0) eqn:E2;
        [apply Z.leb_le in E2; lia | reflexivity].
    + destruct (20 - Z.of_nat (S k) <=? 0) eqn:E2;
        [reflexivity | apply Z.leb_gt in E2; lia].
  - exact count_down_turns_weapons.
Qed.

Lemma lightning_storm_strikes_all_in_range_witness :
  exists s',
    Simulator.apply_operations_of_player storm_staged 0 = Some s'
    /\ (exists ant', nth_error (GameInfo.ants (Simulator.info s')) 0 = Some ant'
                     /\ Ant.hp ant' = 0 /\ Ant.state ant' = Fail)
    /\ (exists ant', nth_error (GameInfo.ants (Simulator.info s')) 1 = Some ant'
                     /\ Ant.hp ant' = 0 /\ Ant.state ant' = Fail)
    /\ GameInfo.coins (Simulator.info s') = (3 + 5, 50).
Proof.
  destruct (Simulator.apply_operations_of_player storm_staged 0) as [s' |] eqn:E;
    [| vm_compute in E; discriminate].
  exists s'. split; [reflexivity |].
  destruct lightning_storm_strikes_all_in_range as (_ & _ & H & _).
  split; [| split].
  - destruct (H storm_staged s' 0 9 9 (or_introl eq_refl) E 0%nat
                (Ant.new 0 1 10 9 10 0 3 Alive) eq_refl)
      as (ant' & Hn & Hh & Hs & _).
    + vm_compute. discriminate.
    + discriminate.
    + exists ant'. auto.
  - destruct (H storm_staged s' 0 9 9 (or_introl eq_refl) E 1%nat
                (Ant.mk 1 1 8 10 0 1 5 Fail [] 0 false) eq_refl)
      as (ant' & Hn & Hh & Hs & _).
    + vm_compute. discriminate.
    + discriminate.
    + exists ant'. auto.
  - vm_compute in E. injection E as <-. reflexivity.
Defined.

(* ================================================================== *)
(** * Movement *)
(* ================================================================== *)

Lemma next_move_pheromone g1 g ant :
  GameInfo.pheromone g1 = GameInfo.pheromone g ->
  GameInfo.next_move g1 ant = GameInfo.next_move g ant.
Proof.
  intros E. unfold GameInfo.next_move, GameInfo.phero_row. rewrite E. reflexivity.
Qed.

Lemma stepped_pheromone g1 g ant :
  GameInfo.pheromone g1 = GameInfo.pheromone g -> stepped g1 ant = stepped g ant.
Proof.
  intros E. unfold stepped. rewrite (next_move_pheromone g1 g _ E). reflexivity.
Qed.

Lemma moved_pheromone g1 g :
  GameInfo.pheromone g1 = GameInfo.pheromone g ->
  forall ant, moved g1 ant = moved g ant.
Proof.
  intros E ant. unfold moved. rewrite (stepped_pheromone g1 g ant E). reflexivity.
Qed.

Lemma arrivals_pheromone g1 g q l :
  GameInfo.pheromone g1 = GameInfo.pheromone g -> arrivals g1 q l = arrivals g q l.
Proof.
  intros E. unfold arrivals. do 2 f_equal. apply filter_ext. intros ant.
  unfold arrives. rewrite (stepped_pheromone g1 g ant E). reflexivity.
Qed.

(** One iteration of the loop of [move_ants]. *)
Lemma move_loop_step g done ant rest :
  Simulator.move_loop g done (ant :: rest) =
  if arrives g ant then
    let g1 := GameInfo.update_base_hp g (other_player (Ant.player ant)) (-1) in
    if base_hp g1 (other_player (Ant.player ant)) <=? 0
    then (if Ant.player ant =? 0 then Player0Win else Player1Win,
          GameInfo.set_ants g1 (done ++ moved g ant :: rest))
    else Simulator.move_loop g1 (done ++ [moved g ant]) rest
  else Simulator.move_loop g (done ++ [moved g ant]) rest.
Proof.
  cbn [Simulator.move_loop]. unfold arrives, moved, base_hp.
  change (Ant.state (Ant.set_age ant (Ant.age ant + 1))) with (Ant.state ant).
  destruct (AntState_eqb (Ant.state ant) Fail) eqn:Efail; cbn [negb andb];
    [reflexivity |].
  fold (stepped g ant).
  destruct (Simulator.at_enemy_base (stepped g ant)) eqn:Ebase; [| reflexivity].
  assert (Hpl : Ant.player (stepped g ant) = Ant.player ant).
  { unfold stepped.
    repeat match goal with |- context [if ?c then _ else _] => destruct c end;
      reflexivity. }
  cbn [Ant.set_state Ant.player Ant.state AntState_eqb]. rewrite Hpl.
  reflexivity.
Qed.

Lemma base_hp_update g p c q :
  q = 0 \/ q = 1 ->
  base_hp (GameInfo.update_base_hp g (other_player p) c) q
  = base_hp g q + (if other_player p =? q then c else 0).
Proof.
  unfold base_hp, GameInfo.update_base_hp, other_player, get2, set2.
  intros [-> | ->]; destruct (p =? 0); cbn; lia.
Qed.

Lemma arrivals_cons g q ant l :
  arrivals g q (ant :: l)
  = (if arrives g ant && (other_player (Ant.player ant) =? q) then 1 else 0)
    + arrivals g q l.
Proof.
  unfold arrivals. cbn [filter].
  destruct (arrives g ant && (other_player (Ant.player ant) =? q));
    cbn [length]; lia.
Qed.

(** The movement phase as a whole: the first [k] ants have had their
    iteration, the others are untouched, and each base has lost one HP per
    ant that reached it; [k] is the number of ants unless the phase returns a
    win. *)
Lemma move_loop_spec :
  forall todo g done verdict g',
    Simulator.move_loop g done todo = (verdict, g') ->
    exists k,
      (k <= length todo)%nat
      /\ GameInfo.ants g' = done ++ map (moved g) (firstn k todo) ++ skipn k todo
      /\ GameInfo.pheromone g' = GameInfo.pheromone g
      /\ base_hp g' 0 = base_hp g 0 - arrivals g 0 (firstn k todo)
      /\ base_hp g' 1 = base_hp g 1 - arrivals g 1 (firstn k todo)
      /\ (verdict = Running -> k = length todo).
Proof.
  induction todo as [| ant rest IH]; intros g done verdict g' H.
  - cbn in H. injection H as <- <-. exists 0%nat. cbn.
    rewrite app_nil_r. repeat split; try reflexivity; unfold base_hp; cbn; lia.
  - rewrite move_loop_step in H. cbv zeta in H.
    set (g1 := GameInfo.update_base_hp g (other_player (Ant.player ant)) (-1)) in *.
    assert (Hph : GameInfo.pheromone g1 = GameInfo.pheromone g) by reflexivity.
    destruct (arrives g ant) eqn:Earr.
    + destruct (base_hp g1 (other_player (Ant.player ant)) <=? 0) eqn:Edown.
      * injection H as <- <-. exists 1%nat.
        cbn [length firstn skipn map app GameInfo.ants GameInfo.set_ants].
        split; [lia |]. split; [reflexivity |]. split; [reflexivity |].
        rewrite !arrivals_cons, Earr. cbn [andb].
        change (arrivals g 0 []) with 0. change (arrivals g 1 []) with 0.
        change (base_hp (GameInfo.set_ants g1
                           (done ++ moved g ant :: rest)) 0) with (base_hp g1 0).
        change (base_hp (GameInfo.set_ants g1
                           (done ++ moved g ant :: rest)) 1) with (base_hp g1 1).
        subst g1. rewrite !base_hp_update by auto.
        split; [destruct (other_player (Ant.player ant) =? 0); lia |].
        split; [destruct (other_player (Ant.player ant) =? 1); lia |].
        destruct (Ant.player ant =? 0); discriminate.
      * apply IH in H. destruct H as (k & Hk & Hants & Hp & H0 & H1 & Hrun).
        exists (S k). cbn [length firstn skipn map].
        split; [lia |]. split.
        { rewrite Hants, <- app_assoc.
          rewrite (map_ext _ _ (moved_pheromone g1 g Hph)). reflexivity. }
        split; [rewrite Hp; exact Hph |].
        rewrite !arrivals_cons, Earr. cbn [andb].
        rewrite (arrivals_pheromone g1 g 0 _ Hph) in H0.
        rewrite (arrivals_pheromone g1 g 1 _ Hph) in H1.
        subst g1. rewrite base_hp_update in H0 by auto.
        rewrite base_hp_update in H1 by auto.
        split; [destruct (other_player (Ant.player ant) =? 0); lia |].
        split; [destruct (other_player (Ant.player ant) =? 1); lia |].
        intros Hv. rewrite (Hrun Hv). reflexivity.
    + apply IH in H. destruct H as (k & Hk & Hants & Hp & H0 & H1 & Hrun).
      exists (S k). cbn [length firstn skipn map].
      split; [lia |]. split.
      { rewrite Hants, <- app_assoc. reflexivity. }
      split; [exact Hp |].
      rewrite !arrivals_cons, Earr. cbn [andb].
      split; [lia |]. split; [lia |].
      intros Hv. rewrite (Hrun Hv). reflexivity.
Qed.


Lemma phero_row_not_eligible g ant i :
  reverses ant i || blocked ant i = true -> GameInfo.phero_row g ant i = ((-1)%Q, (-1)%Q).
Proof.
  unfold reverses, blocked, neighbor, GameInfo.phero_row. cbn [fst snd].
  intros H. rewrite H. reflexivity.
Qed.

(** With no eligible direction every row of [phero] keeps its initial -1 and
    [max_element] returns the first one. *)
Lemma next_move_boxed_in g ant : boxed_in ant = true -> GameInfo.next_move g ant = 0.
Proof.
  unfold boxed_in, DIRECTIONS. cbn [forallb].
  rewrite !andb_true_iff. intros (H0 & H1 & H2 & H3 & H4 & H5 & _).
  unfold GameInfo.next_move. cbn [map].
  rewrite !phero_row_not_eligible by assumption.
  reflexivity.
Qed.

Lemma coordinates_in x : 0 <= x < 19 -> In x COORDINATES.
Proof.
  intros H. unfold COORDINATES. apply in_map_iff. exists (Z.to_nat x).
  split; [lia |]. apply in_seq. change (Z.to_nat MAP_SIZE) with 19%nat. lia.
Qed.

Lemma two_ways_everywhere_true : two_ways_everywhere = true.
Proof. vm_compute. reflexivity. Qed.

Lemma valid_pos_two_ways x y :
  is_valid_pos x y = true -> (2 <= length (path_neighbors x y))%nat.
Proof.
  intros Hv. pose proof (valid_pos_bounds x y Hv) as [Hx Hy].
  pose proof two_ways_everywhere_true as H. unfold two_ways_everywhere in H.
  rewrite forallb_forall in H. specialize (H x (coordinates_in x Hx)).
  rewrite forallb_forall in H. specialize (H y (coordinates_in y Hy)).
  rewrite Hv in H. cbn [negb orb] in H. apply Z.leb_le in H. lia.
Qed.

Lemma directions_nodup : NoDup DIRECTIONS.
Proof.
  unfold DIRECTIONS.
  repeat (constructor; [cbn; intros H; repeat destruct H as [H | H]; try discriminate; exact H |]).
  constructor.
Qed.

(** An ant on a cell of the board always has an eligible direction. *)
Lemma on_board_not_boxed_in ant :
  is_valid_pos (Ant.x ant) (Ant.y ant) = true -> boxed_in ant = false.
Proof.
  intros Hv. apply valid_pos_two_ways in Hv.
  destruct (boxed_in ant) eqn:Hbox; [exfalso | reflexivity].
  unfold boxed_in in Hbox. rewrite forallb_forall in Hbox.
  assert (Hnd : NoDup (path_neighbors (Ant.x ant) (Ant.y ant)))
    by (apply NoDup_filter, directions_nodup).
  destruct (path_neighbors (Ant.x ant) (Ant.y ant)) as [| i [| j rest]] eqn:Ep;
    cbn in Hv; try lia.
  assert (Hi : In i (path_neighbors (Ant.x ant) (Ant.y ant)))
    by (rewrite Ep; left; reflexivity).
  assert (Hj : In j (path_neighbors (Ant.x ant) (Ant.y ant)))
    by (rewrite Ep; right; left; reflexivity).
  apply filter_In in Hi, Hj. destruct Hi as [Hid Hip], Hj as [Hjd Hjp].
  pose proof (Hbox i Hid) as Bi. pose proof (Hbox j Hjd) as Bj.
  unfold blocked in Bi, Bj. rewrite Hip in Bi. rewrite Hjp in Bj.
  cbn [negb] in Bi, Bj. rewrite orb_false_r in Bi, Bj.
  unfold reverses in Bi, Bj. apply andb_prop in Bi, Bj.
  destruct Bi as [_ Bi], Bj as [_ Bj]. apply Z.eqb_eq in Bi, Bj.
  assert (Hij : i <> j).
  { inversion Hnd as [| ? ? Hnot _]; subst. intros ->. apply Hnot. left. reflexivity. }
  unfold DIRECTIONS in Hid, Hjd. cbn in Hid, Hjd.
  assert (0 <= i < 6) by (repeat destruct Hid as [Hid | Hid]; try lia; contradiction).
  assert (0 <= j < 6) by (repeat destruct Hjd as [Hjd | Hjd]; try lia; contradiction).
  lia.
Qed.

Lemma move_ants_spec (s s' : Simulator.t) verdict :
  Simulator.move_ants s = (verdict, s') ->
  exists k,
    (k <= length (GameInfo.ants (Simulator.info s)))%nat
    /\ GameInfo.ants (Simulator.info s')
       = map (moved (Simulator.info s)) (firstn k (GameInfo.ants (Simulator.info s)))
         ++ skipn k (GameInfo.ants (Simulator.info s))
    /\ base_hp (Simulator.info s') 0
       = base_hp (Simulator.info s) 0
         - arrivals (Simulator.info s) 0 (firstn k (GameInfo.ants (Simulator.info s)))
    /\ base_hp (Simulator.info s') 1
       = base_hp (Simulator.info s) 1
         - arrivals (Simulator.info s) 1 (firstn k (GameInfo.ants (Simulator.info s)))
    /\ (verdict = Running -> k = length (GameInfo.ants (Simulator.info s))).
Proof.
  unfold Simulator.move_ants.
  destruct (Simulator.move_loop _ _ _) as [v g'] eqn:E.
  intros H. injection H as <- <-.
  apply move_loop_spec in E. destruct E as (k & Hk & Hants & _ & H0 & H1 & Hrun).
  exists k. cbn [Simulator.info Simulator.set_info]. auto.
Qed.

(** C1, as the code has it.  An Alive ant within the age limit that has no
    eligible direction is moved all the same: [next_move] returns direction
    0, and the movement phase steps the ant by the offset of direction 0,
    appends 0 to its path and increments its age.  On the map of the game
    the case does not arise for an ant on a cell of the board: each valid
    cell has two path neighbors at least, and a reversal excludes one. *)
Theorem boxed_in_ant_moves_in_direction_0 :
  (forall g ant,
      Ant.state ant = Alive ->
      Ant.age ant + 1 <= Ant.AGE_LIMIT ->
      boxed_in ant = true ->
      GameInfo.next_move g (Ant.set_age ant (Ant.age ant + 1)) = 0
      /\ Ant.x (moved g ant) = Ant.x ant + fst (OFFSET (Z.rem (Ant.y ant) 2) 0)
      /\ Ant.y (moved g ant) = Ant.y ant + snd (OFFSET (Z.rem (Ant.y ant) 2) 0)
      /\ Ant.path (moved g ant) = Ant.path ant ++ [0]
      /\ Ant.age (moved g ant) = Ant.age ant + 1)
  /\
  (forall s s' i ant,
      Simulator.move_ants s = (Running, s') ->
      nth_error (GameInfo.ants (Simulator.info s)) i = Some ant ->
      nth_error (GameInfo.ants (Simulator.info s')) i
      = Some (moved (Simulator.info s) ant))
  /\
  (forall ant,
      is_valid_pos (Ant.x ant) (Ant.y ant) = true -> boxed_in ant = false).
Proof.
  split; [| split].
  - intros g ant Hst Hage Hbox.
    assert (Hnext : GameInfo.next_move g (Ant.set_age ant (Ant.age ant + 1)) = 0)
      by (apply next_move_boxed_in; exact Hbox).
    split; [exact Hnext |].
    assert (E : (Ant.age ant + 1 >? Ant.AGE_LIMIT) = false)
      by (rewrite Z.gtb_ltb; apply Z.ltb_ge; exact Hage).
    destruct ant as [aid apl ax ay ahp alvl aage ast apath aev adef].
    cbn [Ant.state Ant.age Ant.set_age] in Hst, E, Hnext. subst ast.
    unfold moved, stepped.
    cbn [Ant.state Ant.age Ant.set_age Ant.set_state AntState_eqb
         Ant.id Ant.player Ant.x Ant.y Ant.hp Ant.level Ant.path Ant.evasion
         Ant.deflector].
    rewrite E. cbn [Ant.state AntState_eqb]. rewrite Hnext.
    destruct (Simulator.at_enemy_base _);
      cbn [Ant.move Ant.set_state Ant.state Ant.x Ant.y Ant.path Ant.age
           AntState_eqb];
      repeat split.
  - intros s s' i ant Hmove Hi.
    apply move_ants_spec in Hmove. destruct Hmove as (k & _ & Hants & _ & _ & Hrun).
    rewrite Hants, (Hrun eq_refl), firstn_all, skipn_all, app_nil_r.
    apply map_nth_error. exact Hi.
  - exact on_board_not_boxed_in.
Qed.

Lemma boxed_in_ant_moves_in_direction_0_witness :
  Ant.path (moved (Simulator.info stray_simulator) stray_ant) = [0]
  /\ nth_error (GameInfo.ants (Simulator.info (snd (Simulator.move_ants stray_simulator)))) 0
     = Some (moved (Simulator.info stray_simulator) stray_ant)
  /\ boxed_in (Ant.new 0 0 2 9 10 0 0 Alive) = false.
Proof.
  destruct boxed_in_ant_moves_in_direction_0 as (H1 & H2 & H3).
  split; [| split].
  - destruct (H1 (Simulator.info stray_simulator) stray_ant eq_refl) as (_ & _ & _ & Hp & _).
    + vm_compute. discriminate.
    + reflexivity.
    + exact Hp.
  - apply (H2 stray_simulator (snd (Simulator.move_ants stray_simulator)) 0%nat stray_ant);
      reflexivity.
  - apply H3. reflexivity.
Defined.

(** C1, the statement of the specification at a concrete ant.  The ant is
    Alive and has no eligible direction, yet the movement phase takes it from
    (0, 0) to (0, 1) and records direction 0 in its path. *)
Lemma boxed_in_ant_does_not_stay :
  Ant.state stray_ant = Alive
  /\ boxed_in stray_ant = true
  /\ GameInfo.ants (Simulator.info stray_simulator) = [stray_ant]
  /\ exists s' ant',
      Simulator.move_ants stray_simulator = (Running, s')
      /\ GameInfo.ants (Simulator.info s') = [ant']
      /\ (Ant.x stray_ant, Ant.y stray_ant) = (0, 0)
      /\ (Ant.x ant', Ant.y ant') = (0, 1)
      /\ Ant.path stray_ant = []
      /\ Ant.path ant' = [0]
      /\ Ant.age ant' = Ant.age stray_ant + 1.
Proof.
  split; [reflexivity |]. split; [reflexivity |]. split; [reflexivity |].
  eexists. eexists. split; [vm_compute; reflexivity |].
  cbn. repeat split.
Qed.

(* ================================================================== *)
(** * Base HP along a round *)
(* ================================================================== *)









(* ================================================================== *)
(** * Pheromone attenuation *)
(* ================================================================== *)

#[local] Open Scope Q_scope.








Lemma attenuate_floor v : PHEROMONE_MIN <= v -> PHEROMONE_MIN <= GameInfo.attenuate v.
Proof.
  unfold GameInfo.attenuate, PHEROMONE_MIN, PHEROMONE_ATTENUATING_RATIO, PHEROMONE_INIT.
  intros H. lra.
Qed.


Lemma attenuation_on_field g i j k :
  on_field i j k ->
  GameInfo.pheromone (GameInfo.global_pheromone_attenuation g) i j k
  = GameInfo.attenuate (GameInfo.pheromone g i j k).
Proof.
  unfold on_field, MAP_SIZE, EDGE. intros (Hi & Hj & Hk).
  unfold GameInfo.global_pheromone_attenuation, MAP_SIZE, EDGE. cbn.
  replace (0 <=? i)%Z with true by (symmetry; apply Z.leb_le; lia).
  replace (i <? 2)%Z with true by (symmetry; apply Z.ltb_lt; lia).
  replace (0 <=? j)%Z with true by (symmetry; apply Z.leb_le; lia).
  replace (j <? 19)%Z with true by (symmetry; apply Z.ltb_lt; lia).
  replace (0 <=? k)%Z with true by (symmetry; apply Z.leb_le; lia).
  replace (k <? 19)%Z with true by (symmetry; apply Z.ltb_lt; lia).
  reflexivity.
Qed.




#[local] Close Scope Q_scope.

(* ================================================================== *)
(** * Further properties of the code *)
(* ================================================================== *)

#[local] Open Scope Q_scope.
#[local] Open Scope Z_scope.

(* ================================================================== *)
(** * Geometry of the board *)
(* ================================================================== *)

(** Twice the distance, in doubled coordinates: the larger of twice the
    row difference and of the column difference plus the row difference. *)
Lemma distance_doubled x0 y0 x1 y1 :
  0 <= y0 -> 0 <= y1 ->
  2 * distance x0 y0 x1 y1 =
  Z.max (2 * Z.abs (y0 - y1)) (Z.abs (doubled x0 y0 - doubled x1 y1) + Z.abs (y0 - y1)).
Proof.
  intros H0 H1. unfold distance, doubled.
  destruct (Z.eqb_spec (Z.rem (Z.abs (y0 - y1)) 2) 0) as [E | E]; cbn [negb].
  - lia.
  - destruct (x0 >? x1) eqn:G; lia.
Qed.

(** The doubled coordinates of the six neighbors. *)
Lemma neighbor_doubled x y i :
  0 <= y -> 0 <= i < 6 -> 0 <= snd (neighbor x y i) ->
  let n := neighbor x y i in
  (Z.abs (doubled (fst n) (snd n) - doubled x y) = 1 /\ Z.abs (snd n - y) = 1)
  \/ (Z.abs (doubled (fst n) (snd n) - doubled x y) = 2 /\ snd n = y).
Proof.
  intros Hy Hi Hy'. cbv zeta.
  assert (Hp : Z.rem y 2 = 0 \/ Z.rem y 2 = 1) by lia.
  assert (Hc : i = 0 \/ i = 1 \/ i = 2 \/ i = 3 \/ i = 4 \/ i = 5) by lia.
  unfold neighbor, doubled in *.
  destruct Hp as [Hp | Hp]; rewrite Hp in *;
    destruct Hc as [-> | [-> | [-> | [-> | [-> | ->]]]]]; offset_compute; lia.
Qed.

(** X1. [distance] obeys the triangle inequality on the rows [y >= 0]: with
    identity and symmetry, it is a metric there. *)
Theorem distance_triangle_inequality x0 y0 x1 y1 x2 y2 :
  0 <= y0 -> 0 <= y1 -> 0 <= y2 ->
  distance x0 y0 x2 y2 <= distance x0 y0 x1 y1 + distance x1 y1 x2 y2.
Proof.
  intros H0 H1 H2.
  pose proof (distance_doubled x0 y0 x2 y2 H0 H2).
  pose proof (distance_doubled x0 y0 x1 y1 H0 H1).
  pose proof (distance_doubled x1 y1 x2 y2 H1 H2).
  generalize dependent (distance x0 y0 x2 y2).
  generalize dependent (distance x0 y0 x1 y1).
  generalize dependent (distance x1 y1 x2 y2).
  unfold doubled. intros. lia.
Qed.

Lemma distance_triangle_inequality_witness :
  distance 2 9 16 9 <= distance 2 9 9 4 + distance 9 4 16 9.
Proof. apply (distance_triangle_inequality 2 9 9 4 16 9); lia. Defined.

Lemma step_changes_distance x y i tx ty :
  0 <= y -> 0 <= i < 6 -> 0 <= snd (neighbor x y i) -> 0 <= ty ->
  -1 <= distance (fst (neighbor x y i)) (snd (neighbor x y i)) tx ty
        - distance x y tx ty <= 1.
Proof.
  intros Hy Hi Hy' Hty.
  pose proof (neighbor_doubled x y i Hy Hi Hy') as Hn. cbv zeta in Hn.
  pose proof (distance_doubled (fst (neighbor x y i)) (snd (neighbor x y i)) tx ty Hy' Hty).
  pose proof (distance_doubled x y tx ty Hy Hty).
  generalize dependent (distance (fst (neighbor x y i)) (snd (neighbor x y i)) tx ty).
  generalize dependent (distance x y tx ty).
  generalize dependent (doubled (fst (neighbor x y i)) (snd (neighbor x y i))).
  generalize dependent (snd (neighbor x y i)).
  generalize dependent (doubled x y). generalize dependent (doubled tx ty).
  intros. lia.
Qed.


(** The six offsets of a row parity are pairwise distinct. *)
Lemma offsets_distinct p i j :
  (p = 0 \/ p = 1) -> 0 <= i < 6 -> 0 <= j < 6 -> OFFSET p i = OFFSET p j -> i = j.
Proof.
  intros Hp Hi Hj.
  assert (Hci : i = 0 \/ i = 1 \/ i = 2 \/ i = 3 \/ i = 4 \/ i = 5) by lia.
  assert (Hcj : j = 0 \/ j = 1 \/ j = 2 \/ j = 3 \/ j = 4 \/ j = 5) by lia.
  destruct Hp as [-> | ->];
    destruct Hci as [-> | [-> | [-> | [-> | [-> | ->]]]]];
    destruct Hcj as [-> | [-> | [-> | [-> | [-> | ->]]]]];
    offset_compute; congruence.
Qed.

Lemma get_direction_from_found p dx dy dirs :
  get_direction_from p dx dy dirs <> -1 ->
  In (get_direction_from p dx dy dirs) dirs
  /\ OFFSET p (get_direction_from p dx dy dirs) = (dx, dy).
Proof.
  induction dirs as [| i rest IH]; cbn [get_direction_from]; [congruence |].
  destruct ((fst (OFFSET p i) =? dx) && (snd (OFFSET p i) =? dy)) eqn:E.
  - intros _. apply andb_prop in E. destruct E as [E1 E2].
    apply Z.eqb_eq in E1, E2. split; [left; reflexivity |].
    destruct (OFFSET p i); cbn [fst snd] in *; congruence.
  - intros H. destruct (IH H) as [Hin Ho]. split; [right; exact Hin | exact Ho].
Qed.

Lemma get_direction_from_first p i dirs :
  (p = 0 \/ p = 1) -> 0 <= i < 6 -> In i dirs ->
  Forall (fun j => 0 <= j < 6) dirs ->
  get_direction_from p (fst (OFFSET p i)) (snd (OFFSET p i)) dirs = i.
Proof.
  intros Hp Hi. induction dirs as [| j rest IH]; intros Hin Hall; [contradiction |].
  cbn [get_direction_from]. inversion Hall as [| ? ? Hj Hrest]; subst.
  destruct ((fst (OFFSET p j) =? fst (OFFSET p i))
            && (snd (OFFSET p j) =? snd (OFFSET p i))) eqn:E.
  - apply andb_prop in E. destruct E as [E1 E2]. apply Z.eqb_eq in E1, E2.
    apply (offsets_distinct p j i Hp Hj Hi).
    destruct (OFFSET p j), (OFFSET p i); cbn [fst snd] in *; congruence.
  - destruct Hin as [-> | Hin].
    + rewrite !Z.eqb_refl in E. discriminate.
    + apply IH; assumption.
Qed.

Lemma directions_range : Forall (fun j => 0 <= j < 6) DIRECTIONS.
Proof. unfold DIRECTIONS. repeat constructor; lia. Qed.

Lemma in_directions i : 0 <= i < 6 <-> In i DIRECTIONS.
Proof.
  unfold DIRECTIONS. cbn [In]. lia.
Qed.

(** X2. [get_direction] inverts the step to a neighbor: from a cell of a row
    [y0 >= 0] it returns [i] for the neighbor in direction [i], the direction
    it returns for a neighbor leads to that neighbor, and it returns -1 for a
    cell that is no neighbor. *)
Theorem get_direction_inverts_neighbor (x0 y0 x1 y1 : Z) :
  0 <= y0 ->
  (forall i, 0 <= i < 6 ->
     get_direction x0 y0 (fst (neighbor x0 y0 i)) (snd (neighbor x0 y0 i)) = i)
  /\ (is_neighbor x0 y0 x1 y1 ->
      0 <= get_direction x0 y0 x1 y1 < 6
      /\ neighbor x0 y0 (get_direction x0 y0 x1 y1) = (x1, y1))
  /\ (~ is_neighbor x0 y0 x1 y1 -> get_direction x0 y0 x1 y1 = -1).
Proof.
  intros Hy. pose proof (rem2_cases y0 Hy) as Hp.
  assert (Hfwd : forall i, 0 <= i < 6 ->
            get_direction x0 y0 (fst (neighbor x0 y0 i)) (snd (neighbor x0 y0 i)) = i).
  { intros i Hi. unfold get_direction, neighbor. cbn [fst snd].
    replace (x0 + fst (OFFSET (Z.rem y0 2) i) - x0) with (fst (OFFSET (Z.rem y0 2) i)) by lia.
    replace (y0 + snd (OFFSET (Z.rem y0 2) i) - y0) with (snd (OFFSET (Z.rem y0 2) i)) by lia.
    apply get_direction_from_first; auto using directions_range.
    apply in_directions; exact Hi. }
  assert (Hback : get_direction x0 y0 x1 y1 <> -1 ->
                  0 <= get_direction x0 y0 x1 y1 < 6
                  /\ neighbor x0 y0 (get_direction x0 y0 x1 y1) = (x1, y1)).
  { unfold get_direction. intros H.
    destruct (get_direction_from_found _ _ _ _ H) as [Hin Ho].
    split; [apply in_directions; exact Hin |].
    unfold neighbor. rewrite Ho. cbn [fst snd]. f_equal; lia. }
  split; [exact Hfwd | split].
  - intros (i & Hi & Hn). pose proof (Hfwd i Hi) as H. rewrite Hn in H.
    cbn [fst snd] in H. rewrite H. split; [exact Hi | exact Hn].
  - intros Hnot. destruct (Z.eq_dec (get_direction x0 y0 x1 y1) (-1)) as [E | E];
      [exact E | exfalso].
    apply Hnot. destruct (Hback E) as [Hr Hn].
    exists (get_direction x0 y0 x1 y1). split; assumption.
Qed.

Lemma get_direction_inverts_neighbor_witness :
  (forall i, 0 <= i < 6 ->
     get_direction 15 9 (fst (neighbor 15 9 i)) (snd (neighbor 15 9 i)) = i)
  /\ (is_neighbor 15 9 16 9 ->
      0 <= get_direction 15 9 16 9 < 6
      /\ neighbor 15 9 (get_direction 15 9 16 9) = (16, 9))
  /\ (~ is_neighbor 15 9 16 9 -> get_direction 15 9 16 9 = -1).
Proof. apply (get_direction_inverts_neighbor 15 9 16 9); lia. Defined.

(* ================================================================== *)
(** * Navigation *)
(* ================================================================== *)

Lemma offset_small p i :
  (p = 0 \/ p = 1) -> 0 <= i < 6 ->
  -1 <= fst (OFFSET p i) <= 1 /\ -1 <= snd (OFFSET p i) <= 1.
Proof.
  intros Hp Hi.
  assert (Hc : i = 0 \/ i = 1 \/ i = 2 \/ i = 3 \/ i = 4 \/ i = 5) by lia.
  destruct Hp as [-> | ->]; destruct Hc as [-> | [-> | [-> | [-> | [-> | ->]]]]];
    offset_compute; lia.
Qed.

(** In the row reached by direction [i], direction [(i + 3) % 6] has the
    opposite offset. *)
Lemma opposite_offset p i :
  (p = 0 \/ p = 1) -> 0 <= i < 6 ->
  let p' := Z.rem (p + snd (OFFSET p i) + 2) 2 in
  OFFSET p' (Z.rem (i + 3) 6) = (- fst (OFFSET p i), - snd (OFFSET p i)).
Proof.
  intros Hp Hi.
  assert (Hc : i = 0 \/ i = 1 \/ i = 2 \/ i = 3 \/ i = 4 \/ i = 5) by lia.
  destruct Hp as [-> | ->]; destruct Hc as [-> | [-> | [-> | [-> | [-> | ->]]]]];
    reflexivity.
Qed.

Lemma path_after_move (a : Ant.t) (i : Z) : Ant.path (Ant.move a i) = Ant.path a ++ [i].
Proof. reflexivity. Qed.

(** X3. After a step in direction [i], the one direction that [next_move]
    rules out as going back, [(i + 3) % 6], is the direction of the cell
    the ant came from; the row of that direction is left at -1. *)
Theorem reverse_direction_leads_back (g : GameInfo.t) (a : Ant.t) (i j : Z) :
  0 <= Ant.y a -> 0 <= i < 6 -> 0 <= Ant.y (Ant.move a i) -> 0 <= j < 6 ->
  (reverses (Ant.move a i) j = true <-> j = Z.rem (i + 3) 6)
  /\ (neighbor (Ant.x (Ant.move a i)) (Ant.y (Ant.move a i)) j = (Ant.x a, Ant.y a)
      <-> j = Z.rem (i + 3) 6)
  /\ GameInfo.phero_row g (Ant.move a i) (Z.rem (i + 3) 6) = ((-1)%Q, (-1)%Q).
Proof.
  intros Hy Hi Hy' Hj.
  assert (Hrev : forall k, reverses (Ant.move a i) k = (i =? Z.rem (k + 3) 6)).
  { intros k. unfold reverses. rewrite path_after_move, last_last.
    destruct (Ant.path a ++ [i]) eqn:E; [destruct (Ant.path a); discriminate |].
    reflexivity. }
  split; [| split].
  - rewrite Hrev, Z.eqb_eq. lia.
  - assert (Hback : neighbor (Ant.x (Ant.move a i)) (Ant.y (Ant.move a i))
                             (Z.rem (i + 3) 6) = (Ant.x a, Ant.y a)).
    { pose proof (rem2_cases _ Hy) as Hp.
      pose proof (opposite_offset _ i Hp Hi) as Ho. cbv zeta in Ho.
      cbn [Ant.move Ant.x Ant.y] in *. unfold neighbor. cbn [fst snd].
      pose proof (offset_small _ i Hp Hi) as [_ Hs].
      replace (Z.rem (Ant.y a + snd (OFFSET (Z.rem (Ant.y a) 2) i)) 2)
        with (Z.rem (Z.rem (Ant.y a) 2 + snd (OFFSET (Z.rem (Ant.y a) 2) i) + 2) 2)
        by lia.
      rewrite Ho. cbn [fst snd]. f_equal; lia. }
    split.
    + intros Hn. 
      pose proof (rem2_cases _ Hy') as Hp.
      assert (Hk : 0 <= Z.rem (i + 3) 6 < 6) by lia.
      unfold neighbor in Hn, Hback. rewrite <- Hback in Hn.
      apply (offsets_distinct _ j _ Hp Hj Hk).
      destruct (OFFSET (Z.rem (Ant.y (Ant.move a i)) 2) j),
               (OFFSET (Z.rem (Ant.y (Ant.move a i)) 2) (Z.rem (i + 3) 6)).
      cbn [fst snd] in Hn. injection Hn as H1 H2. f_equal; lia.
    + intros ->. exact Hback.
  - apply phero_row_not_eligible. rewrite Hrev.
    replace (i =? Z.rem (Z.rem (i + 3) 6 + 3) 6) with true by (symmetry; apply Z.eqb_eq; lia).
    reflexivity.
Qed.

Lemma reverse_direction_leads_back_witness :
  (reverses (Ant.move (Ant.new 0 0 2 9 10 0 0 Alive) 4) 1 = true <-> 1 = Z.rem (4 + 3) 6)
  /\ (neighbor (Ant.x (Ant.move (Ant.new 0 0 2 9 10 0 0 Alive) 4))
               (Ant.y (Ant.move (Ant.new 0 0 2 9 10 0 0 Alive) 4)) 1 = (2, 9)
      <-> 1 = Z.rem (4 + 3) 6)
  /\ GameInfo.phero_row (GameInfo.new (fun _ _ _ => PHEROMONE_INIT))
       (Ant.move (Ant.new 0 0 2 9 10 0 0 Alive) 4) (Z.rem (4 + 3) 6)
     = ((-1)%Q, (-1)%Q).
Proof.
  apply (reverse_direction_leads_back (GameInfo.new (fun _ _ _ => PHEROMONE_INIT))
           (Ant.new 0 0 2 9 10 0 0 Alive) 4 1); vm_compute; easy.
Defined.


Lemma forallb_false_exists {A : Type} (p : A -> bool) (l : list A) :
  forallb p l = false -> exists a, In a l /\ p a = false.
Proof.
  induction l as [| a l IH]; cbn [forallb]; [discriminate |].
  destruct (p a) eqn:E; cbn [andb].
  - intros H. destruct (IH H) as (b & Hb & Hp). exists b. split; [right |]; assumption.
  - intros _. exists a. split; [left; reflexivity | exact E].
Qed.

Lemma phero_less_weighted r1 r2 :
  (GameInfo.phero_less r1 r2 = true -> (weighted r1 <= weighted r2)%Q)
  /\ (GameInfo.phero_less r1 r2 = false -> (weighted r2 <= weighted r1)%Q).
Proof.
  destruct r1 as [i1 [w1 o1]], r2 as [i2 [w2 o2]].
  unfold GameInfo.phero_less, weighted. cbn [fst snd].
  destruct (Qeq_bool w1 w2) eqn:E; cbn [negb].
  - apply Qeq_bool_eq in E. split; intros _; rewrite E; apply Qle_refl.
  - destruct (Qle_bool w2 w1) eqn:L; cbn [negb]; split; try discriminate; intros _.
    + apply Qle_bool_iff; exact L.
    + apply Qlt_le_weak, Qnot_le_lt. intros H. apply Qle_bool_iff in H. congruence.
Qed.

(** [max_element] returns an element of the range, and none of the range
    has a larger weighted pheromone. *)
Lemma max_element_from_weighted :
  forall rest largest,
    let m := max_element_from GameInfo.phero_less largest rest in
    In m (largest :: rest)
    /\ forall e, In e (largest :: rest) -> (weighted e <= weighted m)%Q.
Proof.
  induction rest as [| e rest IH]; intros largest; cbn [max_element_from].
  - split; [left; reflexivity |]. intros e [<- | []]. apply Qle_refl.
  - cbv zeta in IH.
    destruct (IH (if GameInfo.phero_less largest e then e else largest)) as [Hin Hmax].
    split.
    + destruct Hin as [Hin | Hin]; [| right; right; exact Hin].
      rewrite <- Hin. destruct (GameInfo.phero_less largest e);
        [right; left | left]; reflexivity.
    + intros e' He'.
      assert (Hstep : (weighted e' <= weighted (if GameInfo.phero_less largest e
                                                 then e else largest))%Q
                      \/ In e' rest).
      { destruct He' as [<- | [<- | He']]; [| | right; exact He']; left.
        - destruct (GameInfo.phero_less largest e) eqn:C.
          + apply (proj1 (phero_less_weighted _ _) C).
          + apply Qle_refl.
        - destruct (GameInfo.phero_less largest e) eqn:C.
          + apply Qle_refl.
          + apply (proj2 (phero_less_weighted _ _) C). }
      destruct Hstep as [Hle | Hr].
      * eapply Qle_trans; [exact Hle |]. apply Hmax. left. reflexivity.
      * apply Hmax. right. exact Hr.
Qed.

Lemma next_move_row (g : GameInfo.t) (ant : Ant.t) :
  let d := GameInfo.next_move g ant in
  0 <= d < 6
  /\ forall i, 0 <= i < 6 ->
       (fst (GameInfo.phero_row g ant i) <= fst (GameInfo.phero_row g ant d))%Q.
Proof.
  unfold GameInfo.next_move.
  pose proof (max_element_from_weighted
                (map (fun i => (i, GameInfo.phero_row g ant i)) [1; 2; 3; 4; 5])
                (0, GameInfo.phero_row g ant 0)) as H.
  cbv zeta in H. destruct H as [Hin Hmax].
  set (m := max_element_from _ _ _) in *.
  assert (Hm : 0 <= fst m < 6 /\ snd m = GameInfo.phero_row g ant (fst m)).
  { cbn [map In] in Hin.
    repeat (destruct Hin as [Hin | Hin]; [rewrite <- Hin; cbn [fst snd]; split; [lia | reflexivity] |]).
    contradiction. }
  cbv zeta. split; [exact (proj1 Hm) |].
  intros i Hi.
  assert (Hi' : In (i, GameInfo.phero_row g ant i)
                   ((0, GameInfo.phero_row g ant 0)
                    :: map (fun i => (i, GameInfo.phero_row g ant i)) [1; 2; 3; 4; 5])).
  { assert (Hc : i = 0 \/ i = 1 \/ i = 2 \/ i = 3 \/ i = 4 \/ i = 5) by lia.
    cbn [map In]. intuition (subst; auto 10). }
  specialize (Hmax _ Hi'). unfold weighted in Hmax. cbn [fst snd] in Hmax.
  destruct Hm as [_ Hm]. rewrite Hm in Hmax. exact Hmax.
Qed.

Lemma eta_nonneg n : (0 <= nth n GameInfo.ETA 0)%Q.
Proof.
  unfold GameInfo.ETA. destruct n as [| [| [| n]]]; cbn [nth]; try discriminate.
  destruct n; discriminate.
Qed.

(** The row of an eligible direction when the pheromone of the cell it
    leads to is not negative. *)
Lemma phero_row_eligible_nonneg (g : GameInfo.t) (ant : Ant.t) (i : Z) :
  (forall j k, is_path j k = true -> (0 <= GameInfo.pheromone g (Ant.player ant) j k)%Q) ->
  reverses ant i || blocked ant i = false ->
  (0 <= fst (GameInfo.phero_row g ant i))%Q.
Proof.
  intros Hph He.
  assert (Hp : is_path (Ant.x ant + fst (OFFSET (Z.rem (Ant.y ant) 2) i))
                       (Ant.y ant + snd (OFFSET (Z.rem (Ant.y ant) 2) i)) = true).
  { apply orb_false_elim in He. destruct He as [_ Hb]. unfold blocked, neighbor in Hb.
    cbn [fst snd] in Hb. apply negb_false_iff in Hb. exact Hb. }
  unfold GameInfo.phero_row. unfold reverses, blocked, neighbor in He. cbn [fst snd] in He.
  rewrite He. cbn [fst]. apply Qmult_le_0_compat; [apply eta_nonneg | apply Hph, Hp].
Qed.

(** The direction that [next_move] returns when one is eligible. *)
Lemma next_move_eligible (g : GameInfo.t) (ant : Ant.t) :
  (forall j k, is_path j k = true -> (0 <= GameInfo.pheromone g (Ant.player ant) j k)%Q) ->
  boxed_in ant = false ->
  0 <= GameInfo.next_move g ant < 6
  /\ reverses ant (GameInfo.next_move g ant) = false
  /\ is_path (Ant.x (Ant.move ant (GameInfo.next_move g ant)))
             (Ant.y (Ant.move ant (GameInfo.next_move g ant))) = true.
Proof.
  intros Hph Hbox.
  destruct (next_move_row g ant) as [Hd Hmax].
  assert (Hex : exists i, 0 <= i < 6 /\ reverses ant i || blocked ant i = false).
  { unfold boxed_in in Hbox.
    destruct (forallb_false_exists _ _ Hbox) as (i & Hin & Hi).
    exists i. split; [apply in_directions; exact Hin | exact Hi]. }
  destruct Hex as (i & Hi & He).
  pose proof (phero_row_eligible_nonneg g ant i Hph He) as H0.
  pose proof (Hmax i Hi) as Hle.
  destruct (reverses ant (GameInfo.next_move g ant)
            || blocked ant (GameInfo.next_move g ant)) eqn:Ed.
  - exfalso. rewrite (phero_row_not_eligible g ant _ Ed) in Hle. cbn [fst] in Hle.
    assert (Hc : (0 <= -1)%Q) by (eapply Qle_trans; eassumption).
    unfold Qle in Hc. cbn in Hc. lia.
  - apply orb_false_elim in Ed. destruct Ed as [Hr Hb].
    split; [exact Hd | split; [exact Hr |]].
    unfold blocked, neighbor in Hb. cbn [fst snd] in Hb.
    apply negb_false_iff in Hb. exact Hb.
Qed.

(** X4. An ant that has an eligible direction gets one from [next_move] when
    no path cell holds a negative pheromone: a direction between 0 and 5 that
    does not undo its last move and that leads to a path cell.  An ant on a
    cell of the board has an eligible direction. *)
Theorem next_move_is_eligible (g : GameInfo.t) (ant : Ant.t) :
  (forall j k, is_path j k = true -> (0 <= GameInfo.pheromone g (Ant.player ant) j k)%Q) ->
  boxed_in ant = false ->
  0 <= GameInfo.next_move g ant < 6
  /\ reverses ant (GameInfo.next_move g ant) = false
  /\ is_path (Ant.x (Ant.move ant (GameInfo.next_move g ant)))
             (Ant.y (Ant.move ant (GameInfo.next_move g ant))) = true.
Proof. apply next_move_eligible. Qed.


Lemma next_move_is_eligible_witness :
  0 <= GameInfo.next_move (GameInfo.new (fun _ _ _ => PHEROMONE_INIT))
                          (Ant.new 0 0 2 9 10 0 0 Alive) < 6
  /\ reverses (Ant.new 0 0 2 9 10 0 0 Alive)
              (GameInfo.next_move (GameInfo.new (fun _ _ _ => PHEROMONE_INIT))
                                  (Ant.new 0 0 2 9 10 0 0 Alive)) = false
  /\ is_path
       (Ant.x (Ant.move (Ant.new 0 0 2 9 10 0 0 Alive)
                 (GameInfo.next_move (GameInfo.new (fun _ _ _ => PHEROMONE_INIT))
                                     (Ant.new 0 0 2 9 10 0 0 Alive))))
       (Ant.y (Ant.move (Ant.new 0 0 2 9 10 0 0 Alive)
                 (GameInfo.next_move (GameInfo.new (fun _ _ _ => PHEROMONE_INIT))
                                     (Ant.new 0 0 2 9 10 0 0 Alive)))) = true.
Proof.
  apply (next_move_is_eligible (GameInfo.new (fun _ _ _ => PHEROMONE_INIT))
                               (Ant.new 0 0 2 9 10 0 0 Alive)).
  - intros j k _. unfold Qle. cbn. lia.
  - reflexivity.
Defined.

Lemma is_path_bounds x y : is_path x y = true -> 0 <= x < 19 /\ 0 <= y < 19.
Proof.
  unfold is_path, out_of_map, MAP_SIZE, EDGE.
  destruct (x <? 0) eqn:E1; [discriminate|].
  destruct (x >=? 2 * 10 - 1) eqn:E2; [discriminate|].
  destruct (y <? 0) eqn:E3; [discriminate|].
  destruct (y >=? 2 * 10 - 1) eqn:E4; [discriminate|].
  intros _. lia.
Qed.

Lemma base_position_row p : 0 <= snd (Base.POSITION p).
Proof.
  unfold Base.POSITION, Base.POSITION_TABLE.
  destruct (Z.to_nat p) as [| [| [| n]]]; cbn; lia.
Qed.

(** X5. The weight of an eligible direction is read inside the table [ETA]:
    for an ant on a row [y >= 0], a step changes the distance to the base of
    the other player by -1, 0 or 1, and the weighted pheromone of the row is
    5/4, 1 or 3/4 times the pheromone of the cell, in this order. *)
Theorem eligible_direction_weight (g : GameInfo.t) (ant : Ant.t) (i : Z) :
  0 <= Ant.y ant -> 0 <= i < 6 ->
  reverses ant i || blocked ant i = false ->
  let target := Base.POSITION (other_player (Ant.player ant)) in
  let cell := neighbor (Ant.x ant) (Ant.y ant) i in
  let delta := distance (fst cell) (snd cell) (fst target) (snd target)
               - distance (Ant.x ant) (Ant.y ant) (fst target) (snd target) in
  let ph := GameInfo.pheromone g (Ant.player ant) (fst cell) (snd cell) in
  0 <= delta + GameInfo.ETA_OFFSET < Z.of_nat (length GameInfo.ETA)
  /\ snd (GameInfo.phero_row g ant i) = ph
  /\ (delta = -1 -> fst (GameInfo.phero_row g ant i) = ((5 # 4) * ph)%Q)
  /\ (delta = 0 -> fst (GameInfo.phero_row g ant i) = (1 * ph)%Q)
  /\ (delta = 1 -> fst (GameInfo.phero_row g ant i) = ((3 # 4) * ph)%Q).
Proof.
  intros Hy Hi He. cbv zeta.
  assert (Hp : is_path (fst (neighbor (Ant.x ant) (Ant.y ant) i))
                       (snd (neighbor (Ant.x ant) (Ant.y ant) i)) = true).
  { apply orb_false_elim in He. destruct He as [_ Hb]. unfold blocked in Hb.
    apply negb_false_iff in Hb. exact Hb. }
  pose proof (is_path_bounds _ _ Hp) as [_ Hy'].
  pose proof (step_changes_distance (Ant.x ant) (Ant.y ant) i
                (fst (Base.POSITION (other_player (Ant.player ant))))
                (snd (Base.POSITION (other_player (Ant.player ant))))
                Hy Hi (proj1 Hy') (base_position_row _)) as Hd.
  split; [unfold GameInfo.ETA_OFFSET, GameInfo.ETA; cbn [length]; lia |].
  unfold GameInfo.phero_row. unfold reverses, blocked, neighbor in He.
  cbn [fst snd] in He. rewrite He.
  unfold neighbor. cbn [fst snd].
  split; [reflexivity |].
  unfold neighbor in Hd. cbn [fst snd] in Hd. unfold GameInfo.ETA_OFFSET.
  repeat split; intros ->; reflexivity.
Qed.

Lemma eligible_direction_weight_witness :
  let g := GameInfo.new (fun _ _ _ => PHEROMONE_INIT) in
  let ant := Ant.new 0 0 2 9 10 0 0 Alive in
  let target := Base.POSITION (other_player (Ant.player ant)) in
  let cell := neighbor (Ant.x ant) (Ant.y ant) 4 in
  let delta := distance (fst cell) (snd cell) (fst target) (snd target)
               - distance (Ant.x ant) (Ant.y ant) (fst target) (snd target) in
  let ph := GameInfo.pheromone g (Ant.player ant) (fst cell) (snd cell) in
  0 <= delta + GameInfo.ETA_OFFSET < Z.of_nat (length GameInfo.ETA)
  /\ snd (GameInfo.phero_row g ant 4) = ph
  /\ (delta = -1 -> fst (GameInfo.phero_row g ant 4) = ((5 # 4) * ph)%Q)
  /\ (delta = 0 -> fst (GameInfo.phero_row g ant 4) = (1 * ph)%Q)
  /\ (delta = 1 -> fst (GameInfo.phero_row g ant 4) = ((3 # 4) * ph)%Q).
Proof.
  apply (eligible_direction_weight (GameInfo.new (fun _ _ _ => PHEROMONE_INIT))
                                   (Ant.new 0 0 2 9 10 0 0 Alive) 4);
    [cbn; lia | lia | reflexivity].
Defined.

(* ================================================================== *)
(** * Economy of towers *)
(* ================================================================== *)

Lemma trunc_inject_Z (q : Q) (z : Z) : q == inject_Z z -> trunc q = z.
Proof.
  unfold Qeq, trunc, inject_Z. cbn [Qnum Qden]. intros H.
  rewrite Z.mul_1_r in H. rewrite H. apply Z.quot_mul. discriminate.
Qed.

Lemma build_tower_cost_pow (n : Z) :
  0 <= n -> GameInfo.build_tower_cost n = 15 * 2 ^ n.
Proof.
  intros Hn. unfold GameInfo.build_tower_cost, TOWER_BUILD_PRICE_BASE,
    TOWER_BUILD_PRICE_RATIO.
  apply trunc_inject_Z. rewrite inject_Z_mult, (Zpower_Qpower 2 n Hn). reflexivity.
Qed.

Lemma destroy_tower_income_pow (n : Z) :
  0 <= n -> GameInfo.destroy_tower_income (n + 1) = 12 * 2 ^ n.
Proof.
  intros Hn. unfold GameInfo.destroy_tower_income.
  replace (n + 1 - 1) with n by lia. rewrite (build_tower_cost_pow n Hn).
  apply trunc_inject_Z. unfold TOWER_DOWNGRADE_REFUND_RATIO.
  unfold Qeq, Qmult, inject_Z. cbn [Qnum Qden]. lia.
Qed.

Lemma find_app_none {A : Type} (p : A -> bool) (l l' : list A) :
  Forall (fun a => p a = false) l -> find p (l ++ l') = find p l'.
Proof.
  induction 1 as [| a l Ha _ IH]; cbn [app find]; [reflexivity |].
  rewrite Ha. exact IH.
Qed.

Lemma replace_first_app_none {A : Type} (p : A -> bool) (f : A -> list A) (l l' : list A) :
  Forall (fun a => p a = false) l ->
  replace_first p f (l ++ l') = l ++ replace_first p f l'.
Proof.
  induction 1 as [| a l Ha _ IH]; cbn [app replace_first]; [reflexivity |].
  rewrite Ha, IH. reflexivity.
Qed.

Lemma find_replace_first_one {A : Type} (p : A -> bool) (f : A -> A) (l : list A) (a : A) :
  find p l = Some a -> p (f a) = true ->
  find p (replace_first p (fun x => [f x]) l) = Some (f a).
Proof.
  induction l as [| b l IH]; cbn [find replace_first]; [discriminate |].
  destruct (p b) eqn:E.
  - intros H Hf. injection H as ->. cbn [app find]. rewrite Hf. reflexivity.
  - intros H Hf. cbn [find]. rewrite E. apply IH; assumption.
Qed.

Lemma replace_first_twice {A : Type} (p : A -> bool) (f : A -> A) (h : A -> list A)
      (l : list A) :
  (forall a, p a = true -> p (f a) = true) ->
  replace_first p h (replace_first p (fun x => [f x]) l)
  = replace_first p (fun x => h (f x)) l.
Proof.
  intros Hf. induction l as [| b l IH]; cbn [replace_first]; [reflexivity |].
  destruct (p b) eqn:E.
  - cbn [app replace_first]. rewrite (Hf b E). reflexivity.
  - cbn [replace_first]. rewrite E, IH. reflexivity.
Qed.

Lemma tower_num_app g (l : list Tower.t) p :
  GameInfo.tower_num_of_player (GameInfo.set_towers g (GameInfo.towers g ++ l)) p
  = GameInfo.tower_num_of_player g p
    + Z.of_nat (length (filter (fun tw => Tower.player tw =? p) l)).
Proof.
  unfold GameInfo.tower_num_of_player. cbn [GameInfo.towers GameInfo.set_towers].
  rewrite filter_app, length_app. lia.
Qed.

Lemma apply_build_tower (g : GameInfo.t) (p x y : Z) :
  GameInfo.apply_operation g p (Operation.mk BuildTower x y)
  = Some (GameInfo.build_tower
            (GameInfo.set_next_tower_id
               (GameInfo.update_coin g p
                  (- GameInfo.build_tower_cost (GameInfo.tower_num_of_player g p)))
               (GameInfo.next_tower_id g + 1))
            (GameInfo.next_tower_id g) p x y Basic).
Proof. reflexivity. Qed.

Lemma apply_downgrade_tower (g : GameInfo.t) (p id a : Z) (tw : Tower.t) :
  GameInfo.tower_of_id g id = Some tw ->
  GameInfo.apply_operation g p (Operation.mk DowngradeTower id a)
  = Some (GameInfo.downgrade_or_destroy_tower
            (GameInfo.update_coin g p
               (if TowerType_eqb (Tower.type tw) Basic
                then GameInfo.destroy_tower_income (GameInfo.tower_num_of_player g p)
                else GameInfo.downgrade_tower_income (TowerType_to_Z (Tower.type tw))))
            id).
Proof.
  intros H. unfold GameInfo.apply_operation, GameInfo.get_operation_income.
  cbn [Operation.type Operation.arg0]. rewrite H. cbn [bind].
  destruct (TowerType_eqb (Tower.type tw) Basic); reflexivity.
Qed.

(** X6. Building a tower and destroying it at once gives the list of towers
    back and costs the fifth of the build price that is not refunded,
    [3 * 2^n] coins for a player who had [n] towers; the id of the tower is
    used up. *)
Theorem build_then_destroy (g : GameInfo.t) (p x y : Z) :
  Forall (fun tw => Tower.id tw <> GameInfo.next_tower_id g) (GameInfo.towers g) ->
  exists g1 g2,
    GameInfo.apply_operation g p (Operation.mk BuildTower x y) = Some g1
    /\ GameInfo.apply_operation g1 p
         (Operation.mk DowngradeTower (GameInfo.next_tower_id g) Operation.INVALID_ARG)
       = Some g2
    /\ GameInfo.tower_of_id g1 (GameInfo.next_tower_id g)
       = Some (Tower.new (GameInfo.next_tower_id g) p x y Basic 0)
    /\ get2 (GameInfo.coins g1) p
       = get2 (GameInfo.coins g) p - 15 * 2 ^ GameInfo.tower_num_of_player g p
    /\ GameInfo.towers g2 = GameInfo.towers g
    /\ GameInfo.next_tower_id g2 = GameInfo.next_tower_id g + 1
    /\ get2 (GameInfo.coins g2) p
       = get2 (GameInfo.coins g) p - 3 * 2 ^ GameInfo.tower_num_of_player g p.
Proof.
  intros Hfresh.
  assert (Hn : 0 <= GameInfo.tower_num_of_player g p)
    by (unfold GameInfo.tower_num_of_player; lia).
  assert (Hnone : Forall (fun tw => (Tower.id tw =? GameInfo.next_tower_id g) = false)
                         (GameInfo.towers g)).
  { eapply Forall_impl; [| exact Hfresh]. intros tw H. apply Z.eqb_neq. exact H. }
  set (g1 := GameInfo.build_tower
               (GameInfo.set_next_tower_id
                  (GameInfo.update_coin g p
                     (- GameInfo.build_tower_cost (GameInfo.tower_num_of_player g p)))
                  (GameInfo.next_tower_id g + 1))
               (GameInfo.next_tower_id g) p x y Basic).
  assert (Hfind : GameInfo.tower_of_id g1 (GameInfo.next_tower_id g)
                  = Some (Tower.new (GameInfo.next_tower_id g) p x y Basic 0)).
  { unfold GameInfo.tower_of_id. subst g1. cbn [GameInfo.build_tower GameInfo.towers
      GameInfo.set_towers GameInfo.set_next_tower_id GameInfo.update_coin GameInfo.set_coins].
    rewrite (find_app_none _ _ _ Hnone). cbn [find].
    change (Tower.id (Tower.new (GameInfo.next_tower_id g) p x y Basic 0))
      with (GameInfo.next_tower_id g).
    rewrite Z.eqb_refl. reflexivity. }
  assert (Hnum : GameInfo.tower_num_of_player g1 p = GameInfo.tower_num_of_player g p + 1).
  { unfold GameInfo.tower_num_of_player. subst g1. cbn [GameInfo.build_tower GameInfo.towers
      GameInfo.set_towers GameInfo.set_next_tower_id GameInfo.update_coin GameInfo.set_coins].
    rewrite filter_app, length_app. cbn [filter].
    change (Tower.player (Tower.new (GameInfo.next_tower_id g) p x y Basic 0)) with p.
    rewrite Z.eqb_refl. cbn [length]. lia. }
  assert (Hc1 : get2 (GameInfo.coins g1) p
                = get2 (GameInfo.coins g) p - 15 * 2 ^ GameInfo.tower_num_of_player g p).
  { subst g1. cbn [GameInfo.build_tower GameInfo.towers GameInfo.coins
      GameInfo.set_towers GameInfo.set_next_tower_id GameInfo.update_coin GameInfo.set_coins].
    rewrite get2_set2_same, (build_tower_cost_pow _ Hn). lia. }
  exists g1. eexists.
  split; [apply apply_build_tower |].
  split; [apply (apply_downgrade_tower g1 p _ _ _ Hfind) |].
  split; [exact Hfind |]. split; [exact Hc1 |].
  change (TowerType_eqb (Tower.type (Tower.new (GameInfo.next_tower_id g) p x y Basic 0)) Basic)
    with true. cbv iota.
  unfold GameInfo.downgrade_or_destroy_tower, GameInfo.update_coin.
  cbn [GameInfo.towers GameInfo.set_towers GameInfo.set_coins GameInfo.next_tower_id
       GameInfo.coins].
  rewrite get2_set2_same, Hc1, Hnum, (destroy_tower_income_pow _ Hn).
  split; [| split; [reflexivity | lia]].
  subst g1. cbn [GameInfo.build_tower GameInfo.towers GameInfo.set_towers].
  rewrite (replace_first_app_none _ _ _ _ Hnone). cbn [replace_first].
  change (Tower.id (Tower.new (GameInfo.next_tower_id g) p x y Basic 0))
    with (GameInfo.next_tower_id g).
  rewrite Z.eqb_refl. cbn [GameInfo.set_next_tower_id GameInfo.update_coin
    GameInfo.set_coins GameInfo.towers].
  change (Tower.is_downgrade_valid (Tower.new (GameInfo.next_tower_id g) p x y Basic 0))
    with false.
  cbn [app]. apply app_nil_r.
Qed.


Lemma build_then_destroy_witness :
  exists g1 g2,
    GameInfo.apply_operation (GameInfo.new (fun _ _ _ => PHEROMONE_INIT)) 0
      (Operation.mk BuildTower 5 9) = Some g1
    /\ GameInfo.apply_operation g1 0
         (Operation.mk DowngradeTower
            (GameInfo.next_tower_id (GameInfo.new (fun _ _ _ => PHEROMONE_INIT)))
            Operation.INVALID_ARG)
       = Some g2
    /\ GameInfo.tower_of_id g1
         (GameInfo.next_tower_id (GameInfo.new (fun _ _ _ => PHEROMONE_INIT)))
       = Some (Tower.new
                 (GameInfo.next_tower_id (GameInfo.new (fun _ _ _ => PHEROMONE_INIT)))
                 0 5 9 Basic 0)
    /\ get2 (GameInfo.coins g1) 0
       = get2 (GameInfo.coins (GameInfo.new (fun _ _ _ => PHEROMONE_INIT))) 0
         - 15 * 2 ^ GameInfo.tower_num_of_player
                      (GameInfo.new (fun _ _ _ => PHEROMONE_INIT)) 0
    /\ GameInfo.towers g2 = GameInfo.towers (GameInfo.new (fun _ _ _ => PHEROMONE_INIT))
    /\ GameInfo.next_tower_id g2
       = GameInfo.next_tower_id (GameInfo.new (fun _ _ _ => PHEROMONE_INIT)) + 1
    /\ get2 (GameInfo.coins g2) 0
       = get2 (GameInfo.coins (GameInfo.new (fun _ _ _ => PHEROMONE_INIT))) 0
         - 3 * 2 ^ GameInfo.tower_num_of_player
                     (GameInfo.new (fun _ _ _ => PHEROMONE_INIT)) 0.
Proof.
  apply (build_then_destroy (GameInfo.new (fun _ _ _ => PHEROMONE_INIT)) 0 5 9).
  constructor.
Defined.

(** The types a tower can be upgraded to are the types that [downgrade]
    takes back to its type; their price is 60 or 200. *)
Lemma is_upgrade_type_valid_inv (tw : Tower.t) (ty : Z) :
  Tower.is_upgrade_type_valid tw ty = true ->
  exists new_type,
    TowerType_of_Z ty = Some new_type
    /\ TowerType_eqb new_type Basic = false
    /\ TowerType_of_Z (Z.quot (TowerType_to_Z new_type) 10) = Some (Tower.type tw)
    /\ (GameInfo.upgrade_tower_cost ty = 60 \/ GameInfo.upgrade_tower_cost ty = 200).
Proof.
  unfold Tower.is_upgrade_type_valid.
  destruct ((ty <? TowerType_to_Z Basic) || (ty >? TowerType_to_Z Missile));
    [discriminate |].
  destruct (Tower.type tw); try discriminate; intros H;
    apply orb_prop in H; destruct H as [H | H];
    try (apply orb_prop in H; destruct H as [H | H]);
    apply Z.eqb_eq in H; subst ty;
    eexists; (split; [reflexivity |]); (split; [reflexivity |]);
    (split; [reflexivity |]); vm_compute; auto.
Qed.

Lemma downgrade_upgrade (tw : Tower.t) (new_type : TowerType) :
  TowerType_of_Z (Z.quot (TowerType_to_Z new_type) 10) = Some (Tower.type tw) ->
  Tower.downgrade (Tower.upgrade tw new_type) = Tower.upgrade tw (Tower.type tw).
Proof.
  intros H. unfold Tower.downgrade.
  change (Tower.type (Tower.upgrade tw new_type)) with new_type. rewrite H.
  reflexivity.
Qed.

Lemma replace_first_found {A : Type} (p : A -> bool) (f h : A -> list A) (l : list A) (a : A) :
  find p l = Some a -> f a = h a -> replace_first p f l = replace_first p h l.
Proof.
  induction l as [| b l IH]; cbn [find replace_first]; [discriminate |].
  destruct (p b).
  - intros H E. injection H as ->. rewrite E. reflexivity.
  - intros H E. rewrite (IH H E). reflexivity.
Qed.

Lemma find_some_true {A : Type} (p : A -> bool) (l : list A) (a : A) :
  find p l = Some a -> p a = true.
Proof. intros H. apply find_some in H. tauto. Qed.

(** X7. A valid upgrade of a tower followed by its downgrade takes the tower
    back to its type with the values of the table, and returns four fifths of
    the price: the player loses 12 of the 60 coins of a second-level type and
    40 of the 200 coins of a third-level type.  The other towers are as
    before. *)
Theorem upgrade_then_downgrade (g : GameInfo.t) (p id ty : Z) :
  GameInfo.is_operation_valid g p (Operation.mk UpgradeTower id ty) = true ->
  exists tw new_type g1 g2,
    GameInfo.tower_of_id g id = Some tw
    /\ TowerType_of_Z ty = Some new_type
    /\ GameInfo.apply_operation g p (Operation.mk UpgradeTower id ty) = Some g1
    /\ GameInfo.tower_of_id g1 id = Some (Tower.upgrade tw new_type)
    /\ GameInfo.apply_operation g1 p
         (Operation.mk DowngradeTower id Operation.INVALID_ARG) = Some g2
    /\ GameInfo.towers g2
       = replace_first (fun t => Tower.id t =? id)
                       (fun _ => [Tower.upgrade tw (Tower.type tw)]) (GameInfo.towers g)
    /\ (GameInfo.upgrade_tower_cost ty = 60 \/ GameInfo.upgrade_tower_cost ty = 200)
    /\ 5 * (get2 (GameInfo.coins g) p - get2 (GameInfo.coins g2) p)
       = GameInfo.upgrade_tower_cost ty.
Proof.
  unfold GameInfo.is_operation_valid. cbn [Operation.type Operation.arg0 Operation.arg1].
  destruct (GameInfo.tower_of_id g id) as [tw |] eqn:Hfind; [| discriminate].
  intros H. apply andb_prop in H. destruct H as [H _].
  apply andb_prop in H. destruct H as [_ Hup].
  destruct (is_upgrade_type_valid_inv tw ty Hup) as (new_type & Hty & Hnb & Hdown & Hcost).
  pose proof (find_some_true _ _ _ Hfind) as Hid.
  set (g1 := GameInfo.upgrade_tower
               (GameInfo.update_coin g p (- GameInfo.upgrade_tower_cost ty)) id new_type).
  assert (H1 : GameInfo.apply_operation g p (Operation.mk UpgradeTower id ty) = Some g1).
  { unfold GameInfo.apply_operation, GameInfo.get_operation_income.
    cbn [Operation.type Operation.arg0 Operation.arg1 bind]. rewrite Hty. reflexivity. }
  assert (Hfind1 : GameInfo.tower_of_id g1 id = Some (Tower.upgrade tw new_type)).
  { unfold GameInfo.tower_of_id in *. subst g1.
    cbn [GameInfo.upgrade_tower GameInfo.towers GameInfo.set_towers GameInfo.update_coin
         GameInfo.set_coins].
    apply (find_replace_first_one _ (fun t => Tower.upgrade t new_type) _ _ Hfind).
    exact Hid. }
  exists tw, new_type, g1. eexists.
  split; [reflexivity |]. split; [exact Hty |]. split; [exact H1 |].
  split; [exact Hfind1 |].
  split; [apply (apply_downgrade_tower g1 p _ _ _ Hfind1) |].
  change (Tower.type (Tower.upgrade tw new_type)) with new_type. rewrite Hnb.
  unfold GameInfo.downgrade_or_destroy_tower, GameInfo.update_coin.
  cbn [GameInfo.towers GameInfo.set_towers GameInfo.set_coins GameInfo.coins].
  split; [| split; [exact Hcost |]].
  - subst g1. cbn [GameInfo.upgrade_tower GameInfo.towers GameInfo.set_towers
                   GameInfo.update_coin GameInfo.set_coins].
    rewrite (replace_first_twice _ (fun t => Tower.upgrade t new_type)) by (intros a Ha; exact Ha).
    apply (replace_first_found _ _ _ _ tw Hfind).
    change (Tower.is_downgrade_valid (Tower.upgrade tw new_type))
      with (negb (TowerType_eqb new_type Basic)).
    rewrite Hnb. cbn [negb]. rewrite (downgrade_upgrade _ _ Hdown). reflexivity.
  - rewrite get2_set2_same. subst g1.
    cbn [GameInfo.upgrade_tower GameInfo.towers GameInfo.set_towers GameInfo.coins
         GameInfo.update_coin GameInfo.set_coins].
    rewrite get2_set2_same.
    assert (Hz : TowerType_to_Z new_type = ty).
    { unfold TowerType_of_Z in Hty. apply find_some in Hty. destruct Hty as [_ E].
      apply Z.eqb_eq in E. exact E. }
    rewrite Hz. unfold GameInfo.downgrade_tower_income.
    destruct Hcost as [-> | ->]; vm_compute trunc; lia.
Qed.

Lemma upgrade_then_downgrade_witness :
  exists tw new_type g1 g2,
    GameInfo.tower_of_id (Simulator.info tower_near_spawn) 0 = Some tw
    /\ TowerType_of_Z 2 = Some new_type
    /\ GameInfo.apply_operation (Simulator.info tower_near_spawn) 0
         (Operation.mk UpgradeTower 0 2) = Some g1
    /\ GameInfo.tower_of_id g1 0 = Some (Tower.upgrade tw new_type)
    /\ GameInfo.apply_operation g1 0
         (Operation.mk DowngradeTower 0 Operation.INVALID_ARG) = Some g2
    /\ GameInfo.towers g2
       = replace_first (fun t => Tower.id t =? 0)
                       (fun _ => [Tower.upgrade tw (Tower.type tw)])
                       (GameInfo.towers (Simulator.info tower_near_spawn))
    /\ (GameInfo.upgrade_tower_cost 2 = 60 \/ GameInfo.upgrade_tower_cost 2 = 200)
    /\ 5 * (get2 (GameInfo.coins (Simulator.info tower_near_spawn)) 0
            - get2 (GameInfo.coins g2) 0)
       = GameInfo.upgrade_tower_cost 2.
Proof.
  apply (upgrade_then_downgrade (Simulator.info tower_near_spawn) 0 0 2).
  reflexivity.
Defined.

(* ================================================================== *)
(** * Evasion and cooldown of super weapons *)
(* ================================================================== *)

Lemma set_evasion_same (ant : Ant.t) : Ant.set_evasion ant (Ant.evasion ant) = ant.
Proof. destruct ant; reflexivity. Qed.

Lemma action_evades (tw : Tower.t) (ant : Ant.t) :
  0 < Ant.evasion ant ->
  Tower.action tw ant = Ant.set_evasion ant (Ant.evasion ant - 1).
Proof.
  intros H. unfold Tower.action.
  replace (Ant.evasion ant >? 0) with true by (symmetry; apply Z.gtb_lt; lia).
  reflexivity.
Qed.

Lemma hit_by_evading :
  forall tws ant,
    Z.of_nat (length tws) <= Ant.evasion ant ->
    hit_by tws ant = Ant.set_evasion ant (Ant.evasion ant - Z.of_nat (length tws)).
Proof.
  unfold hit_by.
  induction tws as [| tw tws IH]; intros ant H.
  - cbn [fold_left length Z.of_nat]. rewrite Z.sub_0_r. symmetry. apply set_evasion_same.
  - change (length (tw :: tws)) with (S (length tws)) in *.
    rewrite Nat2Z.inj_succ in *. cbn [fold_left].
    assert (Hpos : 0 < Ant.evasion ant) by lia.
    rewrite (action_evades tw ant Hpos).
    rewrite IH by (unfold Ant.set_evasion; cbn [Ant.evasion]; lia).
    unfold Ant.set_evasion.
    cbn [Ant.evasion Ant.id Ant.player Ant.x Ant.y Ant.hp Ant.level
         Ant.age Ant.state Ant.path Ant.deflector].
    f_equal. lia.
Qed.

(** X8. An emergency evasion gives an ant of its owner in its range two
    evasion charges, and the ant comes out of its next two hits, by any
    towers, with the HP and state it had and with no charge left: the third
    hit counts as on an ant without evasion. *)
Theorem evasion_absorbs_hits (g : GameInfo.t) (p : Z) (w : SuperWeapon.t)
        (i : nat) (ant : Ant.t) (tws : list Tower.t) :
  SuperWeapon.type w = EmergencyEvasion -> SuperWeapon.player w = p ->
  nth_error (GameInfo.ants g) i = Some ant ->
  SuperWeapon.is_in_range w (Ant.x ant) (Ant.y ant) = true -> Ant.player ant = p ->
  length tws = 2%nat ->
  exists ant',
    nth_error (GameInfo.ants (GameInfo.apply_super_weapon p g w)) i = Some ant'
    /\ ant' = Ant.set_evasion ant 2
    /\ hit_by tws ant' = Ant.set_evasion ant 0
    /\ forall tw, hit_by (tws ++ [tw]) ant' = Tower.action tw (Ant.set_evasion ant 0).
Proof.
  intros Hty Hpl Hnth Hin Hant Hlen.
  exists (Ant.set_evasion ant 2).
  assert (E : hit_by tws (Ant.set_evasion ant 2) = Ant.set_evasion ant 0).
  { rewrite hit_by_evading by (rewrite Hlen; cbn; lia). rewrite Hlen. reflexivity. }
  split; [| split; [reflexivity | split; [exact E |]]].
  - unfold GameInfo.apply_super_weapon. rewrite Hpl, Z.eqb_refl, Hty. cbn [negb].
    change (SuperWeaponType_eqb EmergencyEvasion LightningStorm) with false.
    change (SuperWeaponType_eqb EmergencyEvasion EmergencyEvasion) with true.
    cbv iota. cbn [GameInfo.ants GameInfo.set_ants].
    unfold GameInfo.emergency_evasion. rewrite nth_error_map, Hnth. cbn [option_map].
    rewrite Hin, Hant, Hpl, Z.eqb_refl. reflexivity.
  - intros tw. unfold hit_by in *. rewrite fold_left_app. cbn [fold_left]. rewrite E.
    reflexivity.
Qed.

Lemma evasion_absorbs_hits_witness :
  exists ant',
    nth_error
      (GameInfo.ants
         (GameInfo.apply_super_weapon 1 (Simulator.info tower_near_spawn)
            (SuperWeapon.new EmergencyEvasion 1 15 9))) 0 = Some ant'
    /\ ant' = Ant.set_evasion (Ant.new 0 1 16 9 10 0 0 Alive) 2
    /\ hit_by [Tower.new 0 0 14 9 Basic 0; Tower.new 1 0 14 9 Cannon 0] ant'
       = Ant.set_evasion (Ant.new 0 1 16 9 10 0 0 Alive) 0
    /\ forall tw,
         hit_by ([Tower.new 0 0 14 9 Basic 0; Tower.new 1 0 14 9 Cannon 0] ++ [tw]) ant'
         = Tower.action tw (Ant.set_evasion (Ant.new 0 1 16 9 10 0 0 Alive) 0).
Proof.
  apply (evasion_absorbs_hits (Simulator.info tower_near_spawn) 1
           (SuperWeapon.new EmergencyEvasion 1 15 9) 0
           (Ant.new 0 1 16 9 10 0 0 Alive)
           [Tower.new 0 0 14 9 Basic 0; Tower.new 1 0 14 9 Cannon 0]);
    reflexivity.
Defined.

Lemma cooled_succ k g :
  cooled (S k) g = GameInfo.count_down_super_weapons_cd (cooled k g).
Proof. reflexivity. Qed.

Lemma cooled_cd (k : nat) (g : GameInfo.t) (p j : Z) :
  0 <= p < 2 -> 1 <= j < 5 -> 0 <= GameInfo.super_weapon_cd g p j ->
  GameInfo.super_weapon_cd (cooled k g) p j
  = Z.max (GameInfo.super_weapon_cd g p j - Z.of_nat k) 0.
Proof.
  intros Hp Hj H0. induction k as [| k IH].
  - cbn [cooled Nat.iter nat_rect]. lia.
  - rewrite cooled_succ.
    unfold GameInfo.count_down_super_weapons_cd at 1.
    cbn [GameInfo.super_weapon_cd GameInfo.set_super_weapon_cd].
    replace ((0 <=? p) && (p <? 2) && (1 <=? j) && (j <? 5)) with true
      by (symmetry; rewrite !andb_true_iff, !Z.leb_le, !Z.ltb_lt; lia).
    rewrite IH. lia.
Qed.

Lemma cooled_frame (k : nat) (g : GameInfo.t) :
  GameInfo.super_weapons (cooled k g) = GameInfo.super_weapons g
  /\ GameInfo.towers (cooled k g) = GameInfo.towers g
  /\ GameInfo.bases (cooled k g) = GameInfo.bases g.
Proof.
  induction k as [| k IH]; [repeat split |].
  rewrite cooled_succ. exact IH.
Qed.

Lemma use_operation_digit (w : SuperWeaponType) :
  Z.rem (OperationType_to_Z (use_operation w)) 10 = SuperWeaponType_to_Z w.
Proof. destruct w; reflexivity. Qed.

(** X9. The use of a super weapon starts its cooldown at the value of the
    table (100 rounds for a storm or an EMP, 50 for a deflector or an
    evasion), each round's countdown takes one off down to 0, and the player
    can use a weapon of the type again exactly when [k] countdowns have
    covered the cooldown: until then [is_operation_valid] refuses it at every
    position. *)
Theorem super_weapon_cooldown (g : GameInfo.t) (w : SuperWeaponType)
        (p x y x' y' : Z) (k : nat) :
  0 <= p < 2 ->
  let g' := cooled k (GameInfo.use_super_weapon g w p x y) in
  let cd := SUPER_WEAPON_INFO (SuperWeaponType_to_Z w) 2 in
  (cd = 100 \/ cd = 50)
  /\ GameInfo.super_weapon_cd g' p (SuperWeaponType_to_Z w) = Z.max (cd - Z.of_nat k) 0
  /\ GameInfo.is_operation_valid g' p (Operation.mk (use_operation w) x' y')
     = is_valid_pos x' y' && (cd <=? Z.of_nat k).
Proof.
  intros Hp. cbv zeta.
  assert (Hw : 1 <= SuperWeaponType_to_Z w < 5) by (destruct w; cbn; lia).
  assert (Hcd : SUPER_WEAPON_INFO (SuperWeaponType_to_Z w) 2 = 100
                \/ SUPER_WEAPON_INFO (SuperWeaponType_to_Z w) 2 = 50)
    by (destruct w; cbn; auto).
  assert (Huse : GameInfo.super_weapon_cd (GameInfo.use_super_weapon g w p x y) p
                   (SuperWeaponType_to_Z w)
                 = SUPER_WEAPON_INFO (SuperWeaponType_to_Z w) 2).
  { unfold GameInfo.use_super_weapon.
    cbn [GameInfo.super_weapon_cd GameInfo.set_super_weapon_cd GameInfo.set_super_weapons].
    unfold upd. rewrite !Z.eqb_refl. reflexivity. }
  assert (Hk : GameInfo.super_weapon_cd (cooled k (GameInfo.use_super_weapon g w p x y)) p
                 (SuperWeaponType_to_Z w)
               = Z.max (SUPER_WEAPON_INFO (SuperWeaponType_to_Z w) 2 - Z.of_nat k) 0).
  { rewrite cooled_cd by (try rewrite Huse; lia). rewrite Huse. reflexivity. }
  split; [exact Hcd |]. split; [exact Hk |].
  unfold GameInfo.is_operation_valid. cbn [Operation.type Operation.arg0 Operation.arg1].
  assert (E : (if is_valid_pos x' y'
               then GameInfo.super_weapon_cd
                      (cooled k (GameInfo.use_super_weapon g w p x y)) p
                      (Z.rem (OperationType_to_Z (use_operation w)) 10) <=? 0
               else false)
              = is_valid_pos x' y'
                && (SUPER_WEAPON_INFO (SuperWeaponType_to_Z w) 2 <=? Z.of_nat k)).
  { rewrite use_operation_digit, Hk. destruct (is_valid_pos x' y'); cbn [andb]; [| reflexivity].
    destruct (Z.leb_spec (SUPER_WEAPON_INFO (SuperWeaponType_to_Z w) 2) (Z.of_nat k));
      [apply Z.leb_le | apply Z.leb_gt]; lia. }
  destruct w; exact E.
Qed.

Lemma super_weapon_cooldown_witness :
  let g' := cooled 49 (GameInfo.use_super_weapon
                         (GameInfo.new (fun _ _ _ => PHEROMONE_INIT)) Deflector 0 5 9) in
  let cd := SUPER_WEAPON_INFO (SuperWeaponType_to_Z Deflector) 2 in
  (cd = 100 \/ cd = 50)
  /\ GameInfo.super_weapon_cd g' 0 (SuperWeaponType_to_Z Deflector) = Z.max (cd - Z.of_nat 49) 0
  /\ GameInfo.is_operation_valid g' 0 (Operation.mk (use_operation Deflector) 12 9)
     = is_valid_pos 12 9 && (cd <=? Z.of_nat 49).
Proof.
  apply (super_weapon_cooldown (GameInfo.new (fun _ _ _ => PHEROMONE_INIT))
           Deflector 0 5 9 12 9 49).
  lia.
Defined.

(* ================================================================== *)
(** * Lookups *)
(* ================================================================== *)

Lemma ant_index_from_spec (id : Z) :
  forall l i,
    0 <= i ->
    match find (fun a => Ant.id a =? id) l with
    | None => GameInfo.ant_index_from id l i = -1
    | Some a =>
        i <= GameInfo.ant_index_from id l i < i + Z.of_nat (length l)
        /\ nth_error l (Z.to_nat (GameInfo.ant_index_from id l i - i)) = Some a
        /\ Forall (fun b => Ant.id b <> id)
                  (firstn (Z.to_nat (GameInfo.ant_index_from id l i - i)) l)
    end.
Proof.
  induction l as [| a l IH]; intros i Hi; cbn [find GameInfo.ant_index_from];
    [reflexivity |].
  destruct (Ant.id a =? id) eqn:E.
  - rewrite Z.sub_diag. cbn [Z.to_nat nth_error firstn length].
    split; [lia | split; [reflexivity | constructor]].
  - specialize (IH (i + 1) ltac:(lia)).
    destruct (find (fun a0 => Ant.id a0 =? id) l) as [b |]; [| exact IH].
    destruct IH as (Hr & Hn & Hf).
    replace (Z.to_nat (GameInfo.ant_index_from id l (i + 1) - i))
      with (S (Z.to_nat (GameInfo.ant_index_from id l (i + 1) - (i + 1)))) by lia.
    cbn [nth_error firstn length].
    split; [lia | split; [exact Hn |]].
    constructor; [apply Z.eqb_neq; exact E | exact Hf].
Qed.


(** X10. A valid [BuildTower] puts a Basic tower of the player on the cell,
    under the id [next_tower_id], with two rounds to wait before its first
    attack; [tower_at] finds it there, the player has one tower more, and no
    player can build on the cell any longer. *)
Theorem build_tower_occupies_cell (g : GameInfo.t) (p q x y : Z) :
  GameInfo.is_operation_valid g p (Operation.mk BuildTower x y) = true ->
  exists g1,
    GameInfo.apply_operation g p (Operation.mk BuildTower x y) = Some g1
    /\ GameInfo.towers g1
       = GameInfo.towers g ++ [Tower.new (GameInfo.next_tower_id g) p x y Basic 0]
    /\ GameInfo.tower_at g1 x y = Some (Tower.new (GameInfo.next_tower_id g) p x y Basic 0)
    /\ Tower.cd (Tower.new (GameInfo.next_tower_id g) p x y Basic 0) = 2
    /\ GameInfo.tower_num_of_player g1 p = GameInfo.tower_num_of_player g p + 1
    /\ GameInfo.next_tower_id g1 = GameInfo.next_tower_id g + 1
    /\ GameInfo.is_operation_valid g1 q (Operation.mk BuildTower x y) = false.
Proof.
  unfold GameInfo.is_operation_valid at 1. cbn [Operation.type Operation.arg0 Operation.arg1].
  intros H. apply andb_prop in H. destruct H as [H _].
  apply andb_prop in H. destruct H as [_ H].
  destruct (GameInfo.tower_at g x y) eqn:Hat; [discriminate |]. clear H.
  eexists. split; [apply apply_build_tower |].
  assert (Hat1 : GameInfo.tower_at
                   (GameInfo.build_tower
                      (GameInfo.set_next_tower_id
                         (GameInfo.update_coin g p
                            (- GameInfo.build_tower_cost (GameInfo.tower_num_of_player g p)))
                         (GameInfo.next_tower_id g + 1))
                      (GameInfo.next_tower_id g) p x y Basic) x y
                 = Some (Tower.new (GameInfo.next_tower_id g) p x y Basic 0)).
  { unfold GameInfo.tower_at in *.
    cbn [GameInfo.build_tower GameInfo.towers GameInfo.set_towers
         GameInfo.set_next_tower_id GameInfo.update_coin GameInfo.set_coins].
    rewrite find_app_none.
    - cbn [find].
      change (Tower.x (Tower.new (GameInfo.next_tower_id g) p x y Basic 0)) with x.
      change (Tower.y (Tower.new (GameInfo.next_tower_id g) p x y Basic 0)) with y.
      rewrite !Z.eqb_refl. reflexivity.
    - apply Forall_forall. intros tw Htw. exact (find_none _ _ Hat tw Htw). }
  split; [reflexivity |]. split; [exact Hat1 |]. split; [reflexivity |].
  split.
  - unfold GameInfo.tower_num_of_player.
    cbn [GameInfo.build_tower GameInfo.towers GameInfo.set_towers
         GameInfo.set_next_tower_id GameInfo.update_coin GameInfo.set_coins].
    rewrite filter_app, length_app. cbn [filter].
    change (Tower.player (Tower.new (GameInfo.next_tower_id g) p x y Basic 0)) with p.
    rewrite Z.eqb_refl. cbn [length]. lia.
  - split; [reflexivity |].
    unfold GameInfo.is_operation_valid. cbn [Operation.type Operation.arg0 Operation.arg1].
    rewrite Hat1. rewrite andb_false_r. reflexivity.
Qed.

Lemma build_tower_occupies_cell_witness :
  exists g1,
    GameInfo.apply_operation (GameInfo.new (fun _ _ _ => PHEROMONE_INIT)) 0
      (Operation.mk BuildTower 5 9) = Some g1
    /\ GameInfo.towers g1
       = GameInfo.towers (GameInfo.new (fun _ _ _ => PHEROMONE_INIT))
         ++ [Tower.new (GameInfo.next_tower_id (GameInfo.new (fun _ _ _ => PHEROMONE_INIT)))
                       0 5 9 Basic 0]
    /\ GameInfo.tower_at g1 5 9
       = Some (Tower.new (GameInfo.next_tower_id (GameInfo.new (fun _ _ _ => PHEROMONE_INIT)))
                         0 5 9 Basic 0)
    /\ Tower.cd (Tower.new (GameInfo.next_tower_id (GameInfo.new (fun _ _ _ => PHEROMONE_INIT)))
                           0 5 9 Basic 0) = 2
    /\ GameInfo.tower_num_of_player g1 0
       = GameInfo.tower_num_of_player (GameInfo.new (fun _ _ _ => PHEROMONE_INIT)) 0 + 1
    /\ GameInfo.next_tower_id g1
       = GameInfo.next_tower_id (GameInfo.new (fun _ _ _ => PHEROMONE_INIT)) + 1
    /\ GameInfo.is_operation_valid g1 1 (Operation.mk BuildTower 5 9) = false.
Proof.
  apply (build_tower_occupies_cell (GameInfo.new (fun _ _ _ => PHEROMONE_INIT)) 0 1 5 9).
  reflexivity.
Defined.

(* ================================================================== *)
(** * The attack of a tower *)
(* ================================================================== *)

(** ** Vectors of indexes *)

Lemma indices_from_In {A : Type} (p : A -> bool) :
  forall l i0 i,
    In i (indices_from p i0 l)
    <-> (i0 <= i)%nat /\ exists a, nth_error l (i - i0) = Some a /\ p a = true.
Proof.
  induction l as [| b l IH]; intros i0 i; cbn [indices_from].
  - split; [contradiction |]. intros (_ & a & H & _). destruct (i - i0)%nat; discriminate.
  - assert (Hrest : In i (indices_from p (S i0) l)
                    <-> (S i0 <= i)%nat
                        /\ exists a, nth_error (b :: l) (i - i0) = Some a /\ p a = true).
    { rewrite IH. split; intros (Hle & a & Hn & Hp); (split; [lia |]); exists a;
        (split; [| exact Hp]).
      - replace (i - i0)%nat with (S (i - S i0)) by lia. exact Hn.
      - replace (i - i0)%nat with (S (i - S i0)) in Hn by lia. exact Hn. }
    destruct (p b) eqn:E.
    + cbn [In]. rewrite Hrest. split.
      * intros [<- | (Hle & a & Hn & Hp)].
        -- split; [lia |]. exists b. rewrite Nat.sub_diag. split; [reflexivity | exact E].
        -- split; [lia |]. exists a. split; assumption.
      * intros (Hle & a & Hn & Hp).
        destruct (Nat.eq_dec i0 i) as [-> | Hne]; [left; reflexivity | right].
        split; [lia |]. exists a. split; assumption.
    + rewrite Hrest. split.
      * intros (Hle & a & Hn & Hp). split; [lia |]. exists a. split; assumption.
      * intros (Hle & a & Hn & Hp).
        destruct (Nat.eq_dec i0 i) as [-> | Hne].
        -- rewrite Nat.sub_diag in Hn. cbn in Hn. congruence.
        -- split; [lia |]. exists a. split; assumption.
Qed.


Lemma insert_sorted_In lt i j l : In j (insert_sorted lt i l) <-> j = i \/ In j l.
Proof.
  induction l as [| k l IH]; cbn [insert_sorted In]; [intuition |].
  destruct (lt k i); cbn [In]; [rewrite IH |]; intuition.
Qed.

Lemma isort_In lt j l : In j (isort lt l) <-> In j l.
Proof.
  unfold isort. induction l as [| i l IH]; cbn [fold_right In]; [tauto |].
  rewrite insert_sorted_In, IH. intuition.
Qed.





Section Sorting.

Variable lt : nat -> nat -> bool.
Hypothesis lt_asym : forall i j, lt i j = true -> lt j i = false.
Hypothesis lt_trans : forall i j k, lt j i = false -> lt k j = false -> lt k i = false.

Lemma insert_sorted_sorted i l :
  StronglySorted (not_after lt) l -> StronglySorted (not_after lt) (insert_sorted lt i l).
Proof.
  induction 1 as [| k l Hs IH Hk]; cbn [insert_sorted].
  - constructor; constructor.
  - destruct (lt k i) eqn:E.
    + constructor; [exact IH |].
      apply Forall_forall. intros j Hj. apply insert_sorted_In in Hj.
      destruct Hj as [-> | Hj].
      * unfold not_after. apply lt_asym. exact E.
      * rewrite Forall_forall in Hk. apply Hk, Hj.
    + constructor; [constructor; assumption |].
      constructor; [exact E |].
      apply Forall_forall. intros j Hj. rewrite Forall_forall in Hk.
      unfold not_after in *. apply (lt_trans i k j); [exact E | apply Hk, Hj].
Qed.

Lemma isort_sorted l : StronglySorted (not_after lt) (isort lt l).
Proof.
  unfold isort. induction l as [| i l IH]; cbn [fold_right]; [constructor |].
  apply insert_sorted_sorted, IH.
Qed.

End Sorting.



(** [std::unique] on a vector in ascending order leaves it strictly
    ascending, with the same elements. *)
Lemma unique_In i l : In i (unique l) -> In i l.
Proof.
  induction l as [| j l IH]; [contradiction |].
  cbn [unique]. destruct l as [| k l']; [tauto |].
  destruct (Nat.eqb j k); [intros H; right; apply IH, H |].
  intros [-> | H]; [left; reflexivity | right; apply IH, H].
Qed.

Lemma In_unique i l : In i l -> In i (unique l).
Proof.
  induction l as [| j l IH]; [contradiction |].
  cbn [unique]. destruct l as [| k l']; [tauto |].
  destruct (Nat.eqb_spec j k) as [-> | Hne].
  - intros [<- | H]; apply IH; [left; reflexivity | exact H].
  - intros [-> | H]; [left; reflexivity | right; apply IH, H].
Qed.

Lemma unique_sorted l :
  StronglySorted (not_after Nat.ltb) l -> StronglySorted Nat.lt (unique l).
Proof.
  induction 1 as [| j l Hs IH Hj]; [constructor |].
  cbn [unique]. destruct l as [| k l']; [constructor; constructor |].
  rewrite Forall_forall in Hj.
  destruct (Nat.eqb_spec j k) as [-> | Hne]; [exact IH |].
  constructor; [exact IH |].
  apply Forall_forall. intros i Hi. apply unique_In in Hi.
  pose proof (Hj i Hi) as H1. pose proof (Hj k (or_introl eq_refl)) as H2.
  unfold not_after in H1, H2. apply Nat.ltb_ge in H1, H2.
  destruct Hi as [<- | Hi]; [lia |].
  inversion Hs as [| ? ? _ Hk]; subst. rewrite Forall_forall in Hk.
  specialize (Hk i Hi). unfold not_after in Hk. apply Nat.ltb_ge in Hk. lia.
Qed.

Lemma ltb_asym i j : Nat.ltb i j = true -> Nat.ltb j i = false.
Proof. rewrite Nat.ltb_lt, Nat.ltb_ge. lia. Qed.

Lemma ltb_trans i j k : Nat.ltb j i = false -> Nat.ltb k j = false -> Nat.ltb k i = false.
Proof. rewrite !Nat.ltb_ge. lia. Qed.

(** ** The targets *)






(** ** The ants after an attack *)

Lemma after_attack_refl tw a : after_attack tw a a.
Proof.
  unfold after_attack. split; [apply same_body_refl |].
  split; [reflexivity |]. split; [lia | reflexivity].
Qed.

Lemma after_attack_trans tw a b c :
  after_attack tw a b -> after_attack tw b c -> after_attack tw a c.
Proof.
  unfold after_attack. intros (B1 & D1 & H1 & U1) (B2 & D2 & H2 & U2).
  split; [eapply same_body_trans; eassumption |].
  split; [congruence |]. split; [lia |].
  intros Hn. pose proof (U1 Hn) as ->. exact (U2 Hn).
Qed.

Lemma attackable_by_body tw a b :
  same_body a b -> Ant.state b = Ant.state a -> attackable_by tw b = attackable_by tw a.
Proof.
  unfold same_body, attackable_by, Ant.is_alive. intros (_ & Hp & _) Hs.
  rewrite Hp, Hs. reflexivity.
Qed.

Lemma action_body tw a : same_body a (Tower.action tw a).
Proof.
  unfold Tower.action.
  destruct (Ant.evasion a >? 0); [unfold same_body; repeat split |].
  destruct (Ant.deflector a && (Tower.damage tw <? Z.quot (Ant.max_hp a) 2));
    [apply same_body_refl |].
  cbv zeta.
  destruct (TowerType_eqb (Tower.type tw) Ice);
    match goal with |- context [if ?c then _ else _] => destruct c end;
    unfold same_body; repeat split.
Qed.

Lemma action_deflector tw a : Ant.deflector (Tower.action tw a) = Ant.deflector a.
Proof.
  unfold Tower.action.
  destruct (Ant.evasion a >? 0); [reflexivity |].
  destruct (Ant.deflector a && (Tower.damage tw <? Z.quot (Ant.max_hp a) 2));
    [reflexivity |].
  cbv zeta.
  destruct (TowerType_eqb (Tower.type tw) Ice);
    match goal with |- context [if ?c then _ else _] => destruct c end; reflexivity.
Qed.

Lemma action_hp tw a : 0 <= Tower.damage tw -> Ant.hp (Tower.action tw a) <= Ant.hp a.
Proof.
  intros Hd. unfold Tower.action.
  destruct (Ant.evasion a >? 0); [cbn; lia |].
  destruct (Ant.deflector a && (Tower.damage tw <? Z.quot (Ant.max_hp a) 2)); [lia |].
  cbv zeta.
  destruct (TowerType_eqb (Tower.type tw) Ice);
    match goal with |- context [if ?c then _ else _] => destruct c end; cbn; lia.
Qed.

(** A hit on an ant that was a possible victim before the attack. *)
Lemma after_attack_action tw a b :
  attackable_by tw a = true -> after_attack tw a b -> after_attack tw a (Tower.action tw b).
Proof.
  intros Ha (B & D & H & U). unfold after_attack.
  split; [eapply same_body_trans; [exact B | apply action_body] |].
  split; [rewrite action_deflector; exact D |].
  split; [intros Hd; pose proof (action_hp tw b Hd); specialize (H Hd); lia |].
  congruence.
Qed.

Lemma update_nth_length {A : Type} (f : A -> A) :
  forall l i, length (update_nth i f l) = length l.
Proof.
  induction l as [| a l IH]; intros [| i]; cbn [update_nth length]; auto.
Qed.

Lemma update_nth_Forall2 {A : Type} (R : A -> A -> Prop) (f : A -> A) :
  forall l0 l i,
    Forall2 R l0 l ->
    (forall a b, nth_error l0 i = Some a -> R a b -> R a (f b)) ->
    Forall2 R l0 (update_nth i f l).
Proof.
  intros l0 l i H. revert i. induction H as [| a b l0 l Hab Hl IH]; intros i Hf.
  - destruct i; constructor.
  - destruct i as [| i]; cbn [update_nth].
    + constructor; [apply Hf; [reflexivity | exact Hab] | exact Hl].
    + constructor; [exact Hab |]. apply IH. intros a' b' Hn. apply Hf. exact Hn.
Qed.

Lemma fold_update_Forall2 {A : Type} (R : A -> A -> Prop) (f : A -> A) :
  forall idxs l0 l,
    Forall2 R l0 l ->
    (forall i a b, In i idxs -> nth_error l0 i = Some a -> R a b -> R a (f b)) ->
    Forall2 R l0 (fold_left (fun v idx => update_nth idx f v) idxs l).
Proof.
  induction idxs as [| i idxs IH]; intros l0 l H Hf; cbn [fold_left]; [exact H |].
  apply IH.
  - apply update_nth_Forall2; [exact H |]. intros a b. apply Hf. left. reflexivity.
  - intros j a b Hj. apply Hf. right. exact Hj.
Qed.

Lemma Forall2_nth_error {A B : Type} (R : A -> B -> Prop) :
  forall l l' i a,
    Forall2 R l l' -> nth_error l i = Some a ->
    exists b, nth_error l' i = Some b /\ R a b.
Proof.
  intros l l' i a H. revert i. induction H as [| x y l l' Hxy _ IH]; intros i Hn.
  - destruct i; discriminate.
  - destruct i as [| i]; cbn [nth_error] in *.
    + injection Hn as <-. exists y. split; [reflexivity | exact Hxy].
    + apply IH, Hn.
Qed.

Lemma Forall2_nth_error_rev {A B : Type} (R : A -> B -> Prop) :
  forall l l' i b,
    Forall2 R l l' -> nth_error l' i = Some b ->
    exists a, nth_error l i = Some a /\ R a b.
Proof.
  intros l l' i b H. revert i. induction H as [| x y l l' Hxy _ IH]; intros i Hn.
  - destruct i; discriminate.
  - destruct i as [| i]; cbn [nth_error] in *.
    + injection Hn as <-. exists x. split; [reflexivity | exact Hxy].
    + apply IH, Hn.
Qed.

Lemma Forall2_refl {A : Type} (R : A -> A -> Prop) (l : list A) :
  (forall a, R a a) -> Forall2 R l l.
Proof. intros H. induction l; constructor; auto. Qed.

Lemma in_firstn {A : Type} (a : A) :
  forall n l, In a (firstn n l) -> In a l.
Proof.
  induction n as [| n IH]; intros [| b l]; cbn [firstn In]; try tauto.
  intros [H | H]; [left; exact H | right; apply IH, H].
Qed.

Lemma is_attackable_from_by tw a cx cy range :
  Ant.is_attackable_from a (Tower.player tw) cx cy range = true ->
  attackable_by tw a = true.
Proof.
  unfold Ant.is_attackable_from, attackable_by. intros H.
  apply andb_prop in H. tauto.
Qed.

Lemma get_attackable_ants_by tw ants cx cy range i :
  In i (Tower.get_attackable_ants tw ants cx cy range) ->
  exists a, nth_error ants i = Some a /\ attackable_by tw a = true.
Proof.
  unfold Tower.get_attackable_ants. rewrite indices_from_In, Nat.sub_0_r.
  intros (_ & a & Hn & Ha). exists a. split; [exact Hn |].
  eapply is_attackable_from_by, Ha.
Qed.

(** Every index that a round of the attack acts on is the index of a
    possible victim. *)
Lemma find_attackable_by tw ants target_num i :
  In i (Tower.find_attackable tw ants (Tower.find_targets tw ants target_num)) ->
  exists a, nth_error ants i = Some a /\ attackable_by tw a = true.
Proof.
  unfold Tower.find_attackable. rewrite in_flat_map. intros (idx & Hidx & Hi).
  assert (Ht : exists a, nth_error ants idx = Some a /\ attackable_by tw a = true).
  { unfold Tower.find_targets in Hidx. apply in_firstn in Hidx.
    apply isort_In in Hidx. eapply get_attackable_ants_by, Hidx. }
  destruct Ht as (t & Hnt & Hat). rewrite Hnt in Hi.
  destruct (Tower.type tw);
    try (destruct Hi as [<- | []]; exists t; split; assumption);
    eapply get_attackable_ants_by, Hi.
Qed.

Lemma attack_rounds_after tw target_num :
  forall time ants0 ants acc ants' hit,
    Forall2 (after_attack tw) ants0 ants ->
    Tower.attack_rounds tw target_num time ants acc = (ants', hit) ->
    Forall2 (after_attack tw) ants0 ants'
    /\ forall i, In i hit ->
         In i acc \/ exists a, nth_error ants0 i = Some a /\ attackable_by tw a = true.
Proof.
  induction time as [| time IH]; intros ants0 ants acc ants' hit H0 H.
  - cbn in H. injection H as <- <-. split; [exact H0 | auto].
  - cbn [Tower.attack_rounds] in H.
    assert (Hidx : forall i,
               In i (Tower.find_attackable tw ants (Tower.find_targets tw ants target_num)) ->
               exists a, nth_error ants0 i = Some a /\ attackable_by tw a = true).
    { intros i Hi. apply find_attackable_by in Hi. destruct Hi as (b & Hb & Hab).
      destruct (Forall2_nth_error_rev _ _ _ _ _ H0 Hb) as (a & Ha & Hr).
      exists a. split; [exact Ha |].
      destruct (attackable_by tw a) eqn:E; [reflexivity |].
      destruct Hr as (_ & _ & _ & U). rewrite (U E) in Hab. congruence. }
    apply IH with (ants0 := ants0) in H.
    + destruct H as [HF Hhit]. split; [exact HF |].
      intros i Hi. destruct (Hhit i Hi) as [Hacc | Hv]; [| right; exact Hv].
      apply in_app_or in Hacc. destruct Hacc as [Hacc | Hnew]; [left; exact Hacc |].
      right. apply Hidx, Hnew.
    + apply fold_update_Forall2; [exact H0 |].
      intros i a b Hi Hn Hr. destruct (Hidx i Hi) as (a' & Ha' & Hat).
      rewrite Hn in Ha'. injection Ha' as <-.
      apply after_attack_action; assumption.
Qed.

Lemma same_tower_refl tw : same_tower tw tw.
Proof. unfold same_tower. repeat split. Qed.

Lemma attack_same_tower tw ants tw' ants' hit :
  Tower.attack tw ants = (tw', ants', hit) ->
  same_tower tw tw' /\ Tower.damage tw' = Tower.damage tw.
Proof.
  unfold Tower.attack.
  set (tw1 := Tower.set_cd tw (Z.max (Tower.cd tw - 1) 0)).
  destruct (Tower.cd tw1 <=? 0).
  - destruct (Tower.attack_rounds _ _ _ _ _) as [ants1 raw].
    destruct (unique (isort Nat.ltb raw)); intros H; injection H as <- <- <-;
      (split; [unfold same_tower; repeat split | reflexivity]).
  - intros H. injection H as <- <- <-.
    split; [unfold same_tower; repeat split | reflexivity].
Qed.

Lemma attack_Forall2 tw ants tw' ants' hit :
  Tower.attack tw ants = (tw', ants', hit) ->
  Forall2 (after_attack tw) ants ants'.
Proof.
  unfold Tower.attack.
  set (tw1 := Tower.set_cd tw (Z.max (Tower.cd tw - 1) 0)).
  destruct (Tower.cd tw1 <=? 0).
  - destruct (Tower.attack_rounds _ _ _ _ _) as [ants1 raw] eqn:Erounds.
    apply attack_rounds_after with (ants0 := ants) in Erounds;
      [| apply Forall2_refl, after_attack_refl].
    destruct Erounds as [HF _].
    destruct (unique (isort Nat.ltb raw)); intros H; injection H as <- <- <-; exact HF.
  - intros H. injection H as <- <- <-. apply Forall2_refl, after_attack_refl.
Qed.

(** X12. An attack of a tower leaves every ant in its place in the vector with
    the same id, owner, position, level, age, path and deflector flag; it
    touches no ant of the owner of the tower and no ant that was not alive;
    it adds no HP when the damage of the tower is not negative.  The tower
    itself changes in nothing but its cooldown. *)
Theorem attack_touches_live_enemies_only (tw : Tower.t) (ants : list Ant.t)
        (tw' : Tower.t) (ants' : list Ant.t) (hit : list nat) :
  Tower.attack tw ants = (tw', ants', hit) ->
  same_tower tw tw' /\ Tower.damage tw' = Tower.damage tw
  /\ length ants' = length ants
  /\ forall i a,
       nth_error ants i = Some a ->
       exists a',
         nth_error ants' i = Some a'
         /\ same_body a a'
         /\ Ant.deflector a' = Ant.deflector a
         /\ (0 <= Tower.damage tw -> Ant.hp a' <= Ant.hp a)
         /\ (Ant.player a = Tower.player tw \/ Ant.is_alive a = false -> a' = a).
Proof.
  intros Hatt.
  destruct (attack_same_tower _ _ _ _ _ Hatt) as [Hsame Hdmg].
  pose proof (attack_Forall2 _ _ _ _ _ Hatt) as HF.
  split; [exact Hsame |]. split; [exact Hdmg |].
  split; [symmetry; eapply Forall2_length, HF |].
  intros i a Hn. destruct (Forall2_nth_error _ _ _ _ _ HF Hn) as (a' & Hn' & B & D & H & U).
  exists a'. split; [exact Hn' |]. split; [exact B |]. split; [exact D |].
  split; [exact H |]. intros Hor. apply U. unfold attackable_by.
  destruct Hor as [-> | ->]; [rewrite Z.eqb_refl; reflexivity | apply andb_false_r].
Qed.

(** X13. The indexes that [attack] returns are strictly ascending, so that no
    ant is returned twice, and each of them is the index in the vector of an
    ant of another player that was alive before the attack. *)
Theorem attack_returns_distinct_victims (tw : Tower.t) (ants : list Ant.t)
        (tw' : Tower.t) (ants' : list Ant.t) (hit : list nat) :
  Tower.attack tw ants = (tw', ants', hit) ->
  StronglySorted Nat.lt hit
  /\ NoDup hit
  /\ forall i, In i hit ->
       exists a, nth_error ants i = Some a
                 /\ Ant.player a <> Tower.player tw /\ Ant.is_alive a = true.
Proof.
  unfold Tower.attack.
  set (tw1 := Tower.set_cd tw (Z.max (Tower.cd tw - 1) 0)).
  assert (Hnd : forall l, StronglySorted Nat.lt l -> NoDup l).
  { induction 1 as [| i l _ IH Hi]; constructor; [| exact IH].
    intros Hin. rewrite Forall_forall in Hi. specialize (Hi i Hin). lia. }
  destruct (Tower.cd tw1 <=? 0).
  - destruct (Tower.attack_rounds _ _ _ _ _) as [ants1 raw] eqn:Erounds.
    apply attack_rounds_after with (ants0 := ants) in Erounds;
      [| apply Forall2_refl, after_attack_refl].
    destruct Erounds as [_ Hraw].
    assert (Hs : StronglySorted Nat.lt (unique (isort Nat.ltb raw)))
      by (apply unique_sorted, isort_sorted; [apply ltb_asym | apply ltb_trans]).
    assert (Hv : forall i, In i (unique (isort Nat.ltb raw)) ->
               exists a, nth_error ants i = Some a
                         /\ Ant.player a <> Tower.player tw /\ Ant.is_alive a = true).
    { intros i Hi. apply unique_In, isort_In in Hi.
      destruct (Hraw i Hi) as [[] | (a & Ha & Hat)].
      exists a. split; [exact Ha |]. unfold attackable_by in Hat.
      apply andb_prop in Hat. destruct Hat as [Hp Hal].
      split; [| exact Hal]. apply negb_true_iff, Z.eqb_neq in Hp. exact Hp. }
    destruct (unique (isort Nat.ltb raw)); intros H; injection H as <- <- <-;
      (split; [exact Hs | split; [apply Hnd, Hs | exact Hv]]).
  - intros H. injection H as <- <- <-.
    split; [constructor | split; [constructor | contradiction]].
Qed.


Lemma attack_touches_live_enemies_only_witness :
  same_tower guard_tower (fst (fst (Tower.attack guard_tower [spawned_ant])))
  /\ Tower.damage (fst (fst (Tower.attack guard_tower [spawned_ant])))
     = Tower.damage guard_tower
  /\ length (snd (fst (Tower.attack guard_tower [spawned_ant]))) = length [spawned_ant]
  /\ forall i a,
       nth_error [spawned_ant] i = Some a ->
       exists a',
         nth_error (snd (fst (Tower.attack guard_tower [spawned_ant]))) i = Some a'
         /\ same_body a a'
         /\ Ant.deflector a' = Ant.deflector a
         /\ (0 <= Tower.damage guard_tower -> Ant.hp a' <= Ant.hp a)
         /\ (Ant.player a = Tower.player guard_tower \/ Ant.is_alive a = false -> a' = a).
Proof.
  apply (attack_touches_live_enemies_only guard_tower [spawned_ant]
           (fst (fst (Tower.attack guard_tower [spawned_ant])))
           (snd (fst (Tower.attack guard_tower [spawned_ant])))
           (snd (Tower.attack guard_tower [spawned_ant]))).
  reflexivity.
Defined.

Lemma attack_returns_distinct_victims_witness :
  StronglySorted Nat.lt (snd (Tower.attack guard_tower [spawned_ant]))
  /\ NoDup (snd (Tower.attack guard_tower [spawned_ant]))
  /\ forall i, In i (snd (Tower.attack guard_tower [spawned_ant])) ->
       exists a, nth_error [spawned_ant] i = Some a
                 /\ Ant.player a <> Tower.player guard_tower /\ Ant.is_alive a = true.
Proof.
  apply (attack_returns_distinct_victims guard_tower [spawned_ant]
           (fst (fst (Tower.attack guard_tower [spawned_ant])))
           (snd (fst (Tower.attack guard_tower [spawned_ant])))
           (snd (Tower.attack guard_tower [spawned_ant]))).
  reflexivity.
Defined.

(* ================================================================== *)
(** * The combat phase *)
(* ================================================================== *)

Lemma reward_nonneg a : 0 <= Ant.reward a.
Proof.
  unfold Ant.reward, Ant.REWARD_INFO.
  destruct (Z.to_nat (Ant.level a)) as [| [| [| n]]]; cbn; try lia.
  destruct n; lia.
Qed.

Lemma reward_kills_grows tw ants :
  forall targets coins q,
    get2 coins q <= get2 (Simulator.reward_kills tw ants targets coins) q.
Proof.
  unfold Simulator.reward_kills.
  induction targets as [| idx targets IH]; intros coins q; cbn [fold_left]; [lia |].
  eapply Z.le_trans; [| apply IH].
  destruct (nth_error ants idx) as [a |]; [| lia].
  destruct (AntState_eqb (Ant.state a) Fail); [| lia].
  pose proof (reward_nonneg a).
  unfold get2, set2. destruct (Tower.player tw =? 0), (q =? 0); cbn [fst snd]; lia.
Qed.

Lemma after_combat_refl a : after_combat a a.
Proof.
  unfold after_combat. split; [apply same_body_refl |].
  intros _. destruct a; reflexivity.
Qed.

Lemma after_combat_trans a b c : after_combat a b -> after_combat b c -> after_combat a c.
Proof.
  unfold after_combat. intros (B1 & U1) (B2 & U2).
  split; [eapply same_body_trans; eassumption |].
  intros Hd. specialize (U1 Hd).
  assert (Hb : Ant.is_alive b = false) by (rewrite U1; exact Hd).
  rewrite (U2 Hb). rewrite U1 at 1. reflexivity.
Qed.

Lemma after_attack_combat tw a a' : after_attack tw a a' -> after_combat a a'.
Proof.
  unfold after_attack, after_combat, attackable_by. intros (B & D & _ & U).
  split; [exact B |]. intros Hd. rewrite U by (rewrite Hd; apply andb_false_r).
  destruct a; reflexivity.
Qed.

Lemma Forall2_trans {A : Type} (R : A -> A -> Prop) :
  (forall a b c, R a b -> R b c -> R a c) ->
  forall l1 l2 l3, Forall2 R l1 l2 -> Forall2 R l2 l3 -> Forall2 R l1 l3.
Proof.
  intros Ht l1 l2 l3 H. revert l3. induction H as [| a b l1 l2 Hab _ IH]; intros l3 H3.
  - inversion H3. constructor.
  - inversion H3 as [| ? c ? l3' Hbc Hl]; subst. constructor; [eapply Ht; eassumption |].
    apply IH, Hl.
Qed.

Lemma Forall2_impl {A B : Type} (R S : A -> B -> Prop) (l : list A) (l' : list B) :
  (forall a b, R a b -> S a b) -> Forall2 R l l' -> Forall2 S l l'.
Proof. intros H. induction 1; constructor; auto. Qed.

(** The loop of the combat phase over the towers. *)
Lemma attack_loop_spec (g : GameInfo.t) :
  forall towers ants coins towers' ants' coins',
    Simulator.attack_loop g towers ants coins = (towers', ants', coins') ->
    Forall2 (after_combat_tower g) towers towers'
    /\ Forall2 after_combat ants ants'
    /\ (forall q, get2 coins q <= get2 coins' q)
    /\ (Forall (fun tw => 0 <= Tower.damage tw) towers ->
        Forall2 (fun a a' => Ant.hp a' <= Ant.hp a) ants ants')
    /\ (Forall (fun tw => GameInfo.is_tower_shielded_by_emp g tw = true) towers ->
        ants' = ants /\ coins' = coins).
Proof.
  induction towers as [| tw towers IH]; intros ants coins towers' ants' coins' H.
  - cbn in H. injection H as <- <- <-.
    split; [constructor |]. split; [apply Forall2_refl, after_combat_refl |].
    split; [intros; lia |]. split; [intros _; apply Forall2_refl; intros; lia | auto].
  - cbn [Simulator.attack_loop] in H.
    fold (GameInfo.is_tower_shielded_by_emp g tw) in H.
    destruct (GameInfo.is_tower_shielded_by_emp g tw) eqn:Es.
    + destruct (Simulator.attack_loop g towers ants coins) as [[rest' ants1] coins1] eqn:E.
      injection H as <- <- <-.
      destruct (IH _ _ _ _ _ E) as (HT & HA & HC & HH & HS).
      split; [constructor; [| exact HT] |].
      { unfold after_combat_tower. split; [apply same_tower_refl |].
        split; [reflexivity | congruence]. }
      split; [exact HA |]. split; [exact HC |].
      split; [intros HF; apply HH; inversion HF; assumption |].
      intros HF; apply HS; inversion HF; assumption.
    + destruct (Tower.attack tw ants) as [[tw1 ants1] targets] eqn:Eatt.
      destruct (Simulator.attack_loop g towers ants1 _) as [[rest' ants2] coins2] eqn:E.
      injection H as <- <- <-.
      destruct (IH _ _ _ _ _ E) as (HT & HA & HC & HH & HS).
      pose proof (attack_Forall2 _ _ _ _ _ Eatt) as HF1.
      pose proof (attack_same_tower _ _ _ _ _ Eatt) as Htw.
      split; [constructor; [| exact HT] |].
      { unfold after_combat_tower. destruct Htw as (Hsame & _).
        split; [exact Hsame |]. split; [congruence |]. intros _.
        unfold Tower.set_damage. cbn [Tower.damage Tower.type].
        destruct Hsame as (_ & _ & _ & _ & Hty & _). rewrite Hty. reflexivity. }
      split.
      { eapply Forall2_trans; [apply after_combat_trans | | exact HA].
        eapply Forall2_impl; [| exact HF1]. intros a b. apply after_attack_combat. }
      split.
      { intros q. eapply Z.le_trans; [| apply HC]. apply reward_kills_grows. }
      split.
      { intros HF. inversion HF as [| ? ? Hd Hrest]; subst.
        eapply Forall2_trans; [| | apply HH, Hrest].
        - intros a b c; cbv beta; lia.
        - eapply Forall2_impl; [| exact HF1]. intros a b (_ & _ & Hhp & _). apply Hhp, Hd. }
      intros HF. inversion HF as [| ? ? Hs _]; subst. congruence.
Qed.


Lemma attack_ants_unfold (s : Simulator.t) :
  exists towers' ants1 coins',
    Simulator.attack_loop (Simulator.info s) (GameInfo.towers (Simulator.info s))
      (map (fun ant => Ant.set_deflector ant
                         (GameInfo.is_shielded_by_deflector (Simulator.info s) ant))
           (GameInfo.ants (Simulator.info s)))
      (GameInfo.coins (Simulator.info s)) = (towers', ants1, coins')
    /\ Simulator.attack_ants s
       = Simulator.set_info s
           (GameInfo.set_coins
              (GameInfo.set_ants (GameInfo.set_towers (Simulator.info s) towers')
                 (map (fun ant => Ant.set_deflector ant false) ants1))
              coins').
Proof.
  unfold Simulator.attack_ants.
  destruct (Simulator.attack_loop _ _ _ _) as [[towers' ants1] coins'].
  exists towers', ants1, coins'. split; reflexivity.
Qed.

Lemma set_deflector_combat a b : after_combat a (Ant.set_deflector a b).
Proof.
  unfold after_combat. split; [unfold same_body; repeat split |].
  intros _. reflexivity.
Qed.

Lemma Forall2_map_l {A B C : Type} (R : B -> C -> Prop) (f : A -> B) (l : list A) (l' : list C) :
  Forall2 R (map f l) l' <-> Forall2 (fun a c => R (f a) c) l l'.
Proof.
  revert l'. induction l as [| a l IH]; intros l'; cbn [map]; split; intros H;
    inversion H; subst; constructor; try assumption; apply IH; assumption.
Qed.

Lemma Forall2_map_r {A B C : Type} (R : A -> C -> Prop) (f : B -> C) (l : list A) (l' : list B) :
  Forall2 R l (map f l') <-> Forall2 (fun a b => R a (f b)) l l'.
Proof.
  revert l'. induction l as [| a l IH]; intros [| b l']; cbn [map]; split; intros H;
    inversion H; subst; constructor; try assumption; apply IH; assumption.
Qed.

(** What the combat phase leaves as it is, and what it can change. *)
Lemma attack_ants_spec (s : Simulator.t) :
  let g := Simulator.info s in
  let g' := Simulator.info (Simulator.attack_ants s) in
  (GameInfo.round g' = GameInfo.round g
   /\ GameInfo.bases g' = GameInfo.bases g
   /\ GameInfo.pheromone g' = GameInfo.pheromone g
   /\ GameInfo.super_weapons g' = GameInfo.super_weapons g
   /\ GameInfo.super_weapon_cd g' = GameInfo.super_weapon_cd g
   /\ GameInfo.next_ant_id g' = GameInfo.next_ant_id g
   /\ GameInfo.next_tower_id g' = GameInfo.next_tower_id g
   /\ Simulator.operations (Simulator.attack_ants s) = Simulator.operations s)
  /\ Forall2 (after_combat_tower g) (GameInfo.towers g) (GameInfo.towers g')
  /\ Forall2 (fun a a' => after_combat a a' /\ Ant.deflector a' = false)
             (GameInfo.ants g) (GameInfo.ants g')
  /\ (forall q, get2 (GameInfo.coins g) q <= get2 (GameInfo.coins g') q)
  /\ (Forall (fun tw => 0 <= Tower.damage tw) (GameInfo.towers g) ->
      Forall2 (fun a a' => Ant.hp a' <= Ant.hp a) (GameInfo.ants g) (GameInfo.ants g'))
  /\ (Forall (fun tw => GameInfo.is_tower_shielded_by_emp g tw = true) (GameInfo.towers g) ->
      GameInfo.ants g' = map (fun a => Ant.set_deflector a false) (GameInfo.ants g)
      /\ GameInfo.coins g' = GameInfo.coins g).
Proof.
  cbv zeta. destruct (attack_ants_unfold s) as (towers' & ants1 & coins' & Hloop & ->).
  destruct (attack_loop_spec _ _ _ _ _ _ _ Hloop) as (HT & HA & HC & HH & HS).
  cbn [Simulator.info Simulator.set_info Simulator.operations GameInfo.round
       GameInfo.bases GameInfo.pheromone GameInfo.super_weapons GameInfo.super_weapon_cd
       GameInfo.next_ant_id GameInfo.next_tower_id GameInfo.towers GameInfo.ants
       GameInfo.coins GameInfo.set_coins GameInfo.set_ants GameInfo.set_towers].
  split; [repeat split |]. split; [exact HT |].
  split; [| split; [exact HC | split]].
  - apply Forall2_map_r.
    apply (proj1 (Forall2_map_l after_combat
                    (fun ant => Ant.set_deflector ant
                       (GameInfo.is_shielded_by_deflector (Simulator.info s) ant)) _ _))
      in HA.
    eapply Forall2_impl; [| exact HA]. cbv beta. intros a b Hab.
    split; [| reflexivity].
    eapply after_combat_trans; [apply set_deflector_combat |].
    eapply after_combat_trans; [exact Hab | apply set_deflector_combat].
  - intros HF. specialize (HH HF). apply Forall2_map_r.
    apply (proj1 (Forall2_map_l (fun a a' => Ant.hp a' <= Ant.hp a)
                    (fun ant => Ant.set_deflector ant
                       (GameInfo.is_shielded_by_deflector (Simulator.info s) ant)) _ _))
      in HH.
    exact HH.
  - intros HF. destruct (HS HF) as [-> ->]. split; [| reflexivity].
    rewrite map_map. apply map_ext. intros a. reflexivity.
Qed.

(** X14. The combat phase changes nothing but the cooldown and damage of the
    towers, the HP, state and evasion charges of the ants, and the coins: the
    towers and the ants keep their places, ids, owners and positions; every
    unshielded tower ends with the damage of its type; every ant ends with
    its deflector flag cleared, an ant that was not alive is otherwise
    untouched, and no ant gains HP when no tower has a negative damage; no
    player loses coins. *)
Theorem attack_ants_frame (s : Simulator.t) :
  let g := Simulator.info s in
  let g' := Simulator.info (Simulator.attack_ants s) in
  (GameInfo.round g' = GameInfo.round g
   /\ GameInfo.bases g' = GameInfo.bases g
   /\ GameInfo.pheromone g' = GameInfo.pheromone g
   /\ GameInfo.super_weapons g' = GameInfo.super_weapons g
   /\ GameInfo.super_weapon_cd g' = GameInfo.super_weapon_cd g
   /\ GameInfo.next_ant_id g' = GameInfo.next_ant_id g
   /\ GameInfo.next_tower_id g' = GameInfo.next_tower_id g
   /\ Simulator.operations (Simulator.attack_ants s) = Simulator.operations s)
  /\ Forall2 (after_combat_tower g) (GameInfo.towers g) (GameInfo.towers g')
  /\ Forall2 (fun a a' => after_combat a a' /\ Ant.deflector a' = false)
             (GameInfo.ants g) (GameInfo.ants g')
  /\ (forall q, get2 (GameInfo.coins g) q <= get2 (GameInfo.coins g') q)
  /\ (Forall (fun tw => 0 <= Tower.damage tw) (GameInfo.towers g) ->
      Forall2 (fun a a' => Ant.hp a' <= Ant.hp a) (GameInfo.ants g) (GameInfo.ants g')).
Proof.
  cbv zeta. destruct (attack_ants_spec s) as (H1 & H2 & H3 & H4 & H5 & _).
  repeat split; try tauto; try assumption.
Qed.

(** X15. A tower in the range of an EMP of the other player is left out of the
    combat phase: it does not attack and its cooldown does not advance.  When
    every tower is shielded, the phase harms no ant and pays no reward. *)
Theorem emp_silences_towers (s : Simulator.t) :
  let g := Simulator.info s in
  let g' := Simulator.info (Simulator.attack_ants s) in
  (forall i tw,
      nth_error (GameInfo.towers g) i = Some tw ->
      GameInfo.is_shielded_by_emp g (Tower.player tw) (Tower.x tw) (Tower.y tw) = true ->
      nth_error (GameInfo.towers g') i = Some tw)
  /\ (Forall (fun tw => GameInfo.is_shielded_by_emp g (Tower.player tw) (Tower.x tw)
                                                    (Tower.y tw) = true)
             (GameInfo.towers g) ->
      GameInfo.ants g' = map (fun a => Ant.set_deflector a false) (GameInfo.ants g)
      /\ GameInfo.coins g' = GameInfo.coins g).
Proof.
  cbv zeta. destruct (attack_ants_spec s) as (_ & HT & _ & _ & _ & HS).
  split; [| exact HS].
  intros i tw Hn Hs. destruct (Forall2_nth_error _ _ _ _ _ HT Hn) as (tw' & Hn' & _ & Hu & _).
  rewrite Hn'. f_equal. apply Hu. exact Hs.
Qed.

(* ================================================================== *)
(** * Pheromone along the trail of an ant *)
(* ================================================================== *)

Lemma walk_cons c move rest :
  walk c (move :: rest) = walk (neighbor (fst c) (snd c) move) rest.
Proof. reflexivity. Qed.

Lemma walk_app c moves move :
  walk c (moves ++ [move]) = neighbor (fst (walk c moves)) (snd (walk c moves)) move.
Proof. unfold walk. rewrite fold_left_app. reflexivity. Qed.

Lemma visited_at_cons c visited j k :
  GameInfo.visited_at (c :: visited) j k
  = ((fst c =? j) && (snd c =? k)) || GameInfo.visited_at visited j k.
Proof. reflexivity. Qed.

Lemma visited_at_app l1 l2 j k :
  GameInfo.visited_at (l1 ++ l2) j k
  = GameInfo.visited_at l1 j k || GameInfo.visited_at l2 j k.
Proof. unfold GameInfo.visited_at. apply existsb_app. Qed.

Lemma deposit_at ph p x y tau i j k :
  GameInfo.deposit ph p x y tau i j k
  = if (i =? p) && ((x =? j) && (y =? k))
    then floored (ph i j k + inject_Z tau) else ph i j k.
Proof.
  unfold GameInfo.deposit, floored.
  rewrite (Z.eqb_sym j x), (Z.eqb_sym k y), andb_assoc. reflexivity.
Qed.

(** The loop of [update_pheromone]: where it ends, what it has marked, and
    the field it leaves. *)
Lemma walk_path_spec (p tau : Z) :
  forall moves ph visited x y,
    let r := GameInfo.walk_path p tau moves ph visited x y in
    snd r = walk (x, y) moves
    /\ (forall j k, GameInfo.visited_at (snd (fst r)) j k
                    = GameInfo.visited_at visited j k
                      || GameInfo.visited_at (departures (x, y) moves) j k)
    /\ (forall i j k,
          fst (fst r) i j k
          = if (i =? p) && negb (GameInfo.visited_at visited j k)
               && GameInfo.visited_at (departures (x, y) moves) j k
            then floored (ph i j k + inject_Z tau) else ph i j k).
Proof.
  induction moves as [| move rest IH]; intros ph visited x y; cbv zeta.
  - cbn [GameInfo.walk_path fst snd departures]. split; [reflexivity |].
    split; intros; [rewrite orb_false_r | rewrite andb_false_r]; reflexivity.
  - cbn [GameInfo.walk_path departures]. rewrite walk_cons. cbn [fst snd].
    specialize (IH (if GameInfo.visited_at visited x y then ph
                    else GameInfo.deposit ph p x y tau)
                   (if GameInfo.visited_at visited x y then visited else (x, y) :: visited)
                   (x + fst (OFFSET (Z.rem y 2) move))
                   (y + snd (OFFSET (Z.rem y 2) move))).
    cbv zeta in IH. destruct IH as (Hend & Hvis & Hph).
    unfold neighbor. split; [exact Hend |]. split.
    + intros j k. rewrite Hvis, visited_at_cons. cbn [fst snd].
      destruct (GameInfo.visited_at visited x y) eqn:Ev.
      * destruct ((x =? j) && (y =? k)) eqn:Ec; cbn [orb]; [| reflexivity].
        apply andb_prop in Ec. destruct Ec as [Ex Ey]. apply Z.eqb_eq in Ex, Ey. subst j k.
        rewrite Ev. reflexivity.
      * rewrite visited_at_cons. cbn [fst snd].
        destruct ((x =? j) && (y =? k)), (GameInfo.visited_at visited j k); reflexivity.
    + intros i j k. rewrite Hph, visited_at_cons. cbn [fst snd].
      destruct (GameInfo.visited_at visited x y) eqn:Ev.
      * destruct ((x =? j) && (y =? k)) eqn:Ec; cbn [orb]; [| reflexivity].
        apply andb_prop in Ec. destruct Ec as [Ex Ey]. apply Z.eqb_eq in Ex, Ey. subst j k.
        rewrite Ev. cbn [negb]. rewrite !andb_false_r. cbn [andb]. reflexivity.
      * rewrite visited_at_cons, deposit_at. cbn [fst snd].
        destruct ((x =? j) && (y =? k)) eqn:Ec; cbn [orb negb].
        -- apply andb_prop in Ec. destruct Ec as [Ex Ey]. apply Z.eqb_eq in Ex, Ey. subst j k.
           rewrite Ev. cbn [negb]. rewrite !andb_false_r, !andb_true_r. cbn [andb].
           destruct (i =? p); reflexivity.
        -- rewrite andb_false_r. reflexivity.
Qed.

Lemma update_pheromone_frame g ant g' :
  GameInfo.update_pheromone g ant = Some g' ->
  g' = GameInfo.set_pheromone g (GameInfo.pheromone g').
Proof.
  unfold GameInfo.update_pheromone.
  destruct (AntState_eqb (Ant.state ant) Alive || AntState_eqb (Ant.state ant) Frozen).
  - intros H. injection H as <-. destruct g; reflexivity.
  - destruct (GameInfo.walk_path _ _ _ _ _ _ _) as [[ph visited] [x y]].
    destruct ((x =? Ant.x ant) && (y =? Ant.y ant)); [| discriminate].
    intros H. injection H as <-. reflexivity.
Qed.

(** X16. [update_pheromone] for an ant of player 0 or 1 whose recorded
    moves are directions 0 to 5 and lead over cells of the map (inside the
    arrays that the function reads and writes).  It does nothing for an ant
    that is alive.  For an ant in a final state it fails when the recorded
    path does not lead from the base of the ant to its cell; otherwise it
    changes the pheromone of the player of the ant, and nothing else, on the
    cells of the trail: each cell of the trail gets the amount of the state
    (10, -5 or -3) once, however often the path crosses it, and is floored
    at 0. *)
Theorem update_pheromone_marks_trail_once (g : GameInfo.t) (ant : Ant.t) :
  Ant.player ant = 0 \/ Ant.player ant = 1 ->
  Forall (fun move => 0 <= move < 6) (Ant.path ant) ->
  Forall (fun c => out_of_map (fst c) (snd c) = false)
         (trail (Base.POSITION (Ant.player ant)) (Ant.path ant)) ->
  let p := Ant.player ant in
  let tau := GameInfo.TAU (Ant.state ant) in
  (Ant.is_alive ant = true -> GameInfo.update_pheromone g ant = Some g)
  /\ (Ant.is_alive ant = false ->
      walk (Base.POSITION p) (Ant.path ant) <> (Ant.x ant, Ant.y ant) ->
      GameInfo.update_pheromone g ant = None)
  /\ (Ant.is_alive ant = false ->
      walk (Base.POSITION p) (Ant.path ant) = (Ant.x ant, Ant.y ant) ->
      exists g',
        GameInfo.update_pheromone g ant = Some g'
        /\ g' = GameInfo.set_pheromone g (GameInfo.pheromone g')
        /\ forall i j k,
             GameInfo.pheromone g' i j k
             = if (i =? p)
                  && GameInfo.visited_at (trail (Base.POSITION p) (Ant.path ant)) j k
               then floored (GameInfo.pheromone g i j k + inject_Z tau)
               else GameInfo.pheromone g i j k).
Proof.
  intros _ _ _. cbv zeta. unfold GameInfo.update_pheromone, Ant.is_alive.
  destruct (AntState_eqb (Ant.state ant) Alive || AntState_eqb (Ant.state ant) Frozen);
    [split; [reflexivity | split; discriminate] |].
  split; [discriminate |].
  pose proof (walk_path_spec (Ant.player ant) (GameInfo.TAU (Ant.state ant)) (Ant.path ant)
                (GameInfo.pheromone g) []
                (fst (Base.POSITION (Ant.player ant)))
                (snd (Base.POSITION (Ant.player ant)))) as H.
  cbv zeta in H. rewrite <- surjective_pairing in H.
  destruct (GameInfo.walk_path _ _ _ _ _ _ _) as [[ph visited] [x y]].
  cbn [fst snd] in H. destruct H as (Hend & Hvis & Hph).
  split; intros _ Hw.
  - rewrite <- Hend in Hw.
    destruct ((x =? Ant.x ant) && (y =? Ant.y ant)) eqn:E; [| reflexivity].
    apply andb_prop in E. destruct E as [Ex Ey]. apply Z.eqb_eq in Ex, Ey. congruence.
  - rewrite <- Hend in Hw. injection Hw as -> ->. rewrite !Z.eqb_refl. cbn [andb].
    eexists. split; [reflexivity |]. split; [reflexivity |].
    intros i j k. cbn [GameInfo.pheromone GameInfo.set_pheromone].
    unfold trail. rewrite visited_at_app, <- Hend.
    rewrite (visited_at_cons (Ant.x ant, Ant.y ant) [] j k). cbn [fst snd].
    change (GameInfo.visited_at [] j k) with false. rewrite orb_false_r.
    pose proof (Hvis (Ant.x ant) (Ant.y ant)) as Hv. cbn [orb] in Hv.
    change (GameInfo.visited_at [] (Ant.x ant) (Ant.y ant)) with false in Hv. cbn [orb] in Hv.
    destruct (GameInfo.visited_at visited (Ant.x ant) (Ant.y ant)) eqn:Ev.
    + rewrite Hph. change (GameInfo.visited_at [] j k) with false. cbn [negb].
      rewrite andb_true_r.
      destruct ((Ant.x ant =? j) && (Ant.y ant =? k)) eqn:Ec; [| rewrite orb_false_r; reflexivity].
      apply andb_prop in Ec. destruct Ec as [Ex Ey]. apply Z.eqb_eq in Ex, Ey. subst j k.
      rewrite <- Hv. reflexivity.
    + rewrite deposit_at, Hph. change (GameInfo.visited_at [] j k) with false. cbn [negb].
      rewrite andb_true_r.
      destruct ((Ant.x ant =? j) && (Ant.y ant =? k)) eqn:Ec.
      * apply andb_prop in Ec. destruct Ec as [Ex Ey]. apply Z.eqb_eq in Ex, Ey. subst j k.
        rewrite <- Hv. cbn [orb]. rewrite !andb_false_r, !andb_true_r. reflexivity.
      * rewrite orb_false_r, andb_false_r. reflexivity.
Qed.

Lemma update_pheromone_marks_trail_once_witness :
  exists g',
    GameInfo.update_pheromone (Simulator.info fresh_simulator) worn_out_ant = Some g'
    /\ g' = GameInfo.set_pheromone (Simulator.info fresh_simulator) (GameInfo.pheromone g')
    /\ forall i j k,
         GameInfo.pheromone g' i j k
         = if (i =? 1)
              && GameInfo.visited_at (trail (Base.POSITION 1) (Ant.path worn_out_ant)) j k
           then floored (GameInfo.pheromone (Simulator.info fresh_simulator) i j k
                         + inject_Z (-3))
           else GameInfo.pheromone (Simulator.info fresh_simulator) i j k.
Proof.
  assert (Hp : Ant.player worn_out_ant = 0 \/ Ant.player worn_out_ant = 1)
    by (right; reflexivity).
  assert (Hm : Forall (fun move => 0 <= move < 6) (Ant.path worn_out_ant))
    by (cbn; repeat (apply Forall_cons; [lia |]); apply Forall_nil).
  assert (Hc : Forall (fun c => out_of_map (fst c) (snd c) = false)
                      (trail (Base.POSITION (Ant.player worn_out_ant))
                             (Ant.path worn_out_ant)))
    by (repeat constructor).
  destruct (update_pheromone_marks_trail_once (Simulator.info fresh_simulator)
              worn_out_ant Hp Hm Hc) as (_ & _ & H).
  apply H; reflexivity.
Defined.

(* ================================================================== *)
(** * The phases of a round *)
(* ================================================================== *)

Lemma same_base_refl b : same_base b b.
Proof. unfold same_base. repeat split. Qed.

Lemma same_base_trans b1 b2 b3 : same_base b1 b2 -> same_base b2 b3 -> same_base b1 b3.
Proof. unfold same_base. intuition congruence. Qed.

Lemma update_base_hp_same g q c p :
  same_base (get2 (GameInfo.bases g) p)
            (get2 (GameInfo.bases (GameInfo.update_base_hp g q c)) p).
Proof.
  unfold GameInfo.update_base_hp. cbn [GameInfo.bases GameInfo.set_bases].
  unfold get2, set2. destruct (q =? 0), (p =? 0); cbn [fst snd];
    unfold same_base; repeat split.
Qed.

(** The movement loop changes the ants and the HP of the bases, and nothing
    else. *)
Lemma move_loop_frame :
  forall todo g done verdict g',
    Simulator.move_loop g done todo = (verdict, g') ->
    g' = GameInfo.set_bases (GameInfo.set_ants g (GameInfo.ants g')) (GameInfo.bases g')
    /\ forall p, same_base (get2 (GameInfo.bases g) p) (get2 (GameInfo.bases g') p).
Proof.
  induction todo as [| ant rest IH]; intros g done verdict g' H.
  - cbn in H. injection H as <- <-. split; [destruct g; reflexivity |].
    intros p. apply same_base_refl.
  - rewrite move_loop_step in H.
    destruct (arrives g ant).
    + cbv zeta in H.
      destruct (base_hp (GameInfo.update_base_hp g (other_player (Ant.player ant)) (-1))
                        (other_player (Ant.player ant)) <=? 0).
      * injection H as <- <-. split; [destruct g; reflexivity |].
        intros p. apply update_base_hp_same.
      * apply IH in H. destruct H as [Hg Hb]. split.
        -- rewrite Hg at 1. destruct g; reflexivity.
        -- intros p. eapply same_base_trans; [apply update_base_hp_same | apply Hb].
    + apply IH in H. exact H.
Qed.

Lemma move_ants_frame (s s' : Simulator.t) verdict :
  Simulator.move_ants s = (verdict, s') ->
  Simulator.info s'
  = GameInfo.set_bases
      (GameInfo.set_ants (Simulator.info s) (GameInfo.ants (Simulator.info s')))
      (GameInfo.bases (Simulator.info s'))
  /\ Simulator.operations s' = Simulator.operations s
  /\ forall p, same_base (get2 (GameInfo.bases (Simulator.info s)) p)
                         (get2 (GameInfo.bases (Simulator.info s')) p).
Proof.
  unfold Simulator.move_ants.
  destruct (Simulator.move_loop _ _ _) as [v g'] eqn:E.
  intros H. injection H as <- <-. apply move_loop_frame in E.
  cbn [Simulator.info Simulator.set_info Simulator.operations].
  destruct E as [E1 E2]. split; [exact E1 | split; [reflexivity | exact E2]].
Qed.

Lemma update_pheromone_for_frame :
  forall l g g',
    GameInfo.update_pheromone_for g l = Some g' ->
    g' = GameInfo.set_pheromone g (GameInfo.pheromone g').
Proof.
  induction l as [| ant rest IH]; intros g g' H; cbn in H.
  - injection H as <-. destruct g; reflexivity.
  - destruct (GameInfo.update_pheromone g ant) as [g1 |] eqn:E; cbn [bind] in H;
      [| discriminate].
    apply update_pheromone_frame in E. apply IH in H.
    rewrite H, E. reflexivity.
Qed.

(** [next_round] below the round cap. *)
Lemma next_round_unfold (s : Simulator.t) :
  GameInfo.round (Simulator.info s) <> MAX_ROUND ->
  exists verdict s2,
    Simulator.move_ants (Simulator.attack_ants s) = (verdict, s2)
    /\ (verdict <> Running -> Simulator.next_round s = Some (verdict, s2))
    /\ (verdict = Running ->
        Simulator.next_round s
        = match GameInfo.update_pheromone_for
                  (GameInfo.global_pheromone_attenuation (Simulator.info s2))
                  (GameInfo.ants (Simulator.info s2)) with
          | Some g4 => Some (Running, Simulator.mk (end_of_round g4) ([], []))
          | None => None
          end).
Proof.
  intros Hround. unfold Simulator.next_round.
  apply Z.eqb_neq in Hround. rewrite Hround.
  destruct (Simulator.move_ants (Simulator.attack_ants s)) as [verdict s2].
  exists verdict, s2. split; [reflexivity |].
  split.
  - intros Hv. destruct verdict; try reflexivity. contradiction.
  - intros ->. unfold GameInfo.update_pheromone_for_ants.
    change (GameInfo.ants (GameInfo.global_pheromone_attenuation (Simulator.info s2)))
      with (GameInfo.ants (Simulator.info s2)).
    destruct (GameInfo.update_pheromone_for _ _) as [g4 |]; reflexivity.
Qed.

Lemma generate_ant_newborn (b : Base.t) (id round : Z) (a : Ant.t) :
  Base.generate_ant b id round = Some a ->
  Ant.id a = id /\ Ant.player a = Base.player b /\ Ant.x a = Base.x b
  /\ Ant.y a = Base.y b /\ Ant.level a = Base.ant_level b /\ Ant.hp a = Ant.max_hp a
  /\ Ant.age a = 0 /\ Ant.state a = Alive /\ Ant.path a = []
  /\ Ant.evasion a = 0 /\ Ant.deflector a = false.
Proof.
  unfold Base.generate_ant. destruct (Z.rem round _ =? 0); [| discriminate].
  intros H. injection H as <-. repeat split.
Qed.

Lemma map_seq_from {A : Type} (f : nat -> A) (a n : nat) :
  map f (seq a n) = map (fun k => f (a + k)%nat) (seq 0 n).
Proof.
  revert f a. induction n as [| n IH]; intros f a; cbn [seq map]; [reflexivity |].
  rewrite Nat.add_0_r. f_equal.
  rewrite (IH f (S a)), (IH (fun k => f (a + k)%nat) 1%nat). apply map_ext.
  intros k. f_equal. lia.
Qed.

Lemma generate_ant_of_spec (g : GameInfo.t) (q : Z) :
  q = 0 \/ q = 1 ->
  let g' := Simulator.generate_ant_of g q in
  exists born,
    GameInfo.ants g' = GameInfo.ants g ++ born
    /\ Forall (newborn g) born
    /\ map Ant.id born
       = map (fun n => GameInfo.next_ant_id g + Z.of_nat n) (seq 0 (length born))
    /\ GameInfo.next_ant_id g' = GameInfo.next_ant_id g + Z.of_nat (length born)
    /\ g' = GameInfo.set_next_ant_id (GameInfo.set_ants g (GameInfo.ants g'))
                                     (GameInfo.next_ant_id g').
Proof.
  intros Hq. cbv zeta. unfold Simulator.generate_ant_of.
  destruct (Base.generate_ant (get2 (GameInfo.bases g) q) _ _) as [a |] eqn:E.
  - exists [a]. cbn [GameInfo.ants GameInfo.set_next_ant_id GameInfo.set_ants
                     GameInfo.next_ant_id].
    split; [reflexivity |].
    pose proof (generate_ant_newborn _ _ _ _ E) as H.
    split; [constructor; [| constructor] |].
    { exists q. split; [exact Hq | tauto]. }
    destruct H as (I & _).
    split; [cbn; rewrite I; f_equal; lia |].
    split; [cbn; lia | reflexivity].
  - exists []. rewrite app_nil_r. split; [reflexivity |].
    split; [constructor |]. split; [reflexivity |].
    split; [cbn; lia | destruct g; reflexivity].
Qed.

(** The ants and the ant counter after [generate_ants]: the new ants come
    last, with the ids from the counter on. *)
Lemma generate_ants_spec (g : GameInfo.t) :
  let g' := Simulator.generate_ant_of (Simulator.generate_ant_of g 0) 1 in
  exists born,
    GameInfo.ants g' = GameInfo.ants g ++ born
    /\ Forall (newborn g) born
    /\ map Ant.id born
       = map (fun n => GameInfo.next_ant_id g + Z.of_nat n) (seq 0 (length born))
    /\ GameInfo.next_ant_id g' = GameInfo.next_ant_id g + Z.of_nat (length born)
    /\ g' = GameInfo.set_next_ant_id (GameInfo.set_ants g (GameInfo.ants g'))
                                     (GameInfo.next_ant_id g').
Proof.
  cbv zeta.
  destruct (generate_ant_of_spec g 0 (or_introl eq_refl))
    as (born0 & A0 & N0 & I0 & X0 & G0).
  destruct (generate_ant_of_spec (Simulator.generate_ant_of g 0) 1 (or_intror eq_refl))
    as (born1 & A1 & N1 & I1 & X1 & G1).
  cbv zeta in *.
  set (g1 := Simulator.generate_ant_of g 0) in *.
  set (g2 := Simulator.generate_ant_of g1 1) in *.
  assert (Hb : GameInfo.bases g1 = GameInfo.bases g) by (rewrite G0; reflexivity).
  exists (born0 ++ born1).
  split; [rewrite A1, A0, app_assoc; reflexivity |].
  split.
  { apply Forall_app. split; [exact N0 |].
    eapply Forall_impl; [| exact N1]. intros a (q & Hq & H). exists q.
    rewrite Hb in H. split; assumption. }
  split.
  { rewrite map_app, length_app, seq_app, map_app, I0, I1, X0. f_equal.
    cbn [Nat.add]. rewrite (map_seq_from _ (length born0)). apply map_ext.
    intros n. lia. }
  split; [rewrite X1, X0, length_app; lia |].
  rewrite G1. rewrite G0 at 1. reflexivity.
Qed.

(** The world state at the end of a round. *)
Lemma end_of_round_spec (g : GameInfo.t) :
  exists born,
    GameInfo.ants (end_of_round g)
    = filter (fun a => negb (GameInfo.is_terminal (Ant.state a))) (GameInfo.ants g) ++ born
    /\ Forall (newborn g) born
    /\ map Ant.id born
       = map (fun n => GameInfo.next_ant_id g + Z.of_nat n) (seq 0 (length born))
    /\ GameInfo.next_ant_id (end_of_round g) = GameInfo.next_ant_id g + Z.of_nat (length born)
    /\ GameInfo.round (end_of_round g) = GameInfo.round g + 1
    /\ GameInfo.towers (end_of_round g) = GameInfo.towers g
    /\ GameInfo.bases (end_of_round g) = GameInfo.bases g
    /\ GameInfo.pheromone (end_of_round g) = GameInfo.pheromone g
    /\ GameInfo.super_weapons (end_of_round g) = GameInfo.super_weapons g
    /\ GameInfo.next_tower_id (end_of_round g) = GameInfo.next_tower_id g
    /\ (forall q, (q = 0 \/ q = 1) ->
          get2 (GameInfo.coins (end_of_round g)) q = get2 (GameInfo.coins g) q + 1).
Proof.
  unfold end_of_round. cbv zeta.
  destruct (generate_ants_spec (GameInfo.clear_dead_and_succeeded_ants g))
    as (born & Hants & Hnew & Hids & Hnext & Hg).
  cbv zeta in *. exists born.
  cbn [GameInfo.count_down_super_weapons_cd GameInfo.set_super_weapon_cd GameInfo.set_round
       GameInfo.update_coin GameInfo.set_coins GameInfo.ants GameInfo.next_ant_id
       GameInfo.round GameInfo.towers GameInfo.bases GameInfo.pheromone
       GameInfo.super_weapons GameInfo.next_tower_id GameInfo.coins].
  split; [exact Hants |]. split; [exact Hnew |]. split; [exact Hids |].
  split; [exact Hnext |].
  rewrite Hg.
  cbn [GameInfo.set_next_ant_id GameInfo.set_ants GameInfo.clear_dead_and_succeeded_ants
       GameInfo.round GameInfo.towers GameInfo.bases GameInfo.pheromone
       GameInfo.super_weapons GameInfo.next_tower_id GameInfo.coins].
  repeat (split; [reflexivity |]).
  intros q [-> | ->]; unfold get2, set2, BASIC_INCOME; cbn; lia.
Qed.


(** ** One ant in the movement phase *)

(** What the movement phase makes of one ant. *)
Lemma moved_spec (g : GameInfo.t) (a : Ant.t) :
  Ant.id (moved g a) = Ant.id a /\ Ant.player (moved g a) = Ant.player a
  /\ Ant.level (moved g a) = Ant.level a /\ Ant.hp (moved g a) = Ant.hp a
  /\ Ant.evasion (moved g a) = Ant.evasion a
  /\ Ant.deflector (moved g a) = Ant.deflector a
  /\ Ant.age (moved g a) = Ant.age a + 1
  /\ Ant.state (moved g a) <> Frozen
  /\ ((Ant.x (moved g a) = Ant.x a /\ Ant.y (moved g a) = Ant.y a
       /\ Ant.path (moved g a) = Ant.path a
       /\ (Ant.state a <> Alive \/ Ant.AGE_LIMIT < Ant.age a + 1))
      \/ (Ant.state a = Alive /\ Ant.age a + 1 <= Ant.AGE_LIMIT
          /\ moved g a
             = (if Simulator.at_enemy_base
                     (Ant.move (Ant.set_age a (Ant.age a + 1))
                        (GameInfo.next_move g (Ant.set_age a (Ant.age a + 1))))
                then Ant.set_state
                       (Ant.move (Ant.set_age a (Ant.age a + 1))
                          (GameInfo.next_move g (Ant.set_age a (Ant.age a + 1))))
                       Success
                else Ant.move (Ant.set_age a (Ant.age a + 1))
                       (GameInfo.next_move g (Ant.set_age a (Ant.age a + 1)))))).
Proof.
  destruct a as [id p x y hp lvl age st path ev df].
  unfold moved, stepped, Ant.set_age, Ant.set_state. cbv zeta.
  cbn [Ant.id Ant.player Ant.x Ant.y Ant.hp Ant.level Ant.age Ant.state Ant.path
       Ant.evasion Ant.deflector].
  destruct (age + 1 >? Ant.AGE_LIMIT) eqn:Eage.
  - apply Z.gtb_lt in Eage.
    destruct st; cbn [AntState_eqb Ant.state];
      try destruct (Simulator.at_enemy_base _);
      cbn [Ant.id Ant.player Ant.x Ant.y Ant.hp Ant.level Ant.age Ant.state Ant.path
           Ant.evasion Ant.deflector AntState_eqb];
      repeat (split; [first [reflexivity | discriminate] |]);
      left; repeat (split; [reflexivity |]); right; exact Eage.
  - assert (Hle : age + 1 <= Ant.AGE_LIMIT)
      by (destruct (Z.gtb_spec (age + 1) Ant.AGE_LIMIT); [discriminate | lia]).
    destruct st; cbn [AntState_eqb Ant.state];
      try destruct (Simulator.at_enemy_base _) eqn:Eb;
      cbn [Ant.id Ant.player Ant.x Ant.y Ant.hp Ant.level Ant.age Ant.state Ant.path
           Ant.evasion Ant.deflector AntState_eqb];
      repeat (split; [first [reflexivity | discriminate
                            | unfold Ant.move; cbn [Ant.state]; discriminate] |]);
      first [ left; repeat (split; [reflexivity |]); left; discriminate
            | right; split; [reflexivity |]; split; [exact Hle |];
              rewrite ?Eb; reflexivity ].
Qed.


(* ================================================================== *)
(** * Invariants of a round *)
(* ================================================================== *)

(** ** The recorded paths *)

Lemma path_consistent_body a a' :
  same_body a a' -> path_consistent a -> path_consistent a'.
Proof.
  unfold same_body, path_consistent. intros (_ & Hp & Hx & Hy & _ & _ & Hpath).
  rewrite Hp, Hx, Hy, Hpath. tauto.
Qed.

Lemma path_consistent_moved g a : path_consistent a -> path_consistent (moved g a).
Proof.
  unfold path_consistent. intros H.
  destruct (moved_spec g a) as (_ & Hp & _ & _ & _ & _ & _ & _ & Hcase).
  rewrite Hp. destruct Hcase as [(Hx & Hy & Hpath & _) | (_ & _ & Hm)].
  - rewrite Hx, Hy, Hpath. exact H.
  - rewrite Hm.
    destruct (Simulator.at_enemy_base _);
      unfold Ant.set_state, Ant.move; cbn [Ant.x Ant.y Ant.path Ant.set_age Ant.player];
      rewrite walk_app, H; reflexivity.
Qed.

Lemma update_pheromone_total g ant :
  path_consistent ant -> exists g', GameInfo.update_pheromone g ant = Some g'.
Proof.
  unfold path_consistent. intros H. unfold GameInfo.update_pheromone.
  destruct (AntState_eqb (Ant.state ant) Alive || AntState_eqb (Ant.state ant) Frozen);
    [eexists; reflexivity |].
  pose proof (walk_path_spec (Ant.player ant) (GameInfo.TAU (Ant.state ant)) (Ant.path ant)
                (GameInfo.pheromone g) []
                (fst (Base.POSITION (Ant.player ant)))
                (snd (Base.POSITION (Ant.player ant)))) as Hw.
  cbv zeta in Hw. rewrite <- surjective_pairing in Hw.
  destruct (GameInfo.walk_path _ _ _ _ _ _ _) as [[ph visited] [x y]].
  cbn [fst snd] in Hw. destruct Hw as (Hend & _).
  rewrite H in Hend. injection Hend as -> ->. rewrite !Z.eqb_refl.
  eexists. reflexivity.
Qed.

Lemma update_pheromone_for_total :
  forall l g,
    Forall path_consistent l -> exists g', GameInfo.update_pheromone_for g l = Some g'.
Proof.
  induction l as [| ant rest IH]; intros g H; cbn [GameInfo.update_pheromone_for].
  - eexists. reflexivity.
  - inversion H as [| ? ? Ha Hrest]; subst.
    destruct (update_pheromone_total g ant Ha) as (g1 & ->). cbn [bind].
    apply IH, Hrest.
Qed.

Lemma Forall_Forall2 {A : Type} (P : A -> Prop) (R : A -> A -> Prop) (l l' : list A) :
  (forall a b, R a b -> P a -> P b) -> Forall2 R l l' -> Forall P l -> Forall P l'.
Proof.
  intros H HF. induction HF as [| a b l l' Hab _ IH]; intros HP; constructor;
    inversion HP; subst; [eapply H; eassumption | apply IH; assumption].
Qed.

Lemma Forall_moved_part (P : Ant.t -> Prop) (g : GameInfo.t) (k : nat) (l : list Ant.t) :
  (forall a, P a -> P (moved g a)) ->
  Forall P l -> Forall P (map (moved g) (firstn k l) ++ skipn k l).
Proof.
  intros Hm H. rewrite <- (firstn_skipn k l) in H. apply Forall_app in H.
  destruct H as [H1 H2]. apply Forall_app. split; [| exact H2].
  apply Forall_map. eapply Forall_impl; [| exact H1]. exact Hm.
Qed.

Lemma bases_in_place_same (g g' : GameInfo.t) :
  (forall p, same_base (get2 (GameInfo.bases g) p) (get2 (GameInfo.bases g') p)) ->
  bases_in_place g -> bases_in_place g'.
Proof.
  unfold bases_in_place, same_base. intros Hs H q.
  destruct (Hs q) as (Hp & Hx & Hy & _). rewrite Hp, Hx, Hy. apply H.
Qed.

Lemma GameState_eq_dec (v w : GameState) : {v = w} + {v <> w}.
Proof. decide equality. Qed.

(** The state after the combat and movement phases, with what they keep. *)
Lemma combat_and_movement (s : Simulator.t) verdict s2 :
  Simulator.move_ants (Simulator.attack_ants s) = (verdict, s2) ->
  exists k ants1,
    Forall2 (fun a a' => after_combat a a' /\ Ant.deflector a' = false)
            (GameInfo.ants (Simulator.info s)) ants1
    /\ GameInfo.ants (Simulator.info s2)
       = map (moved (Simulator.info (Simulator.attack_ants s))) (firstn k ants1)
         ++ skipn k ants1
    /\ (verdict = Running -> k = length ants1)
    /\ (forall p, same_base (get2 (GameInfo.bases (Simulator.info s)) p)
                            (get2 (GameInfo.bases (Simulator.info s2)) p))
    /\ GameInfo.pheromone (Simulator.info s2) = GameInfo.pheromone (Simulator.info s)
    /\ GameInfo.pheromone (Simulator.info (Simulator.attack_ants s))
       = GameInfo.pheromone (Simulator.info s)
    /\ GameInfo.round (Simulator.info s2) = GameInfo.round (Simulator.info s)
    /\ GameInfo.next_ant_id (Simulator.info s2) = GameInfo.next_ant_id (Simulator.info s)
    /\ GameInfo.next_tower_id (Simulator.info s2) = GameInfo.next_tower_id (Simulator.info s)
    /\ GameInfo.super_weapons (Simulator.info s2) = GameInfo.super_weapons (Simulator.info s)
    /\ Forall2 (after_combat_tower (Simulator.info s))
               (GameInfo.towers (Simulator.info s)) (GameInfo.towers (Simulator.info s2))
    /\ (forall q, get2 (GameInfo.coins (Simulator.info s)) q
                  <= get2 (GameInfo.coins (Simulator.info s2)) q).
Proof.
  intros Hmove.
  destruct (attack_ants_spec s) as ((Hr & Hb & Hph & Hw & _ & Hna & Hnt & _) & HT & HA & HC & _).
  cbv zeta in *.
  destruct (move_ants_spec _ _ _ Hmove) as (k & _ & Hants & _ & _ & Hrun).
  destruct (move_ants_frame _ _ _ Hmove) as (Hframe & _ & Hbases).
  exists k, (GameInfo.ants (Simulator.info (Simulator.attack_ants s))).
  split; [exact HA |]. split; [exact Hants |]. split; [exact Hrun |].
  split; [intros p; rewrite <- Hb; apply Hbases |].
  rewrite Hframe.
  cbn [GameInfo.pheromone GameInfo.round GameInfo.next_ant_id GameInfo.next_tower_id
       GameInfo.super_weapons GameInfo.towers GameInfo.coins GameInfo.set_bases
       GameInfo.set_ants].
  repeat (split; [assumption |]). exact HC.
Qed.



(** ** The floor of the pheromone *)

Lemma floored_nonneg v : (PHEROMONE_MIN <= floored v)%Q.
Proof.
  unfold floored. destruct (Qle_bool PHEROMONE_MIN v) eqn:E; cbn [negb].
  - apply Qle_bool_iff. exact E.
  - apply Qle_refl.
Qed.

Lemma update_pheromone_nonneg g ant g' :
  GameInfo.update_pheromone g ant = Some g' -> pheromone_nonneg g -> pheromone_nonneg g'.
Proof.
  unfold GameInfo.update_pheromone.
  destruct (AntState_eqb (Ant.state ant) Alive || AntState_eqb (Ant.state ant) Frozen);
    [intros H; injection H as <-; auto |].
  pose proof (walk_path_spec (Ant.player ant) (GameInfo.TAU (Ant.state ant)) (Ant.path ant)
                (GameInfo.pheromone g) []
                (fst (Base.POSITION (Ant.player ant)))
                (snd (Base.POSITION (Ant.player ant)))) as Hw.
  cbv zeta in Hw.
  destruct (GameInfo.walk_path _ _ _ _ _ _ _) as [[ph visited] [x y]].
  cbn [fst snd] in Hw. destruct Hw as (_ & _ & Hph).
  destruct ((x =? Ant.x ant) && (y =? Ant.y ant)); [| discriminate].
  intros H Hn. injection H as <-. unfold pheromone_nonneg in *.
  cbn [GameInfo.pheromone GameInfo.set_pheromone]. intros i j k Hf.
  assert (Hphn : (PHEROMONE_MIN <= ph i j k)%Q).
  { rewrite Hph. destruct (_ && _); [apply floored_nonneg | apply Hn, Hf]. }
  destruct (GameInfo.visited_at visited x y); [exact Hphn |].
  rewrite deposit_at. destruct (_ && _); [apply floored_nonneg | exact Hphn].
Qed.

Lemma update_pheromone_for_nonneg :
  forall l g g',
    GameInfo.update_pheromone_for g l = Some g' -> pheromone_nonneg g -> pheromone_nonneg g'.
Proof.
  induction l as [| ant rest IH]; intros g g' H Hn; cbn in H.
  - injection H as <-. exact Hn.
  - destruct (GameInfo.update_pheromone g ant) as [g1 |] eqn:E; cbn [bind] in H;
      [| discriminate].
    eapply IH; [exact H |]. eapply update_pheromone_nonneg; eassumption.
Qed.

Lemma attenuation_nonneg g :
  pheromone_nonneg g -> pheromone_nonneg (GameInfo.global_pheromone_attenuation g).
Proof.
  unfold pheromone_nonneg. intros Hn i j k Hf.
  rewrite (attenuation_on_field g i j k Hf). apply attenuate_floor, Hn, Hf.
Qed.


(** ** The ants after the movement phase *)

Lemma at_enemy_base_state a st :
  Simulator.at_enemy_base (Ant.set_state a st) = Simulator.at_enemy_base a.
Proof. reflexivity. Qed.

Lemma moved_after_movement (g : GameInfo.t) (a : Ant.t) : after_movement a (moved g a).
Proof.
  destruct (moved_spec g a) as (Hid & Hp & Hl & Hhp & Hev & Hdf & Hage & Hfr & Hcase).
  unfold after_movement.
  repeat (split; [assumption |]).
  split.
  { intros Hs. unfold moved. rewrite Hs. reflexivity. }
  split.
  { intros Hor. destruct Hcase as [(Hx & Hy & Hpath & _) | (Hs & Hle & _)]; [auto |].
    destruct Hor as [Hn | Hlt]; [contradiction | lia]. }
  split.
  { intros Hs Hle. destruct Hcase as [(_ & _ & _ & [Hn | Hlt]) | (_ & _ & Hm)];
      [contradiction | lia |].
    exists (GameInfo.next_move g (Ant.set_age a (Ant.age a + 1))).
    rewrite Hm. destruct (Simulator.at_enemy_base _); split; reflexivity. }
  intros Hnf.
  assert (Hf : AntState_eqb (Ant.state a) Fail = false)
    by (destruct (Ant.state a); try reflexivity; contradiction).
  assert (Hst : Ant.state (stepped g a)
                = if Ant.age a + 1 >? Ant.AGE_LIMIT then TooOld else Ant.state a).
  { unfold stepped. cbv zeta.
    change (Ant.age (Ant.set_age a (Ant.age a + 1))) with (Ant.age a + 1).
    destruct (Ant.age a + 1 >? Ant.AGE_LIMIT).
    - reflexivity.
    - change (Ant.state (Ant.set_age a (Ant.age a + 1))) with (Ant.state a).
      destruct (Ant.state a) eqn:Es; cbn [AntState_eqb];
        unfold Ant.move, Ant.set_age; cbn [Ant.state]; rewrite ?Es; reflexivity. }
  unfold moved. rewrite Hf.
  destruct (Simulator.at_enemy_base (stepped g a)) eqn:Eb.
  - rewrite at_enemy_base_state, Eb. reflexivity.
  - destruct (AntState_eqb (Ant.state (stepped g a)) Frozen) eqn:Efr.
    + rewrite at_enemy_base_state, Eb. cbn [Ant.set_state Ant.state].
      rewrite Hst in Efr. destruct (Ant.age a + 1 >? Ant.AGE_LIMIT); [discriminate |].
      destruct (Ant.state a); try discriminate. reflexivity.
    + rewrite Eb, Hst. rewrite Hst in Efr.
      destruct (Ant.age a + 1 >? Ant.AGE_LIMIT); [reflexivity |].
      destruct (Ant.state a); try discriminate; reflexivity.
Qed.

(** X17. When the movement phase runs to its end, it leaves every ant in its
    place in the vector, one round older whatever its state.  A dead ant is
    otherwise untouched.  An ant past the age limit of 32, a frozen ant and an
    ant in a final state do not move; the first becomes TooOld and the second
    is Alive again.  An Alive ant within the age limit takes one step and
    records it.  An ant that then stands on the base of the other player is a
    Success.  No ant is left Frozen. *)
Theorem move_ants_ages_every_ant (s s' : Simulator.t) :
  Simulator.move_ants s = (Running, s') ->
  Forall2 after_movement (GameInfo.ants (Simulator.info s))
          (GameInfo.ants (Simulator.info s')).
Proof.
  intros H. destruct (move_ants_spec _ _ _ H) as (k & _ & Hants & _ & _ & Hk).
  rewrite Hants, (Hk eq_refl), firstn_all, skipn_all, app_nil_r.
  apply Forall2_map_r. apply Forall2_refl. intros a. apply moved_after_movement.
Qed.

Lemma move_ants_ages_every_ant_witness :
  Forall2 after_movement (GameInfo.ants (Simulator.info tower_near_spawn))
          (GameInfo.ants (Simulator.info (snd (Simulator.move_ants tower_near_spawn)))).
Proof.
  apply (move_ants_ages_every_ant tower_near_spawn
           (snd (Simulator.move_ants tower_near_spawn))).
  reflexivity.
Defined.


(** ** A round that returns Running *)

Lemma judge_winner_not_running s : Simulator.judge_winner s <> Running.
Proof.
  unfold Simulator.judge_winner.
  destruct (_ <? _); [discriminate |]. destruct (_ >? _); discriminate.
Qed.

Lemma next_round_running (s s' : Simulator.t) :
  Simulator.next_round s = Some (Running, s') ->
  GameInfo.round (Simulator.info s) <> MAX_ROUND
  /\ exists s2 g4,
       Simulator.move_ants (Simulator.attack_ants s) = (Running, s2)
       /\ GameInfo.update_pheromone_for
            (GameInfo.global_pheromone_attenuation (Simulator.info s2))
            (GameInfo.ants (Simulator.info s2)) = Some g4
       /\ s' = Simulator.mk (end_of_round g4) ([], []).
Proof.
  intros H.
  assert (Hcap : GameInfo.round (Simulator.info s) <> MAX_ROUND).
  { intros Hcap. unfold Simulator.next_round in H. rewrite Hcap, Z.eqb_refl in H.
    injection H as H _. exact (judge_winner_not_running s H). }
  split; [exact Hcap |].
  destruct (next_round_unfold s Hcap) as (v & s2 & Hmove & Hstop & Hrun).
  destruct (GameState_eq_dec v Running) as [-> | Hv].
  - rewrite (Hrun eq_refl) in H.
    destruct (GameInfo.update_pheromone_for _ _) as [g4 |] eqn:Hg4; [| discriminate].
    injection H as <-. exists s2, g4. auto.
  - rewrite (Hstop Hv) in H. injection H as -> _. contradiction.
Qed.



(** ** The ids of ants and towers *)

Lemma map_id_Forall2 {A B : Type} (f : A -> B) (R : A -> A -> Prop) (l l' : list A) :
  (forall a b, R a b -> f b = f a) -> Forall2 R l l' -> map f l' = map f l.
Proof.
  intros H. induction 1 as [| a b l l' Hab _ IH]; cbn [map]; [reflexivity |].
  rewrite (H a b Hab), IH. reflexivity.
Qed.

Lemma map_id_moved_part (g : GameInfo.t) (k : nat) (l : list Ant.t) :
  map Ant.id (map (moved g) (firstn k l) ++ skipn k l) = map Ant.id l.
Proof.
  rewrite map_app, map_map.
  rewrite (map_ext (fun a => Ant.id (moved g a)) Ant.id)
    by (intros a; apply (moved_spec g a)).
  rewrite <- map_app, firstn_skipn. reflexivity.
Qed.

(** The ids of the ants that a filter keeps are pairwise different when
    the ids of all the ants are. *)
Lemma ids_of_kept_ants (keep : Ant.t -> bool) (ants : list Ant.t) :
  NoDup (map Ant.id ants) -> NoDup (map Ant.id (filter keep ants)).
Proof.
  induction ants as [| a rest IH]; cbn [map filter]; [auto |].
  intros H. inversion H as [| ? ? Hn Hl]; subst.
  destruct (keep a); [| apply IH, Hl].
  cbn [map]. constructor; [| apply IH, Hl].
  intros Hin. apply Hn. apply in_map_iff in Hin. destruct Hin as (b & Hb & Hin).
  apply in_map_iff. exists b. split; [exact Hb |]. apply filter_In in Hin. tauto.
Qed.

Lemma NoDup_from (n : Z) (k : nat) :
  NoDup (map (fun i => n + Z.of_nat i) (seq 0 k)).
Proof.
  assert (H : forall l : list nat,
             NoDup l -> NoDup (map (fun i => n + Z.of_nat i) l)).
  { induction 1 as [| i l Hi _ IH]; cbn [map]; constructor; [| exact IH].
    intros Hin. apply in_map_iff in Hin. destruct Hin as (j & Hj & Hin).
    assert (j = i) by lia. subst j. contradiction. }
  apply H, seq_NoDup.
Qed.

Lemma Forall_map_id {A : Type} (f : A -> Z) (P : Z -> Prop) (l : list A) :
  Forall (fun a => P (f a)) l <-> Forall P (map f l).
Proof. symmetry. apply Forall_map. Qed.

(** X18. [next_round] keeps the ids in order: when the ids of the ants are
    pairwise different and below the ant counter, and the ids of the towers
    pairwise different and below the tower counter, the same holds after the
    round; an ant that is generated takes the value of the counter as its id
    and moves the counter on. *)
Theorem next_round_keeps_ids (s : Simulator.t) verdict s' :
  ids_fresh (Simulator.info s) ->
  Simulator.next_round s = Some (verdict, s') ->
  ids_fresh (Simulator.info s')
  /\ GameInfo.next_ant_id (Simulator.info s) <= GameInfo.next_ant_id (Simulator.info s')
  /\ map Tower.id (GameInfo.towers (Simulator.info s'))
     = map Tower.id (GameInfo.towers (Simulator.info s)).
Proof.
  intros (Hnd & Hlt & Htnd & Htlt).
  destruct (Z.eq_dec (GameInfo.round (Simulator.info s)) MAX_ROUND) as [Hcap | Hcap].
  - unfold Simulator.next_round. rewrite Hcap, Z.eqb_refl.
    intros H. injection H as <- <-. unfold ids_fresh. split; [auto |]. split; [lia | auto].
  - destruct (next_round_unfold s Hcap) as (v & s2 & Hmove & Hstop & Hrun).
    destruct (combat_and_movement s v s2 Hmove)
      as (k & ants1 & HA & Hants & _ & _ & _ & _ & _ & Hna & Hnt & _ & HT & _).
    assert (Hids2 : map Ant.id (GameInfo.ants (Simulator.info s2))
                    = map Ant.id (GameInfo.ants (Simulator.info s))).
    { rewrite Hants, map_id_moved_part.
      apply (map_id_Forall2 _ _ _ _ (fun a b H => proj1 (proj1 (proj1 H))) HA). }
    assert (Htids2 : map Tower.id (GameInfo.towers (Simulator.info s2))
                     = map Tower.id (GameInfo.towers (Simulator.info s))).
    { apply (map_id_Forall2 _ _ _ _ (fun a b H => proj1 (proj1 H)) HT). }
    assert (Hfresh2 : ids_fresh (Simulator.info s2)).
    { unfold ids_fresh. rewrite Hna, Hnt.
      rewrite (Forall_map_id Ant.id (fun i => i < _)),
              (Forall_map_id Tower.id (fun i => i < _)), Hids2, Htids2.
      rewrite <- (Forall_map_id Ant.id (fun i => i < _)),
              <- (Forall_map_id Tower.id (fun i => i < _)). auto. }
    destruct (GameState_eq_dec v Running) as [-> | Hv].
    + rewrite (Hrun eq_refl).
      destruct (GameInfo.update_pheromone_for _ _) as [g4 |] eqn:Hg4; [| discriminate].
      intros H. injection H as <- <-. cbn [Simulator.info].
      pose proof (update_pheromone_for_frame _ _ _ Hg4) as Hf.
      destruct (end_of_round_spec g4)
        as (born & Ea & _ & Hbid & En & _ & Et & _ & _ & _ & Ent & _).
      assert (Hg4s : GameInfo.ants g4 = GameInfo.ants (Simulator.info s2)
                     /\ GameInfo.towers g4 = GameInfo.towers (Simulator.info s2)
                     /\ GameInfo.next_ant_id g4 = GameInfo.next_ant_id (Simulator.info s2)
                     /\ GameInfo.next_tower_id g4
                        = GameInfo.next_tower_id (Simulator.info s2))
        by (rewrite Hf; repeat split).
      destruct Hg4s as (A4 & T4 & N4 & NT4).
      destruct Hfresh2 as (Hnd2 & Hlt2 & Htnd2 & Htlt2).
      unfold ids_fresh. rewrite Ea, En, Et, Ent, A4, T4, N4, NT4.
      split; [| split; [lia | rewrite <- Htids2; reflexivity]].
      split; [| split; [| split; assumption]].
      * rewrite map_app, Hbid, N4.
        apply NoDup_app; [apply ids_of_kept_ants, Hnd2 | apply NoDup_from |].
        intros i Hi Hb. apply in_map_iff in Hi. destruct Hi as (a & <- & Ha).
        apply filter_In in Ha. destruct Ha as [Ha _].
        rewrite Forall_forall in Hlt2. specialize (Hlt2 a Ha).
        apply in_map_iff in Hb. destruct Hb as (n & Hn & _). lia.
      * apply Forall_app. split.
        -- apply Forall_forall. intros a Ha. apply filter_In in Ha. destruct Ha as [Ha _].
           rewrite Forall_forall in Hlt2. specialize (Hlt2 a Ha). lia.
        -- apply (Forall_map_id Ant.id
                    (fun i => i < GameInfo.next_ant_id (Simulator.info s2)
                                  + Z.of_nat (length born))).
           rewrite Hbid, N4. apply Forall_forall. intros i Hi.
           apply in_map_iff in Hi. destruct Hi as (n & <- & Hn). apply in_seq in Hn. lia.
    + rewrite (Hstop Hv). intros H. injection H as <- <-.
      split; [exact Hfresh2 |]. split; [lia | exact Htids2].
Qed.


Lemma next_round_keeps_ids_witness :
  exists verdict s',
    Simulator.next_round guarded_spawn = Some (verdict, s')
    /\ ids_fresh (Simulator.info s')
    /\ GameInfo.next_ant_id (Simulator.info guarded_spawn)
       <= GameInfo.next_ant_id (Simulator.info s')
    /\ map Tower.id (GameInfo.towers (Simulator.info s'))
       = map Tower.id (GameInfo.towers (Simulator.info guarded_spawn)).
Proof.
  destruct (Simulator.next_round guarded_spawn) as [[verdict s'] |] eqn:E.
  - exists verdict, s'. split; [reflexivity |].
    apply (next_round_keeps_ids guarded_spawn verdict s'); [| exact E].
    unfold ids_fresh. cbn.
    split; [constructor; [intros [] | constructor] |].
    split; [constructor; [reflexivity | constructor] |].
    split; [constructor; [intros [] | constructor] |].
    constructor; [reflexivity | constructor].
  - exfalso. revert E. vm_compute. discriminate.
Defined.

(** ** The ants stay on the paths *)

Lemma is_path_valid x y : is_path x y = true -> is_valid_pos x y = true.
Proof.
  unfold is_path, is_valid_pos. destruct (out_of_map x y); [discriminate |].
  intros H. apply Z.eqb_eq in H. rewrite H. reflexivity.
Qed.

Lemma departures_app c moves move :
  departures c (moves ++ [move]) = departures c moves ++ [walk c moves].
Proof.
  revert c. induction moves as [| m moves IH]; intros c; cbn [app departures];
    [reflexivity |].
  rewrite IH, walk_cons. reflexivity.
Qed.

Lemma trail_app c moves move :
  trail c (moves ++ [move]) = trail c moves ++ [walk c (moves ++ [move])].
Proof. unfold trail. rewrite departures_app. reflexivity. Qed.

Lemma on_trail_position a :
  on_trail a -> is_path (Ant.x a) (Ant.y a) = true.
Proof.
  intros (_ & Hc & Ht). unfold trail in Ht. apply Forall_app in Ht.
  destruct Ht as [_ Ht]. inversion Ht as [| ? ? H _]; subst.
  unfold path_consistent in Hc. rewrite Hc in H. exact H.
Qed.

Lemma on_trail_body a a' : same_body a a' -> on_trail a -> on_trail a'.
Proof.
  intros Hb (Hp & Hc & Ht). pose proof (path_consistent_body _ _ Hb Hc) as Hc'.
  destruct Hb as (_ & Hpl & _ & _ & _ & _ & Hpath).
  unfold on_trail. rewrite Hpl, Hpath. auto.
Qed.

Lemma on_trail_moved (g : GameInfo.t) (a : Ant.t) :
  pheromone_nonneg g -> on_trail a -> on_trail (moved g a).
Proof.
  intros Hn Ha. pose proof (on_trail_position a Ha) as Hpos.
  destruct Ha as (Hp & Hc & Ht).
  pose proof (path_consistent_moved g a Hc) as Hc'.
  destruct (moved_spec g a) as (_ & Hpl & _ & _ & _ & _ & _ & _ & Hcase).
  unfold on_trail. rewrite Hpl. split; [exact Hp |]. split; [exact Hc' |].
  destruct Hcase as [(_ & _ & Hpath & _) | (_ & _ & Hm)]; [rewrite Hpath; exact Ht |].
  assert (He : is_path
                 (Ant.x (Ant.move (Ant.set_age a (Ant.age a + 1))
                           (GameInfo.next_move g (Ant.set_age a (Ant.age a + 1)))))
                 (Ant.y (Ant.move (Ant.set_age a (Ant.age a + 1))
                           (GameInfo.next_move g (Ant.set_age a (Ant.age a + 1)))))
               = true).
  { apply next_move_eligible.
    - intros j k Hjk. apply Hn. apply is_path_bounds in Hjk.
      unfold on_field, MAP_SIZE, EDGE. cbn [Ant.set_age Ant.player]. lia.
    - apply on_board_not_boxed_in. apply is_path_valid. exact Hpos. }
  assert (Hpath : Ant.path (moved g a)
                  = Ant.path a ++ [GameInfo.next_move g (Ant.set_age a (Ant.age a + 1))])
    by (rewrite Hm; destruct (Simulator.at_enemy_base _); reflexivity).
  assert (Hxy : (Ant.x (moved g a), Ant.y (moved g a))
                = (Ant.x (Ant.move (Ant.set_age a (Ant.age a + 1))
                            (GameInfo.next_move g (Ant.set_age a (Ant.age a + 1)))),
                   Ant.y (Ant.move (Ant.set_age a (Ant.age a + 1))
                            (GameInfo.next_move g (Ant.set_age a (Ant.age a + 1))))))
    by (rewrite Hm; destruct (Simulator.at_enemy_base _); reflexivity).
  unfold path_consistent in Hc'. rewrite Hpl, Hpath in Hc'.
  rewrite Hpath, trail_app, Hc', Hxy. apply Forall_app. split; [exact Ht |].
  constructor; [exact He | constructor].
Qed.

Lemma base_position_is_path q :
  q = 0 \/ q = 1 -> is_path (fst (Base.POSITION q)) (snd (Base.POSITION q)) = true.
Proof. intros [-> | ->]; reflexivity. Qed.

(** A round from a sound state returns a result and leaves a sound state. *)
Lemma next_round_sound (s : Simulator.t) :
  sound (Simulator.info s) ->
  exists verdict s',
    Simulator.next_round s = Some (verdict, s') /\ sound (Simulator.info s').
Proof.
  intros (Hn & Hplace & Hown & Hon).
  destruct (Z.eq_dec (GameInfo.round (Simulator.info s)) MAX_ROUND) as [Hcap | Hcap].
  - exists (Simulator.judge_winner s), s. unfold Simulator.next_round.
    rewrite Hcap, Z.eqb_refl. unfold sound. auto.
  - destruct (next_round_unfold s Hcap) as (v & s2 & Hmove & Hstop & Hrun).
    destruct (combat_and_movement s v s2 Hmove)
      as (k & ants1 & HA & Hants & _ & Hb & Hph2 & Hph & _).
    assert (Hn2 : pheromone_nonneg (Simulator.info s2))
      by (unfold pheromone_nonneg in *; rewrite Hph2; exact Hn).
    assert (Hown2 : bases_owned (Simulator.info s2)).
    { intros q Hq. destruct (Hb q) as (Hp & _). rewrite Hp. apply Hown, Hq. }
    assert (Hplace2 : bases_in_place (Simulator.info s2))
      by (eapply bases_in_place_same; eassumption).
    assert (Hon2 : Forall on_trail (GameInfo.ants (Simulator.info s2))).
    { rewrite Hants. apply Forall_moved_part.
      - intros a. apply on_trail_moved. unfold pheromone_nonneg. rewrite Hph. exact Hn.
      - eapply Forall_Forall2; [| exact HA | exact Hon].
        intros a b [(Hbody & _) _]. apply on_trail_body, Hbody. }
    destruct (GameState_eq_dec v Running) as [-> | Hv].
    + rewrite (Hrun eq_refl).
      assert (Hp2 : Forall path_consistent (GameInfo.ants (Simulator.info s2)))
        by (eapply Forall_impl; [| exact Hon2]; intros a (_ & Hc & _); exact Hc).
      destruct (update_pheromone_for_total (GameInfo.ants (Simulator.info s2))
                  (GameInfo.global_pheromone_attenuation (Simulator.info s2)) Hp2)
        as (g4 & Hg4).
      rewrite Hg4. exists Running. eexists. split; [reflexivity |].
      cbn [Simulator.info].
      pose proof (update_pheromone_for_frame _ _ _ Hg4) as Hf.
      pose proof (update_pheromone_for_nonneg _ _ _ Hg4 (attenuation_nonneg _ Hn2)) as Hn4.
      destruct (end_of_round_spec g4)
        as (born & Ea & Hnew & _ & _ & _ & _ & Eb & Eph & _).
      assert (Hg4s : GameInfo.ants g4 = GameInfo.ants (Simulator.info s2)
                     /\ GameInfo.bases g4 = GameInfo.bases (Simulator.info s2))
        by (rewrite Hf; repeat split).
      destruct Hg4s as (A4 & B4).
      unfold sound.
      split; [unfold pheromone_nonneg in *; rewrite Eph; exact Hn4 |].
      split; [unfold bases_in_place; rewrite Eb, B4; exact Hplace2 |].
      split; [unfold bases_owned; rewrite Eb, B4; exact Hown2 |].
      rewrite Ea. apply Forall_app. split.
      * rewrite A4. apply Forall_forall. intros a Ha. apply filter_In in Ha.
        rewrite Forall_forall in Hon2. apply Hon2. tauto.
      * eapply Forall_impl; [| exact Hnew].
        intros a (q & Hq & Hpl & Hx & Hy & _ & _ & _ & _ & Hpath & _).
        rewrite B4 in Hpl, Hx, Hy.
        pose proof (Hplace2 q) as Hpos. rewrite (Hown2 q Hq) in Hpos.
        unfold on_trail, path_consistent, trail.
        rewrite Hpath, Hpl, Hx, Hy, (Hown2 q Hq). cbn [walk fold_left departures app].
        split; [exact Hq |]. split; [symmetry; exact Hpos |].
        constructor; [apply base_position_is_path, Hq | constructor].
    + exists v, s2. split; [apply Hstop, Hv |]. unfold sound. auto.
Qed.

(** X19. A round never leaves the board: when no cell of the field holds a
    negative pheromone, both bases stand on their cells under their players,
    and every ant is an ant of player 0 or 1 whose recorded path leads from
    the base of its player to its cell over path cells only, then
    [next_round] returns a result and all of this holds again of the state it
    leaves, the steps of the round and the generated ants included. *)
Theorem next_round_keeps_ants_on_paths (s : Simulator.t) :
  sound (Simulator.info s) ->
  exists verdict s',
    Simulator.next_round s = Some (verdict, s') /\ sound (Simulator.info s').
Proof. apply next_round_sound. Qed.

Lemma next_round_keeps_ants_on_paths_witness :
  exists verdict s',
    Simulator.next_round tower_near_spawn = Some (verdict, s')
    /\ sound (Simulator.info s').
Proof.
  apply (next_round_keeps_ants_on_paths tower_near_spawn).
  unfold sound.
  split; [intros i j k _; unfold Qle; cbn; lia |].
  split; [intros q; unfold get2; destruct (q =? 0); reflexivity |].
  split; [intros q [-> | ->]; reflexivity |].
  cbn. constructor; [| constructor].
  unfold on_trail. cbn.
  split; [right; reflexivity |]. split; [reflexivity |].
  constructor; [reflexivity | constructor].
Defined.


(** The collision test of the overload of [is_operation_valid], for an
    operation that uses no super weapon, is the collision test of
    [add_operation_of_player]. *)
Lemma collide_staged (s : Simulator.t) (p : Z) (op : Operation.t) :
  uses_weapon op = false ->
  GameInfo.collide (get2 (Simulator.operations s) p) op
  = (OperationType_eqb (Operation.type op) BuildTower
     && Simulator.has_build_tower_operation_at s p (Operation.arg0 op) (Operation.arg1 op))
    || ((OperationType_eqb (Operation.type op) UpgradeTower
         || OperationType_eqb (Operation.type op) DowngradeTower)
        && Simulator.has_upgrade_or_downgrade_tower_operation_of s p (Operation.arg0 op))
    || ((OperationType_eqb (Operation.type op) UpgradeGeneratedAnt
         || OperationType_eqb (Operation.type op) UpgradeGenerationSpeed)
        && Simulator.has_base_related_operation s p).
Proof.
  unfold uses_weapon, GameInfo.collide, Simulator.has_build_tower_operation_at,
    Simulator.has_upgrade_or_downgrade_tower_operation_of,
    Simulator.has_base_related_operation.
  destruct (Operation.type op); cbn; intros H; try discriminate;
    rewrite ?orb_false_r; reflexivity.
Qed.

(** For an operation that uses a super weapon, [add_operation_of_player]
    has no collision test. *)
Lemma weapon_not_rejected_for_collision (s : Simulator.t) (p : Z) (op : Operation.t) :
  uses_weapon op = true ->
  rejected_before_cost s p op
  = negb (GameInfo.is_operation_valid (Simulator.info s) p op).
Proof.
  unfold uses_weapon, rejected_before_cost.
  destruct (Operation.type op); cbn; intros H; try discriminate; reflexivity.
Qed.

(** X20. [add_operation_of_player] against the overload of
    [is_operation_valid] that takes the staged operations: an operation that
    the overload accepts is staged; for an operation that uses no super weapon
    the two give the same answer; and an operation that the simulator stages
    against the overload is the use of a super weapon of a type that is
    staged already. *)
Theorem add_operation_follows_validity_check
        (s : Simulator.t) (player_id : Z) (op : Operation.t) :
  let staged := get2 (Simulator.operations s) player_id in
  let checked := GameInfo.is_operation_valid_among (Simulator.info s) player_id staged op in
  (checked = Some true ->
   Simulator.add_operation_of_player s player_id op
   = Some (true, staged_with s player_id op))
  /\ (uses_weapon op = false ->
      option_map fst (Simulator.add_operation_of_player s player_id op) = checked)
  /\ (forall s', Simulator.add_operation_of_player s player_id op = Some (true, s') ->
      checked = Some true
      \/ (checked = Some false /\ uses_weapon op = true
          /\ existsb (fun staged_op =>
                        OperationType_eqb (Operation.type staged_op) (Operation.type op))
                     staged = true)).
Proof.
  intros staged checked. subst checked staged.
  rewrite add_operation_of_player_eq. unfold GameInfo.is_operation_valid_among.
  destruct (uses_weapon op) eqn:W.
  - rewrite (weapon_not_rejected_for_collision _ _ _ W).
    assert (C : GameInfo.collide (get2 (Simulator.operations s) player_id) op
                = existsb (fun staged_op =>
                             OperationType_eqb (Operation.type staged_op)
                                               (Operation.type op))
                          (get2 (Simulator.operations s) player_id)).
    { unfold GameInfo.collide. revert W. unfold uses_weapon.
      destruct (Operation.type op); cbn; intros W; try discriminate; reflexivity. }
    rewrite C.
    destruct (existsb _ _) eqn:X;
      destruct (GameInfo.is_operation_valid (Simulator.info s) player_id op);
      cbn [negb];
      try (destruct (GameInfo.check_affordable _ _ _) as [[|] |]); cbn [bind negb];
      (split; [congruence | split; [congruence |]]);
      intros s' E; try discriminate; auto.
  - rewrite (collide_staged _ _ _ W). unfold rejected_before_cost.
    destruct (_ || _ || _); cbn [orb].
    + split; [congruence | split; [reflexivity | congruence]].
    + destruct (GameInfo.is_operation_valid (Simulator.info s) player_id op);
        cbn [negb];
        try (destruct (GameInfo.check_affordable _ _ _) as [[|] |]);
        cbn [bind negb option_map fst];
        (split; [congruence | split; [congruence |]]);
        intros s' E; try discriminate; auto.
Qed.


Lemma as_simulator_self (c : Controller.t) :
  get2 (Simulator.operations (as_simulator c)) (Controller.self_player_id c)
  = Controller.self_operations c.
Proof. unfold as_simulator. cbn. apply get2_set2_same. Qed.

Lemma as_simulator_opponent (c : Controller.t) :
  get2 (Simulator.operations (as_simulator c))
       (other_player (Controller.self_player_id c))
  = Controller.opponent_operations c.
Proof.
  unfold as_simulator, other_player, get2, set2. cbn.
  destruct (Controller.self_player_id c =? 0); reflexivity.
Qed.

Lemma apply_all_eq : forall ops g p,
  Controller.apply_all g p ops = Simulator.apply_operations g p ops.
Proof.
  induction ops as [| op rest IH]; intros g p; cbn; [reflexivity |].
  destruct (GameInfo.apply_operation g p op); cbn; [apply IH | reflexivity].
Qed.

Lemma append_self_operation_agrees (c : Controller.t) (op : Operation.t) :
  option_map (fun r => (fst r, as_simulator (snd r)))
             (Controller.append_self_operation c op)
  = Simulator.add_operation_of_player (as_simulator c) (Controller.self_player_id c) op.
Proof.
  unfold Controller.append_self_operation, Simulator.add_operation_of_player,
    Controller.has_build_tower_operation_at, Simulator.has_build_tower_operation_at,
    Controller.has_upgrade_or_downgrade_tower_operation_of,
    Simulator.has_upgrade_or_downgrade_tower_operation_of,
    Controller.has_base_related_operation, Simulator.has_base_related_operation.
  rewrite as_simulator_self.
  destruct c as [g self opp me]. unfold as_simulator. cbn.
  rewrite ?get2_set2_same.
  repeat match goal with
         | |- option_map _ (if ?b then _ else _) = _ =>
             destruct b; [reflexivity |]
         end.
  destruct (GameInfo.check_affordable g me (self ++ [op])) as [[|] |]; cbn;
    [| | reflexivity].
  - rewrite set2_set2_same. reflexivity.
  - rewrite ?get2_set2_same, ?set2_set2_same, removelast_last. reflexivity.
Qed.

Lemma apply_self_operations_agrees (c : Controller.t) :
  option_map as_simulator (Controller.apply_self_operations c)
  = Simulator.apply_operations_of_player (as_simulator c) (Controller.self_player_id c).
Proof.
  unfold Controller.apply_self_operations, Simulator.apply_operations_of_player.
  rewrite as_simulator_self, apply_all_eq. cbn.
  destruct (Simulator.apply_operations _ _ _); reflexivity.
Qed.

Lemma apply_opponent_operations_agrees (c : Controller.t) :
  option_map as_simulator (Controller.apply_opponent_operations c)
  = Simulator.apply_operations_of_player (as_simulator c)
      (other_player (Controller.self_player_id c)).
Proof.
  unfold Controller.apply_opponent_operations, Simulator.apply_operations_of_player.
  rewrite as_simulator_opponent, apply_all_eq. cbn.
  destruct (Simulator.apply_operations _ _ _); reflexivity.
Qed.


(* ================================================================== *)
(** * The controller under the reports of the judger *)
(* ================================================================== *)

(** The direction that [get_direction] returns for a neighbor leads to
    it. *)
Lemma get_direction_leads (x0 y0 x1 y1 : Z) :
  0 <= y0 -> is_neighbor x0 y0 x1 y1 ->
  neighbor x0 y0 (get_direction x0 y0 x1 y1) = (x1, y1).
Proof.
  intros Hy (i & Hi & Hn). pose proof (rem2_cases y0 Hy) as Hp.
  assert (E : get_direction x0 y0 x1 y1 = i).
  { unfold neighbor in Hn. injection Hn as <- <-. unfold get_direction.
    replace (x0 + fst (OFFSET (Z.rem y0 2) i) - x0) with (fst (OFFSET (Z.rem y0 2) i)) by lia.
    replace (y0 + snd (OFFSET (Z.rem y0 2) i) - y0) with (snd (OFFSET (Z.rem y0 2) i)) by lia.
    apply get_direction_from_first; auto using directions_range.
    apply in_directions; exact Hi. }
  rewrite E. exact Hn.
Qed.

Lemma reported_consistent (b a : Ant.t) :
  path_consistent b -> 0 <= Ant.y b ->
  (Ant.x a, Ant.y a) = (Ant.x b, Ant.y b)
  \/ is_neighbor (Ant.x b) (Ant.y b) (Ant.x a) (Ant.y a) ->
  path_consistent (Controller.reported b a).
Proof.
  unfold path_consistent, Controller.reported. cbn [Ant.player Ant.path Ant.x Ant.y].
  intros Hb Hy H.
  destruct ((Ant.x b =? Ant.x a) && (Ant.y b =? Ant.y a)) eqn:E; cbn [negb].
  - apply andb_prop in E. destruct E as [E1 E2]. apply Z.eqb_eq in E1, E2.
    rewrite Hb. congruence.
  - rewrite walk_app, Hb. cbn [fst snd].
    destruct H as [H | H].
    + injection H as H1 H2. rewrite H1, H2, !Z.eqb_refl in E. discriminate.
    + apply get_direction_leads; assumption.
Qed.

Lemma update_ant_in_consistent (a : Ant.t) :
  forall l, Forall path_consistent l -> fits l a ->
            Forall path_consistent (Controller.update_ant_in l a).
Proof.
  induction l as [| b rest IH]; intros Hl Hf; cbn [Controller.update_ant_in].
  - constructor; [exact Hf | constructor].
  - inversion Hl as [| ? ? Hb Hrest]; subst. unfold fits in Hf. cbn [find] in Hf.
    destruct (Ant.id b =? Ant.id a).
    + constructor; [| exact Hrest]. destruct Hf as [Hy H].
      apply reported_consistent; assumption.
    + constructor; [exact Hb |]. apply IH; assumption.
Qed.

Lemma update_ants_fold (reports : list Ant.t) :
  forall g, fold_left Controller.update_ant reports g
            = GameInfo.set_ants g (fold_left Controller.update_ant_in reports
                                             (GameInfo.ants g)).
Proof.
  induction reports as [| a rest IH]; intros g; cbn [fold_left].
  - destruct g; reflexivity.
  - rewrite IH. unfold Controller.update_ant. destruct g; reflexivity.
Qed.

Lemma update_ants_consistent (reports : list Ant.t) :
  forall l, Forall path_consistent l -> reports_fit l reports ->
            Forall path_consistent (fold_left Controller.update_ant_in reports l).
Proof.
  induction reports as [| a rest IH]; intros l Hl Hf; cbn [fold_left]; [exact Hl |].
  destruct Hf as [Ha Hrest]. apply IH; [| exact Hrest].
  apply update_ant_in_consistent; assumption.
Qed.

(** X21. [read_round_info] of the controller under reports that fit: when
    the paths that the controller has recorded lead to the cells of its ants,
    and every reported ant is on its cell, on a neighbor of its cell, or new
    with a path to its cell, then the update runs to its end (the assertion
    of [update_pheromone] holds), the recorded paths lead to the reported
    cells again, the towers, the round, the coins and the HP of the bases
    are the reported ones, and both lists of operations are empty. *)
Theorem read_round_info_follows_reports (c : Controller.t) (result : RoundInfo.t) :
  Forall path_consistent (GameInfo.ants (Controller.info c)) ->
  reports_fit (GameInfo.ants (Controller.info c)) (RoundInfo.ants result) ->
  exists c',
    Controller.read_round_info c result = Some c'
    /\ Forall path_consistent (GameInfo.ants (Controller.info c'))
    /\ GameInfo.towers (Controller.info c') = RoundInfo.towers result
    /\ GameInfo.round (Controller.info c') = RoundInfo.round result
    /\ GameInfo.coins (Controller.info c')
       = (RoundInfo.coin0 result, RoundInfo.coin1 result)
    /\ Base.hp (get2 (GameInfo.bases (Controller.info c')) 0) = RoundInfo.hp0 result
    /\ Base.hp (get2 (GameInfo.bases (Controller.info c')) 1) = RoundInfo.hp1 result
    /\ Controller.self_operations c' = []
    /\ Controller.opponent_operations c' = []
    /\ Controller.self_player_id c' = Controller.self_player_id c.
Proof.
  intros Hc Hf. unfold Controller.read_round_info.
  set (g1 := Controller.update_towers (Controller.info c) (RoundInfo.towers result)).
  set (g2 := Controller.update_ants g1 (RoundInfo.ants result)).
  set (g3 := GameInfo.global_pheromone_attenuation g2).
  assert (H2 : Forall path_consistent (GameInfo.ants g3)).
  { subst g3 g2. unfold Controller.update_ants. rewrite update_ants_fold.
    cbn. apply update_ants_consistent; assumption. }
  assert (T3 : GameInfo.towers g3 = RoundInfo.towers result).
  { subst g3 g2. unfold Controller.update_ants. rewrite update_ants_fold.
    reflexivity. }
  unfold GameInfo.update_pheromone_for_ants.
  destruct (update_pheromone_for_total (GameInfo.ants g3) g3 H2) as (g4 & E4).
  rewrite E4. cbn [bind]. eexists. split; [reflexivity |].
  apply update_pheromone_for_frame in E4.
  assert (A4 : GameInfo.ants g4 = GameInfo.ants g3) by (rewrite E4; reflexivity).
  assert (T4 : GameInfo.towers g4 = GameInfo.towers g3) by (rewrite E4; reflexivity).
  cbn. rewrite A4, T4. repeat split; try reflexivity; try exact T3.
  apply Forall_forall. intros a Ha. apply filter_In in Ha.
  rewrite Forall_forall in H2. apply H2, Ha.
Qed.

Lemma read_round_info_follows_reports_witness :
  exists c',
    Controller.read_round_info watching report_of_round_1 = Some c'
    /\ Forall path_consistent (GameInfo.ants (Controller.info c'))
    /\ GameInfo.towers (Controller.info c') = RoundInfo.towers report_of_round_1
    /\ GameInfo.round (Controller.info c') = RoundInfo.round report_of_round_1
    /\ GameInfo.coins (Controller.info c')
       = (RoundInfo.coin0 report_of_round_1, RoundInfo.coin1 report_of_round_1)
    /\ Base.hp (get2 (GameInfo.bases (Controller.info c')) 0)
       = RoundInfo.hp0 report_of_round_1
    /\ Base.hp (get2 (GameInfo.bases (Controller.info c')) 1)
       = RoundInfo.hp1 report_of_round_1
    /\ Controller.self_operations c' = []
    /\ Controller.opponent_operations c' = []
    /\ Controller.self_player_id c' = Controller.self_player_id watching.
Proof.
  apply (read_round_info_follows_reports watching report_of_round_1).
  - repeat constructor.
  - cbn. repeat split.
    + lia.
    + right. exists 1. split; [lia | reflexivity].
Defined.


(* ================================================================== *)
(** * Paying for the staged operations *)
(* ================================================================== *)

Lemma find_app_some {A : Type} (p : A -> bool) (l l' : list A) (a : A) :
  find p l = Some a -> find p (l ++ l') = Some a.
Proof.
  induction l as [| b l IH]; cbn [app find]; [discriminate |].
  destruct (p b); [auto | exact IH].
Qed.

(** Replacing the first element that satisfies [p] by elements that do not
    satisfy [q] leaves the first element that satisfies [q] where it was,
    when no element satisfies both. *)
Lemma find_replace_first_other {A : Type} (p q : A -> bool) (f : A -> list A) :
  (forall a, p a = true -> q a = false /\ Forall (fun b => q b = false) (f a)) ->
  forall l, find q (replace_first p f l) = find q l.
Proof.
  intros H. induction l as [| a l IH]; cbn [replace_first find]; [reflexivity |].
  destruct (p a) eqn:E.
  - destruct (H a E) as [Hq Hf]. rewrite Hq. apply find_app_none, Hf.
  - cbn [find]. rewrite IH. reflexivity.
Qed.

Lemma filter_replace_first_one {A : Type} (p q : A -> bool) (f : A -> A) :
  (forall a, q (f a) = q a) ->
  forall l, length (filter q (replace_first p (fun a => [f a]) l)) = length (filter q l).
Proof.
  intros H. induction l as [| a l IH]; cbn [replace_first filter]; [reflexivity |].
  destruct (p a).
  - cbn [app filter]. rewrite H. destruct (q a); reflexivity.
  - cbn [filter]. destruct (q a); cbn [length]; rewrite IH; reflexivity.
Qed.

Lemma filter_replace_first_none {A : Type} (p q : A -> bool) (a : A) :
  forall l, find p l = Some a -> q a = true ->
            S (length (filter q (replace_first p (fun _ => []) l)))
            = length (filter q l).
Proof.
  induction l as [| b l IH]; cbn [replace_first filter find]; [discriminate |].
  destruct (p b).
  - intros E Hq. injection E as ->. rewrite Hq. reflexivity.
  - intros E Hq. cbn [filter]. destruct (q b); cbn [length]; rewrite <- (IH E Hq);
      reflexivity.
Qed.

Lemma upgrade_id tw ty : Tower.id (Tower.upgrade tw ty) = Tower.id tw.
Proof. reflexivity. Qed.

Lemma upgrade_player tw ty : Tower.player (Tower.upgrade tw ty) = Tower.player tw.
Proof. reflexivity. Qed.

Lemma tower_of_id_upgrade g id ty id' :
  id' <> id ->
  GameInfo.tower_of_id (GameInfo.upgrade_tower g id ty) id' = GameInfo.tower_of_id g id'.
Proof.
  intros Hne. unfold GameInfo.tower_of_id, GameInfo.upgrade_tower.
  cbn [GameInfo.towers GameInfo.set_towers].
  apply find_replace_first_other. intros a Ha. apply Z.eqb_eq in Ha.
  split; [apply Z.eqb_neq; lia |].
  constructor; [| constructor]. rewrite upgrade_id. apply Z.eqb_neq. lia.
Qed.

Lemma tower_of_id_downgrade g id id' :
  id' <> id ->
  GameInfo.tower_of_id (GameInfo.downgrade_or_destroy_tower g id) id'
  = GameInfo.tower_of_id g id'.
Proof.
  intros Hne. unfold GameInfo.tower_of_id, GameInfo.downgrade_or_destroy_tower.
  cbn [GameInfo.towers GameInfo.set_towers].
  apply find_replace_first_other. intros a Ha. apply Z.eqb_eq in Ha.
  split; [apply Z.eqb_neq; lia |].
  destruct (Tower.is_downgrade_valid a); constructor; [| constructor].
  unfold Tower.downgrade. rewrite upgrade_id. apply Z.eqb_neq. lia.
Qed.

Lemma tower_num_upgrade g id ty p :
  GameInfo.tower_num_of_player (GameInfo.upgrade_tower g id ty) p
  = GameInfo.tower_num_of_player g p.
Proof.
  unfold GameInfo.tower_num_of_player, GameInfo.upgrade_tower.
  cbn [GameInfo.towers GameInfo.set_towers]. f_equal.
  apply filter_replace_first_one. intros a. rewrite upgrade_player. reflexivity.
Qed.

Lemma tower_num_downgrade g id p tw :
  GameInfo.tower_of_id g id = Some tw -> Tower.player tw = p ->
  GameInfo.tower_num_of_player (GameInfo.downgrade_or_destroy_tower g id) p
  = if TowerType_eqb (Tower.type tw) Basic
    then GameInfo.tower_num_of_player g p - 1
    else GameInfo.tower_num_of_player g p.
Proof.
  intros Hfind Hp. unfold GameInfo.tower_num_of_player, GameInfo.downgrade_or_destroy_tower.
  cbn [GameInfo.towers GameInfo.set_towers]. unfold GameInfo.tower_of_id in Hfind.
  unfold Tower.is_downgrade_valid.
  destruct (TowerType_eqb (Tower.type tw) Basic) eqn:E.
  - rewrite (replace_first_found _ _ (fun _ => []) _ tw Hfind)
      by (rewrite E; reflexivity).
    rewrite <- (filter_replace_first_none _ (fun t => Tower.player t =? p) tw _ Hfind)
      by (apply Z.eqb_eq; exact Hp).
    lia.
  - rewrite (replace_first_found _ _ (fun t => [Tower.downgrade t]) _ tw Hfind)
      by (rewrite E; reflexivity).
    f_equal. apply filter_replace_first_one. intros a. unfold Tower.downgrade.
    rewrite upgrade_player. reflexivity.
Qed.

Lemma coins_update_coin g p i :
  get2 (GameInfo.coins (GameInfo.update_coin g p i)) p = get2 (GameInfo.coins g) p + i.
Proof. unfold GameInfo.update_coin. cbn. apply get2_set2_same. Qed.

(** What [is_operation_valid] has checked of an operation that changes a
    tower. *)
Lemma valid_changes_tower g p op :
  GameInfo.is_operation_valid g p op = true -> changes_tower op = true ->
  exists tw,
    GameInfo.tower_of_id g (Operation.arg0 op) = Some tw
    /\ Tower.player tw = p
    /\ (Operation.type op = UpgradeTower ->
        Tower.is_upgrade_type_valid tw (Operation.arg1 op) = true).
Proof.
  unfold GameInfo.is_operation_valid, changes_tower.
  destruct (Operation.type op); cbn; try discriminate; intros H _;
    destruct (GameInfo.tower_of_id g (Operation.arg0 op)) as [tw |]; try discriminate;
    exists tw; (split; [reflexivity |]);
    repeat (apply andb_prop in H; destruct H as [H ?]);
    (split; [apply Z.eqb_eq; assumption |]); intros E; try discriminate; assumption.
Qed.

Lemma clash_sym a b : clash a b = clash b a.
Proof.
  unfold clash. rewrite (Z.eqb_sym (Operation.arg0 a)).
  rewrite (andb_comm (changes_tower a)), (andb_comm (upgrades_base a)). reflexivity.
Qed.

(** One step of the application of staged operations: the operation is
    applied, it changes the coins of the player by the amount that the loop of
    [check_affordable] has counted for it, and the state goes on tracking the
    state of the check. *)
Lemma apply_operation_tracks (g gk : GameInfo.t) (p : Z) (op : Operation.t)
      (rest : list Operation.t) (n : Z) :
  GameInfo.is_operation_valid g p op = true ->
  Forall (fun op' => GameInfo.is_operation_valid g p op' = true) rest ->
  Forall (fun op' => clash op op' = false) rest ->
  tracks g gk p (op :: rest) n ->
  exists i n' gk',
    (forall income,
        GameInfo.check_affordable_loop g p (op :: rest) income n
        = GameInfo.check_affordable_loop g p rest (income + i) n')
    /\ GameInfo.apply_operation gk p op = Some gk'
    /\ get2 (GameInfo.coins gk') p = get2 (GameInfo.coins gk) p + i
    /\ GameInfo.super_weapons gk' = GameInfo.super_weapons gk
       ++ (if uses_weapon op
           then match SuperWeaponType_of_Z
                        (Z.rem (OperationType_to_Z (Operation.type op)) 10) with
                | Some w => [SuperWeapon.new w p (Operation.arg0 op) (Operation.arg1 op)]
                | None => []
                end
           else [])
    /\ GameInfo.ants gk' = GameInfo.ants gk
    /\ tracks g gk' p rest n'.
Proof.
  intros Hv Hrest Hclash (Htw & Hn & Hb).
  assert (Hother : forall op', In op' rest -> changes_tower op = true ->
                               changes_tower op' = true ->
                               Operation.arg0 op' <> Operation.arg0 op).
  { intros op' Hin Hc Hc'. rewrite Forall_forall in Hclash.
    specialize (Hclash op' Hin). unfold clash in Hclash.
    rewrite Hc, Hc' in Hclash. cbn [andb] in Hclash.
    apply orb_false_elim in Hclash. destruct Hclash as [Hne _].
    apply Z.eqb_neq in Hne. lia. }
  assert (Hnobase : upgrades_base op = true ->
                    ~ exists op', In op' rest /\ upgrades_base op' = true).
  { intros Hu (op' & Hin & Hu'). rewrite Forall_forall in Hclash.
    specialize (Hclash op' Hin). unfold clash in Hclash.
    rewrite Hu, Hu' in Hclash. rewrite orb_true_r in Hclash. discriminate. }
  assert (Hbase : upgrades_base op = true -> GameInfo.bases gk = GameInfo.bases g)
    by (intros Hu; apply Hb; exists op; split; [left; reflexivity | exact Hu]).
  assert (Hlater : (exists op', In op' rest /\ upgrades_base op' = true) ->
                   GameInfo.bases gk = GameInfo.bases g).
  { intros (op' & Hin & Hu). apply Hb. exists op'. split; [right; exact Hin | exact Hu]. }
  assert (Hkeep : forall op', In op' rest -> changes_tower op' = true ->
                              GameInfo.tower_of_id gk (Operation.arg0 op')
                              = GameInfo.tower_of_id g (Operation.arg0 op'))
    by (intros op' Hin; apply Htw; right; exact Hin).
  destruct (changes_tower op) eqn:Hc.
  - destruct (valid_changes_tower g p op Hv Hc) as (tw & Hfind & Hp & Hup).
    assert (Hfindk : GameInfo.tower_of_id gk (Operation.arg0 op) = Some tw)
      by (rewrite (Htw op (or_introl eq_refl) Hc); exact Hfind).
    destruct op as [ty a0 a1]. unfold changes_tower in Hc, Hother. cbn [Operation.type Operation.arg0 Operation.arg1] in *.
    destruct ty; try discriminate.
    + (* UpgradeTower *)
      destruct (is_upgrade_type_valid_inv tw a1 (Hup eq_refl)) as (new_type & Hty & _).
      exists (- GameInfo.upgrade_tower_cost a1), n.
      eexists. split; [intros income; reflexivity |].
      unfold GameInfo.apply_operation, GameInfo.get_operation_income.
      cbn [Operation.type Operation.arg0 Operation.arg1 bind]. rewrite Hty. cbn [bind].
      split; [reflexivity |]. split; [apply coins_update_coin |].
      split; [cbn; rewrite app_nil_r; reflexivity |]. split; [reflexivity |].
      split; [| split].
      * intros op' Hin Hc'. rewrite tower_of_id_upgrade by (apply Hother; auto).
        apply Hkeep; assumption.
      * rewrite tower_num_upgrade. exact Hn.
      * exact Hlater.
    + (* DowngradeTower *)
      exists (if TowerType_eqb (Tower.type tw) Basic
              then GameInfo.destroy_tower_income n
              else GameInfo.downgrade_tower_income (TowerType_to_Z (Tower.type tw))),
             (if TowerType_eqb (Tower.type tw) Basic then n - 1 else n).
      eexists. split.
      { intros income. cbn [GameInfo.check_affordable_loop Operation.type Operation.arg0].
        rewrite Hfind. cbn [bind].
        destruct (TowerType_eqb (Tower.type tw) Basic); reflexivity. }
      rewrite (apply_downgrade_tower gk p a0 a1 tw Hfindk), Hn.
      split; [reflexivity |].
      split; [apply coins_update_coin |].
      split; [cbn; rewrite app_nil_r; reflexivity |]. split; [reflexivity |].
      split; [| split].
      * intros op' Hin Hc'. rewrite tower_of_id_downgrade by (apply Hother; auto).
        apply Hkeep; assumption.
      * rewrite (tower_num_downgrade _ a0 p tw); [| exact Hfindk | exact Hp].
        change (GameInfo.tower_num_of_player (GameInfo.update_coin gk p _) p)
          with (GameInfo.tower_num_of_player gk p).
        rewrite Hn. reflexivity.
      * exact Hlater.
  - destruct op as [ty a0 a1]. unfold changes_tower in Hc.
    unfold upgrades_base in Hbase, Hnobase.
    cbn [Operation.type Operation.arg0 Operation.arg1] in *.
    destruct ty; try discriminate.
    + (* BuildTower *)
      exists (- GameInfo.build_tower_cost n), (n + 1). eexists.
      split; [intros income; reflexivity |].
      rewrite apply_build_tower, Hn. split; [reflexivity |].
      split; [apply coins_update_coin |].
      split; [cbn; rewrite app_nil_r; reflexivity |]. split; [reflexivity |].
      split; [| split].
      * intros op' Hin Hc'. rewrite <- (Hkeep op' Hin Hc').
        rewrite Forall_forall in Hrest.
        destruct (valid_changes_tower g p op' (Hrest op' Hin) Hc') as (tw & Hfind & _).
        rewrite <- (Hkeep op' Hin Hc') in Hfind. rewrite Hfind.
        unfold GameInfo.tower_of_id, GameInfo.build_tower.
        cbn [GameInfo.towers GameInfo.set_towers GameInfo.set_next_tower_id
             GameInfo.update_coin GameInfo.set_coins].
        apply find_app_some. exact Hfind.
      * unfold GameInfo.build_tower.
        change (GameInfo.towers (GameInfo.set_next_tower_id
                  (GameInfo.update_coin gk p (- GameInfo.build_tower_cost n))
                  (GameInfo.next_tower_id gk + 1)))
          with (GameInfo.towers gk).
        unfold GameInfo.tower_num_of_player in *.
        cbn [GameInfo.towers GameInfo.set_towers].
        rewrite filter_app, length_app. cbn [filter Tower.new Tower.upgrade Tower.reset_cd
                                               Tower.player].
        change (Tower.player (Tower.new (GameInfo.next_tower_id gk) p a0 a1 Basic 0))
          with p.
        rewrite Z.eqb_refl. cbn [length]. lia.
      * exact Hlater.
    + (* UseLightningStorm *)
      eexists _, n. eexists. split; [intros income; reflexivity |].
      split; [reflexivity |]. split; [apply coins_update_coin |].
      split; [reflexivity |]. split; [reflexivity |].
      split; [exact Hkeep | split; [exact Hn | exact Hlater]].
    + eexists _, n. eexists. split; [intros income; reflexivity |].
      split; [reflexivity |]. split; [apply coins_update_coin |].
      split; [reflexivity |]. split; [reflexivity |].
      split; [exact Hkeep | split; [exact Hn | exact Hlater]].
    + eexists _, n. eexists. split; [intros income; reflexivity |].
      split; [reflexivity |]. split; [apply coins_update_coin |].
      split; [reflexivity |]. split; [reflexivity |].
      split; [exact Hkeep | split; [exact Hn | exact Hlater]].
    + eexists _, n. eexists. split; [intros income; reflexivity |].
      split; [reflexivity |]. split; [apply coins_update_coin |].
      split; [reflexivity |]. split; [reflexivity |].
      split; [exact Hkeep | split; [exact Hn | exact Hlater]].
    + (* UpgradeGenerationSpeed *)
      exists (- GameInfo.upgrade_base_cost (Base.gen_speed_level (get2 (GameInfo.bases g) p))), n.
      eexists. split; [intros income; reflexivity |].
      unfold GameInfo.apply_operation, GameInfo.get_operation_income.
      cbn [Operation.type bind]. rewrite (Hbase eq_refl).
      split; [reflexivity |]. split; [apply coins_update_coin |].
      split; [cbn; rewrite app_nil_r; reflexivity |]. split; [reflexivity |].
      split; [exact Hkeep | split; [exact Hn |]].
      intros H. exfalso. apply (Hnobase eq_refl). exact H.
    + (* UpgradeGeneratedAnt *)
      exists (- GameInfo.upgrade_base_cost (Base.ant_level (get2 (GameInfo.bases g) p))), n.
      eexists. split; [intros income; reflexivity |].
      unfold GameInfo.apply_operation, GameInfo.get_operation_income.
      cbn [Operation.type bind]. rewrite (Hbase eq_refl).
      split; [reflexivity |]. split; [apply coins_update_coin |].
      split; [cbn; rewrite app_nil_r; reflexivity |]. split; [reflexivity |].
      split; [exact Hkeep | split; [exact Hn |]].
      intros H. exfalso. apply (Hnobase eq_refl). exact H.
Qed.


Lemma apply_operations_tracks (g : GameInfo.t) (p : Z) :
  forall rest gk n income total,
    Forall (fun op => GameInfo.is_operation_valid g p op = true) rest ->
    ForallOrdPairs (fun a b => clash a b = false) rest ->
    tracks g gk p rest n ->
    GameInfo.check_affordable_loop g p rest income n = Some total ->
    exists g',
      Simulator.apply_operations gk p rest = Some g'
      /\ get2 (GameInfo.coins g') p = get2 (GameInfo.coins gk) p + (total - income)
      /\ GameInfo.ants g' = GameInfo.ants gk.
Proof.
  induction rest as [| op rest IH]; intros gk n income total Hv Hc Ht Hloop.
  - cbn in Hloop. injection Hloop as <-. exists gk. cbn.
    split; [reflexivity |]. split; [lia | reflexivity].
  - inversion Hv as [| ? ? Hop Hrest]; subst.
    inversion Hc as [| ? ? Hfirst Hpairs]; subst.
    destruct (apply_operation_tracks g gk p op rest n Hop Hrest Hfirst Ht)
      as (i & n' & gk' & Hstep & Happly & Hcoins & _ & Hants & Ht').
    rewrite Hstep in Hloop.
    destruct (IH gk' n' (income + i) total Hrest Hpairs Ht' Hloop)
      as (g' & Hrun & Hpaid & Hants').
    exists g'. cbn [Simulator.apply_operations]. rewrite Happly. cbn [bind].
    split; [exact Hrun |]. split; [lia | congruence].
Qed.

Lemma existsb_false_In {A : Type} (f : A -> bool) (l : list A) (a : A) :
  existsb f l = false -> In a l -> f a = false.
Proof.
  induction l as [| b l IH]; cbn [existsb In]; [contradiction |].
  intros H [-> | Hin]; apply orb_false_elim in H; destruct H as [H1 H2]; auto.
Qed.

Lemma pairs_snoc {A : Type} (R : A -> A -> Prop) (b : A) :
  forall l, ForallOrdPairs R l -> Forall (fun a => R a b) l -> ForallOrdPairs R (l ++ [b]).
Proof.
  induction 1 as [| a l Ha Hl IH]; intros Hb; cbn [app].
  - constructor; constructor.
  - inversion Hb as [| ? ? Hab Hlb]; subst. constructor; [| apply IH, Hlb].
    apply Forall_app. split; [exact Ha | constructor; [exact Hab | constructor]].
Qed.

(** An operation that passes the checks of [add_operation_of_player] before
    the affordability is valid and clashes with no staged operation. *)
Lemma not_rejected_no_clash (s : Simulator.t) (p : Z) (op : Operation.t) :
  rejected_before_cost s p op = false ->
  GameInfo.is_operation_valid (Simulator.info s) p op = true
  /\ Forall (fun a => clash a op = false) (get2 (Simulator.operations s) p).
Proof.
  unfold rejected_before_cost. intros H.
  apply orb_false_elim in H. destruct H as [H Hv].
  apply orb_false_elim in H. destruct H as [H Hbase].
  apply orb_false_elim in H. destruct H as [_ Htower].
  split; [destruct (GameInfo.is_operation_valid _ _ _); [reflexivity | discriminate] |].
  apply Forall_forall. intros a Ha. unfold clash.
  fold (changes_tower op) in Htower. fold (upgrades_base op) in Hbase.
  unfold Simulator.has_upgrade_or_downgrade_tower_operation_of in Htower.
  unfold Simulator.has_base_related_operation in Hbase.
  apply orb_false_intro.
  - destruct (changes_tower op); [| rewrite andb_false_r; reflexivity].
    cbn [andb] in Htower. rewrite andb_true_r.
    exact (existsb_false_In _ _ a Htower Ha).
  - destruct (upgrades_base op); [| rewrite andb_false_r; reflexivity].
    cbn [andb] in Hbase. rewrite andb_true_r.
    exact (existsb_false_In _ _ a Hbase Ha).
Qed.

Lemma stage_all_spec (p : Z) :
  forall ops s0 s,
    stage_all s0 p ops = Some s ->
    Simulator.info s = Simulator.info s0
    /\ get2 (Simulator.operations s) p = get2 (Simulator.operations s0) p ++ ops
    /\ Forall (fun op => GameInfo.is_operation_valid (Simulator.info s0) p op = true) ops
    /\ (ForallOrdPairs (fun a b => clash a b = false) (get2 (Simulator.operations s0) p) ->
        ForallOrdPairs (fun a b => clash a b = false) (get2 (Simulator.operations s) p))
    /\ (ops <> [] ->
        GameInfo.check_affordable (Simulator.info s0) p (get2 (Simulator.operations s) p)
        = Some true).
Proof.
  induction ops as [| op rest IH]; intros s0 s H; cbn [stage_all] in H.
  - injection H as <-. rewrite app_nil_r. repeat split; auto. congruence.
  - rewrite add_operation_of_player_eq in H.
    destruct (rejected_before_cost s0 p op) eqn:Hr; [discriminate |].
    destruct (GameInfo.check_affordable _ _ _) as [[|] |] eqn:Ha; cbn [bind] in H;
      try discriminate.
    destruct (not_rejected_no_clash s0 p op Hr) as [Hv Hno].
    destruct (IH _ _ H) as (Hi & Ho & Hvs & Hp & Haff).
    rewrite operations_staged_with in Ho, Hp.
    change (Simulator.info (staged_with s0 p op)) with (Simulator.info s0) in *.
    split; [exact Hi |].
    split; [rewrite Ho, <- app_assoc; reflexivity |].
    split; [constructor; assumption |].
    split; [intros H0; apply Hp, pairs_snoc; assumption |].
    intros _. destruct rest as [| op' rest'].
    + rewrite Ho, app_nil_r. exact Ha.
    + apply Haff. discriminate.
Qed.

Lemma storm_reward_nonneg w l : 0 <= storm_reward w l.
Proof.
  unfold storm_reward. induction (filter (struck_by w) l) as [| a rest IH];
    cbn [map fold_right]; [lia |].
  pose proof (reward_nonneg a). lia.
Qed.

Lemma storms_reward_nonneg p ws l : 0 <= storms_reward p ws l.
Proof.
  unfold storms_reward. induction (filter (is_storm_of p) ws) as [| w rest IH];
    cbn [map fold_right]; [lia |].
  pose proof (storm_reward_nonneg w l). lia.
Qed.

(** X22. The operations that [add_operation_of_player] has accepted one after
    the other for a player, from an empty list and a balance that is not
    negative, are applied in full by [apply_operations_of_player]: no step
    fails, every operation is charged the very amount that the check of
    affordability has counted for it, so that the balance after the
    operations is the old balance plus the income of the check and not
    negative, and the super weapons can only add the rewards of the lightning
    storms to it. *)
Theorem staged_operations_are_paid (s0 s : Simulator.t) (p : Z)
        (ops : list Operation.t) :
  p = 0 \/ p = 1 ->
  get2 (Simulator.operations s0) p = [] ->
  0 <= get2 (GameInfo.coins (Simulator.info s0)) p ->
  stage_all s0 p ops = Some s ->
  exists income g2 s',
    Simulator.info s = Simulator.info s0
    /\ get2 (Simulator.operations s) p = ops
    /\ GameInfo.check_affordable_loop (Simulator.info s0) p ops 0
         (GameInfo.tower_num_of_player (Simulator.info s0) p) = Some income
    /\ Simulator.apply_operations
         (GameInfo.count_down_super_weapons_left_time (Simulator.info s0) p) p ops
       = Some g2
    /\ get2 (GameInfo.coins g2) p
       = get2 (GameInfo.coins (Simulator.info s0)) p + income
    /\ 0 <= get2 (GameInfo.coins g2) p
    /\ Simulator.apply_operations_of_player s p = Some s'
    /\ get2 (GameInfo.coins (Simulator.info s')) p
       = get2 (GameInfo.coins g2) p
         + storms_reward p (GameInfo.super_weapons g2) (GameInfo.ants g2)
    /\ 0 <= get2 (GameInfo.coins (Simulator.info s')) p.
Proof.
  intros _ Hempty Hcoins Hstage.
  destruct (stage_all_spec p ops s0 s Hstage) as (Hi & Ho & Hv & Hp & Haff).
  rewrite Hempty in Ho, Hp. cbn [app] in Ho.
  assert (Hpairs : ForallOrdPairs (fun a b => clash a b = false) ops)
    by (rewrite <- Ho; apply Hp; constructor).
  set (g := Simulator.info s0) in *.
  assert (Hloop : exists income,
             GameInfo.check_affordable_loop g p ops 0 (GameInfo.tower_num_of_player g p)
             = Some income
             /\ 0 <= get2 (GameInfo.coins g) p + income).
  { destruct ops as [| op rest].
    - exists 0. split; [reflexivity | lia].
    - assert (Hne : op :: rest <> []) by discriminate.
      specialize (Haff Hne). rewrite Ho in Haff.
      unfold GameInfo.check_affordable in Haff.
      destruct (GameInfo.check_affordable_loop _ _ _ _ _) as [income |];
        [| discriminate].
      cbn [bind] in Haff. injection Haff as Haff. exists income.
      split; [reflexivity | lia]. }
  destruct Hloop as (income & Hloop & Hge).
  assert (Ht : tracks g (GameInfo.count_down_super_weapons_left_time g p) p ops
                      (GameInfo.tower_num_of_player g p))
    by (unfold tracks; repeat split).
  destruct (apply_operations_tracks g p ops _ _ 0 income Hv Hpairs Ht Hloop)
    as (g2 & Hrun & Hpaid & _).
  change (GameInfo.coins (GameInfo.count_down_super_weapons_left_time g p))
    with (GameInfo.coins g) in Hpaid.
  exists income, g2. eexists.
  split; [exact Hi |]. split; [exact Ho |]. split; [exact Hloop |].
  split; [exact Hrun |]. split; [lia |]. split; [lia |].
  unfold Simulator.apply_operations_of_player. rewrite Hi, Ho. fold g. rewrite Hrun.
  cbn [bind]. split; [reflexivity |]. cbn [Simulator.info Simulator.set_info].
  unfold GameInfo.apply_active_super_weapons.
  destruct (apply_active_super_weapons_fold p (GameInfo.super_weapons g2) g2) as [_ Hc].
  rewrite Hc, get2_set2_same.
  pose proof (storms_reward_nonneg p (GameInfo.super_weapons g2) (GameInfo.ants g2)).
  split; lia.
Qed.


Lemma staged_operations_are_paid_witness :
  exists s income g2 s',
    stage_all one_tower 0 build_and_upgrade = Some s
    /\ Simulator.info s = Simulator.info one_tower
    /\ get2 (Simulator.operations s) 0 = build_and_upgrade
    /\ GameInfo.check_affordable_loop (Simulator.info one_tower) 0 build_and_upgrade 0
         (GameInfo.tower_num_of_player (Simulator.info one_tower) 0) = Some income
    /\ Simulator.apply_operations
         (GameInfo.count_down_super_weapons_left_time (Simulator.info one_tower) 0)
         0 build_and_upgrade
       = Some g2
    /\ get2 (GameInfo.coins g2) 0
       = get2 (GameInfo.coins (Simulator.info one_tower)) 0 + income
    /\ 0 <= get2 (GameInfo.coins g2) 0
    /\ Simulator.apply_operations_of_player s 0 = Some s'
    /\ get2 (GameInfo.coins (Simulator.info s')) 0
       = get2 (GameInfo.coins g2) 0
         + storms_reward 0 (GameInfo.super_weapons g2) (GameInfo.ants g2)
    /\ 0 <= get2 (GameInfo.coins (Simulator.info s')) 0.
Proof.
  destruct (stage_all one_tower 0 build_and_upgrade) as [s |] eqn:E.
  - exists s.
    destruct (staged_operations_are_paid one_tower s 0 build_and_upgrade)
      as (income & g2 & s' & H);
      [left; reflexivity | reflexivity | cbn; lia | exact E |].
    exists income, g2, s'. split; [reflexivity | exact H].
  - exfalso. revert E. vm_compute. discriminate.
Defined.


(* ================================================================== *)
(** * The simulation of the example *)
(* ================================================================== *)

(** Staged operations that were accepted from an empty list are applied
    without an error. *)
Lemma staged_apply_total (s0 s : Simulator.t) (p : Z) (ops : list Operation.t) :
  get2 (Simulator.operations s0) p = [] ->
  stage_all s0 p ops = Some s ->
  exists s', Simulator.apply_operations_of_player s p = Some s'.
Proof.
  intros Hempty Hstage.
  destruct (stage_all_spec p ops s0 s Hstage) as (Hi & Ho & Hv & Hp & Haff).
  rewrite Hempty in Ho, Hp. cbn [app] in Ho.
  assert (Hpairs : ForallOrdPairs (fun a b => clash a b = false) ops)
    by (rewrite <- Ho; apply Hp; constructor).
  set (g := Simulator.info s0) in *.
  assert (Hloop : exists income,
             GameInfo.check_affordable_loop g p ops 0 (GameInfo.tower_num_of_player g p)
             = Some income).
  { destruct ops as [| op rest].
    - exists 0. reflexivity.
    - assert (Hne : op :: rest <> []) by discriminate.
      specialize (Haff Hne). rewrite Ho in Haff.
      unfold GameInfo.check_affordable in Haff.
      destruct (GameInfo.check_affordable_loop _ _ _ _ _) as [income |];
        [| discriminate].
      exists income. reflexivity. }
  destruct Hloop as (income & Hloop).
  assert (Ht : tracks g (GameInfo.count_down_super_weapons_left_time g p) p ops
                      (GameInfo.tower_num_of_player g p))
    by (unfold tracks; repeat split).
  destruct (apply_operations_tracks g p ops _ _ 0 income Hv Hpairs Ht Hloop)
    as (g2 & Hrun & _).
  unfold Simulator.apply_operations_of_player. rewrite Hi, Ho. fold g. rewrite Hrun.
  cbn [bind]. eexists. reflexivity.
Qed.

(** From an empty list, [add_operation_of_player] meets no error, and what
    it leaves staged is applied without an error. *)
Lemma add_then_apply_total (s : Simulator.t) (p : Z) (op : Operation.t) :
  get2 (Simulator.operations s) p = [] ->
  exists accepted s1 s2,
    Simulator.add_operation_of_player s p op = Some (accepted, s1)
    /\ Simulator.info s1 = Simulator.info s
    /\ get2 (Simulator.operations s1) (other_player p)
       = get2 (Simulator.operations s) (other_player p)
    /\ Simulator.apply_operations_of_player s1 p = Some s2.
Proof.
  intros Hempty.
  assert (Hother : forall v, get2 (set2 (Simulator.operations s) p v) (other_player p)
                             = get2 (Simulator.operations s) (other_player p)).
  { intros v. unfold get2, set2, other_player.
    destruct (p =? 0); reflexivity. }
  destruct (Simulator.add_operation_of_player s p op) as [[accepted s1] |] eqn:E.
  - destruct accepted.
    + pose proof (add_operation_accepted_staged _ _ _ _ E) as ->.
      assert (Hst : stage_all s p [op] = Some (staged_with s p op))
        by (cbn [stage_all]; rewrite E; reflexivity).
      destruct (staged_apply_total s _ p [op] Hempty Hst) as (s2 & H2).
      exists true, (staged_with s p op), s2.
      split; [reflexivity |]. split; [reflexivity |].
      split; [unfold staged_with; cbn; apply Hother | exact H2].
    + pose proof (add_operation_refused_unchanged _ _ _ _ E) as ->.
      assert (Hst : stage_all s p [] = Some s) by reflexivity.
      destruct (staged_apply_total s _ p [] Hempty Hst) as (s2 & H2).
      exists false, s, s2. auto.
  - exfalso. rewrite add_operation_of_player_eq in E.
    destruct (rejected_before_cost s p op) eqn:Hr; [discriminate |].
    destruct (not_rejected_no_clash s p op Hr) as [Hv _].
    rewrite Hempty in E. cbn [app] in E.
    unfold GameInfo.check_affordable in E. cbn [GameInfo.check_affordable_loop] in E.
    unfold GameInfo.is_operation_valid in Hv.
    unfold GameInfo.get_operation_income in E.
    destruct (Operation.type op); cbn [bind] in E;
      try (destruct (GameInfo.tower_of_id (Simulator.info s) (Operation.arg0 op))
             as [tw |]; [| cbn in Hv; discriminate]; cbn [bind] in E);
      repeat match type of E with
             | context [if ?c then _ else _] => destruct c; cbn [bind] in E
             end;
      discriminate.
Qed.

Lemma get2_set2_pointwise {A : Type} (P : A -> Prop) (b : A * A) (p : Z) (v : A) :
  (forall q, P (get2 b q)) -> P v -> forall q, P (get2 (set2 b p v) q).
Proof.
  intros Hb Hv q. pose proof (Hb 0) as H0. pose proof (Hb 1) as H1.
  unfold get2, set2 in *. cbn in H0, H1.
  destruct (p =? 0), (q =? 0); cbn; assumption.
Qed.

(** The bases on their cells under their players, whatever their HP and
    levels. *)
Lemma bases_set2 (g : GameInfo.t) (p : Z) (v : Base.t) :
  bases_in_place g -> bases_owned g ->
  Base.player v = Base.player (get2 (GameInfo.bases g) p) ->
  Base.x v = Base.x (get2 (GameInfo.bases g) p) ->
  Base.y v = Base.y (get2 (GameInfo.bases g) p) ->
  bases_in_place (GameInfo.set_bases g (set2 (GameInfo.bases g) p v))
  /\ bases_owned (GameInfo.set_bases g (set2 (GameInfo.bases g) p v)).
Proof.
  intros Hplace Hown Hp Hx Hy. split.
  - unfold bases_in_place. cbn [GameInfo.bases GameInfo.set_bases].
    apply (get2_set2_pointwise
             (fun b => (Base.x b, Base.y b) = Base.POSITION (Base.player b)));
      [exact Hplace |].
    rewrite Hp, Hx, Hy. apply Hplace.
  - intros q Hq. cbn [GameInfo.bases GameInfo.set_bases].
    pose proof (Hown q Hq) as H. unfold get2, set2 in *.
    destruct (p =? 0), (q =? 0); cbn [fst snd] in *; congruence.
Qed.

Lemma apply_operation_field g p op g' :
  GameInfo.apply_operation g p op = Some g' ->
  GameInfo.pheromone g' = GameInfo.pheromone g
  /\ (bases_in_place g -> bases_owned g -> bases_in_place g' /\ bases_owned g').
Proof.
  unfold GameInfo.apply_operation.
  destruct (GameInfo.get_operation_income g p op) as [income |]; cbn [bind];
    [| discriminate].
  destruct (Operation.type op);
    try (intros H; injection H as <-; split; [reflexivity | auto]).
  - destruct (TowerType_of_Z (Operation.arg1 op)); cbn [bind]; [| discriminate].
    intros H; injection H as <-; split; [reflexivity | auto].
  - intros Hplace Hown.
    apply (bases_set2 (GameInfo.update_coin g p income)); auto.
  - intros Hplace Hown.
    apply (bases_set2 (GameInfo.update_coin g p income)); auto.
Qed.

Lemma apply_operations_field p :
  forall ops g g',
    Simulator.apply_operations g p ops = Some g' ->
    GameInfo.pheromone g' = GameInfo.pheromone g
    /\ (bases_in_place g -> bases_owned g -> bases_in_place g' /\ bases_owned g').
Proof.
  induction ops as [| op rest IH]; intros g g' H; cbn in H.
  - injection H as <-. auto.
  - destruct (GameInfo.apply_operation g p op) as [g1 |] eqn:E; cbn [bind] in H;
      [| discriminate].
    destruct (apply_operation_field _ _ _ _ E) as [Hph Hb].
    destruct (IH _ _ H) as [Hph' Hb'].
    split; [congruence |]. intros Hplace Hown.
    destruct (Hb Hplace Hown) as [H1 H2]. apply Hb'; assumption.
Qed.

Lemma apply_super_weapon_field p g w :
  GameInfo.pheromone (GameInfo.apply_super_weapon p g w) = GameInfo.pheromone g
  /\ GameInfo.bases (GameInfo.apply_super_weapon p g w) = GameInfo.bases g.
Proof.
  unfold GameInfo.apply_super_weapon.
  destruct (negb (SuperWeapon.player w =? p)); [auto |].
  destruct (SuperWeaponType_eqb (SuperWeapon.type w) LightningStorm).
  - destruct (GameInfo.lightning_storm w (GameInfo.ants g) (GameInfo.coins g)); auto.
  - destruct (SuperWeaponType_eqb (SuperWeapon.type w) EmergencyEvasion); auto.
Qed.

Lemma apply_active_super_weapons_field p :
  forall ws g,
    GameInfo.pheromone (fold_left (GameInfo.apply_super_weapon p) ws g)
    = GameInfo.pheromone g
    /\ GameInfo.bases (fold_left (GameInfo.apply_super_weapon p) ws g)
       = GameInfo.bases g.
Proof.
  induction ws as [| w rest IH]; intros g; cbn [fold_left]; [auto |].
  destruct (IH (GameInfo.apply_super_weapon p g w)) as [H1 H2].
  destruct (apply_super_weapon_field p g w) as [H3 H4].
  split; congruence.
Qed.

(** The application of the staged operations of a player keeps a sound
    state sound and the staged lists as they are. *)
Lemma apply_operations_of_player_sound (s s' : Simulator.t) (p : Z) :
  Simulator.apply_operations_of_player s p = Some s' ->
  sound (Simulator.info s) ->
  sound (Simulator.info s') /\ Simulator.operations s' = Simulator.operations s.
Proof.
  unfold Simulator.apply_operations_of_player.
  destruct (Simulator.apply_operations _ _ _) as [g2 |] eqn:E; cbn [bind];
    [| discriminate].
  intros H. injection H as <-. intros (Hn & Hplace & Hown & Hon).
  split; [| reflexivity]. cbn [Simulator.info Simulator.set_info].
  destruct (apply_operations_field _ _ _ _ E) as [Hph Hb].
  pose proof (apply_operations_ants _ _ _ _ E) as Hants.
  destruct (Hb Hplace Hown) as [Hplace2 Hown2].
  unfold GameInfo.apply_active_super_weapons.
  destruct (apply_active_super_weapons_field p (GameInfo.super_weapons g2) g2)
    as [Hph3 Hb3].
  destruct (apply_active_super_weapons_fold p (GameInfo.super_weapons g2) g2)
    as [Hants3 _].
  unfold sound.
  split; [unfold pheromone_nonneg; rewrite Hph3, Hph; exact Hn |].
  split; [unfold bases_in_place; rewrite Hb3; exact Hplace2 |].
  split; [unfold bases_owned; rewrite Hb3; exact Hown2 |].
  rewrite Hants3, Hants. cbn [GameInfo.ants GameInfo.count_down_super_weapons_left_time
                                GameInfo.set_super_weapons].
  apply Forall_forall. intros a Ha. apply in_map_iff in Ha.
  destruct Ha as (b & <- & Hb0). rewrite Forall_forall in Hon.
  apply (on_trail_body b); [apply weapons_effect_body | apply Hon, Hb0].
Qed.

Lemma next_round_operations (s s' : Simulator.t) :
  Simulator.next_round s = Some (Running, s') -> Simulator.operations s' = ([], []).
Proof.
  intros H. apply next_round_running in H.
  destruct H as (_ & s2 & g4 & _ & _ & ->). reflexivity.
Qed.

Lemma simulate_rounds_sound :
  forall n s,
    sound (Simulator.info s) -> Simulator.operations s = ([], []) ->
    exists s', Example.simulate_rounds n s = Some s' /\ sound (Simulator.info s').
Proof.
  induction n as [| n IH]; intros s Hs Hops; cbn [Example.simulate_rounds].
  - exists s. auto.
  - assert (H0 : get2 (Simulator.operations s) 0 = []) by (rewrite Hops; reflexivity).
    destruct (add_then_apply_total s 0 Example.build_tower0 H0)
      as (b0 & sa & s1 & Ea & Hia & Hoa & E1).
    rewrite Ea. cbn [bind snd]. rewrite E1. cbn [bind].
    rewrite <- Hia in Hs.
    destruct (apply_operations_of_player_sound _ _ _ E1 Hs) as [Hs1 Ho1].
    assert (H1 : get2 (Simulator.operations s1) 1 = []).
    { rewrite Ho1. change 1 with (other_player 0). rewrite Hoa, Hops. reflexivity. }
    destruct (add_then_apply_total s1 1 Example.build_tower1 H1)
      as (b1 & sb & s2 & Eb & Hib & Hob & E2).
    rewrite Eb. cbn [bind snd]. rewrite E2. cbn [bind].
    rewrite <- Hib in Hs1.
    destruct (apply_operations_of_player_sound _ _ _ E2 Hs1) as [Hs2 Ho2].
    destruct (next_round_sound s2 Hs2) as (verdict & s3 & E3 & Hs3).
    rewrite E3. cbn [bind fst snd].
    destruct verdict; try (exists s3; split; [reflexivity | exact Hs3]).
    apply IH; [exact Hs3 | apply (next_round_operations s2), E3].
Qed.

(** X23. The simulation of the example never fails: from a sound state, one
    on which no cell of the field holds a negative pheromone, the bases stand
    on their cells and every ant has come from its base over path cells, the
    ten rounds of [game_process0], in which each player stages a tower and
    applies its operations before the round is settled, run without an error
    and without a failed assertion, and leave a sound state. *)
Theorem example_simulation_runs (g : GameInfo.t) :
  sound g ->
  exists s', Example.simulate g = Some s' /\ sound (Simulator.info s').
Proof.
  intros H. unfold Example.simulate. apply simulate_rounds_sound; [exact H | reflexivity].
Qed.

Lemma example_simulation_runs_witness :
  exists s',
    Example.simulate (Simulator.info fresh_simulator) = Some s'
    /\ sound (Simulator.info s').
Proof.
  apply (example_simulation_runs (Simulator.info fresh_simulator)).
  unfold sound.
  split; [intros i j k _; unfold Qle; cbn; lia |].
  split; [intros q; unfold get2; destruct (q =? 0); reflexivity |].
  split; [intros q [-> | ->]; reflexivity |].
  cbn. constructor.
Defined.


(* ================================================================== *)
(** * Staging whatever the AI returns *)
(* ================================================================== *)

Lemma check_affordable_loop_total (g : GameInfo.t) (p : Z) :
  forall ops income n,
    Forall (fun op => GameInfo.is_operation_valid g p op = true) ops ->
    exists total, GameInfo.check_affordable_loop g p ops income n = Some total.
Proof.
  induction ops as [| op rest IH]; intros income n Hv;
    cbn [GameInfo.check_affordable_loop].
  - eexists. reflexivity.
  - inversion Hv as [| ? ? Hop Hrest]; subst.
    destruct (Operation.type op) eqn:T;
      try (unfold GameInfo.get_operation_income; rewrite T; cbn [bind];
           apply IH, Hrest).
    + apply IH, Hrest.
    + destruct (valid_changes_tower g p op Hop) as (tw & Hfind & _);
        [unfold changes_tower; rewrite T; reflexivity |].
      rewrite Hfind. cbn [bind].
      destruct (TowerType_eqb (Tower.type tw) Basic); apply IH, Hrest.
Qed.

(** [add_operation_of_player] on a well staged list meets no error and
    leaves a well staged list: the list as it was, or with the operation
    after it. *)
Lemma add_operation_well_staged (s : Simulator.t) (p : Z) (op : Operation.t) :
  well_staged s p ->
  exists accepted s1,
    Simulator.add_operation_of_player s p op = Some (accepted, s1)
    /\ Simulator.info s1 = Simulator.info s
    /\ well_staged s1 p
    /\ (get2 (Simulator.operations s1) p = get2 (Simulator.operations s) p
        \/ get2 (Simulator.operations s1) p = get2 (Simulator.operations s) p ++ [op]).
Proof.
  intros (Hv & Hpairs & Haff). cbv zeta in *.
  rewrite add_operation_of_player_eq.
  destruct (rejected_before_cost s p op) eqn:Hr.
  - exists false, s. unfold well_staged. auto 6.
  - destruct (not_rejected_no_clash s p op Hr) as [Hop Hno].
    assert (Hv' : Forall (fun op' => GameInfo.is_operation_valid (Simulator.info s) p op'
                                     = true)
                         (get2 (Simulator.operations s) p ++ [op]))
      by (apply Forall_app; split; [exact Hv | constructor; [exact Hop | constructor]]).
    unfold GameInfo.check_affordable.
    destruct (check_affordable_loop_total (Simulator.info s) p _ 0
                (GameInfo.tower_num_of_player (Simulator.info s) p) Hv')
      as (total & Hloop).
    rewrite Hloop. cbn [bind].
    destruct (total + get2 (GameInfo.coins (Simulator.info s)) p >=? 0) eqn:Hge.
    + exists true, (staged_with s p op).
      split; [reflexivity |]. split; [reflexivity |].
      split; [| right; apply operations_staged_with].
      unfold well_staged. rewrite operations_staged_with.
      change (Simulator.info (staged_with s p op)) with (Simulator.info s).
      split; [exact Hv' |]. split; [apply pairs_snoc; assumption |].
      intros _. unfold GameInfo.check_affordable. rewrite Hloop. cbn [bind].
      rewrite Hge. reflexivity.
    + exists false, s. unfold well_staged. auto 6.
Qed.

(** The application of a well staged list runs to its end and charges the
    income of the affordability check. *)
Lemma well_staged_apply (s : Simulator.t) (p : Z) :
  well_staged s p ->
  exists income g2 s',
    GameInfo.check_affordable_loop (Simulator.info s) p
      (get2 (Simulator.operations s) p) 0
      (GameInfo.tower_num_of_player (Simulator.info s) p) = Some income
    /\ (get2 (Simulator.operations s) p <> [] ->
        0 <= get2 (GameInfo.coins (Simulator.info s)) p + income)
    /\ Simulator.apply_operations
         (GameInfo.count_down_super_weapons_left_time (Simulator.info s) p) p
         (get2 (Simulator.operations s) p) = Some g2
    /\ get2 (GameInfo.coins g2) p = get2 (GameInfo.coins (Simulator.info s)) p + income
    /\ Simulator.apply_operations_of_player s p = Some s'
    /\ get2 (GameInfo.coins (Simulator.info s')) p
       = get2 (GameInfo.coins g2) p
         + storms_reward p (GameInfo.super_weapons g2) (GameInfo.ants g2).
Proof.
  intros (Hv & Hpairs & Haff). cbv zeta in *.
  set (g := Simulator.info s) in *. set (ops := get2 (Simulator.operations s) p) in *.
  destruct (check_affordable_loop_total g p ops 0 (GameInfo.tower_num_of_player g p) Hv)
    as (income & Hloop).
  assert (Ht : tracks g (GameInfo.count_down_super_weapons_left_time g p) p ops
                      (GameInfo.tower_num_of_player g p))
    by (unfold tracks; repeat split).
  destruct (apply_operations_tracks g p ops _ _ 0 income Hv Hpairs Ht Hloop)
    as (g2 & Hrun & Hpaid & _).
  change (GameInfo.coins (GameInfo.count_down_super_weapons_left_time g p))
    with (GameInfo.coins g) in Hpaid.
  exists income, g2. eexists. split; [exact Hloop |]. split.
  { intros Hne. specialize (Haff Hne). unfold GameInfo.check_affordable in Haff.
    rewrite Hloop in Haff. cbn [bind] in Haff. injection Haff as Haff. lia. }
  split; [exact Hrun |]. split; [lia |].
  unfold Simulator.apply_operations_of_player. fold g ops. rewrite Hrun. cbn [bind].
  split; [reflexivity |]. cbn [Simulator.info Simulator.set_info].
  unfold GameInfo.apply_active_super_weapons.
  destruct (apply_active_super_weapons_fold p (GameInfo.super_weapons g2) g2) as [_ Hc].
  rewrite Hc, get2_set2_same. lia.
Qed.

Lemma append_self_operation_player (c : Controller.t) (op : Operation.t) b c1 :
  Controller.append_self_operation c op = Some (b, c1) ->
  Controller.self_player_id c1 = Controller.self_player_id c.
Proof.
  unfold Controller.append_self_operation.
  repeat match goal with
         | |- (if ?b then _ else _) = _ -> _ =>
             destruct b; [intros H; injection H as _ <-; reflexivity |]
         end.
  cbn. destruct (GameInfo.check_affordable _ _ _) as [[|] |]; cbn [bind negb];
    intros H; try discriminate; injection H as _ <-; reflexivity.
Qed.

Lemma append_all_well_staged :
  forall ops c,
    well_staged (as_simulator c) (Controller.self_player_id c) ->
    exists c1,
      Template.append_all c ops = Some c1
      /\ Controller.info c1 = Controller.info c
      /\ Controller.self_player_id c1 = Controller.self_player_id c
      /\ well_staged (as_simulator c1) (Controller.self_player_id c1)
      /\ incl (Controller.self_operations c1) (Controller.self_operations c ++ ops).
Proof.
  induction ops as [| op rest IH]; intros c Hw; cbn [Template.append_all].
  - exists c. rewrite app_nil_r.
    split; [reflexivity |]. split; [reflexivity |]. split; [reflexivity |].
    split; [exact Hw | apply incl_refl].
  - destruct (add_operation_well_staged _ _ op Hw) as (b & s1 & Eadd & Hi & Hw1 & Hops).
    pose proof (append_self_operation_agrees c op) as Hagree. rewrite Eadd in Hagree.
    destruct (Controller.append_self_operation c op) as [[b' c1] |] eqn:E;
      [| discriminate].
    cbn [option_map fst snd] in Hagree. injection Hagree as -> <-.
    pose proof (append_self_operation_player _ _ _ _ E) as Hme.
    cbn [bind snd]. rewrite <- Hme in Hw1.
    destruct (IH c1 Hw1) as (c2 & E2 & Hi2 & Hme2 & Hw2 & Hincl).
    exists c2. split; [exact E2 |].
    split; [rewrite Hi2; exact Hi |]. split; [congruence |]. split; [exact Hw2 |].
    assert (Hops' : Controller.self_operations c1 = Controller.self_operations c
                    \/ Controller.self_operations c1
                       = Controller.self_operations c ++ [op])
      by (rewrite <- (as_simulator_self c1), <- (as_simulator_self c), Hme; exact Hops).
    intros x Hx. apply Hincl in Hx. apply in_app_or in Hx.
    apply in_or_app.
    destruct Hx as [Hx | Hx]; [| right; right; exact Hx].
    destruct Hops' as [Hops' | Hops']; rewrite Hops' in Hx; [left; exact Hx |].
    apply in_app_or in Hx. destruct Hx as [Hx | [-> | []]];
      [left; exact Hx | right; left; reflexivity].
Qed.

(** X24. Whatever operations the AI returns, [run_with_ai] stages and applies
    them without an error: from an empty list, the loop of
    [append_self_operation] keeps the operations that pass and drops the
    others, [apply_self_operations] applies every staged operation, and the
    player is left with no negative balance when it had none. *)
Theorem template_accepts_any_answer (c : Controller.t) (ops : list Operation.t) :
  Controller.self_player_id c = 0 \/ Controller.self_player_id c = 1 ->
  Controller.self_operations c = [] ->
  0 <= get2 (GameInfo.coins (Controller.info c)) (Controller.self_player_id c) ->
  exists c1 c2,
    Template.append_all c ops = Some c1
    /\ Controller.info c1 = Controller.info c
    /\ incl (Controller.self_operations c1) ops
    /\ Forall (fun op => GameInfo.is_operation_valid (Controller.info c)
                           (Controller.self_player_id c) op = true)
              (Controller.self_operations c1)
    /\ Template.decide c ops = Some c2
    /\ 0 <= get2 (GameInfo.coins (Controller.info c2)) (Controller.self_player_id c).
Proof.
  intros _ Hempty Hcoins.
  assert (Hw : well_staged (as_simulator c) (Controller.self_player_id c)).
  { unfold well_staged. rewrite as_simulator_self, Hempty.
    split; [constructor |]. split; [constructor | congruence]. }
  destruct (append_all_well_staged ops c Hw) as (c1 & E1 & Hi & Hme & Hw1 & Hincl).
  rewrite Hempty in Hincl. cbn [app] in Hincl.
  destruct (well_staged_apply _ _ Hw1)
    as (income & g2 & s' & Hloop & Hge & Hrun & Hpaid & Happly & Hfinal).
  pose proof (apply_self_operations_agrees c1) as Hagree. rewrite Happly in Hagree.
  destruct (Controller.apply_self_operations c1) as [c2 |] eqn:E2; [| discriminate].
  cbn [option_map] in Hagree. injection Hagree as Hs'.
  exists c1, c2. split; [exact E1 |]. split; [exact Hi |]. split; [exact Hincl |].
  split.
  { destruct Hw1 as (Hv & _). cbv zeta in Hv. rewrite as_simulator_self in Hv.
    rewrite Hme in Hv. change (Simulator.info (as_simulator c1)) with (Controller.info c1) in Hv.
    rewrite Hi in Hv. exact Hv. }
  split; [unfold Template.decide; rewrite E1; cbn [bind]; exact E2 |].
  rewrite as_simulator_self in Hge, Hloop.
  change (Simulator.info (as_simulator c1)) with (Controller.info c1)
    in Hge, Hloop, Hpaid.
  rewrite Hi in Hge, Hloop, Hpaid. rewrite Hme in Hge, Hloop, Hpaid, Hfinal.
  change (Controller.info c2) with (Simulator.info (as_simulator c2)).
  rewrite Hs', Hfinal, Hpaid.
  pose proof (storms_reward_nonneg (Controller.self_player_id c)
                (GameInfo.super_weapons g2) (GameInfo.ants g2)).
  destruct (Controller.self_operations c1) as [| op rest] eqn:Hops.
  - cbn in Hloop. injection Hloop as <-. lia.
  - assert (Hne : op :: rest <> []) by discriminate. specialize (Hge Hne). lia.
Qed.

Lemma template_accepts_any_answer_witness :
  exists c1 c2,
    Template.append_all fresh_controller careless_answer = Some c1
    /\ Controller.info c1 = Controller.info fresh_controller
    /\ incl (Controller.self_operations c1) careless_answer
    /\ Forall (fun op => GameInfo.is_operation_valid (Controller.info fresh_controller)
                           (Controller.self_player_id fresh_controller) op = true)
              (Controller.self_operations c1)
    /\ Template.decide fresh_controller careless_answer = Some c2
    /\ 0 <= get2 (GameInfo.coins (Controller.info c2))
                 (Controller.self_player_id fresh_controller).
Proof.
  apply (template_accepts_any_answer fresh_controller careless_answer).
  - left. reflexivity.
  - reflexivity.
  - vm_compute. easy.
Defined.


(* ================================================================== *)
(** * The generator and the initial pheromone *)
(* ================================================================== *)

Lemma get_mod (seed : Z) : Random.get seed = (25214903917 * seed) mod 2 ^ 48.
Proof.
  unfold Random.get. change (Z.shiftl 1 48 - 1) with (Z.ones 48).
  rewrite Z.land_ones by lia.
  generalize (25214903917 * seed). intros a.
  change (2 ^ 64) with 18446744073709551616. change (2 ^ 48) with 281474976710656.
  lia.
Qed.

Lemma get_range (seed : Z) : 0 <= Random.get seed < 2 ^ 48.
Proof. rewrite get_mod. apply Z.mod_pos_bound. lia. Qed.

(** The multiplier is odd: it has an inverse modulo [2^48]. *)
Lemma get_injective (x y : Z) :
  0 <= x < 2 ^ 48 -> 0 <= y < 2 ^ 48 -> Random.get x = Random.get y -> x = y.
Proof.
  rewrite !get_mod. change (2 ^ 48) with 281474976710656. intros Hx Hy H.
  assert (E : (246154705703781 * (25214903917 * x)) mod 281474976710656
              = (246154705703781 * (25214903917 * y)) mod 281474976710656).
  { rewrite <- (Z.mul_mod_idemp_r _ (25214903917 * x)) by lia.
    rewrite <- (Z.mul_mod_idemp_r _ (25214903917 * y)) by lia.
    rewrite H. reflexivity. }
  lia.
Qed.

(** X25. The generator: [get] multiplies the seed by 25214903917 modulo
    [2^48], whatever the 64 bits of the product; its values are below [2^48];
    it depends on the 48 low bits of the seed only; it keeps the two low bits
    of the seed, so that an even seed gives even values only and the seed 0
    gives 0 for ever; and it permutes the 48-bit seeds: two of them never give
    the same value. *)
Theorem get_permutes_48_bits (seed : Z) :
  Random.get seed = (25214903917 * seed) mod 2 ^ 48
  /\ 0 <= Random.get seed < 2 ^ 48
  /\ Random.get (seed mod 2 ^ 48) = Random.get seed
  /\ Random.get seed mod 4 = seed mod 4
  /\ (seed = 0 -> forall n, drawn seed n = 0)
  /\ (forall other,
         0 <= seed < 2 ^ 48 -> 0 <= other < 2 ^ 48 ->
         Random.get seed = Random.get other -> seed = other).
Proof.
  split; [apply get_mod |]. split; [apply get_range |].
  split; [rewrite !get_mod; apply Z.mul_mod_idemp_r; lia |].
  split.
  { rewrite get_mod. change (2 ^ 48) with 281474976710656. lia. }
  split.
  { intros ->. induction n as [| n IH]; [reflexivity |].
    change (drawn 0 (S n)) with (Random.get (drawn 0 n)). rewrite IH. reflexivity. }
  intros other. apply get_injective.
Qed.

Lemma cells_in_order :
  flat_map (fun i =>
              flat_map (fun j => map (fun k => (i, j, k)) (GameInfo.counter MAP_SIZE))
                       (GameInfo.counter MAP_SIZE))
           (GameInfo.counter 2)
  = map cell_of (seq 0 722).
Proof. vm_compute. reflexivity. Qed.

Lemma cell_of_injective (n m : nat) :
  (n < 722)%nat -> (m < 722)%nat -> cell_of n = cell_of m -> n = m.
Proof.
  unfold cell_of. change MAP_SIZE with 19. change (19 * 19) with 361.
  intros Hn Hm H. injection H as H1 H2 H3. lia.
Qed.

Lemma cell_of_index (i j k : Z) :
  on_field i j k ->
  cell_of (Z.to_nat (cell_index i j k)) = (i, j, k)
  /\ (Z.to_nat (cell_index i j k) < 722)%nat.
Proof.
  unfold on_field, cell_of, cell_index. change MAP_SIZE with 19. intros H.
  rewrite Z2Nat.id by lia. change (19 * 19) with 361. split; [| lia].
  f_equal; [f_equal |]; lia.
Qed.

(** The value of a cell for a value of the generator. *)
Lemma cell_value_range (d : Z) :
  0 <= d < 2 ^ 48 ->
  (8 <= inject_Z d * Qpower 2 (-46) + 8 /\ inject_Z d * Qpower 2 (-46) + 8 < 12)%Q.
Proof.
  change (2 ^ 48) with 281474976710656.
  change (Qpower 2 (-46)) with (1 # 70368744177664)%Q.
  intros H. unfold Qle, Qlt, Qplus, Qmult, inject_Z. cbn [Qnum Qden]. lia.
Qed.

Lemma init_cells_spec :
  forall len a ph sd,
    (a + len <= 722)%nat ->
    let st := fold_left GameInfo.init_cell (map cell_of (seq a len)) (ph, sd) in
    snd st = drawn sd len
    /\ (forall n i j k,
           (a <= n < a + len)%nat -> cell_of n = (i, j, k) ->
           fst st i j k = (inject_Z (drawn sd (S (n - a))) * Qpower 2 (-46) + 8)%Q)
    /\ (forall i j k,
           (forall n, (a <= n < a + len)%nat -> cell_of n <> (i, j, k)) ->
           fst st i j k = ph i j k).
Proof.
  induction len as [| len IH]; intros a ph sd Hb; cbn [seq map fold_left].
  - cbv zeta. cbn [fst snd]. split; [reflexivity |]. split; [intros; lia | reflexivity].
  - assert (Hb' : (S a + len <= 722)%nat) by lia.
    destruct (cell_of a) as [[ia ja] ka] eqn:Ea.
    change (GameInfo.init_cell (ph, sd) (ia, ja, ka))
      with (fun i' j' k' : Z =>
              if (i' =? ia) && (j' =? ja) && (k' =? ka)
              then (inject_Z (Random.get sd) * Qpower 2 (-46) + 8)%Q
              else ph i' j' k',
            Random.get sd).
    match goal with
    | |- context [fold_left _ _ (?f, ?s)] => specialize (IH (S a) f s Hb')
    end.
    cbv zeta in *. destruct IH as (Hsd & Hin & Hout).
    split; [| split].
    + rewrite Hsd. unfold drawn. rewrite <- Nat.iter_succ_r. reflexivity.
    + intros n i j k Hn Hc. destruct (Nat.eq_dec n a) as [-> | Hne].
      * rewrite Hout.
        -- rewrite Ea in Hc. injection Hc as <- <- <-. rewrite !Z.eqb_refl.
           cbn [andb]. replace (a - a)%nat with 0%nat by lia. reflexivity.
        -- intros m Hm Hcm. rewrite <- Hc in Hcm.
           apply cell_of_injective in Hcm; lia.
      * rewrite (Hin n i j k) by (try lia; exact Hc).
        unfold drawn. replace (S (n - a)) with (S (S (n - S a))) by lia.
        rewrite <- (Nat.iter_succ_r (S (n - S a))). reflexivity.
    + intros i j k Hno. rewrite Hout by (intros n Hn; apply Hno; lia).
      destruct (((i =? ia) && (j =? ja)) && (k =? ka)) eqn:E; [| reflexivity].
      exfalso. apply (Hno a); [lia |].
      apply andb_prop in E. destruct E as [E E3]. apply andb_prop in E.
      destruct E as [E1 E2]. apply Z.eqb_eq in E1, E2, E3. congruence.
Qed.

Lemma init_pheromone_spec (seed i j k : Z) :
  on_field i j k ->
  GameInfo.init_pheromone seed i j k
  = (inject_Z (drawn seed (S (Z.to_nat (cell_index i j k)))) * Qpower 2 (-46) + 8)%Q.
Proof.
  intros H. destruct (cell_of_index i j k H) as [Hc Hlt].
  unfold GameInfo.init_pheromone. rewrite cells_in_order.
  destruct (init_cells_spec 722 0 (fun _ _ _ => 0%Q) seed (Nat.le_refl _))
    as (_ & Hin & _).
  rewrite (Hin (Z.to_nat (cell_index i j k)) i j k (conj (Nat.le_0_l _) Hlt) Hc).
  rewrite Nat.sub_0_r. reflexivity.
Qed.

Lemma drawn_range (seed : Z) (n : nat) : 0 <= drawn seed (S n) < 2 ^ 48.
Proof. change (drawn seed (S n)) with (Random.get (drawn seed n)). apply get_range. Qed.

Lemma of_seed_sound (seed : Z) : sound (GameInfo.of_seed seed).
Proof.
  unfold sound. split; [| split; [| split]].
  - intros i j k H. unfold GameInfo.of_seed. cbn [GameInfo.pheromone GameInfo.new].
    rewrite (init_pheromone_spec seed i j k H).
    destruct (cell_value_range _ (drawn_range seed (Z.to_nat (cell_index i j k))))
      as [Hlo _].
    unfold PHEROMONE_MIN. eapply Qle_trans; [| exact Hlo]. discriminate.
  - intros q. unfold get2. cbn. destruct (q =? 0); reflexivity.
  - intros q [-> | ->]; reflexivity.
  - constructor.
Qed.

(** X26. The game that the constructor makes from a seed: the cell
    [pheromone[i][j][k]] of the field holds the value of the call of the
    generator that its place in the loops gives it, scaled into 8 to 12, 8
    included and 12 not; with the empty map, the two bases and no counter
    used, this is a sound state, from which the simulation of the example
    runs without an error. *)
Theorem seeded_game_is_sound (seed : Z) :
  (forall i j k,
      on_field i j k ->
      GameInfo.pheromone (GameInfo.of_seed seed) i j k
      = (inject_Z (drawn seed (S (Z.to_nat (cell_index i j k)))) * Qpower 2 (-46) + 8)%Q
      /\ (8 <= GameInfo.pheromone (GameInfo.of_seed seed) i j k)%Q
      /\ (GameInfo.pheromone (GameInfo.of_seed seed) i j k < 12)%Q)
  /\ sound (GameInfo.of_seed seed)
  /\ exists s', Example.simulate (GameInfo.of_seed seed) = Some s'
                /\ sound (Simulator.info s').
Proof.
  split; [| split].
  - intros i j k H. unfold GameInfo.of_seed. cbn [GameInfo.pheromone GameInfo.new].
    rewrite (init_pheromone_spec seed i j k H).
    split; [reflexivity |]. apply cell_value_range, drawn_range.
  - apply of_seed_sound.
  - unfold Example.simulate. apply simulate_rounds_sound;
      [apply of_seed_sound | reflexivity].
Qed.


(* ================================================================== *)
(** * Numbers on the streams *)
(* ================================================================== *)

Lemma decimal_snoc ds d : decimal (ds ++ [d]) = decimal ds * 10 + (d - 48).
Proof. unfold decimal. rewrite fold_left_app. reflexivity. Qed.

(** The two loops over the digits of a number that is not negative, with
    fuel for its binary digits: the digits written are as many as counted,
    they are the decimal digits of the number, with no leading zero. *)
Lemma digits_spec :
  forall fuel x acc len,
    (1 <= fuel)%nat -> 0 <= x < 2 ^ Z.of_nat fuel ->
    exists ds,
      put_digits fuel x acc = ds ++ acc
      /\ Forall (fun c => is_digit c = true) ds
      /\ ds <> []
      /\ decimal ds = x
      /\ object_length_loop fuel x len = len + Z.of_nat (length ds)
      /\ (x = 0 -> length ds = 1%nat)
      /\ (0 < x -> 10 ^ (Z.of_nat (length ds) - 1) <= x < 10 ^ Z.of_nat (length ds)).
Proof.
  induction fuel as [| fuel IH]; intros x acc len Hf Hx; [lia |].
  cbn [put_digits object_length_loop].
  destruct (Z.eqb_spec (Z.quot x 10) 0) as [E | E].
  - exists [48 + Z.rem x 10]. split; [reflexivity |].
    split; [constructor; [unfold is_digit; lia | constructor] |].
    split; [discriminate |]. split; [unfold decimal; cbn [fold_left]; lia |].
    split; [cbn [length]; lia |]. split; [reflexivity |].
    intros Hpos. cbn [length]. change (10 ^ (Z.of_nat 1 - 1)) with 1.
    change (10 ^ Z.of_nat 1) with 10. lia.
  - assert (Hpow : 2 ^ Z.of_nat (S fuel) = 2 * 2 ^ Z.of_nat fuel)
      by (rewrite Nat2Z.inj_succ, Z.pow_succ_r by lia; reflexivity).
    assert (Hq : 0 <= Z.quot x 10 < 2 ^ Z.of_nat fuel) by lia.
    assert (Hfuel : (1 <= fuel)%nat).
    { destruct fuel; [| lia]. change (2 ^ Z.of_nat 0) with 1 in Hq. lia. }
    destruct (IH (Z.quot x 10) ((48 + Z.rem x 10) :: acc) (len + 1) Hfuel Hq)
      as (ds & Hput & Hd & Hne & Hval & Hlen & _ & Hbound).
    exists (ds ++ [48 + Z.rem x 10]).
    split; [rewrite Hput, <- app_assoc; reflexivity |].
    split; [apply Forall_app; split; [exact Hd |];
            constructor; [unfold is_digit; lia | constructor] |].
    split; [intros Hnil; apply app_eq_nil in Hnil; destruct Hnil; discriminate |].
    split; [rewrite decimal_snoc, Hval; lia |].
    rewrite length_app. cbn [length].
    split; [rewrite Hlen; lia |]. split; [lia |].
    intros _. assert (Hqpos : 0 < Z.quot x 10) by lia. specialize (Hbound Hqpos).
    assert (Hn : (1 <= length ds)%nat) by (destruct ds; [congruence | cbn; lia]).
    assert (E1 : 10 ^ Z.of_nat (length ds) = 10 * 10 ^ (Z.of_nat (length ds) - 1)).
    { rewrite <- Z.pow_succ_r by lia. f_equal. lia. }
    assert (E2 : 10 ^ Z.of_nat (length ds + 1) = 10 * 10 ^ Z.of_nat (length ds)).
    { rewrite <- Z.pow_succ_r by lia. f_equal. lia. }
    replace (Z.of_nat (length ds + 1) - 1) with (Z.of_nat (length ds)) by lia.
    rewrite E2. lia.
Qed.

Lemma digit_fuel_enough (x : Z) :
  (1 <= digit_fuel x)%nat /\ 0 <= Z.abs x < 2 ^ Z.of_nat (digit_fuel x).
Proof.
  unfold digit_fuel. split; [lia |]. split; [lia |].
  rewrite Nat2Z.inj_succ, Z2Nat.id by apply Z.log2_nonneg.
  destruct (Z.eq_dec (Z.abs x) 0) as [-> | Hne]; [reflexivity |].
  apply Z.log2_spec. lia.
Qed.

Lemma object_length_loop_opp :
  forall fuel x len, object_length_loop fuel (- x) len = object_length_loop fuel x len.
Proof.
  induction fuel as [| fuel IH]; intros x len; cbn [object_length_loop]; [reflexivity |].
  rewrite Z.quot_opp_l by lia.
  destruct (Z.eqb_spec (Z.quot x 10) 0) as [E | E].
  - rewrite E. reflexivity.
  - destruct (Z.eqb_spec (- Z.quot x 10) 0); [lia | apply IH].
Qed.

Lemma object_length_int_abs (x : Z) : object_length_int (Z.abs x) = object_length_int x.
Proof.
  unfold object_length_int, digit_fuel. rewrite Z.abs_idemp.
  destruct (Z.abs_spec x) as [[_ ->] | [_ ->]]; [reflexivity |].
  apply object_length_loop_opp.
Qed.

(** What [out << x] writes for a number that is not negative. *)
Lemma put_int_nonneg (x : Z) :
  0 <= x ->
  exists ds,
    put_int x = ds
    /\ Forall (fun c => is_digit c = true) ds /\ ds <> []
    /\ decimal ds = x
    /\ object_length_int x = Z.of_nat (length ds)
    /\ (x = 0 -> length ds = 1%nat)
    /\ (0 < x -> 10 ^ (Z.of_nat (length ds) - 1) <= x < 10 ^ Z.of_nat (length ds)).
Proof.
  intros Hx. unfold put_int, object_length_int.
  destruct (Z.ltb_spec x 0) as [Hneg | _]; [lia |].
  destruct (digit_fuel_enough x) as [Hf Hb]. rewrite Z.abs_eq in Hb by exact Hx.
  destruct (digits_spec (digit_fuel x) x [] 0 Hf Hb)
    as (ds & Hput & Hd & Hne & Hval & Hlen & H0 & Hbound).
  rewrite app_nil_r in Hput. exists ds. rewrite Hput, Hlen. repeat split; auto; lia.
Qed.

(** X27. [object_length(int)] counts the decimal digits of the number and
    not its sign: it returns 1 for 0, the [n] with [10^(n-1) <= |x| < 10^n]
    otherwise, which is the number of characters that [out << x] writes for
    a number that is not negative, and one less for a negative number. *)
Theorem object_length_counts_digits (x : Z) :
  let n := object_length_int x in
  1 <= n
  /\ (x = 0 -> n = 1)
  /\ (x <> 0 -> 10 ^ (n - 1) <= Z.abs x < 10 ^ n)
  /\ object_length_int (- x) = n
  /\ Z.of_nat (length (put_int x)) = if x <? 0 then n + 1 else n.
Proof.
  cbv zeta. rewrite <- (object_length_int_abs x).
  destruct (put_int_nonneg (Z.abs x) (Z.abs_nonneg x))
    as (ds & Hput & Hd & Hne & Hval & Hlen & H0 & Hbound).
  assert (Hn : (1 <= length ds)%nat) by (destruct ds; [congruence | cbn; lia]).
  rewrite Hlen.
  split; [lia |]. split; [intros ->; rewrite (H0 eq_refl); reflexivity |].
  split; [intros Hx; apply Hbound; lia |].
  split.
  { rewrite <- (object_length_int_abs (- x)), Z.abs_opp. exact Hlen. }
  unfold put_int. destruct (Z.ltb_spec x 0) as [Hneg | Hpos].
  - cbn [length]. rewrite Z.abs_neq in Hput by lia. unfold put_int in Hput.
    destruct (Z.ltb_spec (- x) 0); [lia |]. rewrite Hput. lia.
  - rewrite Z.abs_eq in Hput by lia. unfold put_int in Hput.
    destruct (Z.ltb_spec x 0); [lia |]. rewrite Hput. reflexivity.
Qed.


(* ================================================================== *)
(** * The header *)
(* ================================================================== *)

Lemma update_nth_last {A : Type} (f : A -> A) (a : A) :
  forall l r, update_nth (length l) f (l ++ a :: r) = l ++ f a :: r.
Proof.
  induction l as [| b l IH]; intros r; cbn [length app update_nth]; [reflexivity |].
  rewrite IH. reflexivity.
Qed.

Lemma firstn_snoc {A : Type} (d : A) :
  forall (l : list A) (n : nat),
    (n < length l)%nat -> firstn (S n) l = firstn n l ++ [nth n l d].
Proof.
  induction l as [| a l IH]; intros n Hn; cbn [length] in Hn; [lia |].
  destruct n as [| n]; [reflexivity |].
  cbn [firstn nth app]. rewrite <- IH by lia. reflexivity.
Qed.

(** The loop of [convert_to_big_endian] after [m] rounds: the head of the
    buffer as it was, then the first [m] bytes of the object in reverse. *)
Lemma convert_rounds (src dest : list Z) :
  length dest = length src ->
  forall m,
    (m <= length src)%nat ->
    fold_left (fun d i => update_nth (length src - i - 1) (fun _ => nth i src 0) d)
              (seq 0 m) dest
    = firstn (length src - m) dest ++ rev (firstn m src).
Proof.
  intros Hlen. induction m as [| m IH]; intros Hm.
  - cbn [seq fold_left firstn rev]. rewrite Nat.sub_0_r, app_nil_r, <- Hlen.
    symmetry. apply firstn_all.
  - rewrite seq_S, fold_left_app, IH by lia. cbn [fold_left Nat.add].
    rewrite (firstn_snoc 0 src m) by lia. rewrite rev_app_distr. cbn [rev app].
    replace (length src - m - 1)%nat with (length src - S m)%nat by lia.
    replace (length src - m)%nat with (S (length src - S m)) by lia.
    rewrite (firstn_snoc 0 dest (length src - S m)) by lia.
    rewrite <- app_assoc. cbn [app].
    replace (length src - S m)%nat
      with (length (firstn (length src - S m) dest)) at 1
      by (rewrite length_firstn; lia).
    apply (update_nth_last (fun _ : Z => nth m src 0)).
Qed.

Lemma convert_to_big_endian_rev (src dest : list Z) :
  length dest = length src ->
  convert_to_big_endian src (length src) dest = rev src.
Proof.
  intros Hlen. unfold convert_to_big_endian.
  rewrite (convert_rounds src dest Hlen (length src)) by lia.
  rewrite Nat.sub_diag, firstn_all. reflexivity.
Qed.

Lemma big_endian_int_bytes (x : Z) : big_endian (rev (int_bytes x)) = x mod 2 ^ 32.
Proof.
  unfold int_bytes, big_endian. cbn [map rev app fold_left].
  generalize (Z.mod_pos_bound x (2 ^ 32) eq_refl). generalize (x mod 2 ^ 32). intros m Hm.
  change 255 with (Z.ones 8). rewrite !Z.land_ones, !Z.shiftr_div_pow2 by lia.
  change (2 ^ 32) with 4294967296 in Hm.
  change (2 ^ (8 * 0)) with 1. change (2 ^ (8 * 1)) with 256.
  change (2 ^ (8 * 2)) with 65536. change (2 ^ (8 * 3)) with 16777216.
  change (2 ^ 8) with 256. lia.
Qed.

Lemma print_header_rev (size : Z) : print_header size = rev (int_bytes size).
Proof. exact (convert_to_big_endian_rev (int_bytes size) [0; 0; 0; 0] eq_refl). Qed.

(** X28. [convert_to_big_endian] writes the bytes of the object into the
    buffer in reverse order, whatever the buffer held, so that converting
    twice gives the object back; and the header that [print_header] makes of
    an [int], on a little-endian machine, is the four bytes of the number,
    highest first: read as a big-endian number it is the number again, modulo
    [2^32] for a negative one. *)
Theorem header_is_big_endian (src dest : list Z) (size : Z) :
  length dest = length src ->
  convert_to_big_endian src (length src) dest = rev src
  /\ convert_to_big_endian (convert_to_big_endian src (length src) dest)
                           (length src) dest = src
  /\ length (print_header size) = 4%nat
  /\ Forall (fun b => 0 <= b < 256) (print_header size)
  /\ big_endian (print_header size) = size mod 2 ^ 32.
Proof.
  intros Hlen. split; [| split; [| split; [| split]]].
  - apply convert_to_big_endian_rev, Hlen.
  - rewrite (convert_to_big_endian_rev src dest Hlen).
    rewrite <- (length_rev src) at 1.
    rewrite convert_to_big_endian_rev by (rewrite length_rev; exact Hlen).
    apply rev_involutive.
  - rewrite print_header_rev. reflexivity.
  - rewrite print_header_rev.
    apply Forall_rev. unfold int_bytes. cbn [map].
    change 255 with (Z.ones 8).
    repeat (constructor; [rewrite Z.land_ones by lia; apply Z.mod_pos_bound; lia |]).
    constructor.
  - rewrite print_header_rev. apply big_endian_int_bytes.
Qed.

Lemma header_is_big_endian_witness :
  convert_to_big_endian [44; 1; 0; 0] 4 [0; 0; 0; 0] = [0; 0; 1; 44]
  /\ convert_to_big_endian (convert_to_big_endian [44; 1; 0; 0] 4 [0; 0; 0; 0])
                           4 [0; 0; 0; 0] = [44; 1; 0; 0]
  /\ length (print_header 300) = 4%nat
  /\ Forall (fun b => 0 <= b < 256) (print_header 300)
  /\ big_endian (print_header 300) = 300 mod 2 ^ 32.
Proof. apply (header_is_big_endian [44; 1; 0; 0] [0; 0; 0; 0] 300). reflexivity. Defined.


(* ================================================================== *)
(** * What is sent and what is read *)
(* ================================================================== *)

Lemma put_int_length (x : Z) :
  Z.of_nat (length (put_int x)) = object_length_int x + (if x <? 0 then 1 else 0).
Proof.
  rewrite <- (object_length_int_abs x).
  destruct (put_int_nonneg (Z.abs x) (Z.abs_nonneg x)) as (ds & Hput & _ & _ & _ & Hlen & _).
  rewrite Hlen. unfold put_int in *. destruct (Z.ltb_spec x 0) as [Hneg | Hpos].
  - rewrite Z.abs_neq in Hput by lia. destruct (Z.ltb_spec (- x) 0); [lia |].
    cbn [length]. rewrite Hput. lia.
  - rewrite Z.abs_eq in Hput by lia. destruct (Z.ltb_spec x 0); [lia |].
    rewrite Hput. lia.
Qed.

Lemma put_operation_length (op : Operation.t) :
  Z.of_nat (length (put_operation op)) = object_length_operation op + signed_args op.
Proof.
  unfold put_operation, object_length_operation, signed_args, Operation.INVALID_ARG.
  rewrite !length_app, !Nat2Z.inj_add, put_int_length. cbn [length].
  assert (Hty : (OperationType_to_Z (Operation.type op) <? 0) = false)
    by (destruct (Operation.type op); reflexivity).
  rewrite Hty.
  destruct (Z.eqb_spec (Operation.arg0 op) (-1)) as [E0 | E0];
    destruct (Z.eqb_spec (Operation.arg1 op) (-1)) as [E1 | E1];
    cbn [negb length];
    rewrite ?Nat2Z.inj_succ, ?put_int_length;
    destruct (Z.ltb_spec (Operation.arg0 op) 0);
    destruct (Z.ltb_spec (Operation.arg1 op) 0);
    destruct (Z.ltb_spec (Operation.arg0 op) (-1));
    destruct (Z.ltb_spec (Operation.arg1 op) (-1)); lia.
Qed.

Lemma operations_length :
  forall ops len,
    Z.of_nat (length (flat_map put_operation ops)) + len
    = fold_left (fun len op => len + object_length_operation op) ops len
      + fold_right Z.add 0 (map signed_args ops).
Proof.
  induction ops as [| op rest IH]; intros len; cbn [flat_map fold_left map fold_right length].
  - lia.
  - pose proof (IH (len + object_length_operation op)) as H.
    rewrite length_app, Nat2Z.inj_add, put_operation_length. lia.
Qed.

Lemma send_operations_frame (ops : list Operation.t) :
  exists h, send_operations ops = h ++ payload ops /\ length h = 4%nat.
Proof.
  eexists. split; [reflexivity |]. rewrite print_header_rev. reflexivity.
Qed.

(** X29. The header of [send_operations] against what it sends: the content
    is the number of operations on a line and then the operations; its length
    is the length that the header announces plus one character for every
    argument below -1, whose minus sign [object_length] does not count.  With
    no such argument, and a length that an [int] holds, the header is the
    big-endian length of the content. *)
Theorem send_operations_header (ops : list Operation.t) :
  let announced :=
    object_length_int (Z.of_nat (length ops)) + 1 + object_length_operations ops in
  send_operations ops = print_header (to_int announced) ++ payload ops
  /\ Z.of_nat (length (payload ops))
     = announced + fold_right Z.add 0 (map signed_args ops)
  /\ (Forall (fun op => Operation.INVALID_ARG <= Operation.arg0 op
                        /\ Operation.INVALID_ARG <= Operation.arg1 op) ops ->
      announced < 2 ^ 31 ->
      big_endian (firstn 4 (send_operations ops))
      = Z.of_nat (length (skipn 4 (send_operations ops)))).
Proof.
  cbv zeta.
  assert (Hsend : send_operations ops
                  = print_header
                      (to_int (object_length_int (Z.of_nat (length ops)) + 1
                               + object_length_operations ops))
                    ++ payload ops) by reflexivity.
  assert (Hlen : Z.of_nat (length (payload ops))
                 = object_length_int (Z.of_nat (length ops)) + 1
                   + object_length_operations ops
                   + fold_right Z.add 0 (map signed_args ops)).
  { unfold payload, object_length_operations.
    rewrite !length_app, !Nat2Z.inj_add, put_int_length. cbn [length].
    pose proof (operations_length ops 0) as H.
    destruct (Z.ltb_spec (Z.of_nat (length ops)) 0); lia. }
  split; [exact Hsend |]. split; [exact Hlen |].
  intros Hargs Hint. rewrite Hsend.
  assert (H4 : length (print_header
                         (to_int (object_length_int (Z.of_nat (length ops)) + 1
                                  + object_length_operations ops))) = 4%nat)
    by (rewrite print_header_rev; reflexivity).
  remember (print_header
              (to_int (object_length_int (Z.of_nat (length ops)) + 1
                       + object_length_operations ops))) as h eqn:Hh.
  rewrite firstn_app, skipn_app, H4, Nat.sub_diag, firstn_O, skipn_O, app_nil_r.
  rewrite firstn_all2 by lia. rewrite skipn_all2 by lia. cbn [app].
  rewrite Hh, print_header_rev, big_endian_int_bytes, Hlen.
  assert (Hsigned : fold_right Z.add 0 (map signed_args ops) = 0).
  { clear -Hargs. induction Hargs as [| op rest [H0 H1] _ IH]; [reflexivity |].
    cbn [map fold_right]. rewrite IH. unfold signed_args.
    destruct (Z.ltb_spec (Operation.arg0 op) Operation.INVALID_ARG); [lia |].
    destruct (Z.ltb_spec (Operation.arg1 op) Operation.INVALID_ARG); lia. }
  rewrite Hsigned.
  assert (Hpos : 0 <= object_length_int (Z.of_nat (length ops)) + 1
                      + object_length_operations ops).
  { pose proof (Nat2Z.is_nonneg (length (payload ops))). lia. }
  unfold to_int. change (2 ^ 31) with 2147483648 in *.
  change (2 ^ 32) with 4294967296. lia.
Qed.

Lemma send_operations_header_witness :
  big_endian (firstn 4 (send_operations three_operations))
  = Z.of_nat (length (skipn 4 (send_operations three_operations))).
Proof.
  destruct (send_operations_header three_operations) as (_ & _ & H).
  apply H.
  - unfold three_operations, Operation.INVALID_ARG.
    repeat (constructor; [cbn; lia |]). constructor.
  - vm_compute. reflexivity.
Defined.


(** ** Reading back *)

Lemma get_digits_app :
  forall ds rest acc,
    Forall (fun c => is_digit c = true) ds -> stops rest ->
    get_digits (ds ++ rest) acc = (fold_left (fun v c => v * 10 + (c - 48)) ds acc, rest).
Proof.
  induction ds as [| d ds IH]; intros rest acc Hd Hs; cbn [app get_digits fold_left].
  - destruct rest as [| c rest]; [reflexivity |]. cbn [get_digits].
    unfold stops in Hs. rewrite Hs. reflexivity.
  - inversion Hd as [| ? ? Hc Hrest]; subst. rewrite Hc. apply IH; assumption.
Qed.

Lemma skip_spaces_digit c rest :
  is_space c = false -> skip_spaces (c :: rest) = c :: rest.
Proof. intros H. cbn [skip_spaces]. rewrite H. reflexivity. Qed.

Lemma digit_not_space c : is_digit c = true -> is_space c = false.
Proof. unfold is_digit, is_space. lia. Qed.

(** [in >> x] reads what [out << x] has written, behind any white space,
    when the number is followed by the end of the stream or by a character
    that is no digit. *)
Lemma get_int_put_int (x : Z) (spaces rest : list Z) :
  Forall (fun c => is_space c = true) spaces -> stops rest ->
  get_int (spaces ++ put_int x ++ rest) = Some (x, rest).
Proof.
  intros Hsp Hs.
  assert (Hskip : forall s, skip_spaces (spaces ++ s) = skip_spaces s).
  { intros s. induction Hsp as [| c l Hc _ IH]; [reflexivity |].
    cbn [app skip_spaces]. rewrite Hc. exact IH. }
  unfold get_int. rewrite Hskip.
  destruct (put_int_nonneg (Z.abs x) (Z.abs_nonneg x))
    as (ds & Hput & Hd & Hne & Hval & _).
  destruct ds as [| d ds]; [congruence |].
  inversion Hd as [| ? ? Hdig Hds]; subst.
  assert (Hd45 : (d =? 45) = false) by (unfold is_digit in Hdig; lia).
  assert (Hd43 : (d =? 43) = false) by (unfold is_digit in Hdig; lia).
  unfold put_int in *. destruct (Z.ltb_spec x 0) as [Hneg | Hpos].
  - rewrite Z.abs_neq in Hput, Hval by lia.
    destruct (Z.ltb_spec (- x) 0); [lia |]. rewrite Hput.
    cbn [app]. rewrite skip_spaces_digit by reflexivity.
    cbn [Z.eqb Pos.eqb orb]. rewrite Hdig.
    change (d :: ds ++ rest) with ((d :: ds) ++ rest).
    rewrite (get_digits_app (d :: ds) rest 0 Hd Hs).
    fold (decimal (d :: ds)). rewrite Hval. do 2 f_equal. lia.
  - rewrite Z.abs_eq in Hput, Hval by lia.
    destruct (Z.ltb_spec x 0); [lia |]. rewrite Hput.
    cbn [app]. rewrite skip_spaces_digit by (apply digit_not_space, Hdig).
    rewrite Hd45, Hd43. cbn [orb]. rewrite Hdig.
    change (d :: ds ++ rest) with ((d :: ds) ++ rest).
    rewrite (get_digits_app (d :: ds) rest 0 Hd Hs).
    fold (decimal (d :: ds)). rewrite Hval. reflexivity.
Qed.

Lemma OperationType_round_trip ty : OperationType_of_Z (OperationType_to_Z ty) = Some ty.
Proof. destruct ty; reflexivity. Qed.

Lemma read_operations_put :
  forall ops rest,
    Forall well_formed ops ->
    read_operations (length ops) (10 :: flat_map put_operation ops ++ rest)
    = Some (ops, 10 :: rest).
Proof.
  induction ops as [| op ops IH]; intros rest Hw; [reflexivity |].
  inversion Hw as [| ? ? Hop Hops]; subst.
  cbn [length flat_map read_operations].
  specialize (IH rest Hops).
  destruct op as [ty a0 a1]. unfold well_formed, Operation.INVALID_ARG in Hop.
  cbn [Operation.type Operation.arg0 Operation.arg1] in Hop.
  unfold put_operation at 1. unfold Operation.INVALID_ARG.
  cbn [Operation.type Operation.arg0 Operation.arg1].
  rewrite <- !app_assoc.
  assert (Hnl : Forall (fun c => is_space c = true) [10]) by (repeat constructor).
  assert (Hsp : Forall (fun c => is_space c = true) [32]) by (repeat constructor).
  assert (Hread : forall x s,
             stops s -> get_int (10 :: put_int x ++ s) = Some (x, s))
    by (intros x s Hs; apply (get_int_put_int x [10] s Hnl Hs)).
  assert (Harg : forall x s,
             stops s -> get_int (32 :: put_int x ++ s) = Some (x, s))
    by (intros x s Hs; apply (get_int_put_int x [32] s Hsp Hs)).
  destruct (Z.eqb_spec a0 (-1)) as [E0 | E0];
    destruct (Z.eqb_spec a1 (-1)) as [E1 | E1]; cbn [negb app];
    destruct ty; try (destruct Hop; congruence);
    rewrite Hread by reflexivity; cbn [bind fst snd];
    rewrite OperationType_round_trip; cbn [bind OperationType_to_Z Z.eqb Pos.eqb orb];
    try (rewrite Harg by reflexivity; cbn [bind fst snd]);
    try (rewrite Harg by reflexivity; cbn [bind fst snd]);
    rewrite IH; cbn [bind fst snd]; destruct Hop; subst; reflexivity.
Qed.

(** X30. [read_opponent_operations] reads back what is sent after the header:
    from the content that [send_operations] writes for operations that carry
    the arguments of their type, none for an upgrade of the base, one for a
    downgrade and two for the others, it returns these very operations, and
    leaves the stream behind the last line but for its line break. *)
Theorem operations_round_trip (ops : list Operation.t) (rest : list Z) :
  Forall well_formed ops ->
  read_opponent_operations (payload ops ++ rest) = Some (ops, 10 :: rest)
  /\ read_opponent_operations (skipn 4 (send_operations ops) ++ rest)
     = Some (ops, 10 :: rest).
Proof.
  intros Hw.
  assert (H : read_opponent_operations (payload ops ++ rest) = Some (ops, 10 :: rest)).
  { unfold read_opponent_operations, payload. rewrite <- !app_assoc. cbn [app].
    pose proof (get_int_put_int (Z.of_nat (length ops)) []
                  (10 :: flat_map put_operation ops ++ rest) (Forall_nil _) eq_refl)
      as Hcount.
    cbn [app] in Hcount. rewrite Hcount.
    cbn [bind fst snd]. destruct (Z.ltb_spec (Z.of_nat (length ops)) 0); [lia |].
    rewrite Nat2Z.id. apply read_operations_put, Hw. }
  split; [exact H |].
  destruct (send_operations_frame ops) as (h & Hsend & Hh).
  rewrite Hsend, skipn_app, Hh, Nat.sub_diag, skipn_O.
  rewrite skipn_all2 by lia. exact H.
Qed.

Lemma operations_round_trip_witness :
  read_opponent_operations (payload three_operations ++ []) = Some (three_operations, [10])
  /\ read_opponent_operations (skipn 4 (send_operations three_operations) ++ [])
     = Some (three_operations, [10]).
Proof.
  apply (operations_round_trip three_operations []).
  unfold three_operations, well_formed, Operation.INVALID_ARG.
  repeat (constructor; [cbn; split; congruence |]). constructor.
Defined.

